(* ===== verification/_CoqProject ===== *)
-Q . S2P
Prelude.v
GoStrings.v
GoTime.v
GoFormat.v
GoEncoding.v
GoJson.v
Errors.v
Entity.v
Ports.v
Contract.v
ContractFacts.v
WpRules.v
Memory.v
MemoryFacts.v
Histories.v
MemoryHeap.v
MemoryCopies.v
MemoryAlias.v
StoreTheorems.v
Sql.v
Postgres.v
PostgresFacts.v
PostgresRefinement.v
PostgresTheorems.v
ReadCommitted.v
Isolation.v
SessionEnd.v
Schedules.v
Validation.v
Token.v
Interfaces.v
Local.v
Service.v
Refresh.v
AccessTokens.v
Accounts.v
OAuth.v
OAuth2.v
GitHub.v
Google.v
Wallet.v
Evm.v
SignIn.v
EvmFacts.v
EvmTest.v
ProviderFacts.v
GoNetip.v
NetipFacts.v
ClientIP.v
GoHttp.v
Handler.v
Rpc.v
HandlerFacts.v
Config.v
ConfigFacts.v
ConfigFile.v
Main.v
Serve.v
MainFacts.v
Effort.v
Routes.v
Server.v
Concurrency.v
Testing.v
Storetest.v
StoretestFacts.v
StoretestPasses.v
StoretestLimit.v
StoretestTheorems.v
TestDB.v
Examples.v
