(* ===== verification/Prelude.v ===== *)
(** * psina: a verification development

    psina is an authentication service: users sign up and in with a password,
    through an OAuth provider or with a wallet; a session is a short-lived
    access token (a JWT) and a refresh token that is rotated at each use; a user
    may also hold personal access tokens.  This library models the service's
    Go code and proves what makes it correct.

    ** The parts and how they meet

    The program is written against the interfaces of auth/ports.go: a store
    (of users, credentials, linked identities, refresh tokens, access tokens
    and challenges), a token issuer, and sign-in providers.  The model keeps
    this shape.

    - A request is a [prog] (Ports.v): a tree of effects (store calls, clock
      readings, random bytes, UUIDs, log records, HTTP calls) ended by a Go
      result.  [run] executes it against a store and an [oracle] that supplies
      the clock, the random sources and the outside world, so every definition
      evaluates.
    - Contract.v states what auth/ports.go documents of each store method, as
      a relation [port_spec] on an abstract database [db]; [StoreContract] is
      the interface an implementation discharges, outages included, and [wp]
      the weakest precondition of a program for every such store: a request's
      proof assumes nothing of the store beyond its documentation, and lets
      other requests' calls be absent or present as the theorem says.
    - Two stores implement the interface: Memory.v (MemoryFacts.v) without
      outages, and Postgres.v (PostgresFacts.v, PostgresRefinement.v,
      PostgresTheorems.v), whose methods are programs of SQL statements
      (Sql.v) on tables with the keys and references of the migration, with
      outages.  Every theorem about a request holds for both.
    - Interfaces.v and Token.v discharge what the service expects of an issuer
      ([IssuerSpec]); providers are behind records of operations ([Provider],
      [OAuthProvider], [WalletProvider]), which Local.v, GitHub.v, Google.v and
      Evm.v implement.
    - Main.v puts the parts together as the program does, from a configuration
      (Config.v) that passed validation, down to the multiplexer that takes an
      HTTP request to an endpoint (GoHttp.v, Rpc.v); Serve.v is the life of the
      server.
    - Concurrency.v interleaves the effects of several requests, a store call
      being one step; ReadCommitted.v goes below that: the calls of the
      PostgreSQL store interleave their statements, each with its snapshot and
      its locks, and may lose any statement or answer.
    - Storetest.v runs the contract tests the repository has for its stores on
      the same programs, with goroutines (Testing.v).

    ** Files and sources

    - GoStrings.v, GoTime.v, GoFormat.v, GoEncoding.v, GoJson.v, GoNetip.v
      (NetipFacts.v): the parts of Go's standard library the program uses:
      strings as bytes with UTF-8, instants and durations with saturation and
      their RFC 3339 and duration texts, integers as text, base64, hex and
      SHA-256, decoding of JSON, net/netip.
    - Errors.v: store/errors.go and the errors of auth/audit.go, auth/service.go,
      auth/oauth.go and auth/wallet.go, with fmt.Errorf wrapping, errors.Is and
      errors.As.
    - Entity.v: package entity.
    - Ports.v, Contract.v, ContractFacts.v, WpRules.v: auth/ports.go, its
      documented behaviour, well-formedness of the database and its
      preservation, one proof rule per store call.
    - Memory.v: store/memory/memory.go, a function per method; the state is the
      struct's maps.  MemoryFacts.v: its refinement of the ports.
      MemoryHeap.v: the methods that take or return pointers, on a heap with the
      copies the code makes; MemoryAlias.v: what the store and the program around
      it share.
    - Sql.v: the tables and the statements the store sends, with what
      PostgreSQL does on them; Postgres.v: store/postgres/postgres.go, a
      program of statements per method; PostgresFacts.v,
      PostgresRefinement.v, PostgresTheorems.v: its refinement of the ports.
    - ReadCommitted.v: sessions that run the programs of Postgres.v at once,
      [mstep] by step, and the rule ([rule], [reachable_governed]) by which a
      property of what is committed is proved from the statements each call
      sends and the rows it has locked.  Isolation.v: the limit on access tokens
      and the rotation of a token; SessionEnd.v: the revocation of a session
      against its refreshes; Schedules.v: a scheduler that evaluates, the calls
      of Sql.v as runs of the machine, and the three at work.
    - Histories.v, StoreTheorems.v: guarantees that span many store calls.
    - Validation.v: auth/validation.go.  Token.v: token/issuer.go.
      Local.v: provider/local/local.go.  Interfaces.v: the provider and issuer
      interfaces, provider/oauth/oauth.go and provider/wallet/provider.go.
    - Service.v, OAuth.v, Wallet.v: auth/service.go, auth/oauth.go,
      auth/wallet.go, a program per method of [Service].
    - Refresh.v, AccessTokens.v, Accounts.v, SignIn.v: their theorems.
    - OAuth2.v: golang.org/x/oauth2 as the providers use it; GitHub.v,
      Google.v: provider/oauth/github and provider/oauth/google; Evm.v:
      provider/wallet/evm/evm.go; EvmFacts.v, ProviderFacts.v: their theorems.
      EvmTest.v: provider/wallet/evm/evmtest/signer.go.
    - ClientIP.v: auth/clientip.go.  Handler.v: auth/handler.go and
      auth/audit.go; HandlerFacts.v: their theorems.
    - Config.v: cmd/psina/config.go; ConfigFacts.v, ConfigFile.v: its
      theorems.  Main.v, Serve.v: cmd/psina/main.go, [run] up to the server
      with the HTTP endpoints beside the RPC handler, and [serve]; MainFacts.v:
      their theorems.
    - GoHttp.v: [http.ServeMux] and what else of net/http the server uses.
      Rpc.v: api/auth/v1/authv1connect/auth.connect.go, the generated client and
      server, and the equality of programs that no run tells apart.  Routes.v: the
      multiplexer as a flat table.  Server.v: the program as its clients see it.
    - Effort.v: how many effects a request costs at most.
    - Concurrency.v: requests at once.
    - Testing.v: tests, subtests, assertions and goroutines as programs, and what
      it is for a test to pass; Storetest.v: store/storetest, a test per
      function; StoretestFacts.v, StoretestPasses.v, StoretestLimit.v,
      StoretestTheorems.v: every backend that does what the ports document
      ([HealthyStore]) passes.  TestDB.v: testutil/testdb.go, the container of the
      integration tests and the truncation between them.
    - Examples.v: a deployment, executable, on which the theorems are applied.

    ** What the theorems show

    - The store: the in-memory store refines the documented ports for every
      order in which Go may range over a map ([memory_implements_ports]); it
      stays well-formed; a token is rotated at most once, an ended session
      never lives again, the cap on access tokens holds, a deleted user leaves
      nothing behind.  What the program does with the pointers it shares with
      the store reaches no stored user and no stored struct, and on a heap each
      method is the one on values ([memory_values_exact]); the scopes of an access
      token are shared ([GetPAT_shares_scopes]).  The PostgreSQL store refines the same ports, an outage
      leaving a documented state ([postgres_implements_ports]), and answers as
      documented while the connection is up ([postgres_healthy]).  However its
      calls overlap under READ COMMITTED, the cap holds ([pat_cap_concurrent]), a
      rotation has one winner ([rotation_one_winner]), and a session that has
      ended, or was answered to be revoked, has no live token
      ([ended_session_concurrent], [revocation_concurrent]).  Both stores, and any
      that honours the ports, pass the repository's contract tests
      ([contract_tests_pass]).
    - Sessions: [Refresh_refines_spec] says that a refresh does, case by case,
      what [refresh_spec] promises, for every store that honours the ports and
      every environment; reuse of a spent token ends its family; the leeway for
      duplicates is exactly the documented window; a live token of a live
      session is always exchanged when nothing is down; logout ends a session.
      With the leeway off at most one of any number of concurrent refreshes of
      a token succeeds.
    - Accounts: registration and login accept exactly what they should, and a
      registered account can be signed in to.
    - OAuth and wallets: the state or challenge is spent by the request that
      passes every check and by no other, at most once even under
      concurrency; no account is taken over through an unverified email.
    - Access tokens: lifetime of JWTs; creation, verification and revocation of
      personal access tokens.
    - Providers: a wallet sign-in needs a signature by the key of the address
      over the message of a live challenge of that chain, which binds domain,
      nonce and times; an OAuth sign-in the account the provider answered for in
      this flow, with Google the one of the ID token that came with the very token
      the code was exchanged for.
    - The program: a valid configuration starts and runs as written, setting by
      setting ([wired]); files, lists, chains and trusted proxies are read as
      documented; the gateway endpoint takes the bearer token or, where cookies
      are enabled, the cookie, and lets through exactly what verifies; every HTTP request ends within a
      number of effects that does not depend on it ([requests_end] by endpoint,
      [http_requests_end]); shutting down loses no request.
    - HTTP: for every method and path the server answers with the endpoint a flat
      table names, refuses or redirects ([routes_exact], with what it does for
      CONNECT and for the path "*"); each call of the generated client
      is the call of the handler's method of that name ([client_reaches_handler]).
    - The edge: which errors a client can see, what the audit log records, the
      cookies set and evicted, the client address in every case ([clientIP_exact]).

    ** Parameters of the model

    go-jose ([Jose], with [JoseLaws]: what is signed with a key verifies with
    it, and a token that verifies carries the claims that were signed; [IdTokens]
    for Google's), Argon2id ([Argon2]), google/uuid's parser ([UUIDLib]), case
    mapping above ASCII ([UnicodeTables], [UpperTables], [UnicodeLaws]),
    Keccak-256, key recovery and signing ([Keccak], [Secp256k1], [Signing]), golang.org/x/oauth2
    ([OAuth2]) and the URLs of the providers ([RequestURL], [Endpoints]); of the
    PostgreSQL server and pgx, the conversions of inputs ([PgTypes], [Driver]),
    the row order ([ScanOrder]), the clock ([ServerClock]) and the pool
    ([Pgxpool]); koanf, YAML and flags ([Koanf]), files and key parsers
    ([KeyFiles]); connectrpc.com/connect with the protobuf runtime and the
    generated messages ([Connect], [ConnectLaws], [Messages]); testcontainers,
    os/exec and the host of the tests ([Harness], [HarnessLaws]).
    Examples.v and the Example modules instantiate each with a concrete
    function, so no theorem rests on hypotheses that cannot hold.
    [Backend] says whether the store may fail and what its own clock shows at a
    call, [Faults] whether the random sources and the other collaborators may
    fail, and [Reads] which moments the clock showed: a theorem about failures
    quantifies over them.

    ** Bounds

    Durations are 64-bit and saturate or wrap where Go's do; SHA-256 is on
    32-bit words; [Atoi] fails outside 64 bits.  The functions with fuel take
    the length of their input, each round consuming at least a byte: splitting
    and parsing in GoStrings.v and GoNetip.v, unquoting and scanning in GoJson.v
    (two rounds a byte, and nesting of at most 10000 as encoding/json has it),
    the dots of a key in Config.v; [scan_enough], [key_section_enough] and their
    like say that more fuel changes nothing or that the answer is the one meant.
    Programs are finite trees and need none.  A contract
    test begun 150 ticks before the horizon of a [fair_world], up to which random
    values do not repeat, ends before it.

    ** Not modelled

    On the heap, data races (a caller that writes while a call runs) and slices
    that share part of an array; entities beyond the in-memory store are values.  A
    store call of the in-memory store that is interrupted half way (it holds the
    mutex), context cancellation and deadlines (an aborted call is an outage),
    SERIALIZABLE and REPEATABLE READ (the program does not ask for them), the
    rendering of cookies, redirects and RPC messages to bytes (auth.pb.go is
    protobuf's descriptor of them), the log's format, key generation, the
    version flag and the usage text of the program. *)

From stdpp Require Export base list gmap sets strings option sorting.
From Stdlib Require Export ZArith Lia Ascii.

#[global] Open Scope Z_scope.

(** ** Tactics *)

(** Case on the first [match] or [if] discriminee met in the goal. *)
Ltac go_case :=
  match goal with
  | |- context [match ?x with _ => _ end] =>
      lazymatch x with
      | context [match _ with _ => _ end] => fail
      | _ => destruct x eqn:?
      end
  end.

Ltac go_case_in H :=
  match type of H with
  | context [match ?x with _ => _ end] =>
      lazymatch x with
      | context [match _ with _ => _ end] => fail
      | _ => destruct x eqn:?
      end
  end.

(** String concatenation reduces on a constructor, like [app]. *)
#[global] Arguments String.append !s1 s2 / : simpl nomatch.

(** ** Lists *)

Lemma sublist_fmap {A B} (f : A -> B) (l1 l2 : list A) :
  l1 `sublist_of` l2 -> (f <$> l1) `sublist_of` (f <$> l2).
Proof. induction 1; cbn; by constructor. Qed.

Lemma size_filter `{Countable K} {A} (P : K * A -> Prop) `{forall x, Decision (P x)} (m : gmap K A) :
  size (filter P m) = length (filter P (map_to_list m)).
Proof.
  rewrite map_filter_alt. apply map_size_list_to_map.
  eapply sublist_NoDup; [apply (NoDup_fst_map_to_list m)|]. apply sublist_fmap, sublist_filter.
Qed.

Lemma length_filter_fmap {A B} (f : A -> B) (P : B -> Prop) `{forall x, Decision (P x)} (l : list A) :
  length (filter P (f <$> l)) = length (filter (fun a => P (f a)) l).
Proof.
  induction l as [|a l IH]; [done|]. rewrite fmap_cons, !filter_cons.
  destruct (decide (P (f a))); cbn; lia.
Qed.
