(* ===== verification/GoStrings.v ===== *)
(** * Go strings

    A Go [string] (and, in this development, a [[]byte]) is a sequence of
    bytes: Stdlib's [string], whose characters are bytes.  This file models
    what the program uses of the packages [strings], [unicode] and
    [unicode/utf8]: UTF-8 decoding and encoding with Go's treatment of invalid
    bytes, [TrimSpace], [ToLower], [Split], [Cut], [HasPrefix] and the like.
    The lower-case table for runes above ASCII is data of the Unicode standard
    and is a parameter, [UnicodeTables]. *)

From S2P Require Import Prelude.

(** ** Bytes as integers *)

Definition byteval (c : ascii) : Z := Z.of_N (N_of_ascii c).
Definition bytechr (z : Z) : ascii := ascii_of_N (Z.to_N z).

Lemma byteval_range c : 0 <= byteval c < 256.
Proof.
  unfold byteval. pose proof (N_ascii_bounded c). lia.
Qed.

Lemma bytechr_byteval c : bytechr (byteval c) = c.
Proof.
  unfold bytechr, byteval. rewrite N2Z.id. apply ascii_N_embedding.
Qed.

Lemma byteval_bytechr z : 0 <= z < 256 -> byteval (bytechr z) = z.
Proof.
  intros H. unfold bytechr, byteval. rewrite N_ascii_embedding by lia. lia.
Qed.

Lemma byteval_inj c d : byteval c = byteval d -> c = d.
Proof. intros H. rewrite <- (bytechr_byteval c), H. apply bytechr_byteval. Qed.

Arguments byteval : simpl never.
Arguments bytechr : simpl never.

(** ** Elementary string functions *)

Definition HasPrefix (s p : string) : bool := String.prefix p s.

(** [s[n:]] *)
Fixpoint str_drop (n : nat) (s : string) : string :=
  match n, s with
  | O, _ => s
  | S n', String _ s' => str_drop n' s'
  | S _, EmptyString => EmptyString
  end.

(** [s[:n]] *)
Fixpoint str_take (n : nat) (s : string) : string :=
  match n, s with
  | O, _ => EmptyString
  | S n', String c s' => String c (str_take n' s')
  | S _, EmptyString => EmptyString
  end.

(** [strings.CutPrefix] *)
Definition CutPrefix (s p : string) : string * bool :=
  if HasPrefix s p then (str_drop (String.length p) s, true) else (s, false).

(** [strings.TrimPrefix] *)
Definition TrimPrefix (s p : string) : string :=
  if HasPrefix s p then str_drop (String.length p) s else s.

(** [strings.Contains(s, c)] for a one-byte needle. *)
Fixpoint ContainsByte (s : string) (c : ascii) : bool :=
  match s with
  | EmptyString => false
  | String d s' => Ascii.eqb d c || ContainsByte s' c
  end.

(** [strings.ContainsAny(s, chars)] for ASCII [chars]. *)
Definition ContainsAny (s : string) (chars : list ascii) : bool :=
  existsb (ContainsByte s) chars.

(** [strings.IndexByte]; [None] is the source's [-1]. *)
Fixpoint IndexByte (s : string) (c : ascii) : option nat :=
  match s with
  | EmptyString => None
  | String d s' => if Ascii.eqb d c then Some O else option_map S (IndexByte s' c)
  end.

(** [strings.LastIndex(s, c)] for a one-byte needle. *)
Fixpoint LastIndexByte (s : string) (c : ascii) : option nat :=
  match s with
  | EmptyString => None
  | String d s' =>
      match LastIndexByte s' c with
      | Some i => Some (S i)
      | None => if Ascii.eqb d c then Some O else None
      end
  end.

(** [strings.Split(s, c)] for a one-byte separator. *)
Fixpoint Split (s : string) (c : ascii) : list string :=
  match s with
  | EmptyString => [EmptyString]
  | String d s' =>
      if Ascii.eqb d c then EmptyString :: Split s' c
      else match Split s' c with
           | [] => [String d EmptyString]
           | w :: ws => String d w :: ws
           end
  end.

(** [strings.Join] *)
Fixpoint Join (ws : list string) (sep : string) : string :=
  match ws with
  | [] => EmptyString
  | [w] => w
  | w :: ws' => w +:+ sep +:+ Join ws' sep
  end.

(** [strings.Cut(s, c)] for a one-byte separator. *)
Fixpoint Cut (s : string) (c : ascii) : string * string * bool :=
  match s with
  | EmptyString => (EmptyString, EmptyString, false)
  | String d s' =>
      if Ascii.eqb d c then (EmptyString, s', true)
      else let '(a, b, ok) := Cut s' c in (String d a, b, ok)
  end.

(** ** UTF-8 *)

Definition RuneError : Z := 65533.   (* U+FFFD *)
Definition MaxRune : Z := 1114111.   (* U+10FFFF *)

(** A Unicode scalar value: what a rune decoded from a string can be. *)
Definition scalar (r : Z) : Prop := 0 <= r <= MaxRune /\ ~ (55296 <= r <= 57343).

(** The range Go accepts for the second byte, by the first. *)
Definition second_lo (b0 : Z) : Z := if b0 =? 224 then 160 else if b0 =? 240 then 144 else 128.
Definition second_hi (b0 : Z) : Z := if b0 =? 237 then 159 else if b0 =? 244 then 143 else 191.
Definition in_range (c : ascii) (lo hi : Z) : bool := (lo <=? byteval c) && (byteval c <=? hi).

(** One step of [utf8.DecodeRuneInString]: the rune, the bytes it occupies and
    the rest.  An invalid byte is [RuneError] of width one. *)
Definition decode_step (s : string) : option (Z * string * string) :=
  match s with
  | EmptyString => None
  | String c0 t0 =>
      let b0 := byteval c0 in
      let bad := Some (RuneError, String c0 EmptyString, t0) in
      if b0 <? 128 then Some (b0, String c0 EmptyString, t0)
      else if (194 <=? b0) && (b0 <=? 223) then
        match t0 with
        | String c1 t1 =>
            if in_range c1 128 191
            then Some ((b0 - 192) * 64 + (byteval c1 - 128),
                       String c0 (String c1 EmptyString), t1)
            else bad
        | _ => bad
        end
      else if (224 <=? b0) && (b0 <=? 239) then
        match t0 with
        | String c1 (String c2 t2) =>
            if in_range c1 (second_lo b0) (second_hi b0) && in_range c2 128 191
            then Some ((b0 - 224) * 4096 + (byteval c1 - 128) * 64 + (byteval c2 - 128),
                       String c0 (String c1 (String c2 EmptyString)), t2)
            else bad
        | _ => bad
        end
      else if (240 <=? b0) && (b0 <=? 244) then
        match t0 with
        | String c1 (String c2 (String c3 t3)) =>
            if in_range c1 (second_lo b0) (second_hi b0) && in_range c2 128 191
               && in_range c3 128 191
            then Some ((b0 - 240) * 262144 + (byteval c1 - 128) * 4096
                         + (byteval c2 - 128) * 64 + (byteval c3 - 128),
                       String c0 (String c1 (String c2 (String c3 EmptyString))), t3)
            else bad
        | _ => bad
        end
      else bad
  end.

(** The runes of a string with the bytes each occupies, in order: what
    [for i, r := range s] visits.  Every step consumes at least one byte, so
    the length of the string is fuel enough ([segments_cons]). *)
Fixpoint segments_fuel (n : nat) (s : string) : list (Z * string) :=
  match n with
  | O => []
  | S n' =>
      match decode_step s with
      | None => []
      | Some (r, seg, rest) => (r, seg) :: segments_fuel n' rest
      end
  end.

Definition segments (s : string) : list (Z * string) := segments_fuel (String.length s) s.

Definition runes (s : string) : list Z := (segments s).*1.

(** The bytes of a list of segments. *)
Fixpoint unsegment (l : list (Z * string)) : string :=
  match l with
  | [] => EmptyString
  | (_, seg) :: l' => seg +:+ unsegment l'
  end.

(** [utf8.RuneCountInString] *)
Definition RuneCountInString (s : string) : Z := Z.of_nat (length (runes s)).

(** [utf8.AppendRune] to the empty string. *)
Definition encode_rune (r : Z) : string :=
  let r := if decide (scalar r) then r else RuneError in
  if r <? 128 then String (bytechr r) EmptyString
  else if r <? 2048 then
    String (bytechr (192 + r / 64)) (String (bytechr (128 + r mod 64)) EmptyString)
  else if r <? 65536 then
    String (bytechr (224 + r / 4096))
      (String (bytechr (128 + (r / 64) mod 64))
        (String (bytechr (128 + r mod 64)) EmptyString))
  else
    String (bytechr (240 + r / 262144))
      (String (bytechr (128 + (r / 4096) mod 64))
        (String (bytechr (128 + (r / 64) mod 64))
          (String (bytechr (128 + r mod 64)) EmptyString))).

Fixpoint encode_runes (rs : list Z) : string :=
  match rs with
  | [] => EmptyString
  | r :: rs' => encode_rune r +:+ encode_runes rs'
  end.

(** ** Character classes *)

(** [unicode.IsSpace]: Latin-1 spaces, then the White_Space property. *)
Definition IsSpace (r : Z) : bool :=
  ((9 <=? r) && (r <=? 13)) || (r =? 32) || (r =? 133) || (r =? 160)
  || (r =? 5760) || ((8192 <=? r) && (r <=? 8202)) || (r =? 8232) || (r =? 8233)
  || (r =? 8239) || (r =? 8287) || (r =? 12288).

(** [unicode.IsControl]: category Cc. *)
Definition IsControl (r : Z) : bool :=
  ((0 <=? r) && (r <=? 31)) || ((127 <=? r) && (r <=? 159)).

(** The lower-case mapping of runes above ASCII (Unicode data). *)
Class UnicodeTables := unicode_lower : Z -> Z.

(** [unicode.ToLower] *)
Definition ToLowerRune `{UnicodeTables} (r : Z) : Z :=
  if r <? 128 then (if (65 <=? r) && (r <=? 90) then r + 32 else r) else unicode_lower r.

(** [strings.ToLower]: [Map] of [ToLowerRune]; an invalid byte becomes U+FFFD. *)
Definition ToLower `{UnicodeTables} (s : string) : string :=
  encode_runes (ToLowerRune <$> runes s).

Fixpoint drop_while {A} (f : A -> bool) (l : list A) : list A :=
  match l with
  | [] => []
  | x :: l' => if f x then drop_while f l' else l
  end.

(** [strings.TrimSpace] *)
Definition trim_segments (l : list (Z * string)) : list (Z * string) :=
  let f := fun p : Z * string => IsSpace p.1 in
  rev (drop_while f (rev (drop_while f l))).

Definition TrimSpace (s : string) : string := unsegment (trim_segments (segments s)).

(** [strings.IndexFunc(s, f) >= 0] *)
Definition ContainsFunc (f : Z -> bool) (s : string) : bool := existsb f (runes s).

Arguments encode_rune : simpl never.
Arguments decode_step : simpl never.
Arguments segments : simpl never.
Arguments TrimSpace : simpl never.

(** ** Facts about strings *)

Lemma str_app_nil_r s : s +:+ "" = s.
Proof. induction s as [|c s IH]; [done|]. cbn. by f_equal. Qed.

Lemma str_app_assoc a b c : a +:+ (b +:+ c) = (a +:+ b) +:+ c.
Proof. induction a as [|x a IH]; [done|]. cbn. by f_equal. Qed.

Lemma str_length_app a b : String.length (a +:+ b) = (String.length a + String.length b)%nat.
Proof. induction a as [|x a IH]; [done|]. cbn. by rewrite IH. Qed.

Lemma str_drop_app a b : str_drop (String.length a) (a +:+ b) = b.
Proof. induction a as [|x a IH]; [done|]. apply IH. Qed.

Lemma str_take_app a b : str_take (String.length a) (a +:+ b) = a.
Proof. induction a as [|x a IH]; [by destruct b|]. cbn. by f_equal. Qed.

Lemma HasPrefix_app p s : HasPrefix (p +:+ s) p = true.
Proof.
  unfold HasPrefix. induction p as [|c p IH]; [by destruct s|].
  cbn. destruct (ascii_dec c c); [apply IH|done].
Qed.

Lemma HasPrefix_spec s p : HasPrefix s p = true -> exists t, s = p +:+ t.
Proof.
  unfold HasPrefix. revert s. induction p as [|c p IH]; intros s H.
  { exists s. by destruct s. }
  destruct s as [|d s]; [done|]. cbn in H.
  destruct (ascii_dec c d) as [->|]; [|done].
  destruct (IH _ H) as [t ->]. by exists t.
Qed.

Lemma ContainsByte_app a b c : ContainsByte (a +:+ b) c = ContainsByte a c || ContainsByte b c.
Proof. induction a as [|x a IH]; [done|]. cbn. by rewrite IH, orb_assoc. Qed.

Lemma Split_no_sep s c : ContainsByte s c = false -> Split s c = [s].
Proof.
  induction s as [|d s IH]; [done|]. cbn. intros [Hd Hs]%orb_false_iff.
  by rewrite Hd, IH.
Qed.

Lemma Split_app s c t : ContainsByte s c = false ->
  Split (s +:+ String c t) c = s :: Split t c.
Proof.
  induction s as [|d s IH]; cbn.
  - intros _. by rewrite Ascii.eqb_refl.
  - intros [Hd Hs]%orb_false_iff. by rewrite Hd, IH.
Qed.

Lemma Split_nonempty s c : Split s c <> [].
Proof. destruct s as [|d s]; [done|]. cbn. by destruct (Ascii.eqb d c), (Split s c). Qed.

Lemma Join_Split s c : Join (Split s c) (String c "") = s.
Proof.
  induction s as [|d s IH]; [done|]. cbn [Split].
  pose proof (Split_nonempty s c) as Hne.
  destruct (Ascii.eqb d c) eqn:E.
  - apply Ascii.eqb_eq in E as ->. destruct (Split s c) as [|w ws]; [done|].
    cbn in *. by rewrite IH.
  - destruct (Split s c) as [|w [|w' ws]]; [done|cbn in *; congruence|].
    cbn in *. by rewrite <- IH.
Qed.

(** ** Decoding *)

Ltac decode_cases :=
  repeat match goal with
    | H : context [if ?b then _ else _] |- _ => destruct b eqn:?
    | H : context [match ?t with EmptyString => _ | String _ _ => _ end] |- _ => destruct t
    end.

Lemma decode_step_split s r seg rest :
  decode_step s = Some (r, seg, rest) -> s = seg +:+ rest /\ seg <> "".
Proof.
  intros H. unfold decode_step in H. destruct s as [|c0 t0]; [done|]. cbv zeta in H.
  decode_cases; injection H as <- <- <-; split; done.
Qed.

Lemma decode_step_length s r seg rest :
  decode_step s = Some (r, seg, rest) -> (String.length rest < String.length s)%nat.
Proof.
  intros [-> Hne]%decode_step_split. rewrite str_length_app.
  destruct seg; [done|]. cbn. lia.
Qed.

Lemma decode_step_None s : decode_step s = None <-> s = "".
Proof.
  split; [|by intros ->]. destruct s; [done|]. unfold decode_step. cbv zeta.
  repeat case_match; done.
Qed.

Lemma segments_fuel_enough n m s :
  (String.length s <= n)%nat -> (String.length s <= m)%nat ->
  segments_fuel n s = segments_fuel m s.
Proof.
  revert m s. induction n as [|n IH]; intros [|m] s Hn Hm; try done.
  - destruct s; [done|cbn in Hn; lia].
  - destruct s; [done|cbn in Hm; lia].
  - cbn. destruct (decode_step s) as [[[r seg] rest]|] eqn:E; [|done].
    apply decode_step_length in E. f_equal. apply IH; lia.
Qed.

(** The fuel [String.length s] always suffices: [segments] satisfies the
    recursion of the decoder. *)
Lemma segments_cons s r seg rest :
  decode_step s = Some (r, seg, rest) -> segments s = (r, seg) :: segments rest.
Proof.
  intros E. pose proof (decode_step_length _ _ _ _ E) as Hl.
  unfold segments. destruct (String.length s) as [|n] eqn:En; [lia|].
  cbn. rewrite E. f_equal. apply segments_fuel_enough; lia.
Qed.

Lemma segments_nil : segments "" = [].
Proof. done. Qed.

(** Induction along the decoder. *)
Lemma segments_ind (P : string -> Prop) :
  P "" ->
  (forall s r seg rest, decode_step s = Some (r, seg, rest) -> P rest -> P s) ->
  forall s, P s.
Proof.
  intros H0 HS s. remember (String.length s) as n eqn:En. revert s En.
  induction n as [n IH] using lt_wf_ind. intros s ->.
  destruct (decode_step s) as [[[r seg] rest]|] eqn:E.
  - eapply HS; [done|]. eapply IH; [|done]. by eapply decode_step_length.
  - by apply decode_step_None in E as ->.
Qed.

Lemma unsegment_segments s : unsegment (segments s) = s.
Proof.
  induction s as [|s r seg rest E IH] using segments_ind; [done|].
  rewrite (segments_cons _ _ _ _ E). cbn. rewrite IH.
  by apply decode_step_split in E as [-> _].
Qed.

Lemma decode_step_scalar s r seg rest : decode_step s = Some (r, seg, rest) -> scalar r.
Proof.
  intros H. unfold decode_step in H. destruct s as [|c0 t0]; [done|]. cbv zeta in H.
  unfold scalar, MaxRune, RuneError, in_range, second_lo, second_hi in *.
  pose proof (byteval_range c0).
  decode_cases; injection H as <- <- <-; lia.
Qed.

Lemma runes_scalar s : Forall scalar (runes s).
Proof.
  induction s as [|s r seg rest E IH] using segments_ind; [constructor|].
  unfold runes. rewrite (segments_cons _ _ _ _ E). cbn. constructor; [|done].
  by eapply decode_step_scalar.
Qed.

(** A decoded segment decodes the same whatever suffix is cut off after it. *)
Lemma decode_step_prefix s r seg rest rest1 rest2 :
  decode_step s = Some (r, seg, rest) -> rest = rest1 +:+ rest2 ->
  decode_step (seg +:+ rest1) = Some (r, seg, rest1).
Proof.
  intros H ->. unfold decode_step in H. destruct s as [|c0 t0]; [done|]. cbv zeta in H.
  unfold decode_step. cbv zeta.
  repeat match type of H with
    | context [if ?b then _ else _] => destruct b eqn:?
    | context [match ?t with EmptyString => _ | String _ _ => _ end] => destruct t
    end;
  injection H as <- <- Hr; cbn;
  repeat match goal with E : ?b = _ |- context [?b] => rewrite E end; try done.
  all: try (destruct rest1 as [|x1 [|x2 [|x3 t]]]; cbn in Hr;
    try (injection Hr as <- Hr); try (injection Hr as <- Hr); try (injection Hr as <- Hr);
    simplify_eq; cbn;
    repeat match goal with E : ?b = _ |- context [?b] => rewrite E end; done).
Qed.

(** ** Encoding *)

Ltac eucl := Z.to_euclidean_division_equations; lia.

(** Evaluate the tests of the decoder on bytes given by arithmetic. *)
Ltac decide_if :=
  match goal with
  | |- context [if ?b then _ else _] =>
      lazymatch b with
      | context [if _ then _ else _] => fail
      | _ => first [replace b with true by eucl | replace b with false by eucl]
      end
  end.

Lemma decode_encode_rune r t :
  scalar r -> decode_step (encode_rune r +:+ t) = Some (r, encode_rune r, t).
Proof.
  intros Hs. unfold encode_rune. rewrite decide_True by done.
  unfold scalar, MaxRune in Hs.
  destruct (r <? 128) eqn:E1; [|destruct (r <? 2048) eqn:E2; [|destruct (r <? 65536) eqn:E3]];
    cbn [String.append]; unfold decode_step, in_range, second_lo, second_hi; cbv zeta;
    rewrite !byteval_bytechr by eucl.
  all: repeat match goal with
         | |- context [?x =? ?y] => destruct (x =? y) eqn:?
         end; repeat decide_if; do 3 f_equal; eucl.
Qed.

Lemma segments_encode_runes rs :
  Forall scalar rs -> segments (encode_runes rs) = (fun r => (r, encode_rune r)) <$> rs.
Proof.
  induction 1 as [|r rs Hr _ IH]; [done|]. cbn.
  rewrite (segments_cons _ _ _ _ (decode_encode_rune r _ Hr)). by rewrite IH.
Qed.

(** Decoding inverts encoding on scalar values. *)
Lemma runes_encode_runes rs : Forall scalar rs -> runes (encode_runes rs) = rs.
Proof.
  intros H. unfold runes. rewrite segments_encode_runes by done.
  rewrite <- list_fmap_compose. cbn. by rewrite list_fmap_id.
Qed.

Lemma encode_runes_app a b : encode_runes (a ++ b) = encode_runes a +:+ encode_runes b.
Proof. induction a as [|r a IH]; [done|]. cbn. by rewrite IH, str_app_assoc. Qed.

(** ** Trimming *)

Lemma unsegment_app l k : unsegment (l ++ k) = unsegment l +:+ unsegment k.
Proof. induction l as [|[r s] l IH]; [done|]. cbn. by rewrite IH, str_app_assoc. Qed.

(** Cutting off trailing segments does not change how the rest decodes. *)
Lemma segments_prefix s l k : segments s = l ++ k -> segments (unsegment l) = l.
Proof.
  revert l k. induction s as [|s r seg rest E IH] using segments_ind; intros l k Hl.
  - symmetry in Hl. by apply app_nil in Hl as [-> _].
  - rewrite (segments_cons _ _ _ _ E) in Hl. destruct l as [|p l]; [done|].
    cbn in Hl. injection Hl as <- Hl. cbn.
    assert (rest = unsegment l +:+ unsegment k) as Hrest
      by (rewrite <- unsegment_app, <- Hl; by rewrite unsegment_segments).
    rewrite (segments_cons _ _ _ _ (decode_step_prefix _ _ _ _ _ _ E Hrest)).
    f_equal. by eapply IH.
Qed.

Lemma segments_suffix s l k : segments s = l ++ k -> segments (unsegment k) = k.
Proof.
  revert l k. induction s as [|s r seg rest E IH] using segments_ind; intros l k Hl.
  - symmetry in Hl. by apply app_nil in Hl as [_ ->].
  - destruct l as [|p l].
    + cbn in Hl. subst k. by rewrite unsegment_segments.
    + rewrite (segments_cons _ _ _ _ E) in Hl. injection Hl as <- Hl. by eapply IH.
Qed.

Section drop_while.
Context {A : Type} (f : A -> bool).

Lemma drop_while_suffix l : exists k, l = k ++ drop_while f l.
Proof.
  induction l as [|x l [k IH]]; [by exists []|]. cbn. destruct (f x).
  - exists (x :: k). cbn. by f_equal.
  - by exists [].
Qed.

Lemma drop_while_id l : (forall x l', l = x :: l' -> f x = false) -> drop_while f l = l.
Proof. destruct l as [|x l]; [done|]. intros H. cbn. by rewrite (H x l). Qed.

Lemma drop_while_head l x l' : drop_while f l = x :: l' -> f x = false.
Proof. induction l as [|y l IH]; [done|]. cbn. destruct (f y) eqn:E; [done|]. congruence. Qed.
End drop_while.

Definition space_seg (p : Z * string) : bool := IsSpace p.1.

(** No leading and no trailing space. *)
Definition trimmed (l : list (Z * string)) : Prop :=
  (forall p l', l = p :: l' -> space_seg p = false) /\
  (forall p l', l = l' ++ [p] -> space_seg p = false).

Lemma trim_segments_infix l : exists k1 k2, l = k1 ++ trim_segments l ++ k2.
Proof.
  unfold trim_segments. cbv zeta. fold space_seg.
  change (fun p : Z * string => IsSpace p.1) with space_seg.
  destruct (drop_while_suffix space_seg l) as [k1 H1].
  destruct (drop_while_suffix space_seg (rev (drop_while space_seg l))) as [k2 H2].
  exists k1, (rev k2). rewrite H1 at 1. f_equal.
  rewrite <- rev_app_distr, <- H2. by rewrite rev_involutive.
Qed.

Lemma trim_segments_trimmed l : trimmed (trim_segments l).
Proof.
  unfold trim_segments. cbv zeta.
  change (fun p : Z * string => IsSpace p.1) with space_seg.
  set (m := drop_while space_seg l). split; intros p l' H.
  - destruct (drop_while_suffix space_seg (rev m)) as [k Hk].
    apply (f_equal (@rev _)) in Hk. rewrite rev_involutive, rev_app_distr, H in Hk.
    exact (drop_while_head space_seg l _ _ Hk).
  - apply (f_equal (@rev _)) in H. rewrite rev_involutive, rev_app_distr in H.
    exact (drop_while_head space_seg (rev m) _ _ H).
Qed.

Lemma trim_segments_id l : trimmed l -> trim_segments l = l.
Proof.
  intros [Hh Ht]. unfold trim_segments. cbv zeta.
  change (fun p : Z * string => IsSpace p.1) with space_seg.
  rewrite (drop_while_id space_seg l) by done.
  rewrite drop_while_id; [apply rev_involutive|].
  intros p l' H. apply (f_equal (@rev _)) in H. rewrite rev_involutive in H. by eapply Ht.
Qed.

Lemma segments_TrimSpace s : segments (TrimSpace s) = trim_segments (segments s).
Proof.
  destruct (trim_segments_infix (segments s)) as (k1 & k2 & H).
  pose proof (segments_suffix _ _ _ H) as H2. unfold TrimSpace.
  by apply segments_prefix in H2.
Qed.

Lemma TrimSpace_idemp s : TrimSpace (TrimSpace s) = TrimSpace s.
Proof.
  unfold TrimSpace at 1. rewrite segments_TrimSpace.
  rewrite trim_segments_id by apply trim_segments_trimmed. done.
Qed.

Lemma TrimSpace_id s : trimmed (segments s) -> TrimSpace s = s.
Proof. intros H. unfold TrimSpace. rewrite trim_segments_id by done. apply unsegment_segments. Qed.

(** ASCII text is its own decoding. *)
Lemma runes_ascii_encode s :
  (forall c, In c (String.list_ascii_of_string s) -> byteval c < 128) -> encode_runes (runes s) = s.
Proof.
  induction s as [|c s IH]; intros Hs; [done|].
  assert (byteval c < 128) as Hc by (apply Hs; by left). pose proof (byteval_range c).
  assert (decode_step (String c s) = Some (byteval c, String c "", s)) as E.
  { unfold decode_step. cbv zeta. by replace (byteval c <? 128) with true by lia. }
  unfold runes. rewrite (segments_cons _ _ _ _ E). cbn [fmap list_fmap fst encode_runes].
  fold (runes s). rewrite IH by (intros d Hd; apply Hs; by right).
  unfold encode_rune. rewrite decide_True by (unfold scalar, MaxRune; lia). cbv zeta.
  replace (byteval c <? 128) with true by lia. by rewrite bytechr_byteval.
Qed.
