(* ===== verification/GoTime.v ===== *)
(** * Time

    A [time.Time] is an instant: an integer number of nanoseconds since the
    Unix epoch (the monotonic reading and the location carry no information
    for the comparisons the program makes).  A [time.Duration] is an int64
    number of nanoseconds; [Time.Sub] saturates at its bounds, as the library
    documents. *)

From S2P Require Import Prelude.

Abbreviation time := Z (only parsing).
Abbreviation duration := Z (only parsing).

Definition minDuration : duration := - 9223372036854775808.
Definition maxDuration : duration := 9223372036854775807.

Definition Second : duration := 1000000000.
Definition Minute : duration := 60 * Second.
Definition Hour : duration := 60 * Minute.

(** The zero [time.Time], 1 January of year 1 UTC. *)
Definition zeroTime : time := -62135596800 * Second.

Definition IsZero (t : time) : bool := t =? zeroTime.
Definition After (t u : time) : bool := u <? t.
Definition Before (t u : time) : bool := t <? u.
Definition Add (t : time) (d : duration) : time := t + d.
Definition Sub (t u : time) : duration := Z.max minDuration (Z.min maxDuration (t - u)).

(** [t.Unix()]: whole seconds, rounded down. *)
Definition Unix (t : time) : Z := t / Second.

(** [time.Unix(sec, 0)] *)
Definition ofUnix (sec : Z) : time := sec * Second.

(** [d.Seconds()] converted to an integer, for a whole number of seconds. *)
Definition Seconds (d : duration) : Z := Z.quot d Second.

(** [t.Truncate(d)]: rounded down to a multiple of [d] since the zero time. *)
Definition Truncate (t : time) (d : duration) : time := if d <=? 0 then t else t - (t - zeroTime) mod d.

(** A duration is an int64. *)
Definition is_duration (d : duration) : Prop := minDuration <= d <= maxDuration.

(** Within the int64 range [Sub] is the difference; outside it keeps the sign. *)
Lemma Sub_exact t u : is_duration (t - u) -> Sub t u = t - u.
Proof. unfold Sub, is_duration, minDuration, maxDuration. lia. Qed.

(** A comparison with a representable duration does not see the saturation,
    except at the bounds themselves. *)
Lemma Sub_gt t u d : minDuration <= d < maxDuration -> (Sub t u >? d) = (t - u >? d).
Proof. unfold Sub, minDuration, maxDuration. lia. Qed.

Lemma Sub_lt t u d : minDuration < d <= maxDuration -> (Sub t u <? d) = (t - u <? d).
Proof. unfold Sub, minDuration, maxDuration. lia. Qed.

Lemma Unix_ofUnix n : Unix (ofUnix n) = n.
Proof. unfold Unix, ofUnix, Second. by rewrite Z.div_mul. Qed.

Lemma Unix_add t n : Unix (t + n * Second) = Unix t + n.
Proof. unfold Unix, Second. by rewrite Z.div_add. Qed.

Lemma ofUnix_Unix_bounds t : t - Second < ofUnix (Unix t) <= t.
Proof. unfold ofUnix, Unix, Second. pose proof (Z.div_mod t 1000000000). pose proof (Z.mod_pos_bound t 1000000000). lia. Qed.
