(* ===== verification/GoFormat.v ===== *)
(** * Upper case, numbers and timestamps as text

    [strings.ToUpper] and [strings.ToLower] on ASCII text, [strconv.Itoa], and
    [time.Time.UTC().Format(time.RFC3339)] on the proleptic Gregorian
    calendar, which is given by its days and shown to be the calendar. *)

From stdpp Require Import pretty.
From S2P Require Import Prelude GoStrings GoTime.

(** ** Letters *)

(** The upper-case mapping of runes above ASCII (Unicode data). *)
Class UpperTables := unicode_upper : Z -> Z.

(** [unicode.ToUpper] *)
Definition ToUpperRune `{UpperTables} (r : Z) : Z :=
  if r <? 128 then (if (97 <=? r) && (r <=? 122) then r - 32 else r) else unicode_upper r.

(** [strings.ToUpper] *)
Definition ToUpper `{UpperTables} (s : string) : string :=
  encode_runes (ToUpperRune <$> runes s).

Fixpoint str_map (f : ascii -> ascii) (s : string) : string :=
  match s with
  | EmptyString => EmptyString
  | String c t => String (f c) (str_map f t)
  end.

Definition lower_byte (c : ascii) : ascii :=
  if (65 <=? byteval c) && (byteval c <=? 90) then bytechr (byteval c + 32) else c.
Definition upper_byte (c : ascii) : ascii :=
  if (97 <=? byteval c) && (byteval c <=? 122) then bytechr (byteval c - 32) else c.

Fixpoint is_ascii (s : string) : bool :=
  match s with
  | EmptyString => true
  | String c t => (byteval c <? 128) && is_ascii t
  end.

Lemma runes_ascii_cons c s : byteval c < 128 -> runes (String c s) = byteval c :: runes s.
Proof.
  intros Hc. assert (decode_step (String c s) = Some (byteval c, String c "", s)) as E.
  { unfold decode_step. cbv zeta. by replace (byteval c <? 128) with true by lia. }
  unfold runes. by rewrite (segments_cons _ _ _ _ E).
Qed.

Lemma encode_ascii r : 0 <= r < 128 -> encode_rune r = String (bytechr r) "".
Proof.
  intros Hr. unfold encode_rune. rewrite decide_True by (unfold scalar, MaxRune; lia). cbv zeta.
  by replace (r <? 128) with true by lia.
Qed.

Lemma ToLower_ascii `{UnicodeTables} s : is_ascii s = true -> ToLower s = str_map lower_byte s.
Proof.
  induction s as [|c s IH]; [done|]. cbn. intros [Hc Hs]%andb_prop. unfold ToLower in *.
  rewrite runes_ascii_cons by lia. cbn. rewrite IH by done. pose proof (byteval_range c).
  unfold ToLowerRune. rewrite Hc. unfold lower_byte. case_match.
  - by rewrite encode_ascii by lia.
  - by rewrite encode_ascii, bytechr_byteval by lia.
Qed.

Lemma ToUpper_ascii `{UpperTables} s : is_ascii s = true -> ToUpper s = str_map upper_byte s.
Proof.
  induction s as [|c s IH]; [done|]. cbn. intros [Hc Hs]%andb_prop. unfold ToUpper in *.
  rewrite runes_ascii_cons by lia. cbn. rewrite IH by done. pose proof (byteval_range c).
  unfold ToUpperRune. rewrite Hc. unfold upper_byte. case_match.
  - by rewrite encode_ascii by lia.
  - by rewrite encode_ascii, bytechr_byteval by lia.
Qed.

Lemma str_map_length f s : String.length (str_map f s) = String.length s.
Proof. induction s as [|c s IH]; cbn; congruence. Qed.

(** ** Numbers *)

(** [strconv.Itoa] *)
Definition Itoa (z : Z) : string := pretty z.

Lemma Itoa_inj x y : Itoa x = Itoa y -> x = y.
Proof. apply pretty_Z_inj. Qed.

Definition is_decimal (c : ascii) : bool := (48 <=? byteval c) && (byteval c <=? 57).
Definition all_decimal (s : string) : bool := forallb is_decimal (String.list_ascii_of_string s).
Definition digits_from (x : Z) (s : string) : Z :=
  foldl (fun acc c => acc * 10 + (byteval c - 48)) x (String.list_ascii_of_string s).
Definition digits_value (s : string) : Z := digits_from 0 s.

Definition MinInt : Z := - 2 ^ 63.
Definition MaxInt : Z := 2 ^ 63 - 1.

(** [strconv.Atoi]: an optional sign and decimal digits, within an int. *)
Definition Atoi (s : string) : option Z :=
  let '(neg, ds) := match s with
                    | String c t => if Ascii.eqb c "-" then (true, t)
                                    else if Ascii.eqb c "+" then (false, t) else (false, s)
                    | EmptyString => (false, s)
                    end in
  if bool_decide (ds = "") || negb (all_decimal ds) then None
  else
    let v := if neg then - digits_value ds else digits_value ds in
    if (MinInt <=? v) && (v <=? MaxInt) then Some v else None.

Lemma Atoi_bounds s v : Atoi s = Some v -> MinInt <= v <= MaxInt.
Proof.
  unfold Atoi. destruct (match s with EmptyString => _ | String _ _ => _ end) as [neg ds].
  destruct (_ || _); [done|]. cbv zeta. destruct (_ && _) eqn:E; [|done]. intros [= <-]. lia.
Qed.

Lemma char_decimal (d : N) : (d < 10)%N ->
  is_decimal (pretty_N_char d) = true /\ byteval (pretty_N_char d) - 48 = Z.of_N d.
Proof.
  intros Hd. destruct d as [|p]; [done|].
  do 4 (try (destruct p as [p|p|]; [| |done]); try done).
Qed.

Lemma pretty_N_go_digits x s :
  all_decimal (pretty_N_go x s) = all_decimal s /\ digits_value (pretty_N_go x s) = digits_from (Z.of_N x) s.
Proof.
  revert s. induction (N.lt_wf_0 x) as [x _ IH]; intros s.
  assert (x = 0 \/ 0 < x)%N as [->|?] by lia; [by rewrite pretty_N_go_0|].
  rewrite pretty_N_go_step by done. destruct (IH (x / 10)%N ltac:(by apply N.div_lt)
    (String (pretty_N_char (x mod 10)) s)) as [-> ->].
  unfold all_decimal, digits_from. cbn [String.list_ascii_of_string forallb foldl].
  destruct (char_decimal (x mod 10)) as [-> ->]; [by apply N.mod_lt|]. split; [done|]. f_equal.
  pose proof (N.div_mod x 10 ltac:(done)). lia.
Qed.

Lemma pretty_positive_digits (p : positive) :
  all_decimal (pretty p) = true /\ digits_value (pretty p) = Zpos p /\ pretty p <> "".
Proof.
  unfold pretty, pretty_positive, pretty, pretty_N. case_decide as Hp; [done|].
  destruct (pretty_N_go_digits (Npos p) "") as [Ha Hv]. split_and!; [done..|].
  intros E. rewrite E in Hv. done.
Qed.

Lemma Atoi_Itoa z : MinInt <= z <= MaxInt -> Atoi (Itoa z) = Some z.
Proof.
  intros Hz.
  assert ((MinInt <=? z) && (z <=? MaxInt) = true) as Hb by (apply andb_true_intro; lia).
  unfold Itoa, pretty, pretty_Z. destruct z as [|p|p]; [done| |];
    destruct (pretty_positive_digits p) as (Ha & Hv & Hne); unfold Atoi.
  - destruct (pretty p) as [|c t] eqn:E; [done|].
    assert (is_decimal c = true) as Hc by by apply andb_prop in Ha as [? _].
    replace (Ascii.eqb c "-") with false by by destruct (Ascii.eqb_spec c "-") as [->|].
    replace (Ascii.eqb c "+") with false by by destruct (Ascii.eqb_spec c "+") as [->|].
    rewrite Ha, Hv. rewrite bool_decide_false by done. cbn [negb orb]. by rewrite Hb.
  - change ("-" +:+ pretty p) with (String "-" (pretty p)). cbv beta iota. cbn [Ascii.eqb Bool.eqb].
    rewrite Ha, Hv, bool_decide_false by done. cbn [negb orb]. change (- Z.pos p) with (Z.neg p).
    by rewrite Hb.
Qed.

(** Digits are not space. *)
Lemma segments_decimal s : all_decimal s = true -> Forall (fun p => IsSpace p.1 = false) (segments s).
Proof.
  induction s as [|c s IH]; [constructor|]. unfold all_decimal. cbn. intros [Hc Hs]%andb_prop.
  unfold is_decimal in Hc. assert (decode_step (String c s) = Some (byteval c, String c "", s)) as E.
  { unfold decode_step. cbv zeta. by replace (byteval c <? 128) with true by lia. }
  rewrite (segments_cons _ _ _ _ E). constructor; [|by apply IH].
  unfold IsSpace. cbn [fst]. lia.
Qed.

Lemma TrimSpace_Itoa z : 0 < z -> TrimSpace (Itoa z) = Itoa z.
Proof.
  intros Hz. destruct z as [|p|p]; [done| |done]. apply TrimSpace_id.
  destruct (pretty_positive_digits p) as (Ha & _ & _). pose proof (segments_decimal _ Ha) as Hf.
  change (Itoa (Z.pos p)) with (pretty p). rewrite Forall_forall in Hf. unfold trimmed, space_seg.
  change (pretty (Z.pos p)) with (pretty p). split; intros q l' E; rewrite E in Hf; apply (Hf q); set_solver.
Qed.

(** A number's text is made of digits and a sign. *)
Lemma pretty_N_go_byte x s c :
  (forall n, pretty_N_char n <> c) -> ContainsByte (pretty_N_go x s) c = ContainsByte s c.
Proof.
  intros Hc. revert s. induction (N.lt_wf_0 x) as [x _ IH]; intros s.
  assert (x = 0 \/ 0 < x)%N as [->|?] by lia; [by rewrite pretty_N_go_0|].
  rewrite pretty_N_go_step by done. rewrite IH by by apply N.div_lt. cbn.
  destruct (Ascii.eqb _ c) eqn:E; [|done]. apply Ascii.eqb_eq in E. by destruct (Hc (x mod 10)%N).
Qed.

Lemma Itoa_no_byte z c :
  (forall n, pretty_N_char n <> c) -> c <> "-"%char -> ContainsByte (Itoa z) c = false.
Proof.
  intros Hc Hm. assert (forall p : positive, ContainsByte (pretty p) c = false) as Hp.
  { intros p. unfold pretty, pretty_positive, pretty, pretty_N. case_decide; [done|]. by rewrite pretty_N_go_byte. }
  unfold Itoa, pretty, pretty_Z. destruct z as [|p|p]; [|apply Hp|].
  - change (Ascii.eqb "0" c || false = false). rewrite orb_false_r. apply Ascii.eqb_neq. exact (Hc 0%N).
  - rewrite ContainsByte_app, Hp, orb_false_r. change (Ascii.eqb "-" c || false = false).
    rewrite orb_false_r. apply Ascii.eqb_neq. congruence.
Qed.

Lemma Itoa_no_newline z : ContainsByte (Itoa z) (ascii_of_nat 10) = false.
Proof. apply Itoa_no_byte; [|done]. intros n. unfold pretty_N_char. by repeat case_match. Qed.

Fixpoint repeat_byte (n : nat) (c : ascii) : string :=
  match n with O => EmptyString | S n => String c (repeat_byte n c) end.

(** [time.appendInt]: a decimal, padded with zeros to [width]. *)
Definition utod (u : Z) : ascii := bytechr (48 + u).
Definition appendInt (x : Z) (width : nat) : string :=
  let u := Z.abs x in
  (if x <? 0 then "-" else "") +:+
  (if (width =? 2)%nat && (u <? 100) then String (utod (u / 10)) (String (utod (u mod 10)) "")
   else if (width =? 4)%nat && (u <? 10000) then
     String (utod (u / 1000)) (String (utod (u / 100 mod 10))
       (String (utod (u / 10 mod 10)) (String (utod (u mod 10)) "")))
   else repeat_byte (width - String.length (pretty u)) "0" +:+ pretty u).

(** [time.Duration.String]: hours, minutes and seconds, or a smaller unit, with
    a fraction that ends in a digit other than zero. *)
Fixpoint fmtFrac (prec : nat) (v : Z) (print : bool) (acc : string) : string * Z :=
  match prec with
  | O => (if print then "." +:+ acc else acc, v)
  | S prec =>
      let print := print || negb (v mod 10 =? 0) in
      fmtFrac prec (v / 10) print (if print then String (utod (v mod 10)) acc else acc)
  end.

Definition Duration_String (d : duration) : string :=
  let u := Z.abs d in
  let unit_text (prec : nat) (name : string) :=
    let '(frac, v) := fmtFrac prec u false "" in (Itoa v, frac +:+ name) in
  let '(whole, rest) :=
    if u =? 0 then ("0", "s")
    else if u <? 1000 then unit_text 0%nat "ns"
    else if u <? 1000000 then unit_text 3%nat (String (bytechr 194) (String (bytechr 181) "s"))
    else if u <? Second then unit_text 6%nat "ms"
    else
      let '(frac, v) := fmtFrac 9 u false "" in
      let seconds := Itoa (v mod 60) in
      let m := v / 60 in
      if m =? 0 then (seconds, frac +:+ "s")
      else
        let h := m / 60 in
        ((if h =? 0 then "" else Itoa h +:+ "h") +:+ Itoa (m mod 60) +:+ "m" +:+ seconds, frac +:+ "s") in
  (if d <? 0 then "-" else "") +:+ whole +:+ rest.

Example duration_minute : Duration_String Minute = "1m0s".
Proof. reflexivity. Qed.
Example duration_fraction : Duration_String (- (3 * Hour + 1500 * 1000000)) = "-3h0m1.5s".
Proof. reflexivity. Qed.

(** ** The calendar *)

(** The Gregorian date of a day, counted from 1 January 1970; years are
    taken to begin in March and grouped into periods of 400. *)
Definition year_of (doe : Z) : Z := (doe - doe / 1460 + doe / 36524 - doe / 146096) / 365.
Definition year_start (yoe : Z) : Z := 365 * yoe + yoe / 4 - yoe / 100.
Definition month_of (doy : Z) : Z * Z :=
  let mp := (5 * doy + 2) / 153 in
  (if mp <? 10 then mp + 3 else mp - 9, doy - (153 * mp + 2) / 5 + 1).
Definition civil (day : Z) : Z * Z * Z :=
  let z := day + 719468 in
  let doe := z mod 146097 in
  let '(m, d) := month_of (doe - year_start (year_of doe)) in
  (year_of doe + z / 146097 * 400 + (if m <=? 2 then 1 else 0), m, d).

Definition leap (y : Z) : bool := (y mod 4 =? 0) && (negb (y mod 100 =? 0) || (y mod 400 =? 0)).
Definition month_days (y m : Z) : Z :=
  match m with
  | 2 => if leap y then 29 else 28
  | 4 | 6 | 9 | 11 => 30
  | _ => 31
  end.

(** The day after. *)
Definition tomorrow (date : Z * Z * Z) : Z * Z * Z :=
  let '(y, m, d) := date in
  if d <? month_days y m then (y, m, d + 1)
  else if m <? 12 then (y, m + 1, 1) else (y + 1, 1, 1).

(** [t.UTC().Format(time.RFC3339)] *)
Definition FormatRFC3339 (t : time) : string :=
  let s := Unix t in
  let '(y, m, d) := civil (s / 86400) in
  let sec := s mod 86400 in
  appendInt y 4 +:+ "-" +:+ appendInt m 2 +:+ "-" +:+ appendInt d 2 +:+ "T" +:+
  appendInt (sec / 3600) 2 +:+ ":" +:+ appendInt (sec / 60 mod 60) 2 +:+ ":" +:+
  appendInt (sec mod 60) 2 +:+ "Z".

Example format_epoch : FormatRFC3339 0 = "1970-01-01T00:00:00Z".
Proof. reflexivity. Qed.
Example format_issued : FormatRFC3339 (1792756800 * Second) = "2026-10-23T12:00:00Z".
Proof. reflexivity. Qed.
Example format_leap : FormatRFC3339 (951782399 * Second + 999) = "2000-02-28T23:59:59Z".
Proof. reflexivity. Qed.
Example format_zero : FormatRFC3339 zeroTime = "0001-01-01T00:00:00Z".
Proof. reflexivity. Qed.

(** *** The dates are those of the calendar *)

(** The first day of each year of a period, and its last. *)
Definition year_len (y : Z) : Z := if leap (y + 1) then 366 else 365.

Lemma year_len_bounds y : 365 <= year_len y <= 366.
Proof. unfold year_len. case_match; lia. Qed.

Lemma years_ok :
  forallb (fun y => (year_of (year_start y) =? y) && (year_of (year_start y + year_len y - 1) =? y))
    (seqZ 0 400) = true.
Proof. vm_compute. reflexivity. Qed.

Lemma year_starts_ok : forallb (fun y => year_start (y + 1) =? year_start y + year_len y) (seqZ 0 399) = true.
Proof. vm_compute. reflexivity. Qed.

Lemma year_start_next y : 0 <= y < 399 -> year_start (y + 1) = year_start y + year_len y.
Proof.
  intros Hy. pose proof year_starts_ok as H. rewrite forallb_forall in H. specialize (H y).
  rewrite <- list_elem_of_In, elem_of_seqZ, Z.eqb_eq in H. apply H. lia.
Qed.

Lemma year_of_mono a b : 0 <= a <= b -> b < 146097 -> year_of a <= year_of b.
Proof.
  intros Hab Hb. apply Z.div_le_mono; [lia|].
  assert (forall n : nat, a + Z.of_nat n < 146097 ->
    a - a / 1460 + a / 36524 - a / 146096 <=
    a + Z.of_nat n - (a + Z.of_nat n) / 1460 + (a + Z.of_nat n) / 36524 - (a + Z.of_nat n) / 146096) as Hn.
  { induction n as [|n IH]; intros Hn; [rewrite Z.add_0_r; lia|].
    specialize (IH ltac:(lia)). etrans; [exact IH|]. clear IH. set (c := a + Z.of_nat n) in *.
    replace (a + Z.of_nat (S n)) with (c + 1) in Hn |- * by lia. assert (0 <= c) by lia. clearbody c.
    destruct (decide (c = 146095)) as [->|]; [by vm_compute|].
    assert ((c + 1) / 1460 <= c / 1460 + 1) by eucl. assert (c / 36524 <= (c + 1) / 36524) by eucl.
    assert (c / 146096 = 0) as -> by (apply Z.div_small; lia).
    assert ((c + 1) / 146096 = 0) as -> by (apply Z.div_small; lia). lia. }
  specialize (Hn (Z.to_nat (b - a)) ltac:(lia)). rewrite Z2Nat.id in Hn by lia.
  by replace (a + (b - a)) with b in Hn by lia.
Qed.

(** A day of the year [y] of a period. *)
Lemma year_of_day y doy : 0 <= y < 400 -> 0 <= doy < year_len y -> year_of (year_start y + doy) = y.
Proof.
  intros Hy Hd. pose proof years_ok as H. rewrite forallb_forall in H. specialize (H y).
  rewrite <- list_elem_of_In, elem_of_seqZ, andb_true_iff, !Z.eqb_eq in H. destruct H as [Hlo Hhi]; [lia|].
  assert (0 <= year_start y) by (unfold year_start; eucl).
  assert (year_start y + year_len y <= 146097) as Hend.
  { destruct (decide (y = 399)) as [->|]; [by vm_compute|]. rewrite <- year_start_next by lia. unfold year_start. eucl. }
  pose proof (year_of_mono (year_start y) (year_start y + doy) ltac:(lia) ltac:(lia)).
  pose proof (year_of_mono (year_start y + doy) (year_start y + year_len y - 1) ltac:(lia) ltac:(lia)). lia.
Qed.

Lemma day_of_year doe : 0 <= doe < 146097 ->
  exists y doy, 0 <= y < 400 /\ 0 <= doy < year_len y /\ doe = year_start y + doy.
Proof.
  intros Hd. assert (forall n : nat, (n <= 400)%nat -> doe < (if decide (n = 400%nat) then 146097 else year_start (Z.of_nat n)) ->
    exists y doy, 0 <= y < 400 /\ 0 <= doy < year_len y /\ doe = year_start y + doy) as Hn.
  { induction n as [|n IH]; intros Hle Hlt.
    - change (doe < 0) in Hlt. lia.
    - destruct (decide (doe < year_start (Z.of_nat n))) as [Hlt'|Hge].
      + apply IH; [lia|]. destruct (decide _); lia.
      + exists (Z.of_nat n), (doe - year_start (Z.of_nat n)). split_and!; try lia.
        destruct (decide (S n = 400%nat)) as [E|?].
        * replace (Z.of_nat n) with 399 in * by lia. change (year_start 399) with 145731. change (year_len 399) with 366. lia.
        * pose proof (year_start_next (Z.of_nat n) ltac:(lia)). replace (Z.of_nat (S n)) with (Z.of_nat n + 1) in Hlt by lia. lia. }
  apply (Hn 400%nat); [done|]. rewrite decide_True by done. lia.
Qed.

(** The days of a year from March, up to the 28th of February. *)
Definition date_eqb (a b : Z * Z) : bool := (a.1 =? b.1) && (a.2 =? b.2).
Definition month_next (doy : Z) : bool :=
  let '(m, d) := month_of doy in
  (1 <=? m) && (m <=? 12) && (1 <=? d) && (d <=? month_days 2001 m) &&
  (negb (m =? 2) || (d <? 28)) &&
  date_eqb (month_of (doy + 1))
    (if d <? month_days 2001 m then (m, d + 1) else if m <? 12 then (m + 1, 1) else (1, 1)).
Lemma months_ok : forallb month_next (seqZ 0 364) = true.
Proof. vm_compute. reflexivity. Qed.

Lemma month_days_2001 y m : m <> 2 -> month_days y m = month_days 2001 m.
Proof. intros Hm. unfold month_days. repeat case_match; congruence. Qed.

Lemma leap_era y k : leap (y + k * 400) = leap y.
Proof.
  unfold leap. rewrite Z.mod_add by lia.
  replace (y + k * 400) with (y + (k * 100) * 4) at 1 by lia.
  replace (y + k * 400) with (y + (k * 4) * 100) by lia. by rewrite !Z.mod_add by lia.
Qed.

Definition in_calendar (a : Z * Z * Z) : Prop :=
  1 <= a.1.2 <= 12 /\ 1 <= a.2 <= month_days a.1.1 a.1.2.

Lemma civil_at era y doy : 0 <= y < 400 -> 0 <= doy < year_len y ->
  civil (era * 146097 + year_start y + doy - 719468) =
  let '(m, d) := month_of doy in (y + era * 400 + (if m <=? 2 then 1 else 0), m, d).
Proof.
  intros Hy Hd. unfold civil.
  replace (era * 146097 + year_start y + doy - 719468 + 719468) with (year_start y + doy + era * 146097) by lia.
  assert (0 <= year_start y + doy < 146097).
  { assert (0 <= year_start y) by (unfold year_start; eucl). split; [lia|].
    destruct (decide (y = 399)) as [->|]; [change (year_start 399) with 145731; change (year_len 399) with 366 in Hd; lia|].
    pose proof (year_start_next y ltac:(lia)). assert (year_start (y + 1) < 146097) by (unfold year_start; eucl). lia. }
  rewrite Z.mod_add, Z.div_add, Z.mod_small, Z.div_small by lia.
  rewrite (year_of_day y doy) by lia. replace (year_start y + doy - year_start y) with doy by lia.
  by rewrite Z.add_0_l.
Qed.

Lemma month_step Y doy :
  0 <= doy < 364 ->
  let '(m, d) := month_of doy in
  let year m := Y + (if m <=? 2 then 1 else 0) in
  (let '(m', d') := month_of (doy + 1) in (year m', m', d')) = tomorrow (year m, m, d) /\
  in_calendar (year m, m, d).
Proof.
  intros Hd. pose proof months_ok as H. rewrite forallb_forall in H. specialize (H doy).
  rewrite <- list_elem_of_In, elem_of_seqZ in H. specialize (H ltac:(lia)). unfold month_next in H.
  destruct (month_of doy) as [m d], (month_of (doy + 1)) as [m' d'].
  rewrite !andb_true_iff, orb_true_iff, negb_true_iff in H. destruct H as [[[[[H1 H2] H3] H4] H5] H6].
  unfold date_eqb in H6. rewrite andb_true_iff, !Z.eqb_eq in H6. simpl in H6. destruct H6 as [-> ->].
  cbv zeta. assert (forall Y', month_days Y' m = month_days 2001 m \/ m = 2 /\ d < 28 <= month_days Y' m) as Hm.
  { intros Y'. destruct (decide (m = 2)) as [->|]; [right|left; by apply month_days_2001]. split; [done|]. unfold month_days. case_match; lia. }
  assert (m <> 2 \/ month_days 2001 m = 28) as H2001 by (destruct (decide (m = 2)) as [->|]; auto).
  unfold tomorrow, in_calendar. simpl fst. simpl snd.
  destruct (Hm (Y + (if m <=? 2 then 1 else 0))) as [->|(-> & ? & ?)].
  - destruct (d <? month_days 2001 m) eqn:Ed; [simpl; split; [done|lia]|].
    destruct (m <? 12) eqn:Em; simpl; (split; [|lia]); repeat f_equal; repeat case_match; lia.
  - change (month_days 2001 2) with 28 in *. replace (d <? 28) with true by lia.
    match goal with |- context [d <? ?x] => replace (d <? x) with true by lia end. split; [done|lia].
Qed.

Lemma leap_next y era : leap (y + era * 400 + 1) = leap (y + 1).
Proof. replace (y + era * 400 + 1) with (y + 1 + era * 400) by lia. apply leap_era. Qed.

(** A day is followed by the next date of the calendar. *)
Lemma civil_next day : civil (day + 1) = tomorrow (civil day) /\ in_calendar (civil day).
Proof.
  destruct (day_of_year ((day + 719468) mod 146097)) as (y & doy & Hy & Hdoy & E); [apply Z.mod_pos_bound; lia|].
  assert (exists era, day = era * 146097 + year_start y + doy - 719468) as [era ->].
  { exists ((day + 719468) / 146097). pose proof (Z.div_mod (day + 719468) 146097). lia. }
  clear E. rewrite (civil_at era y doy Hy Hdoy).
  pose proof (leap_next y era) as Hleap. unfold year_len in Hdoy.
  destruct (decide (doy < 364)) as [Hlt|Hge].
  { replace (era * 146097 + year_start y + doy - 719468 + 1) with (era * 146097 + year_start y + (doy + 1) - 719468) by lia.
    rewrite (civil_at era y (doy + 1)) by (pose proof (year_len_bounds y); lia).
    pose proof (month_step (y + era * 400) doy ltac:(lia)) as Hs. by destruct (month_of doy). }
  assert (civil (era * 146097 + year_start y + year_len y - 719468) = (y + 1 + era * 400, 3, 1)) as Hnext.
  { destruct (decide (y = 399)) as [->|].
    - change (year_start 399) with 145731. change (year_len 399) with 366.
      replace (era * 146097 + 145731 + 366 - 719468) with ((era + 1) * 146097 + year_start 0 + 0 - 719468) by (change (year_start 0) with 0; lia).
      rewrite civil_at by (change (year_len 0) with 365; lia). simpl. f_equal. f_equal. lia.
    - replace (era * 146097 + year_start y + year_len y - 719468) with (era * 146097 + year_start (y + 1) + 0 - 719468)
        by (rewrite (year_start_next y) by lia; lia).
      rewrite civil_at by (pose proof (year_len_bounds (y + 1)); lia). simpl. f_equal. f_equal. lia. }
  assert (month_of 364 = (2, 28)) as H364 by done. assert (month_of 365 = (2, 29)) as H365 by done.
  unfold year_len in Hnext. destruct (leap (y + 1)) eqn:El.
  - destruct (decide (doy = 364)) as [->|]; [|replace doy with 365 by lia].
    + replace (era * 146097 + year_start y + 364 - 719468 + 1) with (era * 146097 + year_start y + 365 - 719468) by lia.
      rewrite (civil_at era y 365) by (unfold year_len; rewrite ?El; lia). rewrite H364, H365. simpl.
      unfold tomorrow, in_calendar, month_days. simpl. rewrite Hleap. split; [done|lia].
    + replace (era * 146097 + year_start y + 365 - 719468 + 1) with (era * 146097 + year_start y + 366 - 719468) by lia.
      rewrite Hnext, H365. simpl. unfold tomorrow, in_calendar, month_days. simpl. rewrite Hleap. simpl.
      split; [|lia]. f_equal. f_equal. lia.
  - replace doy with 364 by lia.
    replace (era * 146097 + year_start y + 364 - 719468 + 1) with (era * 146097 + year_start y + 365 - 719468) by lia.
    rewrite Hnext, H364. simpl. unfold tomorrow, in_calendar, month_days. simpl. rewrite Hleap. simpl.
    split; [|lia]. f_equal. f_equal. lia.
Qed.

Definition date_lt (a b : Z * Z * Z) : Prop :=
  a.1.1 < b.1.1 \/ (a.1.1 = b.1.1 /\ (a.1.2 < b.1.2 \/ (a.1.2 = b.1.2 /\ a.2 < b.2))).

Lemma civil_step day : date_lt (civil day) (civil (day + 1)).
Proof.
  destruct (civil_next day) as [-> Hc]. destruct (civil day) as [[y m] d].
  unfold date_lt, tomorrow. destruct (d <? month_days y m); [cbn; lia|]. destruct (m <? 12); cbn; lia.
Qed.

Lemma civil_mono a b : a < b -> date_lt (civil a) (civil b).
Proof.
  intros Hab. replace b with (a + 1 + Z.of_nat (Z.to_nat (b - a - 1))) by lia.
  generalize (Z.to_nat (b - a - 1)) as n. clear Hab. induction n as [|n IH].
  - replace (a + 1 + Z.of_nat 0) with (a + 1) by lia. apply civil_step.
  - pose proof (civil_step (a + 1 + Z.of_nat n)) as Hs.
    replace (a + 1 + Z.of_nat n + 1) with (a + 1 + Z.of_nat (S n)) in Hs by lia. unfold date_lt in *. lia.
Qed.

Lemma civil_inj a b : civil a = civil b -> a = b.
Proof.
  intros E. destruct (Z.lt_trichotomy a b) as [Hl|[?|Hl]]; [|done|];
    apply civil_mono in Hl; rewrite E in Hl; unfold date_lt in Hl; lia.
Qed.

(** *** A timestamp is read back *)

Lemma byte_digit x : 0 <= x < 10 -> byteval (utod x) - 48 = x.
Proof. intros Hx. unfold utod. rewrite byteval_bytechr; lia. Qed.

Lemma appendInt2 x : 0 <= x < 100 -> String.length (appendInt x 2) = 2%nat /\ digits_value (appendInt x 2) = x.
Proof.
  intros Hx. unfold appendInt. rewrite Z.abs_eq by lia.
  replace (x <? 0) with false by lia. replace (x <? 100) with true by lia. cbn [Nat.eqb andb String.app]. split; [done|].
  unfold digits_value, digits_from. cbn [String.list_ascii_of_string foldl]. rewrite !byte_digit by eucl. eucl.
Qed.
Lemma appendInt4 x : 0 <= x < 10000 -> String.length (appendInt x 4) = 4%nat /\ digits_value (appendInt x 4) = x.
Proof.
  intros Hx. unfold appendInt. rewrite Z.abs_eq by lia.
  replace (x <? 0) with false by lia. replace (x <? 10000) with true by lia. cbn [Nat.eqb andb String.app]. split; [done|].
  unfold digits_value, digits_from. cbn [String.list_ascii_of_string foldl]. rewrite !byte_digit by eucl. eucl.
Qed.

Lemma str_app_inj a b c d : String.length a = String.length c -> a +:+ b = c +:+ d -> a = c /\ b = d.
Proof.
  revert c. induction a as [|x a IH]; intros [|y c]; cbn; try done. intros [= Hl] [= -> E].
  by destruct (IH c Hl E) as [-> ->].
Qed.

Lemma appendInt2_inj x y a b :
  0 <= x < 100 -> 0 <= y < 100 -> appendInt x 2 +:+ a = appendInt y 2 +:+ b -> x = y /\ a = b.
Proof.
  intros [Hx Ex]%appendInt2 [Hy Ey]%appendInt2 [E ?]%str_app_inj; [|congruence].
  split; [|done]. by rewrite <- Ex, <- Ey, E.
Qed.
Lemma appendInt4_inj x y a b :
  0 <= x < 10000 -> 0 <= y < 10000 -> appendInt x 4 +:+ a = appendInt y 4 +:+ b -> x = y /\ a = b.
Proof.
  intros [Hx Ex]%appendInt4 [Hy Ey]%appendInt4 [E ?]%str_app_inj; [|congruence].
  split; [|done]. by rewrite <- Ex, <- Ey, E.
Qed.

(** The years that RFC 3339 writes. *)
Definition rfc3339_time (t : time) : Prop := -62167219200 * Second <= t < 253402300800 * Second.

Lemma rfc3339_year t y m d :
  rfc3339_time t -> civil (Unix t / 86400) = (y, m, d) -> 0 <= y < 10000 /\ 1 <= m <= 12 /\ 1 <= d <= 31.
Proof.
  intros [Hlo Hhi] E. set (day := Unix t / 86400) in *.
  assert (-719528 <= day < 2932897) as Hd.
  { assert (-62167219200 <= Unix t < 253402300800) by (unfold Unix, Second in *; split; [apply Z.div_le_lower_bound|apply Z.div_lt_upper_bound]; lia).
    unfold day. split; [apply Z.div_le_lower_bound|apply Z.div_lt_upper_bound]; lia. }
  destruct (civil_next day) as [_ Hc]. rewrite E in Hc. unfold in_calendar in Hc. simpl fst in Hc. simpl snd in Hc.
  assert (month_days y m <= 31) by (unfold month_days; repeat case_match; lia).
  assert (civil (-719529) = (-1, 12, 31)) as Hfirst by reflexivity.
  assert (civil 2932897 = (10000, 1, 1)) as Hlast by reflexivity.
  pose proof (civil_mono (-719529) day ltac:(lia)) as H1. pose proof (civil_mono day 2932897 ltac:(lia)) as H2.
  rewrite Hfirst, E in H1. rewrite Hlast, E in H2. unfold date_lt in H1, H2. cbn in H1, H2. lia.
Qed.

Lemma FormatRFC3339_inj t u :
  rfc3339_time t -> rfc3339_time u -> FormatRFC3339 t = FormatRFC3339 u -> Unix t = Unix u.
Proof.
  intros Ht Hu. unfold FormatRFC3339.
  destruct (civil (Unix t / 86400)) as [[y m] d] eqn:Et, (civil (Unix u / 86400)) as [[y' m'] d'] eqn:Eu.
  destruct (rfc3339_year t y m d Ht Et) as (? & ? & ?), (rfc3339_year u y' m' d' Hu Eu) as (? & ? & ?).
  pose proof (Z.mod_pos_bound (Unix t) 86400 ltac:(lia)). pose proof (Z.mod_pos_bound (Unix u) 86400 ltac:(lia)).
  set (s := Unix t mod 86400) in *. set (s' := Unix u mod 86400) in *.
  assert (forall x, 0 <= x < 86400 -> 0 <= x / 3600 < 100 /\ 0 <= x / 60 mod 60 < 100 /\ 0 <= x mod 60 < 100) as Hs.
  { intros x Hx. split; [split; [apply Z.div_pos|apply Z.div_lt_upper_bound]; lia|].
    pose proof (Z.mod_pos_bound (x / 60) 60). pose proof (Z.mod_pos_bound x 60). lia. }
  destruct (Hs s) as (? & ? & ?), (Hs s') as (? & ? & ?); [done..|].
  intros [Ey E]%appendInt4_inj; [|done..]. injection E as E.
  apply appendInt2_inj in E as [Em E]; [|lia..]. injection E as E.
  apply appendInt2_inj in E as [Ed E]; [|lia..]. injection E as E.
  apply appendInt2_inj in E as [Eh E]; [|done..]. injection E as E.
  apply appendInt2_inj in E as [Emin E]; [|done..]. injection E as E.
  apply appendInt2_inj in E as [Es _]; [|done..]. subst y' m' d'.
  assert (Unix t / 86400 = Unix u / 86400) as Hday by (apply civil_inj; congruence).
  assert (forall x, 0 <= x < 86400 -> x = x / 3600 * 3600 + x / 60 mod 60 * 60 + x mod 60) as Hsec.
  { intros x Hx. replace (x / 3600) with (x / 60 / 60) by (rewrite Z.div_div by lia; done). eucl. }
  pose proof (Hsec s ltac:(done)). pose proof (Hsec s' ltac:(done)).
  assert (s = s') by congruence.
  pose proof (Z.div_mod (Unix t) 86400). pose proof (Z.div_mod (Unix u) 86400). lia.
Qed.
