(* ===== verification/GoEncoding.v ===== *)
(** * Encodings and hashing of the Go standard library

    [encoding/base64] (the two unpadded alphabets the program uses),
    [encoding/hex] and [crypto/sha256], executable, with the round-trip and
    length lemmas the other files need. *)

From S2P Require Import Prelude GoStrings.

(** ** Base64 without padding *)

(** [base64.RawURLEncoding] and [base64.RawStdEncoding] differ in two letters. *)
Inductive b64_alphabet := RawURLEncoding | RawStdEncoding.

Definition b64_char (enc : b64_alphabet) (i : Z) : ascii :=
  if i <? 26 then bytechr (65 + i)
  else if i <? 52 then bytechr (71 + i)
  else if i <? 62 then bytechr (i - 4)
  else if i =? 62 then (match enc with RawURLEncoding => "-" | RawStdEncoding => "+" end)%char
  else (match enc with RawURLEncoding => "_" | RawStdEncoding => "/" end)%char.

Definition b64_val (enc : b64_alphabet) (c : ascii) : option Z :=
  let b := byteval c in
  if (65 <=? b) && (b <=? 90) then Some (b - 65)
  else if (97 <=? b) && (b <=? 122) then Some (b - 71)
  else if (48 <=? b) && (b <=? 57) then Some (b + 4)
  else if Ascii.eqb c (b64_char enc 62) then Some 62
  else if Ascii.eqb c (b64_char enc 63) then Some 63
  else None.

(** [EncodeToString] *)
Fixpoint b64_encode (enc : b64_alphabet) (s : string) : string :=
  match s with
  | EmptyString => EmptyString
  | String a EmptyString =>
      String (b64_char enc (byteval a / 4))
        (String (b64_char enc (byteval a mod 4 * 16)) EmptyString)
  | String a (String b EmptyString) =>
      String (b64_char enc (byteval a / 4))
        (String (b64_char enc (byteval a mod 4 * 16 + byteval b / 16))
          (String (b64_char enc (byteval b mod 16 * 4)) EmptyString))
  | String a (String b (String c t)) =>
      String (b64_char enc (byteval a / 4))
        (String (b64_char enc (byteval a mod 4 * 16 + byteval b / 16))
          (String (b64_char enc (byteval b mod 16 * 4 + byteval c / 64))
            (String (b64_char enc (byteval c mod 64)) (b64_encode enc t))))
  end.

(** The decoder skips carriage returns and line feeds wherever they stand. *)
Fixpoint drop_newlines (s : string) : string :=
  match s with
  | EmptyString => EmptyString
  | String c t =>
      if (byteval c =? 10) || (byteval c =? 13) then drop_newlines t
      else String c (drop_newlines t)
  end.

Fixpoint b64_decode_quanta (enc : b64_alphabet) (s : string) : option string :=
  match s with
  | EmptyString => Some EmptyString
  | String _ EmptyString => None
  | String a (String b EmptyString) =>
      va ← b64_val enc a; vb ← b64_val enc b;
      Some (String (bytechr (va * 4 + vb / 16)) EmptyString)
  | String a (String b (String c EmptyString)) =>
      va ← b64_val enc a; vb ← b64_val enc b; vc ← b64_val enc c;
      Some (String (bytechr (va * 4 + vb / 16))
             (String (bytechr (vb mod 16 * 16 + vc / 4)) EmptyString))
  | String a (String b (String c (String d t))) =>
      va ← b64_val enc a; vb ← b64_val enc b; vc ← b64_val enc c; vd ← b64_val enc d;
      rest ← b64_decode_quanta enc t;
      Some (String (bytechr (va * 4 + vb / 16))
             (String (bytechr (vb mod 16 * 16 + vc / 4))
               (String (bytechr (vc mod 4 * 64 + vd)) rest)))
  end.

(** [DecodeString]; [None] is a [CorruptInputError]. *)
Definition b64_decode (enc : b64_alphabet) (s : string) : option string :=
  b64_decode_quanta enc (drop_newlines s).

(** ** Hexadecimal *)

Definition hex_digit (i : Z) : ascii := if i <? 10 then bytechr (48 + i) else bytechr (87 + i).

Definition hex_val (c : ascii) : option Z :=
  let b := byteval c in
  if (48 <=? b) && (b <=? 57) then Some (b - 48)
  else if (97 <=? b) && (b <=? 102) then Some (b - 87)
  else if (65 <=? b) && (b <=? 70) then Some (b - 55)
  else None.

(** [hex.EncodeToString] *)
Fixpoint hex_encode (s : string) : string :=
  match s with
  | EmptyString => EmptyString
  | String c t =>
      String (hex_digit (byteval c / 16)) (String (hex_digit (byteval c mod 16)) (hex_encode t))
  end.

(** [hex.DecodeString]; [None] covers [InvalidByteError] and [ErrLength]. *)
Fixpoint hex_decode (s : string) : option string :=
  match s with
  | EmptyString => Some EmptyString
  | String _ EmptyString => None
  | String a (String b t) =>
      va ← hex_val a; vb ← hex_val b; rest ← hex_decode t;
      Some (String (bytechr (va * 16 + vb)) rest)
  end.

(** ** SHA-256 *)

Module sha256.

Definition w32 (x : Z) : Z := Z.land x 4294967295.
Definition add (x y : Z) : Z := w32 (x + y).
Definition rotr (n x : Z) : Z := Z.lor (Z.shiftr x n) (w32 (Z.shiftl x (32 - n))).
Definition xor3 (x y z : Z) : Z := Z.lxor x (Z.lxor y z).

Definition Sigma0 (x : Z) := xor3 (rotr 2 x) (rotr 13 x) (rotr 22 x).
Definition Sigma1 (x : Z) := xor3 (rotr 6 x) (rotr 11 x) (rotr 25 x).
Definition sigma0 (x : Z) := xor3 (rotr 7 x) (rotr 18 x) (Z.shiftr x 3).
Definition sigma1 (x : Z) := xor3 (rotr 17 x) (rotr 19 x) (Z.shiftr x 10).
Definition Ch (e f g : Z) := Z.lxor (Z.land e f) (Z.land (Z.lxor e 4294967295) g).
Definition Maj (a b c : Z) := xor3 (Z.land a b) (Z.land a c) (Z.land b c).

Definition K : list Z :=
[1116352408; 1899447441; 3049323471; 3921009573; 961987163; 1508970993; 2453635748; 2870763221;
 3624381080; 310598401; 607225278; 1426881987; 1925078388; 2162078206; 2614888103; 3248222580;
 3835390401; 4022224774; 264347078; 604807628; 770255983; 1249150122; 1555081692; 1996064986;
 2554220882; 2821834349; 2952996808; 3210313671; 3336571891; 3584528711; 113926993; 338241895;
 666307205; 773529912; 1294757372; 1396182291; 1695183700; 1986661051; 2177026350; 2456956037;
 2730485921; 2820302411; 3259730800; 3345764771; 3516065817; 3600352804; 4094571909; 275423344;
 430227734; 506948616; 659060556; 883997877; 958139571; 1322822218; 1537002063; 1747873779;
 1955562222; 2024104815; 2227730452; 2361852424; 2428436474; 2756734187; 3204031479; 3329325298].

Record state := mkState { sa : Z; sb : Z; sc : Z; sd : Z; se : Z; sf : Z; sg : Z; sh : Z }.

Definition init : state :=
mkState 1779033703 3144134277 1013904242 2773480762 1359893119 2600822924 528734635 1541459225.

(** The message schedule: [ws] holds the last sixteen words, oldest first. *)
Fixpoint schedule (n : nat) (ws : list Z) : list Z :=
match n with
| O => []
| S n' =>
    let w := add (add (sigma1 (nth 14 ws 0)) (nth 9 ws 0)) (add (sigma0 (nth 1 ws 0)) (nth 0 ws 0)) in
    w :: schedule n' (tl ws ++ [w])
end.

Definition round (st : state) (kw : Z * Z) : state :=
let t1 := add (add (sh st) (Sigma1 (se st))) (add (Ch (se st) (sf st) (sg st)) (add kw.1 kw.2)) in
let t2 := add (Sigma0 (sa st)) (Maj (sa st) (sb st) (sc st)) in
mkState (add t1 t2) (sa st) (sb st) (sc st) (add (sd st) t1) (se st) (sf st) (sg st).

Definition block (st : state) (ws : list Z) : state :=
let st' := foldl round st (zip K (ws ++ schedule 48 ws)) in
mkState (add (sa st) (sa st')) (add (sb st) (sb st')) (add (sc st) (sc st'))
        (add (sd st) (sd st')) (add (se st) (se st')) (add (sf st) (sf st'))
        (add (sg st) (sg st')) (add (sh st) (sh st')).

(** Big-endian words of a byte string whose length is a multiple of four. *)
Fixpoint words (s : string) : list Z :=
match s with
| String a (String b (String c (String d t))) =>
    (((byteval a * 256 + byteval b) * 256 + byteval c) * 256 + byteval d) :: words t
| _ => []
end.

Fixpoint zeros (n : nat) : string :=
match n with O => EmptyString | S n' => String (bytechr 0) (zeros n') end.

(** The [n] low bytes of [z], most significant first. *)
Fixpoint be_bytes (n : nat) (z : Z) : string :=
match n with
| O => EmptyString
| S n' => String (bytechr (Z.shiftr z (8 * Z.of_nat n') mod 256)) (be_bytes n' z)
end.

Definition pad (s : string) : string :=
let n := String.length s in
let k := Z.to_nat ((55 - Z.of_nat n) mod 64) in
s +:+ String (bytechr 128) (zeros k) +:+ be_bytes 8 (8 * Z.of_nat n).

Fixpoint blocks (fuel : nat) (st : state) (ws : list Z) : state :=
match fuel, ws with
| O, _ | _, [] => st
| S f, _ => blocks f (block st (take 16 ws)) (drop 16 ws)
end.

Definition digest (st : state) : string :=
be_bytes 4 (sa st) +:+ be_bytes 4 (sb st) +:+ be_bytes 4 (sc st) +:+ be_bytes 4 (sd st) +:+
be_bytes 4 (se st) +:+ be_bytes 4 (sf st) +:+ be_bytes 4 (sg st) +:+ be_bytes 4 (sh st).

(** [sha256.Sum256].  The number of words is fuel for the number of blocks. *)
Definition Sum256 (s : string) : string :=
let ws := words (pad s) in digest (blocks (length ws) init ws).

End sha256.

Arguments sha256.Sum256 : simpl never.

(** FIPS 180-4 test vectors: one block, and two. *)
Example sha256_abc :
  hex_encode (sha256.Sum256 "abc")
  = "ba7816bf8f01cfea414140de5dae2223b00361a396177a9cb410ff61f20015ad".
Proof. vm_compute. reflexivity. Qed.

Example sha256_two_blocks :
  hex_encode (sha256.Sum256 "abcdbcdecdefdefgefghfghighijhijkijkljklmklmnlmnomnopnopq")
  = "248d6a61d20638b8e5c026930c3e6039a33ce45964ff2167f6ecedd419db06c1".
Proof. vm_compute. reflexivity. Qed.

(** ** Lemmas *)

Lemma be_bytes_length n z : String.length (sha256.be_bytes n z) = n.
Proof. induction n as [|n IH]; [done|]. cbn. by rewrite IH. Qed.

Lemma Sum256_length s : String.length (sha256.Sum256 s) = 32%nat.
Proof.
  unfold sha256.Sum256, sha256.digest. cbv zeta.
  by rewrite !str_length_app, !be_bytes_length.
Qed.

Lemma hex_encode_length s : String.length (hex_encode s) = (2 * String.length s)%nat.
Proof. induction s as [|c s IH]; [done|]. cbn [hex_encode String.length]. lia. Qed.

(** Induction by three bytes, the quantum of base64. *)
Lemma str_ind3 (P : string -> Prop) :
  P "" -> (forall a, P (String a "")) -> (forall a b, P (String a (String b ""))) ->
  (forall a b c t, P t -> P (String a (String b (String c t)))) -> forall s, P s.
Proof.
  intros H0 H1 H2 H3. fix IH 1. intros [|a [|b [|c t]]]; [done|done|done|].
  apply H3, IH.
Qed.

Lemma b64_encode_length enc s :
  String.length (b64_encode enc s) = Z.to_nat ((4 * Z.of_nat (String.length s) + 2) / 3).
Proof.
  induction s as [|a|a b|a b c t IH] using str_ind3; [done|done|done|].
  cbn [b64_encode String.length]. rewrite IH. eucl.
Qed.

Lemma b64_val_char enc i : 0 <= i < 64 -> b64_val enc (b64_char enc i) = Some i.
Proof.
  intros Hi. unfold b64_val, b64_char. cbv zeta.
  destruct (i <? 26) eqn:E1; [|destruct (i <? 52) eqn:E2; [|destruct (i <? 62) eqn:E3]].
  1-3: rewrite byteval_bytechr by lia; repeat decide_if; f_equal; lia.
  assert (i = 62 \/ i = 63) as [-> | ->] by lia; by destruct enc.
Qed.

(** An encoded byte is a letter, a digit or one of the alphabet's two signs. *)
Lemma b64_char_byte enc i :
  0 <= i < 64 ->
  let b := byteval (b64_char enc i) in
  48 <= b <= 57 \/ 65 <= b <= 90 \/ 97 <= b <= 122 \/ b = 43 \/ b = 45 \/ b = 47 \/ b = 95.
Proof.
  intros Hi. unfold b64_char. cbv zeta.
  destruct (i <? 26) eqn:E1; [|destruct (i <? 52) eqn:E2; [|destruct (i <? 62) eqn:E3]].
  1-3: rewrite byteval_bytechr by lia; lia.
  destruct (i =? 62), enc; vm_compute; tauto.
Qed.

(** What the bytes of an encoded string satisfy. *)
Fixpoint str_forall (P : ascii -> bool) (s : string) : bool :=
  match s with EmptyString => true | String c t => P c && str_forall P t end.

Definition b64_byte (c : ascii) : bool :=
  let b := byteval c in
  ((48 <=? b) && (b <=? 57)) || ((65 <=? b) && (b <=? 90)) || ((97 <=? b) && (b <=? 122))
  || (b =? 43) || (b =? 45) || (b =? 47) || (b =? 95).

Lemma b64_char_ok enc i : 0 <= i < 64 -> b64_byte (b64_char enc i) = true.
Proof. intros H. pose proof (b64_char_byte enc i H). unfold b64_byte. cbv zeta in *. lia. Qed.

Ltac byte_ranges :=
  repeat match goal with
    | c : ascii |- _ =>
        lazymatch goal with
        | _ : 0 <= byteval c < 256 |- _ => fail
        | _ => pose proof (byteval_range c)
        end
    end.

Lemma b64_encode_bytes enc s : str_forall b64_byte (b64_encode enc s) = true.
Proof.
  induction s as [|a|a b|a b c t IH] using str_ind3; [done|..];
    cbn [b64_encode str_forall]; byte_ranges; rewrite ?IH, !b64_char_ok by eucl; done.
Qed.

Lemma str_forall_no_byte P s c : str_forall P s = true -> P c = false -> ContainsByte s c = false.
Proof.
  intros Hs Hc. induction s as [|d s IH]; [done|]. cbn in *.
  apply andb_prop in Hs as [Hd Hs]. rewrite IH by done.
  destruct (Ascii.eqb d c) eqn:E; [|done]. apply Ascii.eqb_eq in E. congruence.
Qed.

Lemma drop_newlines_id s : str_forall b64_byte s = true -> drop_newlines s = s.
Proof.
  induction s as [|c s IH]; [done|]. cbn. intros [Hc Hs]%andb_prop.
  rewrite IH by done. unfold b64_byte in Hc.
  by replace ((byteval c =? 10) || (byteval c =? 13)) with false by lia.
Qed.

(** The bit recombinations of one quantum; [x] is what the next byte
    contributes to a shared sextet, zero at the end of input. *)
Lemma b64_byte1 a x : 0 <= a -> 0 <= x < 16 -> a / 4 * 4 + (a mod 4 * 16 + x) / 16 = a.
Proof. eucl. Qed.

Lemma b64_byte2 a b x : 0 <= b < 256 -> 0 <= x < 4 ->
  (a mod 4 * 16 + b / 16) mod 16 * 16 + (b mod 16 * 4 + x) / 4 = b.
Proof. eucl. Qed.

Lemma b64_byte3 b c : 0 <= c < 256 -> (b mod 16 * 4 + c / 64) mod 4 * 64 + c mod 64 = c.
Proof. eucl. Qed.

Lemma b64_decode_encode enc s : b64_decode enc (b64_encode enc s) = Some s.
Proof.
  unfold b64_decode. rewrite drop_newlines_id by apply b64_encode_bytes.
  induction s as [|a|a b|a b c t IH] using str_ind3; [done|..];
    cbn [b64_encode b64_decode_quanta]; byte_ranges; rewrite !b64_val_char by eucl;
    cbn [mbind option_bind]; rewrite ?IH; cbn [mbind option_bind].
  - rewrite <- (Z.add_0_r (byteval a mod 4 * 16)), b64_byte1, bytechr_byteval by lia. done.
  - rewrite <- (Z.add_0_r (byteval b mod 16 * 4)), b64_byte2, b64_byte1, !bytechr_byteval by eucl. done.
  - rewrite b64_byte3, b64_byte2, b64_byte1, !bytechr_byteval by eucl. done.
Qed.

Lemma b64_encode_utf8 enc s : encode_runes (runes (b64_encode enc s)) = b64_encode enc s.
Proof.
  apply runes_ascii_encode. pose proof (b64_encode_bytes enc s) as Hb.
  induction (b64_encode enc s) as [|c t IH]; [done|]. cbn in *. apply andb_prop in Hb as [Hc Ht].
  intros d [<-|Hd]; [|by apply IH]. unfold b64_byte in Hc. cbv zeta in Hc. lia.
Qed.
