(* ===== verification/GoJson.v ===== *)
(** * JSON as encoding/json reads it

    [json.NewDecoder(r).Decode(dst)]: the first value of the stream, scanned
    with Go's grammar, then stored in a struct or a slice of structs.  What
    follows the value is not looked at.  A reader that fails has broken off:
    the value must be complete before that. *)

From S2P Require Import Prelude GoStrings.

(** ** Values *)

Inductive json :=
| JNull
| JBool (b : bool)
| JNumber (literal : string)
| JString (s : string)
| JArray (l : list json)
| JObject (fields : list (string * json)).

(** The error texts of the package are not modelled, only their kind: a value
    that is malformed or cut short, a reader that failed, a value of another
    type than the destination. *)
Inductive jsonerr := SyntaxError | ReadError | UnmarshalTypeError.

Definition is_space (c : ascii) : bool :=
  let b := byteval c in (b =? 32) || (b =? 9) || (b =? 13) || (b =? 10).
Definition is_digit (c : ascii) : bool := (48 <=? byteval c) && (byteval c <=? 57).
Definition is_digit19 (c : ascii) : bool := (49 <=? byteval c) && (byteval c <=? 57).

Fixpoint skip_space (s : string) : string :=
  match s with
  | String c t => if is_space c then skip_space t else s
  | EmptyString => s
  end.

(** ** Strings *)

Definition hex4_digit (c : ascii) : option Z :=
  let b := byteval c in
  if (48 <=? b) && (b <=? 57) then Some (b - 48)
  else if (97 <=? b) && (b <=? 102) then Some (b - 87)
  else if (65 <=? b) && (b <=? 70) then Some (b - 55)
  else None.

(** The text between the quotes, as written, and what follows the closing
    one; [None] on a byte the scanner refuses or at the end of the input. *)
Fixpoint scan_string (s : string) : option (string * string) :=
  match s with
  | EmptyString => None
  | String c t =>
      if byteval c =? 34 then Some (EmptyString, t)
      else if byteval c =? 92 then
        match t with
        | EmptyString => None
        | String e t' =>
            if existsb (Ascii.eqb e) ["b"; "f"; "n"; "r"; "t"; "\"; "/"; ascii_of_nat 34]%char then
              '(lit, rest) ← scan_string t'; Some (String c (String e lit), rest)
            else if Ascii.eqb e "u" then
              match t' with
              | String h1 (String h2 (String h3 (String h4 t''))) =>
                  _ ← hex4_digit h1; _ ← hex4_digit h2; _ ← hex4_digit h3; _ ← hex4_digit h4;
                  '(lit, rest) ← scan_string t'';
                  Some (String c (String e (String h1 (String h2 (String h3 (String h4 lit))))), rest)
              | _ => None
              end
            else None
        end
      else if byteval c <? 32 then None
      else '(lit, rest) ← scan_string t; Some (String c lit, rest)
  end.

(** [getu4]: the code unit of a [\uXXXX] escape at the start of the text. *)
Definition getu4 (s : string) : option (Z * string) :=
  match s with
  | String b (String u (String h1 (String h2 (String h3 (String h4 rest))))) =>
      if (byteval b =? 92) && Ascii.eqb u "u" then
        d1 ← hex4_digit h1; d2 ← hex4_digit h2; d3 ← hex4_digit h3; d4 ← hex4_digit h4;
        Some (((d1 * 16 + d2) * 16 + d3) * 16 + d4, rest)
      else None
  | _ => None
  end.

Definition escape_byte (e : ascii) : ascii :=
  if Ascii.eqb e "b" then ascii_of_nat 8
  else if Ascii.eqb e "f" then ascii_of_nat 12
  else if Ascii.eqb e "n" then ascii_of_nat 10
  else if Ascii.eqb e "r" then ascii_of_nat 13
  else if Ascii.eqb e "t" then ascii_of_nat 9
  else e.

(** [utf16.DecodeRune]: U+FFFD unless the two are a surrogate pair. *)
Definition decode_surrogates (r1 r2 : Z) : Z :=
  if (55296 <=? r1) && (r1 <? 56320) && (56320 <=? r2) && (r2 <? 57344)
  then (r1 - 55296) * 1024 + (r2 - 56320) + 65536 else RuneError.

(** [unquote]: escapes replaced, bytes that are not UTF-8 turned to U+FFFD;
    [fuel] bounds the length of the text. *)
Fixpoint unquote (fuel : nat) (s : string) : string :=
  match fuel with
  | O => EmptyString
  | S fuel =>
      match s with
      | EmptyString => EmptyString
      | String c t =>
          if byteval c =? 92 then
            match getu4 s with
            | Some (rr, rest) =>
                if (55296 <=? rr) && (rr <? 57344) then
                  match getu4 rest with
                  | Some (rr1, rest1) =>
                      let dec := decode_surrogates rr rr1 in
                      if dec =? RuneError then encode_rune RuneError +:+ unquote fuel rest
                      else encode_rune dec +:+ unquote fuel rest1
                  | None => encode_rune RuneError +:+ unquote fuel rest
                  end
                else encode_rune rr +:+ unquote fuel rest
            | None =>
                match t with
                | String e t' => String (escape_byte e) (unquote fuel t')
                | EmptyString => EmptyString
                end
            end
          else
            match decode_step s with
            | Some (r, _, rest) => encode_rune r +:+ unquote fuel rest
            | None => EmptyString
            end
      end
  end.

(** ** Numbers *)

Fixpoint span (f : ascii -> bool) (s : string) : string * string :=
  match s with
  | String c t => if f c then let '(a, b) := span f t in (String c a, b) else (EmptyString, s)
  | EmptyString => (EmptyString, EmptyString)
  end.

Definition scan_exponent (s : string) : option (string * string) :=
  match s with
  | String e t =>
      if Ascii.eqb e "e" || Ascii.eqb e "E" then
        let '(sign, t) := match t with
                          | String c t' => if Ascii.eqb c "+" || Ascii.eqb c "-" then (String c "", t') else ("", t)
                          | EmptyString => ("", t)
                          end in
        let '(ds, rest) := span is_digit t in
        match ds with EmptyString => None | _ => Some (String e (sign +:+ ds), rest) end
      else Some (EmptyString, s)
  | EmptyString => Some (EmptyString, s)
  end.

Definition scan_fraction (s : string) : option (string * string) :=
  match s with
  | String c t =>
      if Ascii.eqb c "." then
        let '(ds, rest) := span is_digit t in
        match ds with
        | EmptyString => None
        | _ => '(ex, rest) ← scan_exponent rest; Some (String c (ds +:+ ex), rest)
        end
      else scan_exponent s
  | EmptyString => scan_exponent s
  end.

Definition scan_number (s : string) : option (string * string) :=
  let '(sign, t) := match s with
                    | String c t => if Ascii.eqb c "-" then (String c "", t) else ("", s)
                    | EmptyString => ("", s)
                    end in
  match t with
  | EmptyString => None
  | String c t' =>
      if Ascii.eqb c "0" then '(fr, rest) ← scan_fraction t'; Some (sign +:+ String c fr, rest)
      else if is_digit19 c then
        let '(ds, rest) := span is_digit t' in
        '(fr, rest) ← scan_fraction rest; Some (sign +:+ String c ds +:+ fr, rest)
      else None
  end.

(** ** The scanner *)

(** Containers nest at most this deep. *)
Definition maxNestingDepth : nat := 10000.

Definition strip (p s : string) : option string :=
  if HasPrefix s p then Some (str_drop (String.length p) s) else None.

(** One value and the rest of the input, after leading space.  [fuel] bounds
    the number of steps, [depth] the containers that may still be opened. *)
Fixpoint scan_value (fuel depth : nat) (s : string) : option (json * string) :=
  match fuel with
  | O => None
  | S fuel =>
      match skip_space s with
      | EmptyString => None
      | String c t as s' =>
          if Ascii.eqb c "{" then
            match depth with
            | O => None
            | S depth =>
                match skip_space t with
                | String d t' =>
                    if Ascii.eqb d "}" then Some (JObject [], t')
                    else '(fields, rest) ← scan_fields fuel depth (String d t'); Some (JObject fields, rest)
                | EmptyString => None
                end
            end
          else if Ascii.eqb c "[" then
            match depth with
            | O => None
            | S depth =>
                match skip_space t with
                | String d t' =>
                    if Ascii.eqb d "]" then Some (JArray [], t')
                    else '(l, rest) ← scan_elements fuel depth (String d t'); Some (JArray l, rest)
                | EmptyString => None
                end
            end
          else if byteval c =? 34 then
            '(lit, rest) ← scan_string t; Some (JString (unquote (String.length lit) lit), rest)
          else if Ascii.eqb c "-" || is_digit c then
            '(lit, rest) ← scan_number s'; Some (JNumber lit, rest)
          else
            match strip "true" s', strip "false" s', strip "null" s' with
            | Some rest, _, _ => Some (JBool true, rest)
            | _, Some rest, _ => Some (JBool false, rest)
            | _, _, Some rest => Some (JNull, rest)
            | None, None, None => None
            end
      end
  end
with scan_elements (fuel depth : nat) (s : string) : option (list json * string) :=
  match fuel with
  | O => None
  | S fuel =>
      '(v, rest) ← scan_value fuel depth s;
      match skip_space rest with
      | String c t =>
          if Ascii.eqb c "," then '(l, rest) ← scan_elements fuel depth t; Some (v :: l, rest)
          else if Ascii.eqb c "]" then Some ([v], t)
          else None
      | EmptyString => None
      end
  end
with scan_fields (fuel depth : nat) (s : string) : option (list (string * json) * string) :=
  match fuel with
  | O => None
  | S fuel =>
      match skip_space s with
      | String q t =>
          if byteval q =? 34 then
            '(lit, rest) ← scan_string t;
            match skip_space rest with
            | String c t =>
                if Ascii.eqb c ":" then
                  '(v, rest) ← scan_value fuel depth t;
                  let field := (unquote (String.length lit) lit, v) in
                  match skip_space rest with
                  | String c t =>
                      if Ascii.eqb c "," then '(l, rest) ← scan_fields fuel depth t; Some (field :: l, rest)
                      else if Ascii.eqb c "}" then Some ([field], t)
                      else None
                  | EmptyString => None
                  end
                else None
            | EmptyString => None
            end
          else None
      | EmptyString => None
      end
  end.

(** The first value of the stream, and what follows it. *)
Definition scan (s : string) : option (json * string) :=
  scan_value (2 * String.length s + 1) maxNestingDepth s.

(** ** Storing a value *)

(** Field names match up to case: of the names used here every letter folds
    only with its other case. *)
Fixpoint fold_name (s : string) : string :=
  match s with
  | EmptyString => EmptyString
  | String c t =>
      String (if (65 <=? byteval c) && (byteval c <=? 90) then bytechr (byteval c + 32) else c) (fold_name t)
  end.

(** [strconv.ParseInt(s, 10, 64)] on a literal of the JSON grammar. *)
Definition ParseInt (lit : string) : option Z :=
  let '(neg, ds) := match lit with
                    | String c t => if Ascii.eqb c "-" then (true, t) else (false, lit)
                    | EmptyString => (false, lit)
                    end in
  if forallb is_digit (String.list_ascii_of_string ds) then
    let n := foldl (fun acc c => acc * 10 + (byteval c - 48)) 0 (String.list_ascii_of_string ds) in
    let n := if neg : bool then - n else n in
    if (- 9223372036854775808 <=? n) && (n <=? 9223372036854775807) then Some n else None
  else None.

(** A field of a struct takes a value; [None] is an [UnmarshalTypeError], and
    null changes nothing. *)
Definition set_int64 (old : Z) (v : json) : option Z :=
  match v with JNull => Some old | JNumber lit => ParseInt lit | _ => None end.
Definition set_string (old : string) (v : json) : option string :=
  match v with JNull => Some old | JString s => Some s | _ => None end.
Definition set_bool (old : bool) (v : json) : option bool :=
  match v with JNull => Some old | JBool b => Some b | _ => None end.

(** A struct: the fields of the object in order, unknown ones skipped. *)
Fixpoint decode_fields {A} (set : string -> json -> A -> option A) (fields : list (string * json)) (a : A)
  : option A :=
  match fields with
  | [] => Some a
  | (k, v) :: fields => a ← set (fold_name k) v a; decode_fields set fields a
  end.
Definition decode_struct {A} (set : string -> json -> A -> option A) (zero : A) (v : json) : option A :=
  match v with
  | JNull => Some zero
  | JObject fields => decode_fields set fields zero
  | _ => None
  end.
Definition decode_slice {A} (elem : json -> option A) (v : json) : option (list A) :=
  match v with
  | JNull => Some []
  | JArray l => mapM elem l
  | _ => None
  end.

(** [json.NewDecoder(io.LimitReader(body, limit)).Decode(dst)]: the value must
    end within the limit and before the body breaks off, when [broken]; an array
    or object ends with its bracket, a literal only before another byte or at
    the end of the stream. *)
Definition is_container (v : json) : bool :=
  match v with JArray _ | JObject _ => true | _ => false end.

Definition Decode {A} (limit : Z) (dst : json -> option A) (body : string) (broken : bool) : jsonerr + A :=
  let short := Z.of_nat (String.length body) <? limit in
  let read := if short then body else str_take (Z.to_nat limit) body in
  match scan read with
  | None => inl (if broken && short then ReadError else SyntaxError)
  | Some (v, rest) =>
      if broken && short && negb (is_container v) && bool_decide (rest = "") then inl ReadError
      else match dst v with Some a => inr a | None => inl UnmarshalTypeError end
  end.

(** ** The scanner ends *)

(** [f] leaves less than it was given. *)
Definition consumes {A} (f : string -> option (A * string)) : Prop :=
  forall s a rest, f s = Some (a, rest) -> (String.length rest < String.length s)%nat.

Lemma skip_space_length s : (String.length (skip_space s) <= String.length s)%nat.
Proof. induction s as [|c s IH]; cbn; [lia|]. case_match; cbn; lia. Qed.

Lemma span_length f s a b : span f s = (a, b) -> (String.length b <= String.length s)%nat.
Proof.
  revert a b. induction s as [|c s IH]; intros a b; cbn; [by intros [= <- <-]|].
  destruct (f c); [|by intros [= <- <-]]. destruct (span f s) as [x y]. intros [= <- <-].
  specialize (IH x y eq_refl). lia.
Qed.

Lemma scan_exponent_length s a b : scan_exponent s = Some (a, b) -> (String.length b <= String.length s)%nat.
Proof.
  unfold scan_exponent. destruct s as [|e t]; [by intros [= <- <-]|]. destruct (_ || _); [|by intros [= <- <-]].
  destruct t as [|c t']; [cbn; done|]. destruct (_ || _); destruct (span _ _) as [ds rest] eqn:E;
    apply span_length in E; destruct ds; try done; intros [= <- <-]; cbn in *; lia.
Qed.

Lemma scan_fraction_length s a b : scan_fraction s = Some (a, b) -> (String.length b <= String.length s)%nat.
Proof.
  unfold scan_fraction. destruct s as [|c t]; [apply scan_exponent_length|].
  destruct (Ascii.eqb c "."); [|apply scan_exponent_length].
  destruct (span _ _) as [ds rest] eqn:E. apply span_length in E. destruct ds; [done|].
  destruct (scan_exponent rest) as [[ex r]|] eqn:Ee; [|done]. apply scan_exponent_length in Ee.
  intros [= <- <-]. cbn in *. lia.
Qed.

Lemma scan_number_consumes : consumes scan_number.
Proof.
  intros s a b. unfold scan_number.
  assert (forall (sign t : string), (String.length t <= String.length s)%nat ->
    match t with
    | EmptyString => None
    | String c t' =>
        if Ascii.eqb c "0" then '(fr, rest) ← scan_fraction t'; Some (sign +:+ String c fr, rest)
        else if is_digit19 c then
          let '(ds, rest) := span is_digit t' in
          '(fr, rest) ← scan_fraction rest; Some (sign +:+ String c ds +:+ fr, rest)
        else None
    end = Some (a, b) -> (String.length b < String.length s)%nat) as Ht.
  { intros sign [|c t] Hl; [done|]. cbn in Hl. destruct (Ascii.eqb c "0").
    - destruct (scan_fraction t) as [[fr r]|] eqn:E; [|done]. apply scan_fraction_length in E. intros [= <- <-]. lia.
    - destruct (is_digit19 c); [|done]. destruct (span _ _) as [ds r] eqn:E. apply span_length in E.
      destruct (scan_fraction r) as [[fr r']|] eqn:E'; [|done]. apply scan_fraction_length in E'. intros [= <- <-]. lia. }
  destruct s as [|c t]; [done|]. destruct (Ascii.eqb c "-").
  - apply (Ht (String c "") t). cbn. lia.
  - apply (Ht "" (String c t)). lia.
Qed.

Lemma scan_string_consumes : consumes scan_string.
Proof.
  intros s. induction s as [s IH] using (induction_ltof1 _ String.length). unfold ltof in IH.
  intros a b. destruct s as [|c t]; cbn; [done|]. destruct (_ =? 34); [intros [= <- <-]; lia|].
  destruct (_ =? 92).
  - destruct t as [|e t']; [done|]. destruct (_ || _).
    + destruct (scan_string t') as [[lit r]|] eqn:E; [|done]. apply IH in E; [|cbn; lia]. intros [= <- <-]. cbn. lia.
    + destruct (Ascii.eqb e "u"); [|done]. destruct t' as [|h1 [|h2 [|h3 [|h4 t'']]]]; try done.
      destruct (hex4_digit h1); [|done]. destruct (hex4_digit h2); [|done].
      destruct (hex4_digit h3); [|done]. destruct (hex4_digit h4); [|done]. cbn.
      destruct (scan_string t'') as [[lit r]|] eqn:E; [|done]. apply IH in E; [|cbn; lia]. intros [= <- <-]. cbn. lia.
  - destruct (_ <? 32); [done|].
    destruct (scan_string t) as [[lit r]|] eqn:E; [|done]. apply IH in E; [|cbn; lia]. intros [= <- <-]. lia.
Qed.

Lemma strip_length p s r : strip p s = Some r -> (String.length r + String.length p = String.length s)%nat.
Proof.
  unfold strip. destruct (HasPrefix s p) eqn:E; [|done]. intros [= <-]. apply HasPrefix_spec in E as [t ->].
  rewrite str_drop_app, str_length_app. lia.
Qed.

(** What is scanned is consumed. *)
Lemma scan_consumes n :
  (forall d, consumes (scan_value n d)) /\ (forall d, consumes (scan_elements n d)) /\
  (forall d, consumes (scan_fields n d)).
Proof.
  induction n as [|n (IHv & IHe & IHf)]; [done|]. split_and!; intros d s a rest.
  - cbn [scan_value]. pose proof (skip_space_length s) as Hs. destruct (skip_space s) as [|c t]; [done|]. cbn [String.length] in Hs.
    destruct (Ascii.eqb c "{").
    { destruct d as [|d]; [done|]. pose proof (skip_space_length t) as Ht. destruct (skip_space t) as [|e t']; [done|]. cbn in Ht.
      destruct (Ascii.eqb e "}"); [intros [= <- <-]; lia|].
      destruct (scan_fields n d (String e t')) as [[l r]|] eqn:E; [|done]. apply IHf in E. intros [= <- <-]. cbn in E. lia. }
    destruct (Ascii.eqb c "[").
    { destruct d as [|d]; [done|]. pose proof (skip_space_length t) as Ht. destruct (skip_space t) as [|e t']; [done|]. cbn in Ht.
      destruct (Ascii.eqb e "]"); [intros [= <- <-]; lia|].
      destruct (scan_elements n d (String e t')) as [[l r]|] eqn:E; [|done]. apply IHe in E. intros [= <- <-]. cbn in E. lia. }
    destruct (_ =? 34).
    { destruct (scan_string t) as [[l r]|] eqn:E; [|done]. apply scan_string_consumes in E. intros [= <- <-]. lia. }
    destruct (_ || _).
    { destruct (scan_number (String c t)) as [[l r]|] eqn:E; [|done]. apply scan_number_consumes in E. intros [= <- <-]. cbn in E. lia. }
    destruct (strip "true" (String c t)) as [r|] eqn:E1.
    { apply strip_length in E1. intros [= <- <-]. cbn in E1. lia. }
    destruct (strip "false" (String c t)) as [r|] eqn:E2.
    { apply strip_length in E2. intros [= <- <-]. cbn in E2. lia. }
    destruct (strip "null" (String c t)) as [r|] eqn:E3; [|done].
    apply strip_length in E3. intros [= <- <-]. cbn in E3. lia.
  - cbn [scan_elements]. destruct (scan_value n d s) as [[v r]|] eqn:E; [|done]. apply IHv in E. cbn.
    pose proof (skip_space_length r) as Hr. destruct (skip_space r) as [|c t]; [done|]. cbn in Hr.
    destruct (Ascii.eqb c ","); [|destruct (Ascii.eqb c "]"); [|done]; intros [= <- <-]; lia].
    destruct (scan_elements n d t) as [[l r']|] eqn:E'; [|done]. apply IHe in E'. intros [= <- <-]. lia.
  - cbn [scan_fields]. pose proof (skip_space_length s) as Hs. destruct (skip_space s) as [|q t]; [done|]. cbn in Hs.
    destruct (_ =? 34); [|done]. destruct (scan_string t) as [[lit r]|] eqn:E; [|done]. apply scan_string_consumes in E. cbn.
    pose proof (skip_space_length r) as Hr. destruct (skip_space r) as [|c t1]; [done|]. cbn in Hr.
    destruct (Ascii.eqb c ":"); [|done]. destruct (scan_value n d t1) as [[v r1]|] eqn:Ev; [|done]. apply IHv in Ev. cbn.
    pose proof (skip_space_length r1) as Hr1. destruct (skip_space r1) as [|c1 t2]; [done|]. cbn in Hr1.
    destruct (Ascii.eqb c1 ","); [|destruct (Ascii.eqb c1 "}"); [|done]; intros [= <- <-]; lia].
    destruct (scan_fields n d t2) as [[l r2]|] eqn:E'; [|done]. apply IHf in E'. intros [= <- <-]. lia.
Qed.

(** Fuel in proportion to the input is enough: more changes nothing. *)
Lemma scan_fuel n : forall m,
  (forall d s, (2 * String.length s + 1 <= n)%nat -> (2 * String.length s + 1 <= m)%nat ->
     scan_value n d s = scan_value m d s) /\
  (forall d s, (2 * String.length s + 2 <= n)%nat -> (2 * String.length s + 2 <= m)%nat ->
     scan_elements n d s = scan_elements m d s) /\
  (forall d s, (2 * String.length s + 2 <= n)%nat -> (2 * String.length s + 2 <= m)%nat ->
     scan_fields n d s = scan_fields m d s).
Proof.
  induction n as [|n IH]; intros m; [split_and!; intros; lia|].
  destruct m as [|m]; [split_and!; intros; lia|]. destruct (IH m) as (IHv & IHe & IHf). split_and!; intros d s Hn Hm.
  - cbn [scan_value]. pose proof (skip_space_length s) as Hs. destruct (skip_space s) as [|c t]; [done|]. cbn [String.length] in Hs.
    destruct (Ascii.eqb c "{").
    { destruct d as [|d]; [done|]. pose proof (skip_space_length t) as Ht. destruct (skip_space t) as [|e t']; [done|]. cbn in Ht.
      by rewrite IHf by (cbn; lia). }
    destruct (Ascii.eqb c "["); [|done].
    destruct d as [|d]; [done|]. pose proof (skip_space_length t) as Ht. destruct (skip_space t) as [|e t']; [done|]. cbn in Ht.
    by rewrite IHe by (cbn; lia).
  - cbn [scan_elements]. rewrite (IHv d s) by lia. destruct (scan_value m d s) as [[v r]|] eqn:E; [|done]. cbn.
    apply (proj1 (scan_consumes m)) in E. pose proof (skip_space_length r) as Hr. destruct (skip_space r) as [|c t]; [done|]. cbn in Hr.
    by rewrite (IHe d t) by lia.
  - cbn [scan_fields]. pose proof (skip_space_length s) as Hs. destruct (skip_space s) as [|q t]; [done|]. cbn in Hs.
    destruct (_ =? 34); [|done]. destruct (scan_string t) as [[lit r]|] eqn:E; [|done]. apply scan_string_consumes in E. cbn.
    pose proof (skip_space_length r) as Hr. destruct (skip_space r) as [|c t1]; [done|]. cbn in Hr.
    destruct (Ascii.eqb c ":"); [|done]. rewrite (IHv d t1) by lia.
    destruct (scan_value m d t1) as [[v r1]|] eqn:Ev; [|done]. cbn. apply (proj1 (scan_consumes m)) in Ev.
    pose proof (skip_space_length r1) as Hr1. destruct (skip_space r1) as [|c1 t2]; [done|]. cbn in Hr1.
    by rewrite (IHf d t2) by lia.
Qed.

(** [scan] never fails for want of fuel. *)
Lemma scan_enough s n :
  (2 * String.length s + 1 <= n)%nat -> scan_value n maxNestingDepth s = scan s.
Proof. intros Hn. apply (proj1 (scan_fuel n (2 * String.length s + 1))); lia. Qed.

(** ** Examples *)

Definition q (s : string) : string := String (ascii_of_nat 34) (s +:+ String (ascii_of_nat 34) "").

Example scan_object :
  scan (" {" +:+ q "id" +:+ ": 583231, " +:+ q "x\u00e9\ud83d\ude00\n" +:+ ":[null,-1.5e+3,{}]} trailing") =
  Some (JObject [("id", JNumber "583231");
                 ("x" +:+ encode_runes [233; 128512] +:+ String (ascii_of_nat 10) "", JArray [JNull; JNumber "-1.5e+3"; JObject []])],
        " trailing").
Proof. vm_compute. reflexivity. Qed.
Example scan_refusals :
  scan "" = None /\ scan "{" = None /\ scan "[1,]" = None /\ scan "01x" = Some (JNumber "0", "1x") /\
  scan (q "\x") = None /\ scan "[1 2]" = None /\ scan "-" = None /\ scan "nul" = None.
Proof. vm_compute. done. Qed.
Example lone_surrogate : scan (q "\ud800!") = Some (JString (encode_rune RuneError +:+ "!"), "").
Proof. vm_compute. reflexivity. Qed.
