(* ===== verification/Errors.v ===== *)
(** * Errors

    Go errors as the program builds them.  A sentinel ([errors.New] held in a
    package variable) is a constructor; [fmt.Errorf] with [%w] builds a
    wrapping node; the program's own error types are nodes of their own.
    [errors.Is] and [errors.As] are the traversals of the tree Go performs. *)

From S2P Require Import Prelude GoTime.

(** ** Sentinels, by package *)

(** store/errors.go *)
Module store.
Inductive sentinel :=
| ErrUserNotFound
| ErrUserExists
| ErrTokenNotFound
| ErrTokenRevoked
| ErrTokenExpired
| ErrPATExists
| ErrPATLimitReached
| ErrCredentialNotFound
| ErrOAuthIdentityNotFound
| ErrOAuthIdentityExists
| ErrWalletIdentityNotFound
| ErrWalletIdentityExists
| ErrChallengeNotFound
| ErrChallengeExpired.
End store.

(** auth/service.go, auth/validation.go, auth/oauth.go, auth/wallet.go *)
Module auth.
Inductive sentinel :=
| ErrUserNotFound
| ErrInvalidCredentials
| ErrUserExists
| ErrTokenRevoked
| ErrTokenExpired
| ErrTokenReuse
| ErrPATNotFound
| ErrPATDisabled
| ErrPATLimitReached
| ErrPATNameRequired
| ErrPATNameTooLong
| ErrPATExpiryInvalid
| ErrProviderNotConfigured
| ErrPasswordTooShort
| ErrPasswordTooLong
| ErrInvalidEmail
| ErrOAuthDisabled
| ErrOAuthProviderUnknown
| ErrOAuthStateInvalid
| ErrOAuthExchangeFailed
| ErrOAuthEmailRequired
| ErrOAuthEmailUnverified
| ErrOAuthLinkDisabled
| ErrOAuthAccountHasPassword
| ErrWalletDisabled
| ErrWalletChainUnsupported
| ErrWalletAddressInvalid
| ErrWalletChallengeInvalid.
End auth.

(** provider/oauth/oauth.go *)
Module oauth.
Inductive sentinel :=
| ErrRedirectURINotAllowed
| ErrMissingAuthParams
| ErrInvalidToken.
End oauth.

(** provider/wallet/provider.go *)
Module wallet.
Inductive sentinel := ErrUnsupportedChain.
End wallet.

(** provider/wallet/evm/evm.go *)
Module evm.
Inductive sentinel := ErrInvalidAddress | ErrInvalidSignature.
End evm.

Inductive sentinel :=
| StoreErr (s : store.sentinel)
| AuthErr (s : auth.sentinel)
| OAuthErr (s : oauth.sentinel)
| WalletErr (s : wallet.sentinel)
| EvmErr (s : evm.sentinel).

Coercion StoreErr : store.sentinel >-> sentinel.
Coercion AuthErr : auth.sentinel >-> sentinel.
Coercion OAuthErr : oauth.sentinel >-> sentinel.
Coercion WalletErr : wallet.sentinel >-> sentinel.
Coercion EvmErr : evm.sentinel >-> sentinel.

#[export] Instance store_sentinel_eq_dec : EqDecision store.sentinel.
Proof. solve_decision. Defined.
#[export] Instance auth_sentinel_eq_dec : EqDecision auth.sentinel.
Proof. solve_decision. Defined.
#[export] Instance oauth_sentinel_eq_dec : EqDecision oauth.sentinel.
Proof. solve_decision. Defined.
#[export] Instance wallet_sentinel_eq_dec : EqDecision wallet.sentinel.
Proof. solve_decision. Defined.
#[export] Instance evm_sentinel_eq_dec : EqDecision evm.sentinel.
Proof. solve_decision. Defined.
#[export] Instance sentinel_eq_dec : EqDecision sentinel.
Proof. solve_decision. Defined.

(** ** Error values *)

(** A piece of a formatted message: literal text or an argument with its verb. *)
Inductive frag :=
| Lit (s : string)
| ArgS (s : string)     (* %s *)
| ArgQ (s : string)     (* %q *)
| ArgV (text : string)  (* %v of a library's error *)
| ArgD (z : Z)          (* %d *)
| ArgDur (d : duration) (* %s of a Duration *).

(** audit.go: [accountChange] *)
Record accountChange := mkAccountChange {
  ac_userID : string;
  ac_created : bool;
  ac_linked : bool
}.

Inductive error :=
| ESentinel (s : sentinel)
| EForeign (text : string)
    (* an error of a library the program calls *)
| ENew (text : string)
    (* errors.New of a text of the program, no sentinel *)
| EWrap (pre : list frag) (e : error) (post : list frag)
    (* fmt.Errorf("<pre>%w<post>", e) *)
| EWrap2 (e1 e2 : error) (post : list frag)
    (* fmt.Errorf("%w: %w<post>", e1, e2) *)
| ETokenReuse (userID : string)              (* *TokenReuseError *)
| ECredentials (reason userID : string)      (* *CredentialsError *)
| EAccount (change : accountChange) (e : error) (* *accountError *)
| EErrorf (text : list frag)
    (* fmt.Errorf of a text that wraps nothing *)
| EJoin (e1 e2 : error)
    (* errors.Join of two errors *).

Coercion ESentinel : sentinel >-> error.

#[export] Instance frag_eq_dec : EqDecision frag.
Proof. solve_decision. Defined.
#[export] Instance accountChange_eq_dec : EqDecision accountChange.
Proof. solve_decision. Defined.
#[export] Instance error_eq_dec : EqDecision error.
Proof. solve_decision. Defined.

(** A Go function returning [(T, error)] is a [res T]: exactly one of the two
    is meaningful in the code modelled here.  The one exception,
    [RotateRefreshToken], which returns a token together with an error, has
    its own result type in [Ports.v]. *)
Inductive res (A : Type) : Type :=
| Ok (a : A)
| Err (e : error).
Arguments Ok {A} a.
Arguments Err {A} e.

(** [fmt.Errorf("<op>: %w", e)] *)
Definition wrap (op : string) (e : error) : error := EWrap [Lit op; Lit ": "] e [].

(** [fmt.Errorf("%w: %s", e, s)] *)
Definition wrapS (e : error) (s : string) : error := EWrap [] e [Lit ": "; ArgS s].

(** [errors.Is(err, target)] for a sentinel target: the node itself, its [Is]
    method if it has one, then what it unwraps to, depth first. *)
Fixpoint errors_Is (e : error) (t : sentinel) : bool :=
  match e with
  | ESentinel s => bool_decide (s = t)
  | EForeign _ | ENew _ | EErrorf _ => false
  | EWrap _ e' _ => errors_Is e' t
  | EWrap2 e1 e2 _ | EJoin e1 e2 => errors_Is e1 t || errors_Is e2 t
  | ETokenReuse _ =>
      bool_decide (t = AuthErr auth.ErrTokenReuse)
      || bool_decide (t = AuthErr auth.ErrInvalidCredentials)
  | ECredentials _ _ => bool_decide (t = AuthErr auth.ErrInvalidCredentials)
  | EAccount _ e' => errors_Is e' t
  end.

(** [errors.As(err, **CredentialsError)] *)
Fixpoint as_credentials (e : error) : option (string * string) :=
  match e with
  | ECredentials reason userID => Some (reason, userID)
  | EWrap _ e' _ | EAccount _ e' => as_credentials e'
  | EWrap2 e1 e2 _ | EJoin e1 e2 =>
      match as_credentials e1 with Some c => Some c | None => as_credentials e2 end
  | _ => None
  end.

(** [errors.As(err, **TokenReuseError)] *)
Fixpoint as_token_reuse (e : error) : option string :=
  match e with
  | ETokenReuse userID => Some userID
  | EWrap _ e' _ | EAccount _ e' => as_token_reuse e'
  | EWrap2 e1 e2 _ | EJoin e1 e2 =>
      match as_token_reuse e1 with Some u => Some u | None => as_token_reuse e2 end
  | _ => None
  end.

(** audit.go: [failedAccount], i.e. [errors.As(err, **accountError)] *)
Fixpoint failedAccount (e : error) : option accountChange :=
  match e with
  | EAccount change _ => Some change
  | EWrap _ e' _ => failedAccount e'
  | EWrap2 e1 e2 _ | EJoin e1 e2 =>
      match failedAccount e1 with Some c => Some c | None => failedAccount e2 end
  | _ => None
  end.

(** An infrastructure failure: an error that matches no sentinel of the
    program and is none of its error types, such as a driver error. *)
Fixpoint infrastructure (e : error) : bool :=
  match e with
  | EForeign _ => true
  | EWrap _ e' _ => infrastructure e'
  | EWrap2 e1 e2 _ | EJoin e1 e2 => infrastructure e1 && infrastructure e2
  | ESentinel _ | ENew _ | ETokenReuse _ | ECredentials _ _ | EAccount _ _ | EErrorf _ => false
  end.

Lemma infrastructure_Is e t : infrastructure e = true -> errors_Is e t = false.
Proof.
  induction e as [| | |? e IH|e1 IH1 e2 IH2| | | | |e1 IH1 e2 IH2]; try done;
    cbn; intros [H1 H2]%andb_prop; by rewrite IH1, IH2.
Qed.

(** The same, seen through the account the failure is reported for. *)
Fixpoint unavailable (e : error) : bool :=
  match e with
  | EForeign _ => true
  | EWrap _ e' _ => unavailable e'
  | EWrap2 e1 e2 _ | EJoin e1 e2 => unavailable e1 && unavailable e2
  | EAccount _ e' => unavailable e'
  | ESentinel _ | ENew _ | ETokenReuse _ | ECredentials _ _ | EErrorf _ => false
  end.

Lemma unavailable_Is e t : unavailable e = true -> errors_Is e t = false.
Proof.
  induction e as [| | |? e IH|e1 IH1 e2 IH2| | | | |e1 IH1 e2 IH2]; try done; cbn; auto;
    intros [H1 H2]%andb_prop; by rewrite IH1, IH2.
Qed.

Lemma infrastructure_unavailable e : infrastructure e = true -> unavailable e = true.
Proof.
  induction e as [| | |? e IH|e1 IH1 e2 IH2| | | | |e1 IH1 e2 IH2]; try done; cbn;
    intros [H1 H2]%andb_prop; by rewrite IH1, IH2.
Qed.

(** ** Login failure reasons (auth/audit.go) *)

Definition ReasonUnknownUser : string := "unknown_user".
Definition ReasonBadPassword : string := "bad_password".
Definition ReasonNoPassword : string := "no_password".
Definition ReasonMalformedCredentials : string := "malformed_credentials".
Definition ReasonInvalidCredentials : string := "invalid_credentials".
