(* ===== verification/Entity.v ===== *)
(** * Entities

    The structs of package entity, field for field.  A nil slice and an empty
    one are not told apart; a [*time.Time] is an [option]. *)

From S2P Require Import Prelude GoTime.

(** ** entity/identity.go *)

Definition ProviderTypeLocal : string := "local".
Definition ProviderTypeGoogle : string := "google".
Definition ProviderTypeGitHub : string := "github".
Definition ProviderTypeWallet : string := "wallet".

Record Identity := mkIdentity {
  identity_UserID : string;
  identity_Email : string;
  identity_Provider : string;
  identity_Metadata : gmap string string
}.

Record OAuthIdentity := mkOAuthIdentity {
  oi_ID : string;
  oi_UserID : string;
  oi_Provider : string;
  oi_ExternalID : string;
  oi_Email : string;
  oi_CreatedAt : time
}.

Record WalletIdentity := mkWalletIdentity {
  wi_ID : string;
  wi_UserID : string;
  wi_Chain : string;
  wi_Address : string;
  wi_CreatedAt : time
}.

Record Challenge := mkChallenge {
  ch_Nonce : string;
  ch_Message : string;
  ch_Chain : string;
  ch_Address : string;
  ch_CodeVerifier : string;
  ch_OAuthNonce : string;
  ch_BindingHash : string;
  ch_ExpiresAt : time;
  ch_CreatedAt : time
}.

(** ** entity/request.go *)

Record AuthRequest := mkAuthRequest { areq_Email : string; areq_Password : string }.
Record RegisterRequest := mkRegisterRequest { rreq_Email : string; rreq_Password : string }.

(** ** entity/token.go *)

Record TokenPair := mkTokenPair {
  tp_AccessToken : string;
  tp_RefreshToken : string;
  tp_ExpiresIn : Z
}.

Record Claims := mkClaims {
  claims_UserID : string;
  claims_Email : string;
  claims_Roles : list string;
  claims_Issuer : string;
  claims_Exp : Z;
  claims_Iat : Z
}.

Record RefreshToken := mkRefreshToken {
  rt_Hash : string;
  rt_UserID : string;
  rt_Parent : string;
  rt_ExpiresAt : time;
  rt_CreatedAt : time;
  rt_Revoked : bool;
  rt_RotatedAt : option time;
  rt_EndedAt : option time
}.

Record RefreshFamily := mkRefreshFamily {
  rf_SessionEnded : bool;
  rf_LastRotatedAt : option time
}.

Record PersonalAccessToken := mkPAT {
  pat_ID : string;
  pat_Hash : string;
  pat_UserID : string;
  pat_Name : string;
  pat_Scopes : list string;
  pat_ExpiresAt : option time;
  pat_LastUsedAt : option time;
  pat_CreatedAt : time
}.

(** ** entity/user.go *)

Record User := mkUser {
  user_ID : string;
  user_Email : string;
  user_Roles : list string;
  user_CreatedAt : time;
  user_UpdatedAt : time
}.

#[export] Instance User_eq_dec : EqDecision User.
Proof. solve_decision. Defined.
#[export] Instance RefreshToken_eq_dec : EqDecision RefreshToken.
Proof. solve_decision. Defined.
#[export] Instance RefreshFamily_eq_dec : EqDecision RefreshFamily.
Proof. solve_decision. Defined.
#[export] Instance PersonalAccessToken_eq_dec : EqDecision PersonalAccessToken.
Proof. solve_decision. Defined.
#[export] Instance OAuthIdentity_eq_dec : EqDecision OAuthIdentity.
Proof. solve_decision. Defined.
#[export] Instance WalletIdentity_eq_dec : EqDecision WalletIdentity.
Proof. solve_decision. Defined.
#[export] Instance Challenge_eq_dec : EqDecision Challenge.
Proof. solve_decision. Defined.
#[export] Instance TokenPair_eq_dec : EqDecision TokenPair.
Proof. solve_decision. Defined.
#[export] Instance Claims_eq_dec : EqDecision Claims.
Proof. solve_decision. Defined.
