(* ===== verification/Ports.v ===== *)
(** * Ports: the interfaces between components, and programs over them

    auth/ports.go declares the store interfaces the service is written
    against.  Here every method of those interfaces is a constructor of
    [storeE], indexed by its result type; a store implementation interprets
    them ([StoreImpl]).  The service, the providers and the handlers are
    [prog]rams: trees of effects (store calls, clock reads, randomness, log
    records) ended by a result.  A program is run against a store and an
    environment oracle ([run]); Concurrency.v interleaves several. *)

From S2P Require Import Prelude GoTime Errors Entity.

(** ** Store calls *)

(** [RotateRefreshToken] returns the token also with [ErrTokenRevoked] and
    [ErrTokenExpired]. *)
Inductive rotation :=
| Rotated (t : RefreshToken)
| RotateErr (t : option RefreshToken) (e : error).

(** A saving call takes a pointer and may stamp [CreatedAt]; the struct as the
    call leaves it is the [Ok] result. *)
Inductive storeE : Type -> Type :=
(* UserStore *)
| Create (user : User) : storeE (res User)
| GetByID (id : string) : storeE (res User)
| GetByEmail (email : string) : storeE (res User)
| Delete (id : string) : storeE (res unit)
(* TokenStore *)
| SaveRefreshToken (token : RefreshToken) : storeE (res RefreshToken)
| GetRefreshToken (hash : string) : storeE (res RefreshToken)
| RevokeTokens (hash : string) : storeE (res unit)
| RotateRefreshToken (hash : string) (now : time) : storeE rotation
| GetRefreshFamily (root : string) : storeE (res RefreshFamily)
(* PATStore *)
| SavePAT (pat : PersonalAccessToken) : storeE (res PersonalAccessToken)
| SavePATLimited (pat : PersonalAccessToken) (limit : Z) (now : time)
    : storeE (res PersonalAccessToken)
| GetPAT (hash : string) : storeE (res PersonalAccessToken)
| ListPATs (userID : string) : storeE (res (list PersonalAccessToken))
| DeletePAT (userID id : string) : storeE (res unit)
| TouchPAT (hash : string) (t : time) : storeE (res unit)
(* OAuthIdentityStore *)
| SaveOAuthIdentity (identity : OAuthIdentity) : storeE (res OAuthIdentity)
| GetOAuthIdentity (provider externalID : string) : storeE (res OAuthIdentity)
| ListOAuthIdentities (userID : string) : storeE (res (list OAuthIdentity))
(* WalletIdentityStore *)
| SaveWalletIdentity (identity : WalletIdentity) : storeE (res WalletIdentity)
| GetWalletIdentity (chain address : string) : storeE (res WalletIdentity)
| ListWalletIdentities (userID : string) : storeE (res (list WalletIdentity))
(* ChallengeStore *)
| SaveChallenge (challenge : Challenge) : storeE (res Challenge)
| GetChallenge (nonce : string) : storeE (res Challenge)
| DeleteChallenge (nonce : string) : storeE (res unit)
(* CredentialStore *)
| SavePasswordHash (userID hash : string) : storeE (res unit)
| GetPasswordHash (userID : string) : storeE (res string).

(** What a store call reads of its surroundings: the wall clock
    ([time.Now()], at most once per call) and a seed for the order in which
    Go ranges over a map. *)
Record callenv := mkCallenv { ce_now : time; ce_seed : nat }.

(** A store implementation with state [S]. *)
Class StoreImpl (S : Type) :=
  store_call : forall X, storeE X -> callenv -> S -> X * S.
Arguments store_call {S _} {X} c env s.

(** ** Effects *)

Inductive level := LevelDebug | LevelInfo | LevelWarn | LevelError.

Inductive attrval :=
| AString (s : string)
| ABool (b : bool)
| AInt (z : Z)
| ADuration (d : duration)
| AError (e : error).

Record logrec := mkLog {
  log_audit : bool;     (* written to the audit logger *)
  log_level : level;
  log_msg : string;
  log_attrs : list (string * attrval)
}.

(** An HTTP exchange with an OAuth provider. *)
Record httpreq := mkHttpreq {
  hr_Method : string;
  hr_URL : string;
  hr_Header : list (string * string);
  hr_Body : string
}.
(** [hp_Broken]: reading the body fails after [hp_Body]. *)
Record httpresp := mkHttpresp { hp_StatusCode : Z; hp_Body : string; hp_Broken : bool }.

Inductive eff : Type -> Type :=
| Store {X} (c : storeE X) : eff X
| TimeNow : eff time                        (* time.Now() *)
| RandRead (n : nat) : eff (res string)     (* crypto/rand.Read of n bytes *)
| UUIDNewV7 : eff (res string)              (* uuid.NewV7().String() *)
| UUIDNewString : eff string                (* uuid.NewString() *)
| GenerateVerifier : eff string             (* oauth2.GenerateVerifier() *)
| HTTP (r : httpreq) : eff (res httpresp)   (* http.Client.Do *)
| Log (r : logrec) : eff unit.

(** ** Programs *)

Inductive prog (A : Type) : Type :=
| Ret (a : A)
| Vis {X : Type} (e : eff X) (k : X -> prog A).
Arguments Ret {A} a.
Arguments Vis {A X} e k.

Fixpoint bind {A B} (p : prog A) (f : A -> prog B) : prog B :=
  match p with
  | Ret a => f a
  | Vis e k => Vis e (fun x => bind (k x) f)
  end.

Definition perform {X} (e : eff X) : prog X := Vis e Ret.
Definition call {X} (c : storeE X) : prog X := perform (Store c).
Definition time_Now : prog time := perform TimeNow.
Definition log (r : logrec) : prog unit := perform (Log r).

Declare Scope prog_scope.
Delimit Scope prog_scope with prog.

Notation "'let*' x := p 'in' q" := (bind p (fun x => q))
  (at level 200, x name, p at level 100, q at level 200, right associativity) : prog_scope.
Notation "p ;;; q" := (bind p (fun _ => q)) (at level 199, right associativity) : prog_scope.

(** [x, err := p; if err != nil { return <h> }; q] *)
Notation "'try' x := p 'catch' e => h 'in' q" :=
  (bind p (fun r => match r with Ok x => q | Err e => h end))
  (at level 200, x name, e name, p at level 100, h at level 200, q at level 200,
   right associativity) : prog_scope.

(** ** Running a program *)

(** The outside world: what the clock, the randomness source and the UUID and
    verifier generators answer at each tick. *)
Record oracle := mkOracle {
  o_now : nat -> time;
  o_rand : nat -> nat -> res string;
  o_uuid7 : nat -> res string;
  o_uuid4 : nat -> string;
  o_verifier : nat -> string;
  o_http : nat -> httpreq -> res httpresp
}.

Record world (S : Type) := mkWorld {
  w_store : S;
  w_tick : nat;
  w_log : list logrec
}.
Arguments mkWorld {S} _ _ _.
Arguments w_store {S} _.
Arguments w_tick {S} _.
Arguments w_log {S} _.

Section run.
Context {S : Type} `{!StoreImpl S} (o : oracle).

Definition tick (w : world S) : world S := mkWorld (w_store w) (Datatypes.S (w_tick w)) (w_log w).

(** One effect.  Every effect but logging advances the tick. *)
Definition handle {X} (e : eff X) : world S -> X * world S :=
  match e in eff X return world S -> X * world S with
  | Store c => fun w =>
      let n := w_tick w in
      let '(x, s) := store_call c (mkCallenv (o_now o n) n) (w_store w) in
      (x, mkWorld s (Datatypes.S n) (w_log w))
  | TimeNow => fun w => (o_now o (w_tick w), tick w)
  | RandRead n => fun w => (o_rand o (w_tick w) n, tick w)
  | UUIDNewV7 => fun w => (o_uuid7 o (w_tick w), tick w)
  | UUIDNewString => fun w => (o_uuid4 o (w_tick w), tick w)
  | GenerateVerifier => fun w => (o_verifier o (w_tick w), tick w)
  | HTTP r => fun w => (o_http o (w_tick w) r, tick w)
  | Log r => fun w => (tt, mkWorld (w_store w) (w_tick w) (w_log w ++ [r]))
  end.

Fixpoint run {A} (p : prog A) (w : world S) : A * world S :=
  match p with
  | Ret a => (a, w)
  | Vis e k => let '(x, w') := handle e w in run (k x) w'
  end.

Lemma run_bind {A B} (p : prog A) (f : A -> prog B) w :
  run (bind p f) w = let '(a, w') := run p w in run (f a) w'.
Proof.
  revert w. induction p as [a|X e k IH]; intros w; [done|].
  cbn. destruct (handle e w) as [x w']. apply IH.
Qed.

(** Time only advances. *)
Lemma handle_tick {X} (e : eff X) w : (w_tick w <= w_tick (handle e w).2)%nat.
Proof. destruct e; cbn; try lia. destruct (store_call _ _ _); cbn; lia. Qed.

Lemma run_tick {A} (p : prog A) w : (w_tick w <= w_tick (run p w).2)%nat.
Proof.
  revert w. induction p as [a|X e k IH]; intros w; [done|]. cbn.
  pose proof (handle_tick e w). destruct (handle e w) as [x w1]; cbn in *.
  etransitivity; [eassumption|apply IH].
Qed.
End run.

(** The program ends within so many effects, whatever they answer. *)
Fixpoint ends_in {A} (m : nat) (p : prog A) : Prop :=
  match p, m with
  | Ret _, _ => True
  | Vis _ _, O => False
  | Vis _ k, S m => forall x, ends_in m (k x)
  end.
