(* ===== verification/Contract.v ===== *)
(** * The store contract

    What auth/ports.go documents of the store interfaces, as a relation
    between an abstract database, a call, its result and the next database
    ([port_spec]), together with the failures an implementation may add
    ([contract]): any call may fail with an infrastructure error, its effect
    applied or not.  [StoreContract] is the interface: an implementation
    maps its state to a database and honours the contract.  Clients are
    verified against the contract by a weakest-precondition calculus on
    programs ([wp]), sound for every implementation ([wp_sound]). *)

From S2P Require Import Prelude GoTime Errors Entity Ports.

(** ** Updates of stored structs *)

(** [if t.IsZero() { t = now }] *)
Definition stamp (t now : time) : time := if IsZero t then now else t.

Definition strEq (a b : string) : bool := bool_decide (a = b).

(** [token.Revoked = true; token.RotatedAt = &now] *)
Definition rotate (now : time) (t : RefreshToken) : RefreshToken :=
  mkRefreshToken (rt_Hash t) (rt_UserID t) (rt_Parent t) (rt_ExpiresAt t) (rt_CreatedAt t)
    true (Some now) (rt_EndedAt t).

(** [token.Hash == root || token.Parent == root] *)
Definition in_family (root : string) (t : RefreshToken) : bool :=
  strEq (rt_Hash t) root || strEq (rt_Parent t) root.

(** What [RevokeTokens] does to a member of the family. *)
Definition revoke (now : time) (t : RefreshToken) : RefreshToken :=
  mkRefreshToken (rt_Hash t) (rt_UserID t) (rt_Parent t) (rt_ExpiresAt t) (rt_CreatedAt t)
    true (rt_RotatedAt t)
    (match rt_EndedAt t with None => Some now | Some e => Some e end).

(** [pat.ExpiresAt != nil && now.After( *pat.ExpiresAt )] *)
Definition pat_expired (now : time) (pat : PersonalAccessToken) : bool :=
  match pat_ExpiresAt pat with Some e => After now e | None => false end.

(** [pat.LastUsedAt = &t] *)
Definition touch (t : time) (p : PersonalAccessToken) : PersonalAccessToken :=
  mkPAT (pat_ID p) (pat_Hash p) (pat_UserID p) (pat_Name p) (pat_Scopes p)
    (pat_ExpiresAt p) (Some t) (pat_CreatedAt p).

(** ** The abstract database *)

Record db := mkDb {
  d_users : gmap string User;                          (* by ID *)
  d_tokens : gmap string RefreshToken;                 (* by hash *)
  d_pats : gmap string PersonalAccessToken;            (* by hash *)
  d_passwords : gmap string string;                    (* by user ID *)
  d_oauth : gmap (string * string) OAuthIdentity;      (* by provider, external ID *)
  d_wallets : gmap (string * string) WalletIdentity;   (* by chain, address *)
  d_challenges : gmap string Challenge                 (* by nonce *)
}.

Definition db_empty : db := mkDb ∅ ∅ ∅ ∅ ∅ ∅ ∅.

Definition with_users (a : db) m := mkDb m (d_tokens a) (d_pats a) (d_passwords a) (d_oauth a) (d_wallets a) (d_challenges a).
Definition with_tokens (a : db) m := mkDb (d_users a) m (d_pats a) (d_passwords a) (d_oauth a) (d_wallets a) (d_challenges a).
Definition with_pats (a : db) m := mkDb (d_users a) (d_tokens a) m (d_passwords a) (d_oauth a) (d_wallets a) (d_challenges a).
Definition with_passwords (a : db) m := mkDb (d_users a) (d_tokens a) (d_pats a) m (d_oauth a) (d_wallets a) (d_challenges a).
Definition with_oauth (a : db) m := mkDb (d_users a) (d_tokens a) (d_pats a) (d_passwords a) m (d_wallets a) (d_challenges a).
Definition with_wallets (a : db) m := mkDb (d_users a) (d_tokens a) (d_pats a) (d_passwords a) (d_oauth a) m (d_challenges a).
Definition with_challenges (a : db) m := mkDb (d_users a) (d_tokens a) (d_pats a) (d_passwords a) (d_oauth a) (d_wallets a) m.

(** The user holding an email; the empty email is held by nobody. *)
Definition has_email (a : db) (email : string) (u : User) : Prop :=
  email <> "" /\ user_Email u = email /\ d_users a !! user_ID u = Some u.

(** Rows of a table are stored under their key and owned by an existing user. *)
Definition owned_by `{Countable K} {A} (key : A -> K) (owner : A -> string)
    (us : gmap string User) (m : gmap K A) : Prop :=
  forall k x, m !! k = Some x -> key x = k /\ is_Some (us !! owner x).

(** Well-formed databases: keys agree with rows, non-empty emails are unique,
    and every owned row has its owner. *)
Record db_ok (a : db) : Prop := mkDbOk {
  ok_users : forall id u, d_users a !! id = Some u -> user_ID u = id;
  ok_emails : forall e u v, has_email a e u -> has_email a e v -> u = v;
  ok_tokens : owned_by rt_Hash rt_UserID (d_users a) (d_tokens a);
  ok_pats : owned_by pat_Hash pat_UserID (d_users a) (d_pats a);
  ok_passwords : forall id h, d_passwords a !! id = Some h -> is_Some (d_users a !! id);
  ok_oauth : owned_by (fun i => (oi_Provider i, oi_ExternalID i)) oi_UserID (d_users a) (d_oauth a);
  ok_wallets : owned_by (fun i => (wi_Chain i, wi_Address i)) wi_UserID (d_users a) (d_wallets a);
  ok_challenges : forall n c, d_challenges a !! n = Some c -> ch_Nonce c = n
}.

(** An error that is the given store sentinel, wrapped or not, and nothing
    else the program looks for. *)
Definition exactly (e : error) (s : store.sentinel) : Prop :=
  (forall t, errors_Is e t = bool_decide (t = StoreErr s)) /\
  as_credentials e = None /\ as_token_reuse e = None /\ failedAccount e = None.

Definition refused {X} (x : res X) (s : store.sentinel) : Prop := exists e, x = Err e /\ exactly e s.

(** ** Rows as the saving calls leave them *)

Definition stamp_user (now : time) (u : User) : User :=
  mkUser (user_ID u) (user_Email u) (user_Roles u)
    (stamp (user_CreatedAt u) now) (stamp (user_UpdatedAt u) now).
Definition stamp_token (now : time) (t : RefreshToken) : RefreshToken :=
  mkRefreshToken (rt_Hash t) (rt_UserID t) (rt_Parent t) (rt_ExpiresAt t)
    (stamp (rt_CreatedAt t) now) (rt_Revoked t) (rt_RotatedAt t) (rt_EndedAt t).
(** The row a store keeps of a token it saves: the token, or the token as
    issued, the columns that only a rotation and the end of a session set left
    empty. *)
Definition as_issued (t : RefreshToken) : RefreshToken :=
  mkRefreshToken (rt_Hash t) (rt_UserID t) (rt_Parent t) (rt_ExpiresAt t) (rt_CreatedAt t)
    (rt_Revoked t) None None.
Definition token_row (t r : RefreshToken) : Prop := r = t \/ r = as_issued t.

Definition stamp_pat (now : time) (p : PersonalAccessToken) : PersonalAccessToken :=
  mkPAT (pat_ID p) (pat_Hash p) (pat_UserID p) (pat_Name p) (pat_Scopes p)
    (pat_ExpiresAt p) (pat_LastUsedAt p) (stamp (pat_CreatedAt p) now).
Definition stamp_oauth (now : time) (i : OAuthIdentity) : OAuthIdentity :=
  mkOAuthIdentity (oi_ID i) (oi_UserID i) (oi_Provider i) (oi_ExternalID i) (oi_Email i)
    (stamp (oi_CreatedAt i) now).
Definition stamp_wallet (now : time) (i : WalletIdentity) : WalletIdentity :=
  mkWalletIdentity (wi_ID i) (wi_UserID i) (wi_Chain i) (wi_Address i)
    (stamp (wi_CreatedAt i) now).
Definition stamp_challenge (now : time) (c : Challenge) : Challenge :=
  mkChallenge (ch_Nonce c) (ch_Message c) (ch_Chain c) (ch_Address c) (ch_CodeVerifier c)
    (ch_OAuthNonce c) (ch_BindingHash c) (ch_ExpiresAt c) (stamp (ch_CreatedAt c) now).

(** Rows of [m] not matching [del]. *)
Definition DeleteFunc `{Countable K} {A} (del : A -> bool) (m : gmap K A) : gmap K A :=
  filter (fun kv => del kv.2 = false) m.

(** [ON DELETE CASCADE] *)
Definition cascade (id : string) (a : db) : db :=
  mkDb (delete id (d_users a))
    (DeleteFunc (fun t => strEq (rt_UserID t) id) (d_tokens a))
    (DeleteFunc (fun p => strEq (pat_UserID p) id) (d_pats a))
    (delete id (d_passwords a))
    (DeleteFunc (fun i => strEq (oi_UserID i) id) (d_oauth a))
    (DeleteFunc (fun i => strEq (wi_UserID i) id) (d_wallets a))
    (d_challenges a).

(** The tokens of a family, ended. *)
Definition end_family (now : time) (root : string) (m : gmap string RefreshToken) :=
  (fun t => if in_family root t then revoke now t else t) <$> m.

(** [GetRefreshFamily]: whether some member has ended, and the latest rotation. *)
Definition family_summary (root : string) (m : gmap string RefreshToken) (f : RefreshFamily) : Prop :=
  (rf_SessionEnded f = true <->
     exists h t, m !! h = Some t /\ in_family root t = true /\ is_Some (rt_EndedAt t)) /\
  (match rf_LastRotatedAt f with
   | None => forall h t, m !! h = Some t -> in_family root t = true -> rt_RotatedAt t = None
   | Some l =>
       (exists h t, m !! h = Some t /\ in_family root t = true /\ rt_RotatedAt t = Some l) /\
       (forall h t r, m !! h = Some t -> in_family root t = true -> rt_RotatedAt t = Some r -> r <= l)
   end).

(** Why a token may not join a family. *)
Definition root_unusable (parent : string) (m : gmap string RefreshToken) : Prop :=
  parent <> "" /\
  match m !! parent with None => True | Some root => is_Some (rt_EndedAt root) end.

(** The user's expired tokens, dropped; the number that remain. *)
Definition prune_pats (userID : string) (now : time) (m : gmap string PersonalAccessToken) :=
  DeleteFunc (fun p => strEq (pat_UserID p) userID && pat_expired now p) m.
Definition pat_count (userID : string) (m : gmap string PersonalAccessToken) : Z :=
  Z.of_nat (size (filter (fun kv => strEq (pat_UserID kv.2) userID = true) m)).

(** Some row already has the ID of a new one. *)
Definition id_taken `{Countable K} {A} (row_id : A -> string) (id : string) (m : gmap K A) : Prop :=
  exists k x, m !! k = Some x /\ row_id x = id.

(** The challenges that have not expired at [now], by the clock of the store. *)
Definition sweep (now : time) (m : gmap string Challenge) : gmap string Challenge :=
  DeleteFunc (fun c => Before (ch_ExpiresAt c) now) m.

(** A user's rows, newest first. *)
Definition listing `{Countable K} {A} (owner : A -> string) (created : A -> time)
    (userID : string) (m : gmap K A) (l : list A) : Prop :=
  l ≡ₚ filter (fun x => strEq (owner x) userID = true) (map_to_list m).*2 /\
  Sorted (fun x y => created y <= created x) l.

(** What the ports leave to the store behind them: whether it can be unavailable at
    all - a database can, memory cannot - and what the clock it goes by when it
    sets [ended_at] and sweeps expired challenges shows during a call: that of the
    process, or that of a server. *)
Class Backend := mkBackend {
  outages : bool;
  store_now : callenv -> time
}.

(** ** What each call does when the store works (auth/ports.go) *)

Definition port_spec `{Backend} {X} (c : storeE X) : callenv -> db -> X -> db -> Prop :=
  match c in storeE X return callenv -> db -> X -> db -> Prop with
  | Create u => fun env a x a' =>
      let taken := is_Some (d_users a !! user_ID u) \/ (exists v, has_email a (user_Email u) v) in
      (taken /\ refused x store.ErrUserExists /\ a' = a) \/
      (~ taken /\ x = Ok (stamp_user (ce_now env) u) /\
         a' = with_users a (<[user_ID u := stamp_user (ce_now env) u]> (d_users a)))
  | GetByID id => fun _ a x a' =>
      a' = a /\ match d_users a !! id with
                | Some u => x = Ok u
                | None => refused x store.ErrUserNotFound
                end
  | GetByEmail email => fun _ a x a' =>
      a' = a /\ ((exists u, has_email a email u /\ x = Ok u) \/
                 ((forall u, ~ has_email a email u) /\ refused x store.ErrUserNotFound))
  | Delete id => fun _ a x a' =>
      match d_users a !! id with
      | Some _ => x = Ok tt /\ a' = cascade id a
      | None => refused x store.ErrUserNotFound /\ a' = a
      end
  | SaveRefreshToken t => fun env a x a' =>
      (root_unusable (rt_Parent t) (d_tokens a) /\ refused x store.ErrTokenRevoked /\ a' = a) \/
      (~ root_unusable (rt_Parent t) (d_tokens a) /\
       match d_users a !! rt_UserID t with
       | None => refused x store.ErrUserNotFound /\ a' = a
       | Some _ => exists r, token_row (stamp_token (ce_now env) t) r /\ x = Ok (stamp_token (ce_now env) t) /\
           a' = with_tokens a (<[rt_Hash t := r]> (d_tokens a))
       end)
  | GetRefreshToken h => fun _ a x a' =>
      a' = a /\ match d_tokens a !! h with
                | Some t => x = Ok t
                | None => refused x store.ErrTokenNotFound
                end
  | RevokeTokens h => fun env a x a' =>
      x = Ok tt /\ a' = with_tokens a (end_family (store_now env) h (d_tokens a))
  | RotateRefreshToken h now => fun _ a x a' =>
      match d_tokens a !! h with
      | None => a' = a /\ exists e, x = RotateErr None e /\ exactly e store.ErrTokenNotFound
      | Some t =>
          if rt_Revoked t then
            a' = a /\ exists e, x = RotateErr (Some t) e /\ exactly e store.ErrTokenRevoked
          else if rt_ExpiresAt t <=? now then
            a' = a /\ exists e, x = RotateErr (Some t) e /\ exactly e store.ErrTokenExpired
          else x = Rotated (rotate now t) /\ a' = with_tokens a (<[h := rotate now t]> (d_tokens a))
      end
  | GetRefreshFamily root => fun _ a x a' =>
      a' = a /\ exists f, x = Ok f /\ family_summary root (d_tokens a) f
  | SavePAT p => fun env a x a' =>
      match d_users a !! pat_UserID p, d_pats a !! pat_Hash p with
      | None, other => (refused x store.ErrUserNotFound \/
                        (is_Some other \/ id_taken pat_ID (pat_ID p) (d_pats a)) /\ refused x store.ErrPATExists) /\
                       a' = a
      | Some _, Some _ => refused x store.ErrPATExists /\ a' = a
      | Some _, None =>
          (x = Ok (stamp_pat (ce_now env) p) /\
             a' = with_pats a (<[pat_Hash p := stamp_pat (ce_now env) p]> (d_pats a))) \/
          (id_taken pat_ID (pat_ID p) (d_pats a) /\ refused x store.ErrPATExists /\ a' = a)
      end
  | SavePATLimited p limit now => fun env a x a' =>
      match d_users a !! pat_UserID p with
      | None => refused x store.ErrUserNotFound /\ a' = a
      | Some _ =>
          let pruned := prune_pats (pat_UserID p) now (d_pats a) in
          if limit <=? pat_count (pat_UserID p) pruned then
            refused x store.ErrPATLimitReached /\ a' = with_pats a pruned
          else match pruned !! pat_Hash p with
               | Some _ => refused x store.ErrPATExists /\ (a' = a \/ a' = with_pats a pruned)
               | None =>
                   (x = Ok (stamp_pat (ce_now env) p) /\
                      a' = with_pats a (<[pat_Hash p := stamp_pat (ce_now env) p]> pruned)) \/
                   (id_taken pat_ID (pat_ID p) pruned /\ refused x store.ErrPATExists /\
                      (a' = a \/ a' = with_pats a pruned))
               end
      end
  | GetPAT h => fun _ a x a' =>
      a' = a /\ match d_pats a !! h with
                | Some p => x = Ok p
                | None => refused x store.ErrTokenNotFound
                end
  | ListPATs uid => fun _ a x a' =>
      a' = a /\ exists l, x = Ok l /\ listing pat_UserID pat_CreatedAt uid (d_pats a) l
  | DeletePAT uid id => fun _ a x a' =>
      (exists h p, d_pats a !! h = Some p /\ pat_ID p = id /\ pat_UserID p = uid /\
         x = Ok tt /\ a' = with_pats a (delete h (d_pats a))) \/
      ((forall h p, d_pats a !! h = Some p -> ~ (pat_ID p = id /\ pat_UserID p = uid)) /\
         refused x store.ErrTokenNotFound /\ a' = a)
  | TouchPAT h t => fun _ a x a' =>
      x = Ok tt /\ a' = with_pats a (alter (touch t) h (d_pats a))
  | SaveOAuthIdentity i => fun env a x a' =>
      match d_users a !! oi_UserID i, d_oauth a !! (oi_Provider i, oi_ExternalID i) with
      | None, other => (refused x store.ErrUserNotFound \/
                        (is_Some other \/ id_taken oi_ID (oi_ID i) (d_oauth a)) /\ refused x store.ErrOAuthIdentityExists) /\
                       a' = a
      | Some _, Some _ => refused x store.ErrOAuthIdentityExists /\ a' = a
      | Some _, None =>
          (x = Ok (stamp_oauth (ce_now env) i) /\
             a' = with_oauth a (<[(oi_Provider i, oi_ExternalID i) := stamp_oauth (ce_now env) i]> (d_oauth a))) \/
          (id_taken oi_ID (oi_ID i) (d_oauth a) /\ refused x store.ErrOAuthIdentityExists /\ a' = a)
      end
  | GetOAuthIdentity p ext => fun _ a x a' =>
      a' = a /\ match d_oauth a !! (p, ext) with
                | Some i => x = Ok i
                | None => refused x store.ErrOAuthIdentityNotFound
                end
  | ListOAuthIdentities uid => fun _ a x a' =>
      a' = a /\ exists l, x = Ok l /\ listing oi_UserID oi_CreatedAt uid (d_oauth a) l
  | SaveWalletIdentity i => fun env a x a' =>
      match d_users a !! wi_UserID i, d_wallets a !! (wi_Chain i, wi_Address i) with
      | None, other => (refused x store.ErrUserNotFound \/
                        (is_Some other \/ id_taken wi_ID (wi_ID i) (d_wallets a)) /\ refused x store.ErrWalletIdentityExists) /\
                       a' = a
      | Some _, Some _ => refused x store.ErrWalletIdentityExists /\ a' = a
      | Some _, None =>
          (x = Ok (stamp_wallet (ce_now env) i) /\
             a' = with_wallets a (<[(wi_Chain i, wi_Address i) := stamp_wallet (ce_now env) i]> (d_wallets a))) \/
          (id_taken wi_ID (wi_ID i) (d_wallets a) /\ refused x store.ErrWalletIdentityExists /\ a' = a)
      end
  | GetWalletIdentity c ad => fun _ a x a' =>
      a' = a /\ match d_wallets a !! (c, ad) with
                | Some i => x = Ok i
                | None => refused x store.ErrWalletIdentityNotFound
                end
  | ListWalletIdentities uid => fun _ a x a' =>
      a' = a /\ exists l, x = Ok l /\ listing wi_UserID wi_CreatedAt uid (d_wallets a) l
  | SaveChallenge c => fun env a x a' =>
      x = Ok (stamp_challenge (ce_now env) c) /\
      a' = with_challenges a
             (<[ch_Nonce c := stamp_challenge (ce_now env) c]> (sweep (store_now env) (d_challenges a)))
  | GetChallenge n => fun env a x a' =>
      match d_challenges a !! n with
      | None => refused x store.ErrChallengeNotFound /\ a' = a
      | Some c =>
          if Before (ch_ExpiresAt c) (ce_now env) then
            refused x store.ErrChallengeExpired /\
            (a' = a \/ a' = with_challenges a (delete n (d_challenges a)))
          else x = Ok c /\ a' = a
      end
  | DeleteChallenge n => fun _ a x a' =>
      match d_challenges a !! n with
      | None => refused x store.ErrChallengeNotFound /\ a' = a
      | Some _ => x = Ok tt /\ a' = with_challenges a (delete n (d_challenges a))
      end
  | SavePasswordHash uid h => fun _ a x a' =>
      match d_users a !! uid with
      | None => refused x store.ErrUserNotFound /\ a' = a
      | Some _ => x = Ok tt /\ a' = with_passwords a (<[uid := h]> (d_passwords a))
      end
  | GetPasswordHash uid => fun _ a x a' =>
      a' = a /\ match d_passwords a !! uid with
                | Some h => x = Ok h
                | None => refused x store.ErrCredentialNotFound
                end
  end.

(** ** Infrastructure failures *)

(** The call reports an error that is none of the program's. *)
Definition outage {X} (c : storeE X) : X -> Prop :=
  let failed {A} (x : res A) := exists e, x = Err e /\ infrastructure e = true in
  match c in storeE X return X -> Prop with
  | Create _ => failed | GetByID _ => failed | GetByEmail _ => failed | Delete _ => failed
  | SaveRefreshToken _ => failed | GetRefreshToken _ => failed | RevokeTokens _ => failed
  | RotateRefreshToken _ _ => fun x => exists e, x = RotateErr None e /\ infrastructure e = true
  | GetRefreshFamily _ => failed
  | SavePAT _ => failed | SavePATLimited _ _ _ => failed | GetPAT _ => failed
  | ListPATs _ => failed | DeletePAT _ _ => failed | TouchPAT _ _ => failed
  | SaveOAuthIdentity _ => failed | GetOAuthIdentity _ _ => failed
  | ListOAuthIdentities _ => failed
  | SaveWalletIdentity _ => failed | GetWalletIdentity _ _ => failed
  | ListWalletIdentities _ => failed
  | SaveChallenge _ => failed | GetChallenge _ => failed | DeleteChallenge _ => failed
  | SavePasswordHash _ _ => failed | GetPasswordHash _ => failed
  end.

(** An outage leaves the database alone, or the effect of the call got
    through although its answer was lost; [SaveChallenge] sweeps in a
    statement of its own. *)
Definition outage_effect `{Backend} {X} (c : storeE X) (env : callenv) (a a' : db) : Prop :=
  a' = a \/ (exists x, port_spec c env a x a') \/
  (match c with SaveChallenge _ => True | _ => False end /\
   a' = with_challenges a (sweep (store_now env) (d_challenges a))).

Definition contract `{Backend} {X} (c : storeE X) (env : callenv) (a : db) (x : X) (a' : db) : Prop :=
  port_spec c env a x a' \/ (outages = true /\ outage c x /\ outage_effect c env a a').

(** ** The interface *)

Class StoreContract (S : Type) `{!StoreImpl S} := {
  sc_backend :: Backend;
  sc_view : S -> db;
  sc_inv : S -> Prop;
  sc_ok : forall s, sc_inv s -> db_ok (sc_view s);
  sc_call : forall X (c : storeE X) env s, sc_inv s ->
    let '(x, s') := store_call c env s in
    sc_inv s' /\ contract c env (sc_view s) x (sc_view s')
}.

(** ** Weakest preconditions

    [wp p Q a]: whatever the store does within its contract, whatever the random
    sources answer, and whichever of the moments in [reads] the clock shows, to
    the program or to the store, [p]
    started on database [a] ends with a result and a database satisfying [Q]. *)

Class Reads := reads : time -> Prop.

(** Whether anything else outside the program can fail: the random sources, the
    network, the signing keys. *)
Class Faults := faults : bool.

(** The environment is not what it should be. *)
Definition down `{Backend, Faults} : Prop := outages = true \/ faults = true.

Fixpoint wp `{Backend, Reads, Faults} {A} (p : prog A) (Q : A -> db -> Prop) (a : db) : Prop :=
  match p with
  | Ret x => Q x a
  | Vis e k =>
      (match e in eff X return (X -> db -> Prop) -> Prop with
       | Store c => fun K => forall env x a', reads (ce_now env) -> db_ok a' -> contract c env a x a' -> K x a'
       | TimeNow => fun K => forall t, reads t -> K t a
       | RandRead n => fun K => forall r,
           (forall s, r = Ok s -> String.length s = n) ->
           (forall e, r = Err e -> infrastructure e = true /\ faults = true) -> K r a
       | UUIDNewV7 => fun K => forall r, (forall e, r = Err e -> infrastructure e = true /\ faults = true) -> K r a
       | UUIDNewString => fun K => forall s, K s a
       | GenerateVerifier => fun K => forall s, K s a
       | HTTP _ => fun K => forall r, (forall e, r = Err e -> infrastructure e = true /\ faults = true) -> K r a
       | Log _ => fun K => K tt a
       end) (fun x a' => wp (k x) Q a')
  end.

(** What is assumed of the sources: [rand.Read] fills the buffer, and their
    failures are foreign errors, which happen only where faults do. *)
Record oracle_ok `{Faults} (o : oracle) : Prop := mkOracleOk {
  ok_rand_len : forall n k s, o_rand o n k = Ok s -> String.length s = k;
  ok_rand_err : forall n k e, o_rand o n k = Err e -> infrastructure e = true /\ faults = true;
  ok_uuid7_err : forall n e, o_uuid7 o n = Err e -> infrastructure e = true /\ faults = true;
  ok_http_err : forall n r e, o_http o n r = Err e -> infrastructure e = true /\ faults = true
}.

Lemma wp_mono `{Backend, Reads, Faults} {A} (p : prog A) (Q R : A -> db -> Prop) a :
  (forall x a', Q x a' -> R x a') -> wp p Q a -> wp p R a.
Proof.
  intros HQR. revert a. induction p as [x|X e k IH]; intros a; [apply HQR|].
  cbn. destruct e; eauto.
Qed.

Lemma wp_bind `{Backend, Reads, Faults} {A B} (p : prog A) (f : A -> prog B) Q a :
  wp (bind p f) Q a <-> wp p (fun x a' => wp (f x) Q a') a.
Proof.
  revert a. induction p as [x|X e k IH]; intros a; [done|].
  cbn. destruct e; try (setoid_rewrite IH; done).
Qed.

(** What the clock showed while a run went from [w] to [w']. *)
Definition read_during {S} (o : oracle) (w w' : world S) : Reads :=
  fun t => exists n, (w_tick w <= n < w_tick w')%nat /\ t = o_now o n.

Section soundness.
Context {S : Type} `{!StoreImpl S, !StoreContract S, Faults} (o : oracle).

Lemma wp_sound_within {A} (p : prog A) Q w x w' n0 n1 :
  oracle_ok o -> sc_inv (w_store w) -> (n0 <= w_tick w)%nat -> (w_tick w' <= n1)%nat ->
  let _ : Reads := fun t => exists n, (n0 <= n < n1)%nat /\ t = o_now o n in
  wp p Q (sc_view (w_store w)) ->
  run o p w = (x, w') -> Q x (sc_view (w_store w')) /\ sc_inv (w_store w').
Proof.
  intros Ho Hinv Hn0 Hn1 T. revert w Hinv Hn0.
  induction p as [y|X e k IH]; intros w Hinv Hn0 Hwp Hrun.
  { cbn in *. by simplify_eq. }
  pose proof (handle_tick o e w) as Ht.
  cbn [run] in Hrun. pose proof Hrun as Hr. destruct e as [X c| | | | | | |]; cbn in Hr, Hwp, Ht.
  - pose proof (sc_call X c (mkCallenv (o_now o (w_tick w)) (w_tick w)) (w_store w) Hinv) as Hc.
    destruct (store_call c _ _) as [y s']. destruct Hc as [Hinv' Hc].
    eapply IH; [| | |exact Hr]; [done|cbn; lia|]. eapply Hwp, Hc; [|by apply sc_ok].
    exists (w_tick w). split; [|done].
    match type of Hr with run o ?q ?w1 = _ => pose proof (run_tick o q w1) as Hle end.
    rewrite Hr in Hle. cbn in Hle. lia.
  - eapply IH; [| | |exact Hr]; [done|cbn; lia|]. apply Hwp.
    exists (w_tick w). split; [|done].
    match type of Hr with run o ?q ?w1 = _ => pose proof (run_tick o q w1) as Hle end.
    rewrite Hr in Hle. cbn in Hle. lia.
  - eapply IH; [| | |exact Hr]; [done|cbn; lia|]. apply Hwp.
    + intros s. apply Ho.
    + intros e. apply Ho.
  - eapply IH; [| | |exact Hr]; [done|cbn; lia|]. apply Hwp. intros e. apply Ho.
  - eapply IH; [| | |exact Hr]; [done|cbn; lia|]. apply Hwp.
  - eapply IH; [| | |exact Hr]; [done|cbn; lia|]. apply Hwp.
  - eapply IH; [| | |exact Hr]; [done|cbn; lia|]. apply Hwp. intros e. apply Ho.
  - eapply IH; [| | |exact Hr]; [done|cbn; lia|]. apply Hwp.
Qed.

(** [wp] is sound for every store that honours the contract. *)
Lemma wp_sound {A} (p : prog A) Q w x w' :
  oracle_ok o -> sc_inv (w_store w) ->
  @wp _ (read_during o w w') _ A p Q (sc_view (w_store w)) ->
  run o p w = (x, w') -> Q x (sc_view (w_store w')) /\ sc_inv (w_store w').
Proof. intros Ho Hinv Hwp. by apply (wp_sound_within p Q w x w' (w_tick w) (w_tick w') Ho Hinv). Qed.

(** A run keeps the store's invariant. *)
Lemma run_inv {A} (p : prog A) w : sc_inv (w_store w) -> sc_inv (w_store (run o p w).2).
Proof.
  revert w. induction p as [y|X e k IH]; intros w Hinv; [done|]. cbn [run].
  destruct e as [X c| | | | | | |]; cbn; try (by apply IH).
  pose proof (sc_call X c (mkCallenv (o_now o (w_tick w)) (w_tick w)) (w_store w) Hinv) as Hc.
  destruct (store_call c _ _) as [y s']. apply IH, Hc.
Qed.
End soundness.
