(* ===== verification/ContractFacts.v ===== *)
(** * Consequences of the store contract

    Well-formedness of the abstract database is preserved by every call that
    follows the contract, whichever implementation answers it. *)

From S2P Require Import Prelude GoTime Errors Entity Ports Contract.

Lemma strEq_true a b : strEq a b = true <-> a = b.
Proof. apply bool_decide_eq_true. Qed.

Lemma strEq_false a b : strEq a b = false <-> a <> b.
Proof. apply bool_decide_eq_false. Qed.

Lemma strEq_refl a : strEq a a = true.
Proof. by apply strEq_true. Qed.

Arguments strEq : simpl never.

Lemma lookup_DeleteFunc `{Countable K} {A} (del : A -> bool) (m : gmap K A) k x :
  DeleteFunc del m !! k = Some x <-> m !! k = Some x /\ del x = false.
Proof. unfold DeleteFunc. by rewrite map_lookup_filter_Some. Qed.

Lemma DeleteFunc_subseteq `{Countable K} {A} (del : A -> bool) (m : gmap K A) : DeleteFunc del m ⊆ m.
Proof. apply map_filter_subseteq. Qed.

Lemma lookup_end_family now root m h :
  end_family now root m !! h
  = (fun t => if in_family root t then revoke now t else t) <$> m !! h.
Proof. unfold end_family. by rewrite lookup_fmap. Qed.

Create HintDb dbok.

(** A store's own errors are exactly the sentinels they wrap. *)
Lemma exactly_sentinel s : exactly (ESentinel (StoreErr s)) s.
Proof. split; [|done]. intros t. cbn. apply bool_decide_ext. split; congruence. Qed.

Lemma exactly_wrap pre s post : exactly (EWrap pre (ESentinel (StoreErr s)) post) s.
Proof. split; [|done]. intros t. cbn. apply bool_decide_ext. split; congruence. Qed.

#[export] Hint Resolve exactly_sentinel exactly_wrap : dbok.

Lemma refused_sentinel {X} s : refused (X := X) (Err (ESentinel (StoreErr s))) s.
Proof. eexists; eauto with dbok. Qed.

Lemma refused_wrap {X} pre s post :
  refused (X := X) (Err (EWrap pre (ESentinel (StoreErr s)) post)) s.
Proof. eexists; eauto with dbok. Qed.

#[export] Hint Resolve refused_sentinel refused_wrap : dbok.


(** A token that has been neither rotated nor ended is kept as it is. *)
Lemma token_row_issued t r :
  rt_RotatedAt t = None -> rt_EndedAt t = None -> token_row t r -> r = t.
Proof. intros Hr He [-> | ->]; [done|]. destruct t; cbn in *; by simplify_eq. Qed.

Section owned.
Context `{Countable K} {A : Type} (key : A -> K) (owner : A -> string).
Implicit Types (us : gmap string User) (m : gmap K A).

Lemma owned_insert us m k x :
  owned_by key owner us m -> key x = k -> is_Some (us !! owner x) ->
  owned_by key owner us (<[k := x]> m).
Proof.
  intros Hm Hk Hu k' x' [[<- <-]|[_ Hl]]%lookup_insert_Some; [done|]. by apply Hm.
Qed.

Lemma owned_sub us m m' : owned_by key owner us m -> m' ⊆ m -> owned_by key owner us m'.
Proof. intros Hm Hsub k x Hl. eapply Hm, lookup_weaken; eauto. Qed.

Lemma owned_delete us m k : owned_by key owner us m -> owned_by key owner us (delete k m).
Proof. intros Hm. eapply owned_sub; [done|]. apply delete_subseteq. Qed.

Lemma owned_DeleteFunc us m del : owned_by key owner us m -> owned_by key owner us (DeleteFunc del m).
Proof. intros Hm k x [Hl _]%lookup_DeleteFunc. by apply Hm. Qed.

Lemma owned_fmap us m (f : A -> A) :
  owned_by key owner us m -> (forall x, key (f x) = key x /\ owner (f x) = owner x) ->
  owned_by key owner us (f <$> m).
Proof.
  intros Hm Hf k x Hl. apply lookup_fmap_Some in Hl as (y & <- & Hl).
  destruct (Hf y) as [-> ->]. by apply Hm.
Qed.

Lemma owned_alter us m (f : A -> A) k :
  owned_by key owner us m -> (forall x, key (f x) = key x /\ owner (f x) = owner x) ->
  owned_by key owner us (alter f k m).
Proof.
  intros Hm Hf k' x Hl. apply lookup_alter_Some in Hl as [(<- & y & Hl & ->)|[_ Hl]].
  - destruct (Hf y) as [-> ->]. by apply Hm.
  - by apply Hm.
Qed.

Lemma owned_user_insert us m id u :
  owned_by key owner us m -> owned_by key owner (<[id := u]> us) m.
Proof.
  intros Hm k x Hl. destruct (Hm _ _ Hl) as [? Hs]. split; [done|].
  rewrite lookup_insert_is_Some'. by right.
Qed.

Lemma owned_cascade us m id :
  owned_by key owner us m ->
  owned_by key owner (delete id us) (DeleteFunc (fun x => strEq (owner x) id) m).
Proof.
  intros Hm k x [Hl Hne]%lookup_DeleteFunc. apply strEq_false in Hne.
  destruct (Hm _ _ Hl). split; [done|]. by rewrite lookup_delete_ne.
Qed.
End owned.

#[export] Hint Resolve owned_insert owned_delete owned_DeleteFunc owned_fmap owned_alter
  owned_user_insert owned_cascade : dbok.

Section db_ok.
Implicit Type a : db.

Lemma db_ok_empty : db_ok db_empty.
Proof. split; cbn; try (intros ?? Hl; by rewrite lookup_empty in Hl). by intros e u v (_ & _ & Hl). Qed.

Lemma db_ok_tokens a m :
  db_ok a -> owned_by rt_Hash rt_UserID (d_users a) m -> db_ok (with_tokens a m).
Proof. intros []; split; eauto. Qed.

Lemma db_ok_pats a m :
  db_ok a -> owned_by pat_Hash pat_UserID (d_users a) m -> db_ok (with_pats a m).
Proof. intros []; split; eauto. Qed.

Lemma db_ok_oauth a m :
  db_ok a -> owned_by (fun i => (oi_Provider i, oi_ExternalID i)) oi_UserID (d_users a) m ->
  db_ok (with_oauth a m).
Proof. intros []; split; eauto. Qed.

Lemma db_ok_wallets a m :
  db_ok a -> owned_by (fun i => (wi_Chain i, wi_Address i)) wi_UserID (d_users a) m ->
  db_ok (with_wallets a m).
Proof. intros []; split; eauto. Qed.

Lemma db_ok_challenges a m :
  db_ok a -> (forall n c, m !! n = Some c -> ch_Nonce c = n) -> db_ok (with_challenges a m).
Proof. intros []; split; eauto. Qed.

Lemma db_ok_password a uid h :
  db_ok a -> is_Some (d_users a !! uid) ->
  db_ok (with_passwords a (<[uid := h]> (d_passwords a))).
Proof.
  intros [] Hu; split; cbn; eauto. intros id h' [[<- _]|[_ Hl]]%lookup_insert_Some; eauto.
Qed.

Lemma has_email_insert a u e v :
  d_users a !! user_ID u = None ->
  has_email (with_users a (<[user_ID u := u]> (d_users a))) e v <->
  (e <> "" /\ user_Email u = e /\ v = u) \/ has_email a e v.
Proof.
  intros Hfresh. unfold has_email; cbn. rewrite lookup_insert_Some. split.
  - intros (? & ? & [[_ <-]|[_ ?]]); eauto.
  - intros [(? & ? & ->)|(? & ? & Hl)]; [naive_solver|].
    split_and!; [done|done|]. right. split; [congruence|done].
Qed.

Lemma db_ok_user a u :
  db_ok a -> d_users a !! user_ID u = None -> (forall v, ~ has_email a (user_Email u) v) ->
  db_ok (with_users a (<[user_ID u := u]> (d_users a))).
Proof.
  intros Hok Hfresh Hemail. pose proof Hok as []. split; cbn; eauto with dbok.
  - intros id v [[<- <-]|[_ Hl]]%lookup_insert_Some; eauto.
  - intros e v v' Hv Hv'.
    apply (has_email_insert a u) in Hv; [|done]. apply (has_email_insert a u) in Hv'; [|done].
    naive_solver.
  - intros id h Hl. rewrite lookup_insert_is_Some'. right. eauto.
Qed.

Lemma has_email_cascade a id e v :
  db_ok a -> has_email (cascade id a) e v <-> has_email a e v /\ user_ID v <> id.
Proof.
  intros Hok. unfold has_email; cbn. rewrite lookup_delete_Some. naive_solver.
Qed.

Lemma db_ok_cascade a id : db_ok a -> db_ok (cascade id a).
Proof.
  intros Hok. pose proof Hok as []. split; cbn; eauto with dbok.
  - intros id' u [_ Hl]%lookup_delete_Some. eauto.
  - intros e u v [Hu _]%has_email_cascade [Hv _]%has_email_cascade; eauto.
  - intros id' h [Hne Hl]%lookup_delete_Some. rewrite lookup_delete_ne by done. eauto.
Qed.
End db_ok.

#[export] Hint Resolve db_ok_tokens db_ok_pats db_ok_oauth db_ok_wallets db_ok_challenges
  db_ok_password db_ok_user db_ok_cascade ok_tokens ok_pats ok_oauth ok_wallets ok_challenges : dbok.

(** Rewriting a token in place keeps its key and its owner. *)
Lemma end_family_owned us now root m :
  owned_by rt_Hash rt_UserID us m -> owned_by rt_Hash rt_UserID us (end_family now root m).
Proof. intros Hm. apply owned_fmap; [done|]. intros x. by destruct (in_family root x). Qed.

#[export] Hint Resolve end_family_owned : dbok.

(** Every call that follows the contract keeps the database well-formed. *)
Lemma port_spec_ok `{Backend} {X} (c : storeE X) env a x a' :
  db_ok a -> port_spec c env a x a' -> db_ok a'.
Proof.
  intros Hok. destruct c; cbn.
  - (* Create *)
    intros [(_ & _ & ->)|(Hfree & _ & ->)]; [done|].
    apply (db_ok_user a (stamp_user (ce_now env) user)); [done|..].
    + cbn. apply eq_None_not_Some. tauto.
    + intros v Hv. apply Hfree. right. by exists v.
  - by intros [-> _].
  - by intros [-> _].
  - case_match; [intros [_ ->]|intros [_ ->]]; eauto with dbok.
  - (* SaveRefreshToken *)
    intros [(_ & _ & ->)|(_ & Hs)]; [done|]. destruct (d_users a !! rt_UserID token) eqn:E.
    + destruct Hs as (r & Hr & _ & ->). apply db_ok_tokens; [done|].
      apply owned_insert; [by apply ok_tokens|by destruct Hr as [-> | ->]|].
      destruct Hr as [-> | ->]; cbn; by rewrite E.
    + by destruct Hs as [_ ->].
  - by intros [-> _].
  - intros [_ ->]. eauto with dbok.
  - (* RotateRefreshToken *)
    destruct (d_tokens a !! hash) as [t|] eqn:E; [|by intros [-> _]].
    destruct (rt_Revoked t); [by intros [-> _]|]. case_match; [by intros [-> _]|].
    intros [_ ->]. apply db_ok_tokens; [done|].
    destruct (ok_tokens _ Hok _ _ E). apply owned_insert; [by apply ok_tokens|done|done].
  - by intros [-> _].
  - (* SavePAT *)
    destruct (d_users a !! pat_UserID pat) eqn:E; [|by intros [_ ->]].
    case_match; [by intros [_ ->]|]. intros [(_ & ->)|(_ & _ & ->)]; [|done].
    apply db_ok_pats; [done|].
    apply owned_insert; [by apply ok_pats|done|cbn; by rewrite E].
  - (* SavePATLimited *)
    destruct (d_users a !! pat_UserID pat) eqn:E; [|by intros [_ ->]].
    assert (db_ok (with_pats a (prune_pats (pat_UserID pat) now (d_pats a)))) as Hp.
    { apply db_ok_pats; [done|]. apply owned_DeleteFunc, ok_pats, Hok. }
    case_match; [by intros [_ ->]|]. case_match; [by intros [_ [-> | ->]]|].
    intros [(_ & ->)|(_ & _ & [-> | ->])]; [|done..]. apply db_ok_pats; [done|].
    apply owned_insert; [apply (ok_pats _ Hp)|done|cbn; by rewrite E].
  - by intros [-> _].
  - by intros [-> _].
  - intros [(h & p & _ & _ & _ & _ & ->)|(_ & _ & ->)]; eauto with dbok.
  - intros [_ ->]. apply db_ok_pats; [done|]. apply owned_alter; [by apply ok_pats|done].
  - (* SaveOAuthIdentity *)
    destruct (d_users a !! oi_UserID identity) eqn:E; [|by intros [_ ->]].
    case_match; [by intros [_ ->]|]. intros [(_ & ->)|(_ & _ & ->)]; [|done].
    apply db_ok_oauth; [done|].
    apply owned_insert; [by apply ok_oauth|done|cbn; by rewrite E].
  - by intros [-> _].
  - by intros [-> _].
  - (* SaveWalletIdentity *)
    destruct (d_users a !! wi_UserID identity) eqn:E; [|by intros [_ ->]].
    case_match; [by intros [_ ->]|]. intros [(_ & ->)|(_ & _ & ->)]; [|done].
    apply db_ok_wallets; [done|].
    apply owned_insert; [by apply ok_wallets|done|cbn; by rewrite E].
  - by intros [-> _].
  - by intros [-> _].
  - (* SaveChallenge *)
    intros [_ ->]. apply db_ok_challenges; [done|].
    intros n c [[<- <-]|[_ [Hl _]%lookup_DeleteFunc]]%lookup_insert_Some; [done|].
    by apply (ok_challenges _ Hok).
  - (* GetChallenge *)
    case_match; [|by intros [_ ->]]. case_match; [|by intros [_ ->]].
    intros [_ [-> | ->]]; [done|]. apply db_ok_challenges; [done|].
    intros n c' [_ Hl]%lookup_delete_Some. by apply (ok_challenges _ Hok).
  - case_match; [|by intros [_ ->]]. intros [_ ->]. apply db_ok_challenges; [done|].
    intros n c' [_ Hl]%lookup_delete_Some. by apply (ok_challenges _ Hok).
  - case_match eqn:E; [|by intros [_ ->]]. intros [_ ->]. apply db_ok_password; [done|by rewrite E].
  - by intros [-> _].
Qed.
