(* ===== verification/WpRules.v ===== *)
(** * Proof rules for store calls

    One rule per call: what a client has to consider after making it.  Reads
    leave the database as it is; every call may also fail with an
    infrastructure error. *)

From S2P Require Import Prelude GoTime Errors Entity Ports Contract ContractFacts.

Lemma exactly_Is e s t : exactly e s -> errors_Is e t = bool_decide (t = StoreErr s).
Proof. intros [H _]. apply H. Qed.

Lemma infra_Is e t : infrastructure e = true -> errors_Is e t = false.
Proof. apply infrastructure_Is. Qed.

Lemma infra_as e : infrastructure e = true ->
  as_credentials e = None /\ as_token_reuse e = None /\ failedAccount e = None.
Proof.
  induction e as [| | |? e IH|e1 IH1 e2 IH2| | | | |e1 IH1 e2 IH2]; try done; cbn;
    intros [H1 H2]%andb_prop; destruct (IH1 H1) as (-> & -> & ->); by apply IH2.
Qed.

Create HintDb errs.

(** An error that only an unhealthy environment explains: of the store or
    elsewhere; and the same with the account of an interrupted sign-in. *)
Definition broken `{Backend, Faults} (e : error) : Prop := infrastructure e = true /\ down.
Definition broken_off `{Backend, Faults} (e : error) : Prop := unavailable e = true /\ down.

Section broken.
Context `{Backend, Faults}.
Implicit Type e : error.

Lemma broken_outage e : infrastructure e = true -> outages = true -> broken e.
Proof. intros ? ?. split; [done|by left]. Qed.
Lemma broken_fault e : infrastructure e = true -> faults = true -> broken e.
Proof. intros ? ?. split; [done|by right]. Qed.
Lemma broken_infra e : broken e -> infrastructure e = true.
Proof. by intros [? _]. Qed.
Lemma broken_Is e t : broken e -> errors_Is e t = false.
Proof. intros [Hi _]. by apply infra_Is. Qed.
Lemma broken_broken_off e : broken e -> broken_off e.
Proof. intros [? ?]. split; [by apply infrastructure_unavailable|done]. Qed.
Lemma broken_account c e : broken_off e -> broken_off (EAccount c e).
Proof. done. Qed.
End broken.

#[export] Hint Resolve broken_outage broken_fault broken_broken_off broken_account : errs.
(** Decide the [errors.Is] tests on a known error. *)
Ltac decide_is :=
  repeat match goal with
  | H : exactly ?e ?s |- context [errors_Is ?e ?t] =>
      rewrite (exactly_Is e s t H);
      first [rewrite (bool_decide_eq_true_2 (t = _)) by done
            |rewrite (bool_decide_eq_false_2 (t = _)) by done]
  | H : infrastructure ?e = true |- context [errors_Is ?e ?t] => rewrite (infra_Is e t H)
  | H : broken ?e |- context [errors_Is ?e ?t] => rewrite (broken_Is e t H)
  end; cbn [negb andb orb].

Section rules.
Context `{Backend, Reads, Faults} {A : Type} (Q : A -> db -> Prop) (a : db).

Implicit Type e : error.

Ltac read_rule :=
  intros; cbn; intros ?env ?x ?a' _ _ [?Hp|(?Hout & (?e & -> & ?He) & [->|[[?y [-> _]]|[[] _]]])];
  [cbn in Hp; destruct Hp as [-> Hp]|eauto|eauto].

Ltac refused_case := match goal with H : refused _ _ |- _ => destruct H as (? & -> & ?) end; eauto.

Lemma wp_GetByID id k :
  (forall u, d_users a !! id = Some u -> wp (k (Ok u)) Q a) ->
  (forall e, d_users a !! id = None -> exactly e store.ErrUserNotFound -> wp (k (Err e)) Q a) ->
  (forall e, outages = true -> infrastructure e = true -> wp (k (Err e)) Q a) ->
  wp (bind (call (GetByID id)) k) Q a.
Proof.
  read_rule. destruct (d_users a !! id); [subst; eauto|refused_case].
Qed.

Lemma wp_GetByEmail email k :
  (forall u, has_email a email u -> wp (k (Ok u)) Q a) ->
  (forall e, (forall u, ~ has_email a email u) -> exactly e store.ErrUserNotFound -> wp (k (Err e)) Q a) ->
  (forall e, outages = true -> infrastructure e = true -> wp (k (Err e)) Q a) ->
  wp (bind (call (GetByEmail email)) k) Q a.
Proof. read_rule. destruct Hp as [(u & Hu & ->)|[? ?]]; [eauto|refused_case]. Qed.

Lemma wp_GetPasswordHash uid k :
  (forall h, d_passwords a !! uid = Some h -> wp (k (Ok h)) Q a) ->
  (forall e, d_passwords a !! uid = None -> exactly e store.ErrCredentialNotFound -> wp (k (Err e)) Q a) ->
  (forall e, outages = true -> infrastructure e = true -> wp (k (Err e)) Q a) ->
  wp (bind (call (GetPasswordHash uid)) k) Q a.
Proof. read_rule. destruct (d_passwords a !! uid); [subst; eauto|refused_case]. Qed.

Lemma wp_GetRefreshToken h k :
  (forall t, d_tokens a !! h = Some t -> wp (k (Ok t)) Q a) ->
  (forall e, d_tokens a !! h = None -> exactly e store.ErrTokenNotFound -> wp (k (Err e)) Q a) ->
  (forall e, outages = true -> infrastructure e = true -> wp (k (Err e)) Q a) ->
  wp (bind (call (GetRefreshToken h)) k) Q a.
Proof. read_rule. destruct (d_tokens a !! h); [subst; eauto|refused_case]. Qed.

Lemma wp_GetRefreshFamily root k :
  (forall f, family_summary root (d_tokens a) f -> wp (k (Ok f)) Q a) ->
  (forall e, outages = true -> infrastructure e = true -> wp (k (Err e)) Q a) ->
  wp (bind (call (GetRefreshFamily root)) k) Q a.
Proof. read_rule. destruct Hp as (f & -> & ?). eauto. Qed.

Lemma wp_GetPAT h k :
  (forall p, d_pats a !! h = Some p -> wp (k (Ok p)) Q a) ->
  (forall e, d_pats a !! h = None -> exactly e store.ErrTokenNotFound -> wp (k (Err e)) Q a) ->
  (forall e, outages = true -> infrastructure e = true -> wp (k (Err e)) Q a) ->
  wp (bind (call (GetPAT h)) k) Q a.
Proof. read_rule. destruct (d_pats a !! h); [subst; eauto|refused_case]. Qed.

Lemma wp_ListPATs uid k :
  (forall l, listing pat_UserID pat_CreatedAt uid (d_pats a) l -> wp (k (Ok l)) Q a) ->
  (forall e, outages = true -> infrastructure e = true -> wp (k (Err e)) Q a) ->
  wp (bind (call (ListPATs uid)) k) Q a.
Proof. read_rule. destruct Hp as (l & -> & ?). eauto. Qed.

Lemma wp_GetOAuthIdentity p ext k :
  (forall i, d_oauth a !! (p, ext) = Some i -> wp (k (Ok i)) Q a) ->
  (forall e, d_oauth a !! (p, ext) = None -> exactly e store.ErrOAuthIdentityNotFound -> wp (k (Err e)) Q a) ->
  (forall e, outages = true -> infrastructure e = true -> wp (k (Err e)) Q a) ->
  wp (bind (call (GetOAuthIdentity p ext)) k) Q a.
Proof. read_rule. destruct (d_oauth a !! _); [subst; eauto|refused_case]. Qed.

Lemma wp_GetWalletIdentity c ad k :
  (forall i, d_wallets a !! (c, ad) = Some i -> wp (k (Ok i)) Q a) ->
  (forall e, d_wallets a !! (c, ad) = None -> exactly e store.ErrWalletIdentityNotFound -> wp (k (Err e)) Q a) ->
  (forall e, outages = true -> infrastructure e = true -> wp (k (Err e)) Q a) ->
  wp (bind (call (GetWalletIdentity c ad)) k) Q a.
Proof. read_rule. destruct (d_wallets a !! _); [subst; eauto|refused_case]. Qed.

(** ** Calls that write *)

(** What an outage of [c] may have left behind. *)
Definition left_by {X} (c : storeE X) (a' : db) : Prop :=
  outages = true /\ db_ok a' /\ exists env, reads (ce_now env) /\ outage_effect c env a a'.

Ltac write_rule :=
  intros; cbn; intros ?env ?x ?a' ?Henv ?Hok [?Hp|(?Hout & (?e & -> & ?He) & ?Ho)];
  [cbn in Hp|match goal with H : _ |- _ => apply H; [done|split; [done|split; [done|by eexists]]] end].

Lemma wp_RotateRefreshToken h now k :
  (forall t a', d_tokens a !! h = Some t -> rt_Revoked t = false -> now < rt_ExpiresAt t ->
     db_ok a' -> a' = with_tokens a (<[h := rotate now t]> (d_tokens a)) ->
     wp (k (Rotated (rotate now t))) Q a') ->
  (forall e, d_tokens a !! h = None -> exactly e store.ErrTokenNotFound -> wp (k (RotateErr None e)) Q a) ->
  (forall t e, d_tokens a !! h = Some t -> rt_Revoked t = true -> exactly e store.ErrTokenRevoked ->
     wp (k (RotateErr (Some t) e)) Q a) ->
  (forall t e, d_tokens a !! h = Some t -> rt_Revoked t = false -> rt_ExpiresAt t <= now ->
     exactly e store.ErrTokenExpired -> wp (k (RotateErr (Some t) e)) Q a) ->
  (forall e a', infrastructure e = true -> left_by (RotateRefreshToken h now) a' ->
     wp (k (RotateErr None e)) Q a') ->
  wp (bind (call (RotateRefreshToken h now)) k) Q a.
Proof.
  intros Hok_ Hnf Hrev Hexp Hout env x a' Henv Hok [Hp|(Hob & (e & -> & He) & Ho)].
  - cbn in Hp. destruct (d_tokens a !! h) as [t|] eqn:E.
    + destruct (rt_Revoked t) eqn:Er; [by destruct Hp as (-> & e & -> & He); eauto|].
      destruct (rt_ExpiresAt t <=? now) eqn:Ee.
      * destruct Hp as (-> & e & -> & He). eapply Hexp; eauto; lia.
      * destruct Hp as (-> & ->). eapply Hok_; eauto; lia.
    + destruct Hp as (-> & e & -> & He). eauto.
  - apply Hout; [done|]. split_and!; eauto.
Qed.

Lemma wp_SaveRefreshToken t k :
  rt_RotatedAt t = None -> rt_EndedAt t = None ->
  (forall now a', ~ root_unusable (rt_Parent t) (d_tokens a) -> is_Some (d_users a !! rt_UserID t) ->
     db_ok a' -> a' = with_tokens a (<[rt_Hash t := stamp_token now t]> (d_tokens a)) ->
     wp (k (Ok (stamp_token now t))) Q a') ->
  (forall e, root_unusable (rt_Parent t) (d_tokens a) -> exactly e store.ErrTokenRevoked ->
     wp (k (Err e)) Q a) ->
  (forall e, ~ root_unusable (rt_Parent t) (d_tokens a) -> d_users a !! rt_UserID t = None ->
     exactly e store.ErrUserNotFound -> wp (k (Err e)) Q a) ->
  (forall e a', infrastructure e = true -> left_by (SaveRefreshToken t) a' -> wp (k (Err e)) Q a') ->
  wp (bind (call (SaveRefreshToken t)) k) Q a.
Proof.
  intros Hrot Hend. write_rule. destruct Hp as [(Hu & (e & -> & He) & ->)|[Hu Hp]]; [eauto|].
  destruct (d_users a !! rt_UserID t) eqn:E.
  - destruct Hp as (r & Hr & -> & ->).
    apply token_row_issued in Hr as ->; [|done..]. eauto.
  - destruct Hp as ((e & -> & He) & ->). eauto.
Qed.

Lemma wp_RevokeTokens h k :
  (forall now a', db_ok a' -> a' = with_tokens a (end_family now h (d_tokens a)) -> wp (k (Ok tt)) Q a') ->
  (forall e a', infrastructure e = true -> left_by (RevokeTokens h) a' -> wp (k (Err e)) Q a') ->
  wp (bind (call (RevokeTokens h)) k) Q a.
Proof. write_rule. destruct Hp as [-> ->]. eauto. Qed.

(** A new access token meets one of the same digest or the same ID. *)
Definition pat_clash (p : PersonalAccessToken) (m : gmap string PersonalAccessToken) : Prop :=
  exists h q, m !! h = Some q /\ (h = pat_Hash p \/ pat_ID q = pat_ID p).
Lemma taken_clash p m : is_Some (m !! pat_Hash p) \/ id_taken pat_ID (pat_ID p) m -> pat_clash p m.
Proof. intros [[q Hq]|(h & q & Hq & Hid)]; [by exists (pat_Hash p), q; auto|by exists h, q; auto]. Qed.

Lemma wp_SavePAT p k :
  (forall now a', is_Some (d_users a !! pat_UserID p) -> d_pats a !! pat_Hash p = None ->
     db_ok a' -> a' = with_pats a (<[pat_Hash p := stamp_pat now p]> (d_pats a)) ->
     wp (k (Ok (stamp_pat now p))) Q a') ->
  (forall e s, s = store.ErrUserNotFound /\ d_users a !! pat_UserID p = None \/
       s = store.ErrPATExists /\ pat_clash p (d_pats a) -> exactly e s ->
     wp (k (Err e)) Q a) ->
  (forall e a', infrastructure e = true -> left_by (SavePAT p) a' -> wp (k (Err e)) Q a') ->
  wp (bind (call (SavePAT p)) k) Q a.
Proof.
  write_rule. destruct (d_users a !! pat_UserID p) eqn:E, (d_pats a !! pat_Hash p) eqn:E'.
  2: { destruct Hp as [(-> & ->)|(Hid & (e & -> & He) & ->)]; eauto 6 using taken_clash. }
  1: { destruct Hp as (Hp & ->). destruct Hp as (e & -> & He).
       match goal with H : context [pat_clash] |- _ => eapply H; [right; split; [done|]|exact He] end.
       apply taken_clash. rewrite E'. eauto. }
  all: destruct Hp as [[(e & -> & He)|[Hid (e & -> & He)]] ->]; (match goal with H : context [pat_clash] |- _ => eapply H; [|exact He] end);
    try (by left); right; (split; [done|]); apply taken_clash; rewrite E'; done.
Qed.

Lemma wp_SavePATLimited p limit now k :
  let pruned := prune_pats (pat_UserID p) now (d_pats a) in
  (forall now' a', is_Some (d_users a !! pat_UserID p) -> pat_count (pat_UserID p) pruned < limit ->
     pruned !! pat_Hash p = None ->
     db_ok a' -> a' = with_pats a (<[pat_Hash p := stamp_pat now' p]> pruned) ->
     wp (k (Ok (stamp_pat now' p))) Q a') ->
  (forall e a', limit <= pat_count (pat_UserID p) pruned -> exactly e store.ErrPATLimitReached ->
     db_ok a' -> a' = with_pats a pruned -> wp (k (Err e)) Q a') ->
  (forall e s a', s = store.ErrUserNotFound /\ d_users a !! pat_UserID p = None /\ a' = a \/
       s = store.ErrPATExists /\ pat_clash p pruned /\ (a' = a \/ a' = with_pats a pruned) -> exactly e s ->
     db_ok a' -> wp (k (Err e)) Q a') ->
  (forall e a', infrastructure e = true -> left_by (SavePATLimited p limit now) a' -> wp (k (Err e)) Q a') ->
  wp (bind (call (SavePATLimited p limit now)) k) Q a.
Proof.
  intros pruned Hok_ Hlim Hex Hout env x a' Henv Hok [Hp|(Hob & (e & -> & He) & Ho)].
  2: { apply Hout; [done|]. split_and!; eauto. }
  cbn in Hp. fold pruned in Hp. destruct (d_users a !! pat_UserID p) eqn:E.
  - destruct (limit <=? _) eqn:El.
    + destruct Hp as [(e & -> & He) ->]. eapply Hlim; eauto; lia.
    + destruct (pruned !! pat_Hash p) eqn:Ep.
      * destruct Hp as [(e & -> & He) ?]. eapply (Hex e store.ErrPATExists); [|exact He|done]. right.
        split_and!; [done| |done]. apply taken_clash. rewrite Ep. eauto.
      * destruct Hp as [(-> & ->)|(Hid & (e & -> & He) & ?)].
        -- eapply Hok_; eauto; lia.
        -- eapply (Hex e store.ErrPATExists); [|exact He|done]. right. split_and!; [done| |done]. apply taken_clash. by right.
  - destruct Hp as [(e & -> & He) ->]. eapply (Hex e store.ErrUserNotFound); eauto.
Qed.

Lemma wp_DeletePAT uid id k :
  (forall h p a', d_pats a !! h = Some p -> pat_ID p = id -> pat_UserID p = uid ->
     db_ok a' -> a' = with_pats a (delete h (d_pats a)) -> wp (k (Ok tt)) Q a') ->
  (forall e, (forall h p, d_pats a !! h = Some p -> ~ (pat_ID p = id /\ pat_UserID p = uid)) ->
     exactly e store.ErrTokenNotFound -> wp (k (Err e)) Q a) ->
  (forall e a', infrastructure e = true -> left_by (DeletePAT uid id) a' -> wp (k (Err e)) Q a') ->
  wp (bind (call (DeletePAT uid id)) k) Q a.
Proof.
  write_rule. destruct Hp as [(h & p & ? & ? & ? & -> & ->)|(? & (e & -> & He) & ->)]; eauto.
Qed.

(** The result of [TouchPAT] is not looked at. *)
Lemma wp_TouchPAT h t k :
  (forall r a', db_ok a' -> a' = a \/ a' = with_pats a (alter (touch t) h (d_pats a)) ->
     wp (k r) Q a') ->
  wp (bind (call (TouchPAT h t)) k) Q a.
Proof.
  intros Hk env x a' _ Hok [[-> ->]|(_ & _ & [->|[(y & _ & ->)|[[] _]]])]; apply Hk; auto.
Qed.

Lemma wp_Create u k :
  let taken := is_Some (d_users a !! user_ID u) \/ (exists v, has_email a (user_Email u) v) in
  (forall now a', ~ taken -> db_ok a' ->
     a' = with_users a (<[user_ID u := stamp_user now u]> (d_users a)) ->
     wp (k (Ok (stamp_user now u))) Q a') ->
  (forall e, taken -> exactly e store.ErrUserExists -> wp (k (Err e)) Q a) ->
  (forall e a', infrastructure e = true -> left_by (Create u) a' -> wp (k (Err e)) Q a') ->
  wp (bind (call (Create u)) k) Q a.
Proof.
  intros taken. write_rule. destruct Hp as [(? & (e & -> & He) & ->)|(? & -> & ->)]; eauto.
Qed.

Lemma wp_Delete id k :
  (forall a', is_Some (d_users a !! id) -> db_ok a' -> a' = cascade id a -> wp (k (Ok tt)) Q a') ->
  (forall e, d_users a !! id = None -> exactly e store.ErrUserNotFound -> wp (k (Err e)) Q a) ->
  (forall e a', infrastructure e = true -> left_by (Delete id) a' -> wp (k (Err e)) Q a') ->
  wp (bind (call (Delete id)) k) Q a.
Proof.
  write_rule. destruct (d_users a !! id) eqn:E;
    [destruct Hp as [-> ->]|destruct Hp as [(e & -> & He) ->]]; eauto.
Qed.

Lemma wp_SavePasswordHash uid h k :
  (forall a', is_Some (d_users a !! uid) -> db_ok a' ->
     a' = with_passwords a (<[uid := h]> (d_passwords a)) -> wp (k (Ok tt)) Q a') ->
  (forall e, d_users a !! uid = None -> exactly e store.ErrUserNotFound -> wp (k (Err e)) Q a) ->
  (forall e a', infrastructure e = true -> left_by (SavePasswordHash uid h) a' -> wp (k (Err e)) Q a') ->
  wp (bind (call (SavePasswordHash uid h)) k) Q a.
Proof.
  write_rule. destruct (d_users a !! uid) eqn:E;
    [destruct Hp as [-> ->]|destruct Hp as [(e & -> & He) ->]]; eauto.
Qed.

Lemma wp_SaveOAuthIdentity i k :
  let key := (oi_Provider i, oi_ExternalID i) in
  (forall now a', is_Some (d_users a !! oi_UserID i) -> d_oauth a !! key = None -> db_ok a' ->
     a' = with_oauth a (<[key := stamp_oauth now i]> (d_oauth a)) -> wp (k (Ok (stamp_oauth now i))) Q a') ->
  (forall e, is_Some (d_users a !! oi_UserID i) ->
     exactly e store.ErrOAuthIdentityExists -> wp (k (Err e)) Q a) ->
  (forall e s, d_users a !! oi_UserID i = None -> exactly e s -> wp (k (Err e)) Q a) ->
  (forall e a', infrastructure e = true -> left_by (SaveOAuthIdentity i) a' -> wp (k (Err e)) Q a') ->
  wp (bind (call (SaveOAuthIdentity i)) k) Q a.
Proof.
  intros key Hnew Hdup Hgone Hout. intros env x a' Henv Hok [Hp|(Hob & (e & -> & He) & Ho)].
  2: { apply Hout; [done|]. split_and!; eauto. }
  cbn in Hp. fold key in Hp. destruct (d_users a !! oi_UserID i) eqn:Eu.
  - destruct (d_oauth a !! key) eqn:Ek.
    + destruct Hp as [(e & -> & He) ->]. eauto.
    + destruct Hp as [(-> & ->)|(_ & (e & -> & He) & ->)]; eauto.
  - destruct Hp as [[(e & -> & He)|[_ (e & -> & He)]] ->]; eauto.
Qed.

Lemma wp_SaveWalletIdentity i k :
  let key := (wi_Chain i, wi_Address i) in
  (forall now a', is_Some (d_users a !! wi_UserID i) -> d_wallets a !! key = None -> db_ok a' ->
     a' = with_wallets a (<[key := stamp_wallet now i]> (d_wallets a)) -> wp (k (Ok (stamp_wallet now i))) Q a') ->
  (forall e, is_Some (d_users a !! wi_UserID i) ->
     exactly e store.ErrWalletIdentityExists -> wp (k (Err e)) Q a) ->
  (forall e s, d_users a !! wi_UserID i = None -> exactly e s -> wp (k (Err e)) Q a) ->
  (forall e a', infrastructure e = true -> left_by (SaveWalletIdentity i) a' -> wp (k (Err e)) Q a') ->
  wp (bind (call (SaveWalletIdentity i)) k) Q a.
Proof.
  intros key Hnew Hdup Hgone Hout. intros env x a' Henv Hok [Hp|(Hob & (e & -> & He) & Ho)].
  2: { apply Hout; [done|]. split_and!; eauto. }
  cbn in Hp. fold key in Hp. destruct (d_users a !! wi_UserID i) eqn:Eu.
  - destruct (d_wallets a !! key) eqn:Ek.
    + destruct Hp as [(e & -> & He) ->]. eauto.
    + destruct Hp as [(-> & ->)|(_ & (e & -> & He) & ->)]; eauto.
  - destruct Hp as [[(e & -> & He)|[_ (e & -> & He)]] ->]; eauto.
Qed.

Lemma wp_ListOAuthIdentities uid k :
  (forall l, listing oi_UserID oi_CreatedAt uid (d_oauth a) l -> wp (k (Ok l)) Q a) ->
  (forall e, outages = true -> infrastructure e = true -> wp (k (Err e)) Q a) ->
  wp (bind (call (ListOAuthIdentities uid)) k) Q a.
Proof. read_rule. destruct Hp as (l & -> & ?). eauto. Qed.

Lemma wp_SaveChallenge c k :
  (forall now swp a', db_ok a' ->
     a' = with_challenges a (<[ch_Nonce c := stamp_challenge now c]> (sweep swp (d_challenges a))) ->
     wp (k (Ok (stamp_challenge now c))) Q a') ->
  (forall e a', infrastructure e = true -> left_by (SaveChallenge c) a' -> wp (k (Err e)) Q a') ->
  wp (bind (call (SaveChallenge c)) k) Q a.
Proof. write_rule. destruct Hp as [-> ->]. eauto. Qed.

(** A lookup may drop the row it found expired. *)
Definition maybe_dropped (n : string) (a' : db) : Prop :=
  a' = a \/ exists c now, reads now /\ d_challenges a !! n = Some c /\ Before (ch_ExpiresAt c) now = true /\
              a' = with_challenges a (delete n (d_challenges a)).

Lemma wp_GetChallenge n k :
  (forall c, d_challenges a !! n = Some c -> wp (k (Ok c)) Q a) ->
  (forall e s a', db_ok a' -> maybe_dropped n a' ->
     (exists now, reads now /\
        forall c, d_challenges a !! n = Some c -> Before (ch_ExpiresAt c) now = true) ->
     s = store.ErrChallengeNotFound \/ s = store.ErrChallengeExpired ->
     exactly e s -> wp (k (Err e)) Q a') ->
  (forall e a', infrastructure e = true -> outages = true -> db_ok a' -> maybe_dropped n a' ->
     wp (k (Err e)) Q a') ->
  wp (bind (call (GetChallenge n)) k) Q a.
Proof.
  intros Hfound Hnone Hout env x a' Henv Hok [Hp|(Hob & (e & -> & He) & Ho)].
  - cbn in Hp. destruct (d_challenges a !! n) as [c|] eqn:E.
    + destruct (Before (ch_ExpiresAt c) (ce_now env)) eqn:Eb; [|by destruct Hp as [-> ->]; eauto].
      destruct Hp as [(e & -> & He) Ha']. apply (Hnone e store.ErrChallengeExpired); eauto.
      * destruct Ha' as [->| ->]; [by left|right]. by exists c, (ce_now env).
      * exists (ce_now env). split; [done|]. by intros c' [= <-].
    + destruct Hp as [(e & -> & He) ->]. apply (Hnone e store.ErrChallengeNotFound); [done|by left| |by left|done].
      by exists (ce_now env).
  - apply Hout; [done..|]. destruct Ho as [->|[[y Hp]|[[] _]]]; [by left|]. cbn in Hp.
    destruct (d_challenges a !! n) as [c|] eqn:E; [|left; by destruct Hp].
    destruct (Before _ _) eqn:Eb; [|left; by destruct Hp].
    destruct Hp as [_ [->| ->]]; [by left|right]. by exists c, (ce_now env).
Qed.

Lemma wp_DeleteChallenge n k :
  (forall a', is_Some (d_challenges a !! n) -> db_ok a' ->
     a' = with_challenges a (delete n (d_challenges a)) -> wp (k (Ok tt)) Q a') ->
  (forall e, d_challenges a !! n = None -> exactly e store.ErrChallengeNotFound -> wp (k (Err e)) Q a) ->
  (forall e a', infrastructure e = true -> left_by (DeleteChallenge n) a' -> wp (k (Err e)) Q a') ->
  wp (bind (call (DeleteChallenge n)) k) Q a.
Proof.
  write_rule. destruct (d_challenges a !! n) eqn:E;
    [destruct Hp as [-> ->]|destruct Hp as [(e & -> & He) ->]]; eauto.
Qed.
End rules.

#[export] Hint Extern 1 (outages = true) =>
  match goal with H : left_by _ _ _ |- _ => apply H end : errs.
