(* ===== verification/Memory.v ===== *)
(** * The in-memory store (store/memory/memory.go)

    One definition per method.  The mutex makes each method atomic, so a
    method is a function from the store to its result and the next store.
    Maps hold pointers to structs the store owns: every method copies on the
    way in and out ([copyUser], [snapshot], [stored := *x]), and no struct is
    reachable from two keys except a user, held by [users] and [usersByEmail]
    and never written after [Create]; so the maps hold values here.

    Ranging over a Go map visits its entries in an unspecified order, chosen
    anew for every loop: [range_order], about which only
    [range_order_perm] is known. *)

From S2P Require Import Prelude GoTime Errors Entity Ports Contract.

Class RangeOrder := {
  range_order : forall {A : Type}, nat -> list A -> list A;
  range_order_perm : forall {A : Type} (n : nat) (l : list A), range_order n l ≡ₚ l
}.

(** [oauthKey{provider, externalID}] and [walletKey{chain, address}] *)
Abbreviation oauthKey := (string * string)%type (only parsing).
Abbreviation walletKey := (string * string)%type (only parsing).

Record Store := mkStore {
  users : gmap string User;
  usersByEmail : gmap string User;
  refreshTokens : gmap string RefreshToken;
  pats : gmap string PersonalAccessToken;
  passwordHashes : gmap string string;
  oauthIdentities : gmap oauthKey OAuthIdentity;
  walletIdentities : gmap walletKey WalletIdentity;
  challenges : gmap string Challenge
}.

Definition New : Store := mkStore ∅ ∅ ∅ ∅ ∅ ∅ ∅ ∅.

Definition set_refreshTokens (s : Store) (m : gmap string RefreshToken) : Store :=
  mkStore (users s) (usersByEmail s) m (pats s) (passwordHashes s)
    (oauthIdentities s) (walletIdentities s) (challenges s).
Definition set_pats (s : Store) (m : gmap string PersonalAccessToken) : Store :=
  mkStore (users s) (usersByEmail s) (refreshTokens s) m (passwordHashes s)
    (oauthIdentities s) (walletIdentities s) (challenges s).
Definition set_passwordHashes (s : Store) (m : gmap string string) : Store :=
  mkStore (users s) (usersByEmail s) (refreshTokens s) (pats s) m
    (oauthIdentities s) (walletIdentities s) (challenges s).
Definition set_oauthIdentities (s : Store) (m : gmap oauthKey OAuthIdentity) : Store :=
  mkStore (users s) (usersByEmail s) (refreshTokens s) (pats s) (passwordHashes s)
    m (walletIdentities s) (challenges s).
Definition set_walletIdentities (s : Store) (m : gmap walletKey WalletIdentity) : Store :=
  mkStore (users s) (usersByEmail s) (refreshTokens s) (pats s) (passwordHashes s)
    (oauthIdentities s) m (challenges s).
Definition set_challenges (s : Store) (m : gmap string Challenge) : Store :=
  mkStore (users s) (usersByEmail s) (refreshTokens s) (pats s) (passwordHashes s)
    (oauthIdentities s) (walletIdentities s) m.

(** ** UserStore *)

Definition mem_Create (env : callenv) (user : User) (s : Store) : res User * Store :=
  if bool_decide (is_Some (users s !! user_ID user)) then
    (Err (wrapS store.ErrUserExists (user_ID user)), s)
  else if bool_decide (is_Some (usersByEmail s !! user_Email user)) && negb (strEq (user_Email user) "") then
    (Err (wrapS store.ErrUserExists (user_Email user)), s)
  else
    let now := ce_now env in
    let user := mkUser (user_ID user) (user_Email user) (user_Roles user)
                  (stamp (user_CreatedAt user) now) (stamp (user_UpdatedAt user) now) in
    (Ok user,
     mkStore (<[user_ID user := user]> (users s))
       (if strEq (user_Email user) "" then usersByEmail s
        else <[user_Email user := user]> (usersByEmail s))
       (refreshTokens s) (pats s) (passwordHashes s)
       (oauthIdentities s) (walletIdentities s) (challenges s)).

Definition mem_GetByID (id : string) (s : Store) : res User * Store :=
  match users s !! id with
  | None => (Err (wrapS store.ErrUserNotFound id), s)
  | Some user => (Ok user, s)
  end.

Definition mem_GetByEmail (email : string) (s : Store) : res User * Store :=
  match usersByEmail s !! email with
  | None => (Err (wrapS store.ErrUserNotFound email), s)
  | Some user => (Ok user, s)
  end.

Definition requireUser (s : Store) (userID : string) : option error :=
  match users s !! userID with
  | None => Some (wrapS store.ErrUserNotFound userID)
  | Some _ => None
  end.

Definition mem_Delete (id : string) (s : Store) : res unit * Store :=
  match users s !! id with
  | None => (Err (wrapS store.ErrUserNotFound id), s)
  | Some user =>
      (Ok tt,
       mkStore (delete id (users s))
         (delete (user_Email user) (usersByEmail s))
         (DeleteFunc (fun t => strEq (rt_UserID t) id) (refreshTokens s))
         (DeleteFunc (fun p => strEq (pat_UserID p) id) (pats s))
         (delete id (passwordHashes s))
         (DeleteFunc (fun i => strEq (oi_UserID i) id) (oauthIdentities s))
         (DeleteFunc (fun i => strEq (wi_UserID i) id) (walletIdentities s))
         (challenges s))
  end.

(** ** TokenStore *)

Definition mem_SaveRefreshToken (env : callenv) (token : RefreshToken) (s : Store)
  : res RefreshToken * Store :=
  let token := mkRefreshToken (rt_Hash token) (rt_UserID token) (rt_Parent token)
                 (rt_ExpiresAt token) (stamp (rt_CreatedAt token) (ce_now env))
                 (rt_Revoked token) (rt_RotatedAt token) (rt_EndedAt token) in
  let refuse := if strEq (rt_Parent token) "" then None
    else match refreshTokens s !! rt_Parent token with
         | None => Some (EWrap [] store.ErrTokenRevoked [Lit ": family root missing"])
         | Some root =>
             match rt_EndedAt root with
             | Some _ => Some (EWrap [] store.ErrTokenRevoked [Lit ": session ended"])
             | None => None
             end
         end in
  match refuse with
  | Some e => (Err e, s)
  | None =>
      match requireUser s (rt_UserID token) with
      | Some e => (Err e, s)
      | None => (Ok token, set_refreshTokens s (<[rt_Hash token := token]> (refreshTokens s)))
      end
  end.

Definition mem_GetRefreshToken (hash : string) (s : Store) : res RefreshToken * Store :=
  match refreshTokens s !! hash with
  | None => (Err store.ErrTokenNotFound, s)
  | Some token => (Ok token, s)
  end.

Definition mem_RotateRefreshToken (hash : string) (now : time) (s : Store) : rotation * Store :=
  match refreshTokens s !! hash with
  | None => (RotateErr None store.ErrTokenNotFound, s)
  | Some token =>
      if rt_Revoked token then (RotateErr (Some token) store.ErrTokenRevoked, s)
      else if negb (After (rt_ExpiresAt token) now) then
        (RotateErr (Some token) store.ErrTokenExpired, s)
      else
        let token := mkRefreshToken (rt_Hash token) (rt_UserID token) (rt_Parent token)
                       (rt_ExpiresAt token) (rt_CreatedAt token) true (Some now) (rt_EndedAt token) in
        (Rotated token, set_refreshTokens s (<[hash := token]> (refreshTokens s)))
  end.

(** The body of the loop of [GetRefreshFamily]. *)
Definition family_step (root : string) (family : RefreshFamily) (t : RefreshToken) : RefreshFamily :=
  if negb (strEq (rt_Hash t) root) && negb (strEq (rt_Parent t) root) then family
  else
    mkRefreshFamily
      (match rt_EndedAt t with Some _ => true | None => rf_SessionEnded family end)
      (match rt_RotatedAt t with
       | None => rf_LastRotatedAt family
       | Some r =>
           match rf_LastRotatedAt family with
           | None => Some r
           | Some l => if After r l then Some r else Some l
           end
       end).

Definition mem_GetRefreshFamily `{RangeOrder} (env : callenv) (root : string) (s : Store)
  : res RefreshFamily * Store :=
  let tokens := range_order (ce_seed env) (map_to_list (refreshTokens s)).*2 in
  (Ok (foldl (family_step root) (mkRefreshFamily false None) tokens), s).

Definition mem_RevokeTokens (env : callenv) (hash : string) (s : Store) : res unit * Store :=
  (Ok tt,
   set_refreshTokens s
     ((fun token =>
         if strEq (rt_Hash token) hash || strEq (rt_Parent token) hash then
           mkRefreshToken (rt_Hash token) (rt_UserID token) (rt_Parent token) (rt_ExpiresAt token)
             (rt_CreatedAt token) true (rt_RotatedAt token)
             (match rt_EndedAt token with None => Some (ce_now env) | Some e => Some e end)
         else token) <$> refreshTokens s)).

(** ** PATStore *)

Definition savePATLocked (env : callenv) (pat : PersonalAccessToken) (s : Store)
  : res PersonalAccessToken * Store :=
  if bool_decide (is_Some (pats s !! pat_Hash pat)) then (Err store.ErrPATExists, s)
  else
    let pat := mkPAT (pat_ID pat) (pat_Hash pat) (pat_UserID pat) (pat_Name pat) (pat_Scopes pat)
                 (pat_ExpiresAt pat) (pat_LastUsedAt pat)
                 (stamp (pat_CreatedAt pat) (ce_now env)) in
    (Ok pat, set_pats s (<[pat_Hash pat := pat]> (pats s))).

Definition mem_SavePAT (env : callenv) (pat : PersonalAccessToken) (s : Store)
  : res PersonalAccessToken * Store :=
  match requireUser s (pat_UserID pat) with
  | Some e => (Err e, s)
  | None => savePATLocked env pat s
  end.

(** The body of the loop of [SavePATLimited]: the live count and the map. *)
Definition limit_step (userID : string) (now : time)
    (acc : Z * gmap string PersonalAccessToken) (kv : string * PersonalAccessToken)
  : Z * gmap string PersonalAccessToken :=
  if negb (strEq (pat_UserID kv.2) userID) then acc
  else if match pat_ExpiresAt kv.2 with Some e => After now e | None => false end
  then (acc.1, delete kv.1 acc.2)
  else (acc.1 + 1, acc.2).

Definition mem_SavePATLimited `{RangeOrder} (env : callenv) (pat : PersonalAccessToken) (limit : Z)
    (now : time) (s : Store) : res PersonalAccessToken * Store :=
  match requireUser s (pat_UserID pat) with
  | Some e => (Err e, s)
  | None =>
      let '(live, pats') :=
        foldl (limit_step (pat_UserID pat) now) (0, pats s)
          (range_order (ce_seed env) (map_to_list (pats s))) in
      let s := set_pats s pats' in
      if limit <=? live then (Err store.ErrPATLimitReached, s)
      else savePATLocked env pat s
  end.

Definition mem_GetPAT (hash : string) (s : Store) : res PersonalAccessToken * Store :=
  match pats s !! hash with
  | None => (Err store.ErrTokenNotFound, s)
  | Some pat => (Ok pat, s)
  end.

(** [slices.SortFunc(out, func(a, b) { return b.CreatedAt.Compare(a.CreatedAt) })]:
    newest first.  The library's sort need not be stable; since its input comes
    in an arbitrary order, a stable insertion sort produces every outcome. *)
Fixpoint sort_insert {A} (created : A -> time) (x : A) (l : list A) : list A :=
  match l with
  | [] => [x]
  | y :: l' => if created y <=? created x then x :: l else y :: sort_insert created x l'
  end.

Definition sort_newest {A} (created : A -> time) (l : list A) : list A :=
  foldr (sort_insert created) [] l.

(** The listing loop shared by the three [List*] methods. *)
Definition list_owned `{RangeOrder} `{Countable K} {A} (env : callenv) (owner : A -> string)
    (created : A -> time) (userID : string) (m : gmap K A) : list A :=
  sort_newest created
    (filter (fun x => strEq (owner x) userID = true)
       (range_order (ce_seed env) (map_to_list m).*2)).

Definition mem_ListPATs `{RangeOrder} (env : callenv) (userID : string) (s : Store)
  : res (list PersonalAccessToken) * Store :=
  (Ok (list_owned env pat_UserID pat_CreatedAt userID (pats s)), s).

Definition mem_DeletePAT `{RangeOrder} (env : callenv) (userID id : string) (s : Store)
  : res unit * Store :=
  match find (fun kv => strEq (pat_ID kv.2) id && strEq (pat_UserID kv.2) userID)
          (range_order (ce_seed env) (map_to_list (pats s))) with
  | Some kv => (Ok tt, set_pats s (delete kv.1 (pats s)))
  | None => (Err store.ErrTokenNotFound, s)
  end.

Definition mem_TouchPAT (hash : string) (t : time) (s : Store) : res unit * Store :=
  (Ok tt, set_pats s (alter (fun pat =>
     mkPAT (pat_ID pat) (pat_Hash pat) (pat_UserID pat) (pat_Name pat) (pat_Scopes pat)
       (pat_ExpiresAt pat) (Some t) (pat_CreatedAt pat)) hash (pats s))).

(** ** OAuthIdentityStore *)

Definition mem_SaveOAuthIdentity (env : callenv) (identity : OAuthIdentity) (s : Store)
  : res OAuthIdentity * Store :=
  match requireUser s (oi_UserID identity) with
  | Some e => (Err e, s)
  | None =>
      let key := (oi_Provider identity, oi_ExternalID identity) in
      if bool_decide (is_Some (oauthIdentities s !! key)) then
        (Err (EWrap [] store.ErrOAuthIdentityExists
                [Lit ": "; ArgS (oi_Provider identity); Lit "/"; ArgS (oi_ExternalID identity)]), s)
      else
        let identity := mkOAuthIdentity (oi_ID identity) (oi_UserID identity) (oi_Provider identity)
                          (oi_ExternalID identity) (oi_Email identity)
                          (stamp (oi_CreatedAt identity) (ce_now env)) in
        (Ok identity, set_oauthIdentities s (<[key := identity]> (oauthIdentities s)))
  end.

Definition mem_GetOAuthIdentity (provider externalID : string) (s : Store)
  : res OAuthIdentity * Store :=
  match oauthIdentities s !! (provider, externalID) with
  | None => (Err (EWrap [] store.ErrOAuthIdentityNotFound
                    [Lit ": "; ArgS provider; Lit "/"; ArgS externalID]), s)
  | Some identity => (Ok identity, s)
  end.

Definition mem_ListOAuthIdentities `{RangeOrder} (env : callenv) (userID : string) (s : Store)
  : res (list OAuthIdentity) * Store :=
  (Ok (list_owned env oi_UserID oi_CreatedAt userID (oauthIdentities s)), s).

(** ** WalletIdentityStore *)

Definition mem_SaveWalletIdentity (env : callenv) (identity : WalletIdentity) (s : Store)
  : res WalletIdentity * Store :=
  match requireUser s (wi_UserID identity) with
  | Some e => (Err e, s)
  | None =>
      let key := (wi_Chain identity, wi_Address identity) in
      if bool_decide (is_Some (walletIdentities s !! key)) then
        (Err (EWrap [] store.ErrWalletIdentityExists
                [Lit ": "; ArgS (wi_Chain identity); Lit "/"; ArgS (wi_Address identity)]), s)
      else
        let identity := mkWalletIdentity (wi_ID identity) (wi_UserID identity) (wi_Chain identity)
                          (wi_Address identity) (stamp (wi_CreatedAt identity) (ce_now env)) in
        (Ok identity, set_walletIdentities s (<[key := identity]> (walletIdentities s)))
  end.

Definition mem_GetWalletIdentity (chain address : string) (s : Store)
  : res WalletIdentity * Store :=
  match walletIdentities s !! (chain, address) with
  | None => (Err (EWrap [] store.ErrWalletIdentityNotFound
                    [Lit ": "; ArgS chain; Lit "/"; ArgS address]), s)
  | Some identity => (Ok identity, s)
  end.

Definition mem_ListWalletIdentities `{RangeOrder} (env : callenv) (userID : string) (s : Store)
  : res (list WalletIdentity) * Store :=
  (Ok (list_owned env wi_UserID wi_CreatedAt userID (walletIdentities s)), s).

(** ** ChallengeStore *)

Definition mem_SaveChallenge (env : callenv) (challenge : Challenge) (s : Store)
  : res Challenge * Store :=
  let now := ce_now env in
  let swept := DeleteFunc (fun c => Before (ch_ExpiresAt c) now) (challenges s) in
  let challenge := mkChallenge (ch_Nonce challenge) (ch_Message challenge) (ch_Chain challenge)
                     (ch_Address challenge) (ch_CodeVerifier challenge) (ch_OAuthNonce challenge)
                     (ch_BindingHash challenge) (ch_ExpiresAt challenge)
                     (stamp (ch_CreatedAt challenge) now) in
  (Ok challenge, set_challenges s (<[ch_Nonce challenge := challenge]> swept)).

Definition mem_GetChallenge (env : callenv) (nonce : string) (s : Store) : res Challenge * Store :=
  match challenges s !! nonce with
  | None => (Err store.ErrChallengeNotFound, s)
  | Some challenge =>
      if Before (ch_ExpiresAt challenge) (ce_now env) then
        (Err store.ErrChallengeExpired, set_challenges s (delete nonce (challenges s)))
      else (Ok challenge, s)
  end.

Definition mem_DeleteChallenge (nonce : string) (s : Store) : res unit * Store :=
  if bool_decide (is_Some (challenges s !! nonce))
  then (Ok tt, set_challenges s (delete nonce (challenges s)))
  else (Err store.ErrChallengeNotFound, s).

(** ** CredentialStore *)

Definition mem_SavePasswordHash (userID hash : string) (s : Store) : res unit * Store :=
  match requireUser s userID with
  | Some e => (Err e, s)
  | None => (Ok tt, set_passwordHashes s (<[userID := hash]> (passwordHashes s)))
  end.

Definition mem_GetPasswordHash (userID : string) (s : Store) : res string * Store :=
  match passwordHashes s !! userID with
  | None => (Err (wrapS store.ErrCredentialNotFound userID), s)
  | Some hash => (Ok hash, s)
  end.

(** ** The store as an implementation of the ports *)

Definition memory_call `{RangeOrder} {X} (c : storeE X) (env : callenv) : Store -> X * Store :=
  match c in storeE X return Store -> X * Store with
  | Create user => mem_Create env user
  | GetByID id => mem_GetByID id
  | GetByEmail email => mem_GetByEmail email
  | Delete id => mem_Delete id
  | SaveRefreshToken token => mem_SaveRefreshToken env token
  | GetRefreshToken hash => mem_GetRefreshToken hash
  | RevokeTokens hash => mem_RevokeTokens env hash
  | RotateRefreshToken hash now => mem_RotateRefreshToken hash now
  | GetRefreshFamily root => mem_GetRefreshFamily env root
  | SavePAT pat => mem_SavePAT env pat
  | SavePATLimited pat limit now => mem_SavePATLimited env pat limit now
  | GetPAT hash => mem_GetPAT hash
  | ListPATs userID => mem_ListPATs env userID
  | DeletePAT userID id => mem_DeletePAT env userID id
  | TouchPAT hash t => mem_TouchPAT hash t
  | SaveOAuthIdentity identity => mem_SaveOAuthIdentity env identity
  | GetOAuthIdentity provider externalID => mem_GetOAuthIdentity provider externalID
  | ListOAuthIdentities userID => mem_ListOAuthIdentities env userID
  | SaveWalletIdentity identity => mem_SaveWalletIdentity env identity
  | GetWalletIdentity chain address => mem_GetWalletIdentity chain address
  | ListWalletIdentities userID => mem_ListWalletIdentities env userID
  | SaveChallenge challenge => mem_SaveChallenge env challenge
  | GetChallenge nonce => mem_GetChallenge env nonce
  | DeleteChallenge nonce => mem_DeleteChallenge nonce
  | SavePasswordHash userID hash => mem_SavePasswordHash userID hash
  | GetPasswordHash userID => mem_GetPasswordHash userID
  end.

#[export] Instance memory_impl `{RangeOrder} : StoreImpl Store :=
  fun X c env s => memory_call c env s.
