(* ===== verification/MemoryFacts.v ===== *)
(** * The in-memory store honours the contract

    The loops of the store are characterised for every order in which Go may
    range over a map; then each method is shown to implement its port. *)

From S2P Require Import Prelude GoTime Errors Entity Ports Contract ContractFacts Memory.

(** ** State invariant *)

Definition view (s : Store) : db :=
  mkDb (users s) (refreshTokens s) (pats s) (passwordHashes s)
    (oauthIdentities s) (walletIdentities s) (challenges s).

(** The database is well-formed and the email index lists exactly the users
    with an email. *)
Record mem_inv (s : Store) : Prop := mkMemInv {
  mi_ok : db_ok (view s);
  mi_index : forall e u, usersByEmail s !! e = Some u <-> has_email (view s) e u
}.

Lemma New_inv : mem_inv New.
Proof.
  split; [apply db_ok_empty|]. intros e u. cbn. rewrite lookup_empty.
  split; [done|]. by intros (_ & _ & Hl).
Qed.

(** ** The loop of GetRefreshFamily *)

Definition family_of (root : string) (l : list RefreshToken) : list RefreshToken :=
  filter (fun t => in_family root t = true) l.

(** What has been seen of a family after ranging over [l]. *)
Definition family_seen (root : string) (l : list RefreshToken) (f : RefreshFamily) : Prop :=
  (rf_SessionEnded f = true <-> Exists (fun t => is_Some (rt_EndedAt t)) (family_of root l)) /\
  match rf_LastRotatedAt f with
  | None => Forall (fun t => rt_RotatedAt t = None) (family_of root l)
  | Some r =>
      Exists (fun t => rt_RotatedAt t = Some r) (family_of root l) /\
      Forall (fun t => forall r', rt_RotatedAt t = Some r' -> r' <= r) (family_of root l)
  end.

Lemma family_step_seen root l f t :
  family_seen root l f -> family_seen root (l ++ [t]) (family_step root f t).
Proof.
  intros [Hend Hlast]. unfold family_seen, family_of, family_step, in_family in *.
  rewrite filter_app. rewrite <- negb_orb.
  destruct (strEq (rt_Hash t) root || strEq (rt_Parent t) root) eqn:E; cbn [negb].
  2: { rewrite (filter_cons_False _ t []), app_nil_r by congruence. done. }
  rewrite (filter_cons_True _ t []), filter_nil by done.
  rewrite Exists_app, Exists_cons, Exists_nil. cbn. split.
  - destruct (rt_EndedAt t); [|rewrite Hend; naive_solver].
    split; [|done]. intros _. right. left. by eexists.
  - destruct (rt_RotatedAt t) as [r|] eqn:Er.
    + destruct (rf_LastRotatedAt f) as [l0|].
      * destruct Hlast as [Hex Hall]. unfold After. destruct (l0 <? r) eqn:El; cbn.
        -- rewrite Exists_app, Forall_app, Forall_cons, Exists_cons. split; [tauto|].
           split_and!; [|naive_solver lia|done].
           eapply Forall_impl; [exact Hall|]. intros x Hx r' Hr'. specialize (Hx _ Hr'). lia.
        -- rewrite Exists_app, Forall_app, Forall_cons. split; [tauto|].
           split_and!; [done|naive_solver lia|done].
      * rewrite Exists_app, Exists_cons, Forall_app, Forall_cons. split; [tauto|].
        split_and!; [|naive_solver lia|done].
        eapply Forall_impl; [exact Hlast|]. intros x Hx r' Hr'. congruence.
    + destruct (rf_LastRotatedAt f) as [l0|].
      * destruct Hlast as [Hex Hall]. rewrite Exists_app, Forall_app, Forall_cons.
        split; [tauto|]. split_and!; [done|naive_solver|done].
      * by rewrite Forall_app, Forall_cons.
Qed.

Lemma family_loop_seen root l :
  family_seen root l (foldl (family_step root) (mkRefreshFamily false None) l).
Proof.
  induction l as [|t l IH] using rev_ind.
  - split; cbn; [|constructor]. split; [done|]. by rewrite Exists_nil.
  - rewrite foldl_snoc. by apply family_step_seen.
Qed.

Lemma elem_of_values `{Countable K} {A} (m : gmap K A) x :
  x ∈ (map_to_list m).*2 <-> exists k, m !! k = Some x.
Proof.
  rewrite list_elem_of_fmap. split.
  - intros ([k y] & -> & Hl). exists k. by apply elem_of_map_to_list.
  - intros [k Hl]. exists (k, x). split; [done|]. by apply elem_of_map_to_list.
Qed.

(** ** The loop of SavePATLimited *)

Definition dead_pat (uid : string) (now : time) (p : PersonalAccessToken) : bool :=
  strEq (pat_UserID p) uid && pat_expired now p.
Definition live_pat (uid : string) (now : time) (p : PersonalAccessToken) : bool :=
  strEq (pat_UserID p) uid && negb (pat_expired now p).

Lemma limit_step_eq uid now acc kv :
  limit_step uid now acc kv =
  (acc.1 + (if live_pat uid now kv.2 then 1 else 0),
   if dead_pat uid now kv.2 then delete kv.1 acc.2 else acc.2).
Proof.
  unfold limit_step, live_pat, dead_pat, pat_expired. destruct acc as [n m]. cbn.
  destruct (strEq _ _), (pat_ExpiresAt _) as [e|]; cbn; try destruct (After now e); cbn; f_equal; lia.
Qed.

Lemma limit_loop_count uid now l acc :
  (foldl (limit_step uid now) acc l).1
  = acc.1 + Z.of_nat (length (filter (fun kv => live_pat uid now kv.2 = true) l)).
Proof.
  revert acc. induction l as [|kv l IH]; intros acc; cbn [foldl]; [cbn; lia|].
  rewrite IH, limit_step_eq, filter_cons. cbn [fst].
  destruct (live_pat uid now kv.2); [rewrite decide_True by done; cbn; lia|].
  rewrite decide_False by done. lia.
Qed.

Lemma limit_loop_lookup uid now l acc k p :
  (foldl (limit_step uid now) acc l).2 !! k = Some p <->
  acc.2 !! k = Some p /\ (forall q, (k, q) ∈ l -> dead_pat uid now q = false).
Proof.
  revert acc. induction l as [|[k' q'] l IH]; intros acc; cbn [foldl].
  { split; [|tauto]. intros ?. split; [done|]. intros q Hq. inversion Hq. }
  rewrite IH, limit_step_eq. cbn [snd fst].
  setoid_rewrite elem_of_cons. destruct (dead_pat uid now q') eqn:E.
  - rewrite lookup_delete_Some. split.
    + intros [[Hne Hl] Hq]. split; [done|]. intros q [[= -> ->]|?]; [done|auto].
    + intros [Hl Hq]. split_and!; [|done|auto]. intros ->. specialize (Hq q').
      rewrite E in Hq. by discriminate Hq; left.
  - split; intros [Hl Hq]; (split; [done|]); intros q; [intros [[= -> ->]|?]; auto|auto].
Qed.

Lemma pat_count_pruned uid now m :
  pat_count uid (prune_pats uid now m)
  = Z.of_nat (length (filter (fun kv => live_pat uid now kv.2 = true) (map_to_list m))).
Proof.
  unfold pat_count, prune_pats, DeleteFunc. rewrite map_filter_filter, <- size_filter.
  do 2 f_equal. apply map_filter_ext. intros k p _. unfold live_pat. cbn.
  destruct (strEq _ _), (pat_expired _ _); cbn; naive_solver.
Qed.

(** ** Sorting *)

Section sorting.
Context {A : Type} (created : A -> time).

Lemma sort_insert_perm x l : sort_insert created x l ≡ₚ x :: l.
Proof.
  induction l as [|y l IH]; [done|]. cbn. destruct (created y <=? created x); [done|].
  rewrite IH. apply Permutation_swap.
Qed.

Lemma sort_newest_perm l : sort_newest created l ≡ₚ l.
Proof.
  induction l as [|x l IH]; [done|]. cbn. rewrite sort_insert_perm.
  by apply Permutation_skip.
Qed.

Let newer x y := created y <= created x.

Lemma sort_insert_sorted x l : Sorted newer l -> Sorted newer (sort_insert created x l).
Proof.
  unfold newer. induction 1 as [|y l Hs IH Hrel]; cbn; [by repeat constructor|].
  destruct (created y <=? created x) eqn:E.
  - constructor; [by constructor|]. constructor. lia.
  - constructor; [done|]. destruct l as [|z l]; cbn in *; [constructor; lia|].
    inversion Hrel; subst. destruct (created z <=? created x); constructor; lia.
Qed.

Lemma sort_newest_sorted l : Sorted newer (sort_newest created l).
Proof. induction l as [|x l IH]; [constructor|]. by apply sort_insert_sorted. Qed.
End sorting.

Section loops.
Context `{RangeOrder}.

(** Whatever order the map is ranged in, the summary is that of the family. *)
Lemma GetRefreshFamily_summary env root s :
  exists f, mem_GetRefreshFamily env root s = (Ok f, s) /\
            family_summary root (refreshTokens s) f.
Proof.
  unfold mem_GetRefreshFamily. eexists; split; [done|].
  set (l := range_order _ _). destruct (family_loop_seen root l) as [Hend Hlast].
  assert (forall t, t ∈ family_of root l <->
            exists h, refreshTokens s !! h = Some t /\ in_family root t = true) as Hin.
  { intros t. unfold family_of, l. rewrite list_elem_of_filter, range_order_perm, elem_of_values.
    naive_solver. }
  unfold family_summary. rewrite Hend, Exists_exists. split.
  - split; [intros (t & Ht & He)|intros (h & t & Hl & Hf & He)].
    + apply Hin in Ht as (h & Hl & Hf). by exists h, t.
    + exists t. split; [|done]. apply Hin. eauto.
  - destruct (rf_LastRotatedAt _).
    + destruct Hlast as [Hex Hall]. rewrite Forall_forall in Hall.
      apply Exists_exists in Hex as (t & Ht & Hr). apply Hin in Ht as (h & Hl & Hf).
      split; [by exists h, t|]. intros h' t' r' Hl' Hf' Hr'. eapply Hall; [|done].
      apply Hin. eauto.
    + rewrite Forall_forall in Hlast. intros h t Hl Hf. apply Hlast, Hin. eauto.
Qed.

Lemma list_owned_listing `{Countable K} {A} env (owner : A -> string) created uid (m : gmap K A) :
  listing owner created uid m (list_owned env owner created uid m).
Proof.
  unfold listing, list_owned. split; [|apply sort_newest_sorted].
  by rewrite sort_newest_perm, range_order_perm.
Qed.

(** The prune and the count of [SavePATLimited], whatever the order. *)
Lemma limit_loop_spec uid now m seed :
  foldl (limit_step uid now) (0, m) (range_order seed (map_to_list m))
  = (pat_count uid (prune_pats uid now m), prune_pats uid now m).
Proof.
  set (l := range_order seed (map_to_list m)).
  assert (l ≡ₚ map_to_list m) as Hp by apply range_order_perm.
  rewrite (surjective_pairing (foldl _ _ l)). f_equal.
  - rewrite limit_loop_count, pat_count_pruned. cbn. do 2 f_equal.
    by rewrite Hp.
  - apply map_eq. intros k. apply option_eq. intros p.
    rewrite limit_loop_lookup. unfold prune_pats. rewrite lookup_DeleteFunc. cbn.
    fold (dead_pat uid now p). setoid_rewrite Hp. setoid_rewrite elem_of_map_to_list.
    naive_solver.
Qed.

Lemma range_order_find {A} (f : A -> bool) seed l :
  match find f (range_order seed l) with
  | Some x => x ∈ l /\ f x = true
  | None => forall x, x ∈ l -> f x = false
  end.
Proof.
  pose proof (range_order_perm seed l) as Hp. destruct (find f _) as [x|] eqn:E.
  - apply find_some in E as [Hin Hf]. split; [|done]. rewrite <- Hp. by apply list_elem_of_In.
  - intros x Hx. rewrite <- Hp in Hx. eapply find_none; [done|]. by apply list_elem_of_In.
Qed.
End loops.

(** ** Refinement *)

(** A method that leaves users alone keeps the email index. *)
Lemma mem_inv_same_users s s' :
  mem_inv s -> users s' = users s -> usersByEmail s' = usersByEmail s ->
  db_ok (view s') -> mem_inv s'.
Proof.
  intros [Hok Hidx] Hu He Hok'. split; [done|]. intros e u. rewrite He, Hidx.
  unfold has_email. cbn. by rewrite Hu.
Qed.

(** The process does not lose its memory, and has one clock. *)
Definition memory_backend : Backend := {| outages := false; store_now := ce_now |}.

Section refinement.
Context `{RangeOrder}.
#[local] Existing Instance memory_backend.
Implicit Type s : Store.

Definition refines {X} (c : storeE X) : Prop :=
  forall env s, mem_inv s ->
  let '(x, s') := memory_call c env s in
  port_spec c env (view s) x (view s') /\
  (db_ok (view s') -> forall e u, usersByEmail s' !! e = Some u <-> has_email (view s') e u).

Ltac same_users :=
  match goal with Hinv : mem_inv _ |- _ => intros _; exact (mi_index _ Hinv) end.

Lemma requireUser_spec s uid :
  requireUser s uid = match users s !! uid with
                      | Some _ => None
                      | None => Some (wrapS store.ErrUserNotFound uid)
                      end.
Proof. unfold requireUser. by destruct (users s !! uid). Qed.

Lemma refines_Create u : refines (Create u).
Proof.
  intros env s Hinv. cbn. unfold mem_Create.
  assert ((exists v, has_email (view s) (user_Email u) v) <->
          is_Some (usersByEmail s !! user_Email u) /\ user_Email u <> "") as Hem.
  { split.
    - intros [v Hv]. split; [|by destruct Hv]. exists v. by apply mi_index.
    - intros [[v Hv] _]. exists v. by apply mi_index. }
  case_bool_decide as Hid.
  { split; [|same_users]. left. eauto with dbok. }
  destruct (bool_decide _ && _) eqn:E.
  - apply andb_prop in E as [E1%bool_decide_eq_true_1 E2%negb_true_iff%strEq_false].
    split; [|same_users]. left. split; [right; by apply Hem|]. eauto with dbok.
  - assert (~ exists v, has_email (view s) (user_Email u) v) as Hfree.
    { rewrite Hem. intros [E1 E2]. rewrite bool_decide_eq_true_2 in E by done.
      cbn in E. apply negb_false_iff, strEq_true in E. done. }
    split.
    + right. split; [tauto|]. done.
    + intros _ e v. cbn [usersByEmail users user_Email user_ID].
      fold (stamp_user (ce_now env) u).
      change (user_ID u) with (user_ID (stamp_user (ce_now env) u)).
      change (user_Email u) with (user_Email (stamp_user (ce_now env) u)).
      change (view _) with (with_users (view s)
        (<[user_ID (stamp_user (ce_now env) u) := stamp_user (ce_now env) u]> (d_users (view s)))).
      rewrite has_email_insert by (by apply eq_None_not_Some).
      destruct (strEq _ "") eqn:E0.
      * apply strEq_true in E0. rewrite (mi_index _ Hinv). naive_solver.
      * apply strEq_false in E0. rewrite lookup_insert_Some, (mi_index _ Hinv).
        split; [naive_solver|].
        intros [(? & ? & ->)|He]; [naive_solver|]. right. split; [|done].
        intros <-. apply Hfree. by exists v.
Qed.

Lemma refines_Delete id : refines (Delete id).
Proof.
  intros env s Hinv. cbn. unfold mem_Delete. destruct (users s !! id) as [u|] eqn:E; cbn.
  - split; [rewrite ?E; done|]. intros _ e v.
    pose proof (ok_users _ (mi_ok _ Hinv) _ _ E) as <-.
    rewrite lookup_delete_Some, (mi_index _ Hinv).
    match goal with |- _ <-> has_email ?a e v => change a with (cascade (user_ID u) (view s)) end.
    rewrite has_email_cascade by apply Hinv. split; intros [H1 H2]; [split; [done|]|split; [|done]].
    + intros Heq. destruct H2 as (_ & <- & Hl). cbn in Hl. rewrite Heq in Hl. congruence.
    + intros <-. apply H2. f_equal.
      eapply (ok_emails _ (mi_ok _ Hinv) (user_Email u)); [done|].
      destruct H1 as (? & ? & ?). by split_and!.
  - split; [rewrite ?E; eauto with dbok|same_users].
Qed.

Ltac saved_row :=
  match goal with env : callenv |- context [stamp_token _ ?t] =>
    exists (stamp_token (ce_now env) t); split; [by left|done]
  end.

Lemma refines_SaveRefreshToken t : refines (SaveRefreshToken t).
Proof.
  intros env s Hinv. cbn. unfold mem_SaveRefreshToken, root_unusable. cbv zeta. cbn [rt_Parent rt_UserID].
  rewrite requireUser_spec. destruct (strEq (rt_Parent t) "") eqn:Ep.
  - apply strEq_true in Ep. destruct (users s !! rt_UserID t) eqn:Eu; cbn;
      (split; [|same_users]); right; rewrite ?Eu; (split; [tauto|]); [saved_row|eauto with dbok].
  - apply strEq_false in Ep. cbn. destruct (refreshTokens s !! rt_Parent t) as [root|] eqn:Er.
    + destruct (rt_EndedAt root) eqn:Ee; cbn.
      * split; [|same_users]. left. naive_solver eauto with dbok.
      * assert (~ is_Some (rt_EndedAt root)) as Hn by (rewrite ?Ee; by intros []).
        destruct (users s !! rt_UserID t) eqn:Eu; cbn;
          (split; [|same_users]); right; rewrite ?Eu; rewrite Ee in Hn;
          (split; [tauto|]); [saved_row|eauto with dbok].
    + split; [|same_users]. left. naive_solver eauto with dbok.
Qed.

Lemma refines_RotateRefreshToken h now : refines (RotateRefreshToken h now).
Proof.
  intros env s Hinv. cbn. unfold mem_RotateRefreshToken, After.
  destruct (refreshTokens s !! h) as [t|] eqn:E; cbn;
    [|split; [rewrite ?E; eauto with dbok|same_users]].
  destruct (rt_Revoked t) eqn:Er; cbn; [split; [rewrite ?E, ?Er; eauto with dbok|same_users]|].
  destruct (rt_ExpiresAt t <=? now) eqn:Ee.
  - replace (now <? rt_ExpiresAt t) with false by lia.
    split; [cbn; rewrite ?E, ?Er, ?Ee; eauto with dbok|same_users].
  - replace (now <? rt_ExpiresAt t) with true by lia.
    split; [cbn; by rewrite ?E, ?Er, ?Ee|same_users].
Qed.

Lemma savePATLocked_spec env p s :
  match pats s !! pat_Hash p with
  | Some _ => savePATLocked env p s = (Err store.ErrPATExists, s)
  | None => savePATLocked env p s =
      (Ok (stamp_pat (ce_now env) p),
       set_pats s (<[pat_Hash p := stamp_pat (ce_now env) p]> (pats s)))
  end.
Proof.
  unfold savePATLocked. destruct (pats s !! pat_Hash p) eqn:E; [|done].
  by rewrite bool_decide_eq_true_2.
Qed.

Lemma refines_SavePAT p : refines (SavePAT p).
Proof.
  intros env s Hinv. cbn. unfold mem_SavePAT. rewrite requireUser_spec.
  destruct (users s !! pat_UserID p) eqn:Eu; [|split; [cbn; rewrite ?Eu; eauto with dbok|same_users]].
  pose proof (savePATLocked_spec env p s) as Hs.
  destruct (pats s !! pat_Hash p) eqn:Ep; rewrite Hs; cbn; rewrite ?Eu, ?Ep;
    (split; [eauto with dbok|same_users]).
Qed.

Lemma refines_SavePATLimited p limit now : refines (SavePATLimited p limit now).
Proof.
  intros env s Hinv. cbn. unfold mem_SavePATLimited. rewrite requireUser_spec.
  destruct (users s !! pat_UserID p) eqn:Eu; [|split; [cbn; rewrite ?Eu; eauto with dbok|same_users]].
  rewrite limit_loop_spec. set (pruned := prune_pats _ _ _).
  destruct (limit <=? _) eqn:El; [split; [cbn; rewrite ?Eu; fold pruned; rewrite ?El; eauto with dbok|same_users]|].
  pose proof (savePATLocked_spec env p (set_pats s pruned)) as Hs. cbn in Hs.
  destruct (pruned !! pat_Hash p) eqn:Ep; rewrite Hs; cbn; rewrite ?Eu; fold pruned; rewrite ?El, ?Ep;
    (split; [eauto with dbok|same_users]).
Qed.

Lemma refines_DeletePAT uid id : refines (DeletePAT uid id).
Proof.
  intros env s Hinv. cbn. unfold mem_DeletePAT.
  pose proof (range_order_find
    (fun kv : string * PersonalAccessToken => strEq (pat_ID kv.2) id && strEq (pat_UserID kv.2) uid)
    (ce_seed env) (map_to_list (pats s))) as Hf.
  destruct (find _ _) as [[h p]|]; (split; [|same_users]).
  - destruct Hf as [Hl%elem_of_map_to_list [H1%strEq_true H2%strEq_true]%andb_prop].
    left. exists h, p. done.
  - right. split_and!; [|eauto with dbok|done]. intros h p Hl [<- <-].
    specialize (Hf (h, p)). rewrite elem_of_map_to_list in Hf. specialize (Hf Hl). cbn in Hf.
    by rewrite !strEq_refl in Hf.
Qed.

Lemma refines_SaveOAuthIdentity i : refines (SaveOAuthIdentity i).
Proof.
  intros env s Hinv. cbn. unfold mem_SaveOAuthIdentity. rewrite requireUser_spec.
  destruct (users s !! oi_UserID i) eqn:Eu; [|split; [cbn; rewrite ?Eu; eauto with dbok|same_users]].
  cbv zeta. destruct (oauthIdentities s !! _) eqn:Eo.
  - rewrite bool_decide_eq_true_2 by done. split; [cbn; rewrite ?Eu, ?Eo; eauto with dbok|same_users].
  - rewrite bool_decide_eq_false_2 by (by intros []).
    split; [cbn; rewrite ?Eu, ?Eo; by left|same_users].
Qed.

Lemma refines_SaveWalletIdentity i : refines (SaveWalletIdentity i).
Proof.
  intros env s Hinv. cbn. unfold mem_SaveWalletIdentity. rewrite requireUser_spec.
  destruct (users s !! wi_UserID i) eqn:Eu; [|split; [cbn; rewrite ?Eu; eauto with dbok|same_users]].
  cbv zeta. destruct (walletIdentities s !! _) eqn:Eo.
  - rewrite bool_decide_eq_true_2 by done. split; [cbn; rewrite ?Eu, ?Eo; eauto with dbok|same_users].
  - rewrite bool_decide_eq_false_2 by (by intros []).
    split; [cbn; rewrite ?Eu, ?Eo; by left|same_users].
Qed.

Lemma refines_GetByEmail email : refines (GetByEmail email).
Proof.
  intros env s Hinv. cbn. unfold mem_GetByEmail.
  destruct (usersByEmail s !! email) as [u|] eqn:E; cbn; (split; [|same_users]); (split; [done|]).
  - left. exists u. split; [|done]. by apply (mi_index _ Hinv).
  - right. split; [|eauto with dbok]. intros u Hu. apply (mi_index _ Hinv) in Hu. congruence.
Qed.

(** Every method implements its port. *)
Lemma memory_refines {X} (c : storeE X) : refines c.
Proof.
  destruct c; try (by apply refines_Create || apply refines_Delete || apply refines_SaveRefreshToken
    || apply refines_RotateRefreshToken || apply refines_SavePAT || apply refines_SavePATLimited
    || apply refines_DeletePAT || apply refines_SaveOAuthIdentity || apply refines_SaveWalletIdentity
    || apply refines_GetByEmail);
  intros env s Hinv; cbn.
  - unfold mem_GetByID. destruct (users s !! id) eqn:E; cbn; rewrite ?E; (split; [eauto with dbok|same_users]).
  - unfold mem_GetRefreshToken. destruct (refreshTokens s !! hash) eqn:E; cbn; rewrite ?E;
      (split; [eauto with dbok|same_users]).
  - split; [done|same_users].
  - destruct (GetRefreshFamily_summary env root s) as (f & [= Hr] & Hf).
    split; [split; [done|]; rewrite Hr; eauto|same_users].
  - unfold mem_GetPAT. destruct (pats s !! hash) eqn:E; cbn; rewrite ?E; (split; [eauto with dbok|same_users]).
  - split; [eauto using list_owned_listing|same_users].
  - split; [done|same_users].
  - unfold mem_GetOAuthIdentity. destruct (oauthIdentities s !! _) eqn:E; cbn; rewrite ?E;
      (split; [eauto with dbok|same_users]).
  - split; [eauto using list_owned_listing|same_users].
  - unfold mem_GetWalletIdentity. destruct (walletIdentities s !! _) eqn:E; cbn; rewrite ?E;
      (split; [eauto with dbok|same_users]).
  - split; [eauto using list_owned_listing|same_users].
  - split; [done|same_users].
  - unfold mem_GetChallenge. destruct (challenges s !! nonce) as [c|] eqn:E; cbn.
    + destruct (Before _ _) eqn:Eb; cbn; rewrite ?E, ?Eb; (split; [eauto with dbok|same_users]).
    + rewrite ?E. split; [eauto with dbok|same_users].
  - unfold mem_DeleteChallenge. destruct (challenges s !! nonce) as [c|] eqn:E; cbn.
    + rewrite ?E. (split; [done|same_users]).
    + rewrite ?E. (split; [eauto with dbok|same_users]).
  - unfold mem_SavePasswordHash. rewrite requireUser_spec.
    destruct (users s !! userID) eqn:E; cbn; rewrite ?E; (split; [eauto with dbok|same_users]).
  - unfold mem_GetPasswordHash. destruct (passwordHashes s !! userID) eqn:E; cbn; rewrite ?E;
      (split; [eauto with dbok|same_users]).
Qed.
End refinement.

(** ** The store as an instance of the interface *)

#[local] Existing Instance memory_backend.

Lemma memory_call_ok `{RangeOrder} {X} (c : storeE X) env s x s' :
  mem_inv s -> memory_call c env s = (x, s') ->
  mem_inv s' /\ port_spec c env (view s) x (view s').
Proof.
  intros Hinv Hc. pose proof (memory_refines c env s Hinv) as Hr. rewrite Hc in Hr.
  destruct Hr as [Hp Hidx]. split; [|done].
  assert (db_ok (view s')) as Hok by (eapply port_spec_ok; [apply Hinv|done]).
  split; [done|]. by apply Hidx.
Qed.

#[export, refine] Instance memory_contract `{RangeOrder} : StoreContract Store :=
  {| sc_backend := memory_backend; sc_view := view; sc_inv := mem_inv |}.
Proof.
  - apply mi_ok.
  - intros X c env s Hinv. unfold store_call, memory_impl.
    destruct (memory_call c env s) as [x s'] eqn:Hc.
    destruct (memory_call_ok c env s x s' Hinv Hc) as [Hinv' Hp]. split; [done|by left].
Defined.
