(* ===== verification/Histories.v ===== *)
(** * Histories of store calls

    Guarantees that span several calls, made by whichever requests and in
    whichever order: a refresh token is rotated at most once, an ended session
    never gains a live token again, the cap on access tokens holds, a challenge
    is consumed at most once.  They are proved from the contract for every
    store and then stated for the in-memory store. *)

From S2P Require Import Prelude GoTime Errors Entity Ports Contract ContractFacts Memory MemoryFacts.

(** ** How a call changes each table *)

(** The branches of [port_spec]. *)
Ltac port_cases :=
  repeat match goal with
  | H : _ /\ _ |- _ => destruct H
  | H : _ \/ _ |- _ => destruct H
  | H : exists _, _ |- _ => destruct H
  | H : ?a' = _ |- _ => is_var a'; subst a'
  | H : context [match ?b with _ => _ end] |- _ => destruct b eqn:?
  end.

Definition saves_token {X} (c : storeE X) : option RefreshToken :=
  match c with SaveRefreshToken t => Some t | _ => None end.

Inductive token_effect (sv : option RefreshToken) (m : gmap string RefreshToken)
  : gmap string RefreshToken -> Prop :=
| te_same : token_effect sv m m
| te_save t now r :
    sv = Some t -> token_row (stamp_token now t) r -> ~ root_unusable (rt_Parent t) m ->
    token_effect sv m (<[rt_Hash t := r]> m)
| te_rotate h t now :
    m !! h = Some t -> rt_Revoked t = false -> token_effect sv m (<[h := rotate now t]> m)
| te_end now root : token_effect sv m (end_family now root m)
| te_drop del : token_effect sv m (DeleteFunc del m).

Lemma port_tokens `{Backend} {X} (c : storeE X) env a x a' :
  port_spec c env a x a' -> token_effect (saves_token c) (d_tokens a) (d_tokens a').
Proof.
  destruct c; cbn; intros Hp;
    port_cases; cbn; try solve [econstructor; done].
Qed.

Definition saves_pat {X} (c : storeE X) : option (PersonalAccessToken * option Z) :=
  match c with
  | SavePAT p => Some (p, None)
  | SavePATLimited p limit _ => Some (p, Some limit)
  | _ => None
  end.

Inductive pat_effect (sv : option (PersonalAccessToken * option Z)) (m : gmap string PersonalAccessToken)
  : gmap string PersonalAccessToken -> Prop :=
| pe_sub m' : m' ⊆ m -> pat_effect sv m m'
| pe_touch t h : pat_effect sv m (alter (touch t) h m)
| pe_save p limit m' now :
    sv = Some (p, limit) -> m' ⊆ m -> m' !! pat_Hash p = None ->
    (forall l, limit = Some l -> pat_count (pat_UserID p) m' < l) ->
    pat_effect sv m (<[pat_Hash p := stamp_pat now p]> m').

#[export] Hint Resolve DeleteFunc_subseteq : dbok.

Lemma port_pats `{Backend} {X} (c : storeE X) env a x a' :
  port_spec c env a x a' -> pat_effect (saves_pat c) (d_pats a) (d_pats a').
Proof.
  destruct c; cbn; intros Hp;
    port_cases; cbn;
    try solve [apply pe_sub; unfold prune_pats; eauto with dbok].
  - eapply pe_save; [done..|]. discriminate.
  - eapply pe_save; [done|apply DeleteFunc_subseteq|done|]. intros l [= <-]. lia.
  - apply pe_sub, delete_subseteq.
  - apply pe_touch.
Qed.

Definition saves_challenge {X} (c : storeE X) : option string :=
  match c with SaveChallenge ch => Some (ch_Nonce ch) | _ => None end.

Lemma port_challenge_absent `{Backend} {X} (c : storeE X) env a x a' n :
  port_spec c env a x a' -> saves_challenge c <> Some n ->
  d_challenges a !! n = None -> d_challenges a' !! n = None.
Proof.
  intros Hp Hn Ha. destruct c; cbn in Hp;
    port_cases; cbn; try done.
  all: rewrite ?lookup_delete_None; eauto.
  rewrite lookup_insert_ne by (intros <-; by apply Hn). rewrite eq_None_not_Some.
  intros [ch [Hl _]%lookup_DeleteFunc]. congruence.
Qed.

(** ** Histories *)

(** A call and what it returned. *)
Inductive event :=
| Event {X : Type} (c : storeE X) (x : X).

Inductive ahistory `{Backend} : db -> list event -> db -> Prop :=
| ah_nil a : ahistory a [] a
| ah_call a X (c : storeE X) env x a' tr a'' :
    db_ok a' -> contract c env a x a' -> ahistory a' tr a'' ->
    ahistory a (Event c x :: tr) a''.

Lemma ahistory_inv_cons `{Backend} a tr a'' :
  ahistory a tr a'' ->
  match tr with
  | [] => a'' = a
  | Event c x :: tr' =>
      exists env a', db_ok a' /\ contract c env a x a' /\ ahistory a' tr' a''
  end.
Proof. destruct 1; eauto. Qed.

(** The calls made to a store, in the order their effects take place. *)
Inductive history {S} `{!StoreImpl S} : S -> list event -> S -> Prop :=
| h_nil s : history s [] s
| h_call s X (c : storeE X) env x s' tr s'' :
    store_call c env s = (x, s') -> history s' tr s'' -> history s (Event c x :: tr) s''.

Lemma history_abstract {S} `{!StoreImpl S, !StoreContract S} s tr s' :
  history s tr s' -> sc_inv s -> ahistory (sc_view s) tr (sc_view s') /\ sc_inv s'.
Proof.
  induction 1 as [s|s X c env x s1 tr s2 Hc _ IH]; intros Hinv; [split; [constructor|done]|].
  pose proof (sc_call X c env s Hinv) as Hs. rewrite Hc in Hs. destruct Hs as [Hinv1 Hs].
  destruct (IH Hinv1) as [Hh ?]. split; [|done].
  by apply (ah_call _ _ c env x (sc_view s1)); [apply sc_ok| |].
Qed.

Lemma ahistory_app `{Backend} a tr1 tr2 a'' :
  ahistory a (tr1 ++ tr2) a'' <-> exists a', ahistory a tr1 a' /\ ahistory a' tr2 a''.
Proof.
  revert a. induction tr1 as [|ev tr1 IH]; intros a; cbn.
  - split; [by eexists; split; [constructor|]|]. intros (a' & Ha & ?). by inversion Ha; subst.
  - split.
    + inversion 1 as [|? X c env x a1 ? ? Hok Hc Hr]; subst. apply IH in Hr as (a2 & ? & ?).
      exists a2. split; [|done]. by econstructor.
    + intros (a2 & Ha & ?). inversion Ha as [|? X c env x a1 ? ? Hok Hc Hr]; subst.
      econstructor; [done..|]. apply IH. eauto.
Qed.

(** What a call does to the database, answered or not. *)
Lemma contract_effect `{Backend} {X} (c : storeE X) env a x a' :
  contract c env a x a' ->
  a' = a \/ (exists y, port_spec c env a y a') \/
  a' = with_challenges a (sweep (store_now env) (d_challenges a)).
Proof. intros [Hp|(_ & _ & [->|[?|[_ ?]]])]; eauto. Qed.

Lemma contract_tokens `{Backend} {X} (c : storeE X) env a x a' :
  contract c env a x a' -> token_effect (saves_token c) (d_tokens a) (d_tokens a').
Proof.
  intros [->|[[y Hy]| -> ]]%contract_effect; [constructor|by eapply port_tokens|constructor].
Qed.

Lemma contract_pats `{Backend} {X} (c : storeE X) env a x a' :
  contract c env a x a' -> pat_effect (saves_pat c) (d_pats a) (d_pats a').
Proof.
  intros [->|[[y Hy]| -> ]]%contract_effect; [by apply pe_sub|by eapply port_pats|by apply pe_sub].
Qed.

Lemma contract_challenge_absent `{Backend} {X} (c : storeE X) env a x a' n :
  contract c env a x a' -> saves_challenge c <> Some n ->
  d_challenges a !! n = None -> d_challenges a' !! n = None.
Proof.
  intros [->|[[y Hy]| -> ]]%contract_effect Hn Ha; [done|by eapply port_challenge_absent|].
  cbn. rewrite eq_None_not_Some. intros [ch [Hl _]%lookup_DeleteFunc]. congruence.
Qed.

(** An invariant kept by the allowed calls holds to the end. *)
Lemma ahistory_inv `{Backend} (I : db -> Prop) (allowed : event -> Prop) a tr a' :
  (forall X (c : storeE X) env x b b', db_ok b -> db_ok b' -> allowed (Event c x) ->
     contract c env b x b' -> I b -> I b') ->
  ahistory a tr a' -> db_ok a -> Forall allowed tr -> I a -> I a' /\ db_ok a'.
Proof.
  intros Hstep Hh. induction Hh as [a|a X c env x a1 tr a2 Hok Hc Hr IH]; intros Ha Hall HI; [done|].
  inversion Hall; subst. apply IH; [done..|]. by eapply Hstep.
Qed.

(** How many events satisfy a test. *)
Fixpoint count_events (f : event -> bool) (tr : list event) : nat :=
  match tr with
  | [] => 0
  | ev :: tr => (if f ev then 1 else 0) + count_events f tr
  end%nat.

(** Once spent, never again: if a successful event makes [spent] true and
    [spent] excludes further successes, at most one event succeeds. *)
Lemma count_at_most_once `{Backend} (spent : db -> Prop) (allowed : event -> Prop) (f : event -> bool) a tr a' :
  (forall X (c : storeE X) env x b b', db_ok b -> db_ok b' -> allowed (Event c x) ->
     contract c env b x b' -> (spent b -> spent b' /\ f (Event c x) = false) /\
                              (f (Event c x) = true -> spent b')) ->
  ahistory a tr a' -> db_ok a -> Forall allowed tr ->
  (count_events f tr <= 1)%nat /\ (spent a -> count_events f tr = 0%nat).
Proof.
  intros Hstep Hh. induction Hh as [a|a X c env x a1 tr a2 Hok Hc Hr IH]; intros Ha Hall; cbn; [lia|].
  inversion Hall; subst. destruct (Hstep X c env x a a1) as [H1' H2']; [done..|].
  destruct (IH Hok) as [Hle Hz]; [done|]. destruct (f (Event c x)).
  - rewrite Hz by auto. split; [lia|]. intros Hsp. by destruct (H1' Hsp).
  - split; [lia|]. intros Hsp. rewrite Hz; [lia|]. by apply H1'.
Qed.

(** ** Tests on events *)

(** A rotation of [h] that succeeded. *)
Definition rotated (h : string) (ev : event) : bool :=
  match ev with
  | Event c x =>
      match c in storeE X return X -> bool with
      | RotateRefreshToken h' _ => fun x => match x with Rotated _ => strEq h' h | _ => false end
      | _ => fun _ => false
      end x
  end.

(** A token of the family of [root] rotated, or saved into it. *)
Definition revives (root : string) (ev : event) : bool :=
  match ev with
  | Event c x =>
      match c in storeE X return X -> bool with
      | RotateRefreshToken _ _ => fun x => match x with Rotated t => in_family root t | _ => false end
      | SaveRefreshToken t => fun x => match x with Ok _ => in_family root t | _ => false end
      | _ => fun _ => false
      end x
  end.

(** A challenge consumed. *)
Definition consumed (n : string) (ev : event) : bool :=
  match ev with
  | Event c x =>
      match c in storeE X return X -> bool with
      | DeleteChallenge n' => fun x => match x with Ok _ => strEq n' n | _ => false end
      | _ => fun _ => false
      end x
  end.

Definition no_save_token (h : string) (ev : event) : Prop :=
  match ev with Event c _ => forall t, saves_token c = Some t -> rt_Hash t <> h end.
Definition no_save_challenge (n : string) (ev : event) : Prop :=
  match ev with Event c _ => saves_challenge c <> Some n end.
Definition limited_pats (limit : Z) (ev : event) : Prop :=
  match ev with
  | Event c _ => forall p l, saves_pat c = Some (p, l) -> exists l', l = Some l' /\ l' <= limit
  end.
Definition no_create (id : string) (ev : event) : Prop :=
  match ev with Event (Create u) _ => user_ID u <> id | _ => True end.

(** The conditions on saving calls, as tests. *)
Lemma no_save_token_test h tr :
  forallb (fun ev => match ev with Event c _ =>
    match saves_token c with Some t => negb (strEq (rt_Hash t) h) | None => true end end) tr = true ->
  Forall (no_save_token h) tr.
Proof.
  intros Ht%Is_true_true%forallb_True. eapply Forall_impl; [exact Ht|]. intros [X c x] Hx t Hs. cbn in Hx.
  rewrite Hs in Hx. intros Hh. rewrite Hh, strEq_refl in Hx. done.
Qed.

Lemma no_save_challenge_test n tr :
  forallb (fun ev => match ev with Event c _ =>
    match saves_challenge c with Some m => negb (strEq m n) | None => true end end) tr = true ->
  Forall (no_save_challenge n) tr.
Proof.
  intros Ht%Is_true_true%forallb_True. eapply Forall_impl; [exact Ht|]. intros [X c x] Hx Hs. cbn in Hx.
  rewrite Hs, strEq_refl in Hx. done.
Qed.

(** ** Rotation *)

Definition spent_token (h : string) (a : db) : Prop :=
  forall t, d_tokens a !! h = Some t -> rt_Revoked t = true.

Lemma spent_token_effect h sv m m' :
  token_effect sv m m' -> (forall t, sv = Some t -> rt_Hash t <> h) ->
  (forall t, m !! h = Some t -> rt_Revoked t = true) ->
  (forall t, m' !! h = Some t -> rt_Revoked t = true).
Proof.
  intros Heff Hsv Hm t. destruct Heff as [|t' now r ? ? ?|h' t' now Hl Hr|now root|del]; [apply Hm|..].
  - rewrite lookup_insert_ne by eauto. apply Hm.
  - intros [[_ <-]|[_ Hl']]%lookup_insert_Some; eauto.
  - rewrite lookup_end_family. intros (t' & Hl & ->)%fmap_Some. destruct (in_family root t'); eauto.
  - intros [Hl _]%lookup_DeleteFunc. eauto.
Qed.

Lemma rotate_once `{Backend} h a tr a' :
  ahistory a tr a' -> db_ok a -> Forall (no_save_token h) tr ->
  (count_events (rotated h) tr <= 1)%nat.
Proof.
  intros Hh Hok Hall.
  refine (proj1 (count_at_most_once (spent_token h) (no_save_token h) _ a tr a' _ Hh Hok Hall)).
  clear. intros X c env x b b' _ _ Hns Hc. split.
  - intros Hsp. split; [intros t; eapply spent_token_effect; [eapply contract_tokens, Hc|exact Hns|exact Hsp]|].
    destruct c; try done. cbn. destruct x as [t|]; [|done]. apply strEq_false. intros ->.
    destruct Hc as [Hp|(_ & (e & [=] & _) & _)]. cbn in Hp.
    destruct (d_tokens b !! h) as [t0|] eqn:El; [|by port_cases].
    rewrite (Hsp _ El) in Hp. by port_cases.
  - destruct c; try done. cbn. destruct x as [t|]; [|done]. intros ->%strEq_true.
    destruct Hc as [Hp|(_ & (e & [=] & _) & _)]. cbn in Hp. port_cases; simplify_eq.
    intros t'. cbn. rewrite lookup_insert_eq. by intros [= <-].
Qed.

(** ** The end of a session *)

Definition ended (root : string) (a : db) : Prop :=
  (forall r, d_tokens a !! root = Some r -> is_Some (rt_EndedAt r)) /\
  (forall h t, d_tokens a !! h = Some t -> in_family root t = true ->
     rt_Revoked t = true /\ is_Some (rt_EndedAt t)).

Lemma in_family_Parent root t : rt_Parent t = root -> in_family root t = true.
Proof. intros <-. unfold in_family. by rewrite strEq_refl, orb_true_r. Qed.

Lemma in_family_Hash root t : rt_Hash t = root -> in_family root t = true.
Proof. intros <-. unfold in_family. by rewrite strEq_refl. Qed.

Lemma in_family_inv root t : in_family root t = true -> rt_Hash t = root \/ rt_Parent t = root.
Proof. intros [->%strEq_true| ->%strEq_true]%orb_prop; auto. Qed.

Lemma in_family_same root t t' :
  rt_Hash t' = rt_Hash t -> rt_Parent t' = rt_Parent t -> in_family root t' = in_family root t.
Proof. unfold in_family. by intros -> ->. Qed.

Lemma end_family_ended now root a :
  db_ok a -> ended root (with_tokens a (end_family now root (d_tokens a))).
Proof.
  intros Hok. split; cbn.
  - intros r. rewrite lookup_end_family. intros (t & Hl & ->)%fmap_Some.
    rewrite (in_family_Hash root t) by by apply (ok_tokens _ Hok). cbn. by destruct (rt_EndedAt t).
  - intros h t'. rewrite lookup_end_family. intros (t & Hl & ->)%fmap_Some.
    destruct (in_family root t) eqn:E; [|congruence]. intros _. split; [done|].
    cbn. by destruct (rt_EndedAt t).
Qed.

(** A call that follows the contract does not bring an ended family back,
    unless it saves a token under the root's own hash. *)
Lemma ended_kept `{Backend} {X} root (c : storeE X) env x b b' :
  root <> "" -> db_ok b -> no_save_token root (Event c x) -> contract c env b x b' ->
  ended root b -> ended root b'.
Proof.
  intros Hroot Hok Hns Hc%contract_tokens [He Hm]. unfold ended.
  destruct Hc as [|t now r Hsv Hrow Hu|h t now Hl Hr|now r|del]; [done|..].
  - specialize (Hns _ Hsv). assert (in_family root r = false) as Hnf.
    { rewrite (in_family_same root (stamp_token now t)) by (by destruct Hrow as [-> | ->]).
      apply not_true_is_false. intros [?|Hp]%in_family_inv; [done|]. cbn in Hp. apply Hu.
      split; [congruence|]. rewrite Hp. destruct (d_tokens b !! root) eqn:E; eauto. }
    split; [intros r'; rewrite lookup_insert_ne by done; apply He|].
    intros h t' [[_ <-]|[_ Hl]]%lookup_insert_Some; [congruence|eauto].
  - assert (in_family root (rotate now t) = false) as Hnf.
    { rewrite (in_family_same root t) by done. apply not_true_is_false. intros Hf.
      destruct (Hm _ _ Hl Hf). congruence. }
    split.
    + intros r' [[-> _]|[_ Hl']]%lookup_insert_Some; [|eauto].
      rewrite in_family_Hash in Hnf; [done|]. by apply (ok_tokens _ Hok _ _ Hl).
    + intros h' t' [[_ <-]|[_ Hl']]%lookup_insert_Some; [congruence|eauto].
  - split.
    + intros r'. rewrite lookup_end_family. intros (t & Hl & ->)%fmap_Some.
      destruct (He _ Hl) as [tm Htm]. destruct (in_family r t); [|eauto]. cbn. by rewrite Htm.
    + intros h t'. rewrite lookup_end_family. intros (t & Hl & ->)%fmap_Some.
      rewrite (in_family_same root t) by (by destruct (in_family r t)).
      intros [Hr [tm Htm]]%(Hm _ _ Hl). destruct (in_family r t); [|eauto]. cbn. by rewrite Htm.
  - split; [intros r' [Hl _]%lookup_DeleteFunc; eauto|].
    intros h t' [Hl _]%lookup_DeleteFunc. eauto.
Qed.

Lemma ended_no_revival `{Backend} {X} root (c : storeE X) env x b b' :
  root <> "" -> no_save_token root (Event c x) -> contract c env b x b' -> ended root b ->
  revives root (Event c x) = false.
Proof.
  intros Hroot Hns Hc [He Hm]. destruct c; try done; cbn.
  - destruct x as [t|]; [|done]. destruct Hc as [Hp|(_ & (e & [=] & _) & _)]. cbn in Hp.
    apply not_true_is_false. intros [?|Hpar]%in_family_inv; [by eapply Hns|].
    destruct Hp as [(_ & (e & [=] & _) & _)|[Hu _]]. apply Hu. split; [congruence|].
    rewrite Hpar. destruct (d_tokens b !! root) eqn:E; eauto.
  - destruct x as [t|]; [|done]. destruct Hc as [Hp|(_ & (e & [=] & _) & _)]. cbn in Hp.
    apply not_true_is_false. intros Hf. port_cases; simplify_eq.
    match goal with Hl : d_tokens b !! _ = Some _ |- _ => edestruct (Hm _ _ Hl); [by erewrite in_family_same in Hf|] end.
    congruence.
Qed.

Lemma ended_forever `{Backend} root a tr a' :
  ahistory a tr a' -> root <> "" -> db_ok a -> Forall (no_save_token root) tr -> ended root a ->
  Forall (fun ev => revives root ev = false) tr /\ ended root a'.
Proof.
  intros Hh Hroot. induction Hh as [a|a X c env x a1 tr a2 Hok1 Hc _ IH]; intros Hok Hall He; [done|].
  inversion Hall; subst. assert (ended root a1) as He1 by (by eapply ended_kept).
  destruct (IH Hok1) as [? ?]; [done..|]. split; [|done].
  constructor; [by eapply ended_no_revival|done].
Qed.

(** Where [RevokeTokens] answered, the session has ended. *)
Lemma revoke_ends `{Backend} root env a a' :
  db_ok a -> contract (RevokeTokens root) env a (Ok tt) a' -> ended root a'.
Proof.
  intros Hok [[_ ->]|(_ & (e & [=] & _) & _)]. by apply end_family_ended.
Qed.

Lemma ahistory_ok `{Backend} a tr a' : ahistory a tr a' -> db_ok a -> db_ok a'.
Proof. induction 1; auto. Qed.

(** ** The cap on access tokens *)

Section pat_count.
Implicit Types (m : gmap string PersonalAccessToken) (uid : string).

Lemma pat_count_sub uid m m' : m' ⊆ m -> pat_count uid m' <= pat_count uid m.
Proof.
  intros Hs. unfold pat_count. apply inj_le, map_subseteq_size. by apply map_filter_subseteq_mono.
Qed.

Lemma pat_count_insert uid m h p :
  m !! h = None ->
  pat_count uid (<[h := p]> m) = pat_count uid m + (if strEq (pat_UserID p) uid then 1 else 0).
Proof.
  intros Hh. unfold pat_count. rewrite map_filter_insert. cbn.
  destruct (strEq (pat_UserID p) uid) eqn:E.
  - rewrite decide_True by done. rewrite map_size_insert_None; [lia|].
    apply map_lookup_filter_None. by left.
  - rewrite decide_False by congruence. rewrite delete_id by done. lia.
Qed.

Lemma pat_count_touch uid m t h : pat_count uid (alter (touch t) h m) = pat_count uid m.
Proof.
  destruct (m !! h) as [p|] eqn:E.
  - rewrite <- (insert_delete_id m h p E), alter_insert_eq.
    by rewrite !pat_count_insert by apply lookup_delete_eq.
  - by rewrite alter_id by (intros ? Hx; congruence).
Qed.
End pat_count.

Definition pats_capped (limit : Z) (a : db) : Prop :=
  forall uid, pat_count uid (d_pats a) <= limit.

Lemma pats_capped_kept `{Backend} {X} limit (c : storeE X) env x b b' :
  limited_pats limit (Event c x) -> contract c env b x b' ->
  pats_capped limit b -> pats_capped limit b'.
Proof.
  intros Hlim Hc%contract_pats Hcap uid. specialize (Hcap uid).
  destruct Hc as [m' Hs|t h|p l m' now Hsv Hs Hh Hl].
  - pose proof (pat_count_sub uid _ _ Hs). lia.
  - by rewrite pat_count_touch.
  - rewrite pat_count_insert by done. cbn. pose proof (pat_count_sub uid _ _ Hs).
    destruct (Hlim _ _ Hsv) as (l' & -> & Hle). specialize (Hl _ eq_refl).
    destruct (strEq (pat_UserID p) uid) eqn:E; [|lia]. apply strEq_true in E. subst uid. lia.
Qed.

(** ** Challenges *)

Lemma consume_once `{Backend} n a tr a' :
  ahistory a tr a' -> db_ok a -> Forall (no_save_challenge n) tr ->
  (count_events (consumed n) tr <= 1)%nat.
Proof.
  intros Hh Hok Hall.
  refine (proj1 (count_at_most_once (fun b => d_challenges b !! n = None)
    (no_save_challenge n) _ a tr a' _ Hh Hok Hall)).
  clear. intros X c env x b b' _ _ Hns Hc. split.
  - intros Hsp. split; [by eapply contract_challenge_absent|].
    destruct c; try done. cbn. destruct x as [[]|]; [|done]. apply strEq_false. intros ->.
    destruct Hc as [Hp|(_ & (e & [=] & _) & _)]. cbn in Hp. rewrite Hsp in Hp.
    by destruct Hp as [(? & ? & ?) _].
  - destruct c; try done. cbn. destruct x as [[]|]; [|done]. intros ->%strEq_true.
    destruct Hc as [Hp|(_ & (e & [=] & _) & _)]. cbn in Hp. destruct (d_challenges b !! n).
    + destruct Hp as [_ ->]. cbn. apply lookup_delete_eq.
    + by destruct Hp as [(? & ? & ?) _].
Qed.

(** ** Deleted accounts *)

Lemma user_absent_kept `{Backend} {X} id (c : storeE X) env x b b' :
  no_create id (Event c x) -> contract c env b x b' ->
  d_users b !! id = None -> d_users b' !! id = None.
Proof.
  intros Hnc [->|[[y Hp]| ->]]%contract_effect Ha; [done| |done].
  destruct c; cbn in Hp, Hnc; port_cases; cbn; try done.
  - by rewrite lookup_insert_ne.
  - apply lookup_delete_None. auto.
Qed.

Lemma delete_removes `{Backend} id env a a' :
  contract (Delete id) env a (Ok tt) a' -> d_users a' !! id = None.
Proof.
  intros [Hp|(_ & (e & [=] & _) & _)]. cbn in Hp. destruct (d_users a !! id).
  - destruct Hp as [_ ->]. apply lookup_delete_eq.
  - by destruct Hp as [(? & ? & ?) _].
Qed.

Lemma absent_owns_nothing a id :
  db_ok a -> d_users a !! id = None ->
  (forall h t, d_tokens a !! h = Some t -> rt_UserID t <> id) /\
  (forall h p, d_pats a !! h = Some p -> pat_UserID p <> id) /\
  d_passwords a !! id = None /\
  (forall k i, d_oauth a !! k = Some i -> oi_UserID i <> id) /\
  (forall k i, d_wallets a !! k = Some i -> wi_UserID i <> id).
Proof.
  intros Hok Hid.
  assert (forall K `{Countable K} A (key : A -> K) owner m k x, owned_by key owner (d_users a) m ->
            m !! k = Some x -> owner x <> id) as Ho.
  { intros K ? ? A key owner m k x Hm Hl <-. apply Hm in Hl as [_ [u Hu]]. congruence. }
  split_and!; try (intros ? ? Hl; eapply Ho; [|exact Hl]; by apply Hok).
  rewrite eq_None_not_Some. intros [h Hh]. apply (ok_passwords _ Hok) in Hh as [u Hu]. congruence.
Qed.

(** ** Playing a script of calls *)

Inductive step_call :=
| Call {X : Type} (c : storeE X) (env : callenv).

Fixpoint play {S} `{!StoreImpl S} (l : list step_call) (s : S) : list event * S :=
  match l with
  | [] => ([], s)
  | Call c env :: l =>
      let '(x, s') := store_call c env s in
      let '(tr, s'') := play l s' in (Event c x :: tr, s'')
  end.

Lemma play_history {S} `{!StoreImpl S} l (s : S) : history s (play l s).1 (play l s).2.
Proof.
  revert s. induction l as [|[X c env] l IH]; intros s; cbn; [constructor|].
  destruct (store_call c env s) as [x s'] eqn:E. specialize (IH s').
  destruct (play l s') as [tr s'']. by econstructor.
Qed.

(** A fixed iteration order, to run the store. *)
Definition listed_order : RangeOrder :=
  {| range_order := fun A n l => l; range_order_perm := fun A n l => Permutation_refl l |}.
