(* ===== verification/MemoryHeap.v ===== *)
(** * The in-memory store and its callers' pointers (store/memory/memory.go)

    The maps of the store hold pointers, and its methods take and return
    pointers.  Here the structs live on a heap that the store shares with its
    callers: a slice is a pointer to its array, an optional instant a pointer to
    it.  The methods copy as the code does ([copyUser] with the array of roles,
    [snapshot] and [*pat] without what is behind the pointers).  Memory.v holds
    values instead: each method here is the method there on the values (the
    [exact_*] lemmas here and in MemoryCopies.v), and MemoryAlias.v says what the
    program around the store can and cannot do to them. *)

From S2P Require Import Prelude GoTime Errors Entity Ports Contract ContractFacts Memory.

(** ** The heap *)

Abbreviation loc := positive (only parsing).

(** A nil slice or pointer is [None]. *)
Record userObj := mkUserObj {
  uo_ID : string; uo_Email : string; uo_Roles : option loc; uo_CreatedAt : time; uo_UpdatedAt : time
}.
Record tokenObj := mkTokenObj {
  to_Hash : string; to_UserID : string; to_Parent : string; to_ExpiresAt : time; to_CreatedAt : time;
  to_Revoked : bool; to_RotatedAt : option loc; to_EndedAt : option loc
}.
Record patObj := mkPatObj {
  po_ID : string; po_Hash : string; po_UserID : string; po_Name : string;
  po_Scopes : option loc; po_ExpiresAt : option loc; po_LastUsedAt : option loc; po_CreatedAt : time
}.

Record familyObj := mkFamilyObj { fo_SessionEnded : bool; fo_LastRotatedAt : option loc }.

(** An identity or a challenge holds no pointers. *)
Inductive cell :=
| CUser (o : userObj)
| CToken (o : tokenObj)
| CPat (o : patObj)
| COAuth (i : OAuthIdentity)
| CWallet (i : WalletIdentity)
| CChallenge (c : Challenge)
| CFamily (o : familyObj)
| CStrings (l : list string)
| CTime (t : time).

Abbreviation heap := (gmap loc cell) (only parsing).

Definition user_cell (c : cell) : option userObj := match c with CUser o => Some o | _ => None end.
Definition token_cell (c : cell) : option tokenObj := match c with CToken o => Some o | _ => None end.
Definition pat_cell (c : cell) : option patObj := match c with CPat o => Some o | _ => None end.
Definition oauth_cell (c : cell) : option OAuthIdentity := match c with COAuth i => Some i | _ => None end.
Definition wallet_cell (c : cell) : option WalletIdentity := match c with CWallet i => Some i | _ => None end.
Definition challenge_cell (c : cell) : option Challenge := match c with CChallenge c => Some c | _ => None end.
Definition family_cell (c : cell) : option familyObj := match c with CFamily o => Some o | _ => None end.

(** What is behind a pointer; [None] when it dangles. *)
Definition strings_at (h : heap) (p : option loc) : option (list string) :=
  match p with
  | None => Some []
  | Some l => match h !! l with Some (CStrings ws) => Some ws | _ => None end
  end.
Definition time_at (h : heap) (p : option loc) : option (option time) :=
  match p with
  | None => Some None
  | Some l => match h !! l with Some (CTime t) => Some (Some t) | _ => None end
  end.

(** The values of the entities. *)
Definition user_value (h : heap) (o : userObj) : option User :=
  roles ← strings_at h (uo_Roles o);
  Some (mkUser (uo_ID o) (uo_Email o) roles (uo_CreatedAt o) (uo_UpdatedAt o)).
Definition token_value (h : heap) (o : tokenObj) : option RefreshToken :=
  rotated ← time_at h (to_RotatedAt o); ended ← time_at h (to_EndedAt o);
  Some (mkRefreshToken (to_Hash o) (to_UserID o) (to_Parent o) (to_ExpiresAt o) (to_CreatedAt o) (to_Revoked o)
          rotated ended).
Definition pat_value (h : heap) (o : patObj) : option PersonalAccessToken :=
  scopes ← strings_at h (po_Scopes o); expires ← time_at h (po_ExpiresAt o); used ← time_at h (po_LastUsedAt o);
  Some (mkPAT (po_ID o) (po_Hash o) (po_UserID o) (po_Name o) scopes expires used (po_CreatedAt o)).

Definition flat_value {A} (h : heap) (a : A) : option A := Some a.
Definition family_value (h : heap) (o : familyObj) : option RefreshFamily :=
  last ← time_at h (fo_LastRotatedAt o); Some (mkRefreshFamily (fo_SessionEnded o) last).

(** A pointer to an entity, read. *)
Definition read {O A} (struct : cell -> option O) (value : heap -> O -> option A) (h : heap) (l : loc) : option A :=
  c ← h !! l; o ← struct c; value h o.
Definition deref_user : heap -> loc -> option User := read user_cell user_value.
Definition deref_token : heap -> loc -> option RefreshToken := read token_cell token_value.
Definition deref_pat : heap -> loc -> option PersonalAccessToken := read pat_cell pat_value.
Definition deref_oauth : heap -> loc -> option OAuthIdentity := read oauth_cell flat_value.
Definition deref_wallet : heap -> loc -> option WalletIdentity := read wallet_cell flat_value.
Definition deref_challenge : heap -> loc -> option Challenge := read challenge_cell flat_value.
Definition deref_family : heap -> loc -> option RefreshFamily := read family_cell family_value.

(** A new cell, at an address above all others. *)
Definition next (h : heap) : loc := map_fold (fun l _ n => Pos.max (Pos.succ l) n) 1%positive h.
Definition alloc (c : cell) (h : heap) : loc * heap := let l := next h in (l, <[l := c]> h).

(** ** The store *)

Record refs := mkRefs {
  r_users : gmap string loc;
  r_usersByEmail : gmap string loc;
  r_refreshTokens : gmap string loc;
  r_pats : gmap string loc;
  r_passwordHashes : gmap string string;
  r_oauthIdentities : gmap (string * string) loc;
  r_walletIdentities : gmap (string * string) loc;
  r_challenges : gmap string loc
}.

Definition set_r_users (users usersByEmail : gmap string loc) (s : refs) : refs :=
  mkRefs users usersByEmail (r_refreshTokens s) (r_pats s) (r_passwordHashes s) (r_oauthIdentities s)
    (r_walletIdentities s) (r_challenges s).
Definition set_r_refreshTokens (tokens : gmap string loc) (s : refs) : refs :=
  mkRefs (r_users s) (r_usersByEmail s) tokens (r_pats s) (r_passwordHashes s) (r_oauthIdentities s)
    (r_walletIdentities s) (r_challenges s).
Definition set_r_pats (pats : gmap string loc) (s : refs) : refs :=
  mkRefs (r_users s) (r_usersByEmail s) (r_refreshTokens s) pats (r_passwordHashes s) (r_oauthIdentities s)
    (r_walletIdentities s) (r_challenges s).
Definition set_r_oauthIdentities (m : gmap (string * string) loc) (s : refs) : refs :=
  mkRefs (r_users s) (r_usersByEmail s) (r_refreshTokens s) (r_pats s) (r_passwordHashes s) m
    (r_walletIdentities s) (r_challenges s).
Definition set_r_walletIdentities (m : gmap (string * string) loc) (s : refs) : refs :=
  mkRefs (r_users s) (r_usersByEmail s) (r_refreshTokens s) (r_pats s) (r_passwordHashes s) (r_oauthIdentities s) m
    (r_challenges s).
Definition set_r_challenges (m : gmap string loc) (s : refs) : refs :=
  mkRefs (r_users s) (r_usersByEmail s) (r_refreshTokens s) (r_pats s) (r_passwordHashes s) (r_oauthIdentities s)
    (r_walletIdentities s) m.
Definition set_r_passwordHashes (m : gmap string string) (s : refs) : refs :=
  mkRefs (r_users s) (r_usersByEmail s) (r_refreshTokens s) (r_pats s) m (r_oauthIdentities s) (r_walletIdentities s)
    (r_challenges s).

Abbreviation mem := (heap * refs)%type (only parsing).

(** [slices.Clone] *)
Definition slices_Clone (p : option loc) (h : heap) : option loc * heap :=
  match p with
  | None => (None, h)
  | Some l => match h !! l with
              | Some c => let '(l', h) := alloc c h in (Some l', h)
              | None => (None, h)
              end
  end.

Definition copyUser (o : userObj) (h : heap) : loc * heap :=
  let '(roles, h) := slices_Clone (uo_Roles o) h in
  alloc (CUser (mkUserObj (uo_ID o) (uo_Email o) roles (uo_CreatedAt o) (uo_UpdatedAt o))) h.

Definition snapshot (o : tokenObj) (h : heap) : loc * heap := alloc (CToken o) h.

(** What a call returns: an error, and next to it a pointer, a slice of pointers
    (whose array is the caller's) or a string. *)
Record returned := mkReturns { ret_ptr : option loc; ret_ptrs : list loc; ret_text : string; ret_err : option error }.
Definition mkReturned (p : option loc) (e : option error) : returned := mkReturns p [] "" e.
Definition no_error : returned := mkReturned None None.
Definition fails (e : error) : returned := mkReturned None (Some e).

(** A pointer of the store, as a struct of the kind its map holds. *)
Definition stored {O} (struct : cell -> option O) (h : heap) (p : option loc) : option O :=
  l ← p; c ← h !! l; struct c.
Abbreviation stored_user st := (stored user_cell (fst st)).
Abbreviation stored_token st := (stored token_cell (fst st)).
Abbreviation stored_pat st := (stored pat_cell (fst st)).
Abbreviation stored_oauth st := (stored oauth_cell (fst st)).
Abbreviation stored_wallet st := (stored wallet_cell (fst st)).
Abbreviation stored_challenge st := (stored challenge_cell (fst st)).

(** A copy of a struct of the store, for the caller. *)
Definition return_copy (c : cell) (st : mem) : returned * mem :=
  let '(l, h) := alloc c st.1 in (mkReturned (Some l) None, (h, st.2)).

(** The listing loop of the three [List*] methods: copies of the structs that a
    user owns, in the order of the map, then sorted. *)
Fixpoint copies {O} (struct : cell -> option O) (owner : O -> string) (userID : string) (order : list loc) (h : heap)
  : list loc * heap :=
  match order with
  | [] => ([], h)
  | l :: order =>
      match h !! l with
      | Some c =>
          if bool_decide (owner <$> struct c = Some userID) then
            let '(l', h) := alloc c h in
            let '(out, h) := copies struct owner userID order h in (l' :: out, h)
          else copies struct owner userID order h
      | None => copies struct owner userID order h
      end
  end.

(** A field of the struct behind a pointer. *)
Definition field {O} (struct : cell -> option O) (f : O -> time) (h : heap) (l : loc) : time :=
  default 0 (f <$> (h !! l ≫= struct)).

Definition heap_list `{RangeOrder, Countable K} {O} (struct : cell -> option O) (owner : O -> string) (created : O -> time)
    (seed : nat) (userID : string) (m : gmap K loc) (st : mem) : returned * mem :=
  let '(out, h) := copies struct owner userID (range_order seed (map_to_list m).*2) st.1 in
  (mkReturns None (sort_newest (field struct created h) out) "" None, (h, st.2)).

Section methods.
Context (now : time).

Definition heap_Create (u : loc) (o : userObj) (st : mem) : returned * mem :=
  let '(h, s) := st in
  if bool_decide (is_Some (r_users s !! uo_ID o)) then (fails (wrapS store.ErrUserExists (uo_ID o)), st)
  else if bool_decide (is_Some (r_usersByEmail s !! uo_Email o)) && negb (strEq (uo_Email o) "") then
    (fails (wrapS store.ErrUserExists (uo_Email o)), st)
  else
    let o := mkUserObj (uo_ID o) (uo_Email o) (uo_Roles o) (stamp (uo_CreatedAt o) now) (stamp (uo_UpdatedAt o) now) in
    let '(stored, h) := copyUser o (<[u := CUser o]> h) in
    (no_error,
     (h, set_r_users (<[uo_ID o := stored]> (r_users s))
           (if strEq (uo_Email o) "" then r_usersByEmail s else <[uo_Email o := stored]> (r_usersByEmail s)) s)).

Definition return_user (o : userObj) (st : mem) : returned * mem :=
  let '(l, h) := copyUser o st.1 in (mkReturned (Some l) None, (h, st.2)).
Definition return_token (o : tokenObj) (e : option error) (st : mem) : returned * mem :=
  let '(l, h) := snapshot o st.1 in (mkReturned (Some l) e, (h, st.2)).

Definition heap_GetByID (id : string) (st : mem) : returned * mem :=
  match stored_user st (r_users st.2 !! id) with
  | None => (fails (wrapS store.ErrUserNotFound id), st)
  | Some o => return_user o st
  end.

Definition heap_GetByEmail (email : string) (st : mem) : returned * mem :=
  match stored_user st (r_usersByEmail st.2 !! email) with
  | None => (fails (wrapS store.ErrUserNotFound email), st)
  | Some o => return_user o st
  end.

Definition heap_Delete (id : string) (st : mem) : returned * mem :=
  match stored_user st (r_users st.2 !! id) with
  | None => (fails (wrapS store.ErrUserNotFound id), st)
  | Some o =>
      let '(h, s) := st in
      (no_error,
       (h, mkRefs (delete id (r_users s)) (delete (uo_Email o) (r_usersByEmail s))
             (filter (fun kl => (to_UserID <$> stored_token st (Some kl.2)) <> Some id) (r_refreshTokens s))
             (filter (fun kl => (po_UserID <$> stored_pat st (Some kl.2)) <> Some id) (r_pats s))
             (delete id (r_passwordHashes s))
             (filter (fun kl => (oi_UserID <$> stored_oauth st (Some kl.2)) <> Some id) (r_oauthIdentities s))
             (filter (fun kl => (wi_UserID <$> stored_wallet st (Some kl.2)) <> Some id) (r_walletIdentities s))
             (r_challenges s)))
  end.

Definition heap_requireUser (s : refs) (userID : string) : option error :=
  match r_users s !! userID with
  | None => Some (wrapS store.ErrUserNotFound userID)
  | Some _ => None
  end.

Definition heap_SaveRefreshToken (t : loc) (o : tokenObj) (st : mem) : returned * mem :=
  let o := mkTokenObj (to_Hash o) (to_UserID o) (to_Parent o) (to_ExpiresAt o) (stamp (to_CreatedAt o) now)
             (to_Revoked o) (to_RotatedAt o) (to_EndedAt o) in
  let h := <[t := CToken o]> st.1 in
  let s := st.2 in
  let refuse := if strEq (to_Parent o) "" then None
    else match stored_token (h, s) (r_refreshTokens s !! to_Parent o) with
         | None => Some (EWrap [] store.ErrTokenRevoked [Lit ": family root missing"])
         | Some root =>
             match to_EndedAt root with
             | Some _ => Some (EWrap [] store.ErrTokenRevoked [Lit ": session ended"])
             | None => None
             end
         end in
  match refuse with
  | Some e => (fails e, (h, s))
  | None =>
      match heap_requireUser s (to_UserID o) with
      | Some e => (fails e, (h, s))
      | None =>
          let '(l, h) := snapshot o h in
          (no_error, (h, set_r_refreshTokens (<[to_Hash o := l]> (r_refreshTokens s)) s))
      end
  end.

Definition heap_GetRefreshToken (hash : string) (st : mem) : returned * mem :=
  match stored_token st (r_refreshTokens st.2 !! hash) with
  | None => (fails store.ErrTokenNotFound, st)
  | Some o => return_token o None st
  end.

(** [now] here is the parameter of the method. *)
Definition heap_RotateRefreshToken (hash : string) (st : mem) : returned * mem :=
  match r_refreshTokens st.2 !! hash with
  | None => (fails store.ErrTokenNotFound, st)
  | Some l =>
      match stored_token st (Some l) with
      | None => (fails store.ErrTokenNotFound, st)
      | Some o =>
          if to_Revoked o then return_token o (Some (store.ErrTokenRevoked : error)) st
          else if negb (After (to_ExpiresAt o) now) then return_token o (Some (store.ErrTokenExpired : error)) st
          else
            let '(p, h) := alloc (CTime now) st.1 in
            let o := mkTokenObj (to_Hash o) (to_UserID o) (to_Parent o) (to_ExpiresAt o) (to_CreatedAt o) true
                       (Some p) (to_EndedAt o) in
            return_token o None (<[l := CToken o]> h, st.2)
      end
  end.

(** The body of the loop of [RevokeTokens], on one struct; every token it ends
    points to the same instant. *)
Definition revoke_cell (hash : string) (p : loc) (c : cell) : cell :=
  match c with
  | CToken o =>
      if strEq (to_Hash o) hash || strEq (to_Parent o) hash then
        CToken (mkTokenObj (to_Hash o) (to_UserID o) (to_Parent o) (to_ExpiresAt o) (to_CreatedAt o) true (to_RotatedAt o)
                  (match to_EndedAt o with None => Some p | Some e => Some e end))
      else c
  | _ => c
  end.

Definition heap_RevokeTokens `{RangeOrder} (seed : nat) (hash : string) (st : mem) : returned * mem :=
  let '(p, h) := alloc (CTime now) st.1 in
  let order := range_order seed (map_to_list (r_refreshTokens st.2)).*2 in
  (no_error, (foldl (fun h l => alter (revoke_cell hash p) l h) h order, st.2)).

Definition heap_savePATLocked (p : loc) (o : patObj) (st : mem) : returned * mem :=
  let '(h, s) := st in
  if bool_decide (is_Some (r_pats s !! po_Hash o)) then (fails store.ErrPATExists, st)
  else
    let o := mkPatObj (po_ID o) (po_Hash o) (po_UserID o) (po_Name o) (po_Scopes o) (po_ExpiresAt o)
               (po_LastUsedAt o) (stamp (po_CreatedAt o) now) in
    let '(l, h) := alloc (CPat o) (<[p := CPat o]> h) in
    (no_error, (h, set_r_pats (<[po_Hash o := l]> (r_pats s)) s)).

Definition heap_SavePAT (p : loc) (o : patObj) (st : mem) : returned * mem :=
  match heap_requireUser st.2 (po_UserID o) with
  | Some e => (fails e, st)
  | None => heap_savePATLocked p o st
  end.

(** The body of the loop of [SavePATLimited]: the live count and the map. *)
Definition heap_limit_step (h : heap) (userID : string) (at_ : time) (acc : Z * gmap string loc) (kl : string * loc)
  : Z * gmap string loc :=
  match h !! kl.2 ≫= pat_cell with
  | None => acc
  | Some o =>
      if negb (strEq (po_UserID o) userID) then acc
      else if match default None (time_at h (po_ExpiresAt o)) with Some e => After at_ e | None => false end
      then (acc.1, delete kl.1 acc.2)
      else (acc.1 + 1, acc.2)
  end.

(** [at_] is the parameter [now] of the method. *)
Definition heap_SavePATLimited `{RangeOrder} (seed : nat) (p : loc) (o : patObj) (limit : Z) (at_ : time) (st : mem)
  : returned * mem :=
  match heap_requireUser st.2 (po_UserID o) with
  | Some e => (fails e, st)
  | None =>
      let '(live, m) := foldl (heap_limit_step st.1 (po_UserID o) at_) (0, r_pats st.2)
                          (range_order seed (map_to_list (r_pats st.2))) in
      let st := (st.1, set_r_pats m st.2) in
      if limit <=? live then (fails store.ErrPATLimitReached, st) else heap_savePATLocked p o st
  end.

Definition heap_ListPATs `{RangeOrder} (seed : nat) (userID : string) (st : mem) : returned * mem :=
  heap_list pat_cell po_UserID po_CreatedAt seed userID (r_pats st.2) st.

Definition heap_DeletePAT `{RangeOrder} (seed : nat) (userID id : string) (st : mem) : returned * mem :=
  match find (fun kl => match stored_pat st (Some kl.2) with
                        | Some o => strEq (po_ID o) id && strEq (po_UserID o) userID
                        | None => false
                        end)
          (range_order seed (map_to_list (r_pats st.2))) with
  | Some kl => (no_error, (st.1, set_r_pats (delete kl.1 (r_pats st.2)) st.2))
  | None => (fails store.ErrTokenNotFound, st)
  end.

(** The body of the loop of [GetRefreshFamily]. *)
Definition heap_family_step (root : string) (acc : familyObj * heap) (l : loc) : familyObj * heap :=
  let '(family, h) := acc in
  match h !! l ≫= token_cell with
  | None => acc
  | Some t =>
      if negb (strEq (to_Hash t) root) && negb (strEq (to_Parent t) root) then acc
      else
        let ended := match to_EndedAt t with Some _ => true | None => fo_SessionEnded family end in
        match default None (time_at h (to_RotatedAt t)) with
        | Some r =>
            if match default None (time_at h (fo_LastRotatedAt family)) with None => true | Some last => After r last end then
              let '(p, h) := alloc (CTime r) h in (mkFamilyObj ended (Some p), h)
            else (mkFamilyObj ended (fo_LastRotatedAt family), h)
        | None => (mkFamilyObj ended (fo_LastRotatedAt family), h)
        end
  end.

Definition heap_GetRefreshFamily `{RangeOrder} (seed : nat) (root : string) (st : mem) : returned * mem :=
  let '(family, h) := foldl (heap_family_step root) (mkFamilyObj false None, st.1)
                        (range_order seed (map_to_list (r_refreshTokens st.2)).*2) in
  return_copy (CFamily family) (h, st.2).

(** *** Identities, challenges and passwords *)

Definition heap_SaveOAuthIdentity (p : loc) (i : OAuthIdentity) (st : mem) : returned * mem :=
  match heap_requireUser st.2 (oi_UserID i) with
  | Some e => (fails e, st)
  | None =>
      let key := (oi_Provider i, oi_ExternalID i) in
      if bool_decide (is_Some (r_oauthIdentities st.2 !! key)) then
        (fails (EWrap [] store.ErrOAuthIdentityExists [Lit ": "; ArgS (oi_Provider i); Lit "/"; ArgS (oi_ExternalID i)]), st)
      else
        let i := stamp_oauth now i in
        let '(l, h) := alloc (COAuth i) (<[p := COAuth i]> st.1) in
        (no_error, (h, set_r_oauthIdentities (<[key := l]> (r_oauthIdentities st.2)) st.2))
  end.

Definition heap_GetOAuthIdentity (provider externalID : string) (st : mem) : returned * mem :=
  match stored_oauth st (r_oauthIdentities st.2 !! (provider, externalID)) with
  | None => (fails (EWrap [] store.ErrOAuthIdentityNotFound [Lit ": "; ArgS provider; Lit "/"; ArgS externalID]), st)
  | Some i => return_copy (COAuth i) st
  end.

Definition heap_ListOAuthIdentities `{RangeOrder} (seed : nat) (userID : string) (st : mem) : returned * mem :=
  heap_list oauth_cell oi_UserID oi_CreatedAt seed userID (r_oauthIdentities st.2) st.

Definition heap_SaveWalletIdentity (p : loc) (i : WalletIdentity) (st : mem) : returned * mem :=
  match heap_requireUser st.2 (wi_UserID i) with
  | Some e => (fails e, st)
  | None =>
      let key := (wi_Chain i, wi_Address i) in
      if bool_decide (is_Some (r_walletIdentities st.2 !! key)) then
        (fails (EWrap [] store.ErrWalletIdentityExists [Lit ": "; ArgS (wi_Chain i); Lit "/"; ArgS (wi_Address i)]), st)
      else
        let i := stamp_wallet now i in
        let '(l, h) := alloc (CWallet i) (<[p := CWallet i]> st.1) in
        (no_error, (h, set_r_walletIdentities (<[key := l]> (r_walletIdentities st.2)) st.2))
  end.

Definition heap_GetWalletIdentity (chain address : string) (st : mem) : returned * mem :=
  match stored_wallet st (r_walletIdentities st.2 !! (chain, address)) with
  | None => (fails (EWrap [] store.ErrWalletIdentityNotFound [Lit ": "; ArgS chain; Lit "/"; ArgS address]), st)
  | Some i => return_copy (CWallet i) st
  end.

Definition heap_ListWalletIdentities `{RangeOrder} (seed : nat) (userID : string) (st : mem) : returned * mem :=
  heap_list wallet_cell wi_UserID wi_CreatedAt seed userID (r_walletIdentities st.2) st.

Definition heap_SaveChallenge (p : loc) (c : Challenge) (st : mem) : returned * mem :=
  let '(h, s) := st in
  let swept := filter (fun kl => match stored_challenge st (Some kl.2) with
                                 | Some c => Before (ch_ExpiresAt c) now
                                 | None => false
                                 end = false) (r_challenges s) in
  let c := stamp_challenge now c in
  let '(l, h) := alloc (CChallenge c) (<[p := CChallenge c]> h) in
  (no_error, (h, set_r_challenges (<[ch_Nonce c := l]> swept) s)).

Definition heap_GetChallenge (nonce : string) (st : mem) : returned * mem :=
  match stored_challenge st (r_challenges st.2 !! nonce) with
  | None => (fails store.ErrChallengeNotFound, st)
  | Some c =>
      if Before (ch_ExpiresAt c) now then
        (fails store.ErrChallengeExpired, (st.1, set_r_challenges (delete nonce (r_challenges st.2)) st.2))
      else return_copy (CChallenge c) st
  end.

Definition heap_DeleteChallenge (nonce : string) (st : mem) : returned * mem :=
  if bool_decide (is_Some (r_challenges st.2 !! nonce))
  then (no_error, (st.1, set_r_challenges (delete nonce (r_challenges st.2)) st.2))
  else (fails store.ErrChallengeNotFound, st).

Definition heap_SavePasswordHash (userID hash : string) (st : mem) : returned * mem :=
  match heap_requireUser st.2 userID with
  | Some e => (fails e, st)
  | None => (no_error, (st.1, set_r_passwordHashes (<[userID := hash]> (r_passwordHashes st.2)) st.2))
  end.

Definition heap_GetPasswordHash (userID : string) (st : mem) : returned * mem :=
  match r_passwordHashes st.2 !! userID with
  | None => (fails (wrapS store.ErrCredentialNotFound userID), st)
  | Some hash => (mkReturns None [] hash None, st)
  end.

Definition heap_GetPAT (hash : string) (st : mem) : returned * mem :=
  match stored_pat st (r_pats st.2 !! hash) with
  | None => (fails store.ErrTokenNotFound, st)
  | Some o => return_copy (CPat o) st
  end.

(** [now] here is the parameter [t] of the method. *)
Definition heap_TouchPAT (hash : string) (st : mem) : returned * mem :=
  match r_pats st.2 !! hash with
  | None => (no_error, st)
  | Some l =>
      match stored_pat st (Some l) with
      | None => (no_error, st)
      | Some o =>
          let '(p, h) := alloc (CTime now) st.1 in
          (no_error, (<[l := CPat (mkPatObj (po_ID o) (po_Hash o) (po_UserID o) (po_Name o) (po_Scopes o)
                                     (po_ExpiresAt o) (Some p) (po_CreatedAt o))]> h, st.2))
      end
  end.
End methods.

(** ** Reading through changes of the heap *)

(** Arrays and instants, which structs point to. *)
Definition is_leaf (c : cell) : Prop := match c with CStrings _ | CTime _ => True | _ => False end.

(** Nothing behind a pointer of a struct has changed. *)
Definition leaves (h h' : heap) : Prop := forall l c, h !! l = Some c -> is_leaf c -> h' !! l = Some c.

Lemma leaves_refl h : leaves h h.
Proof. by intros l c. Qed.
Lemma leaves_trans h1 h2 h3 : leaves h1 h2 -> leaves h2 h3 -> leaves h1 h3.
Proof. intros H12 H23 l c Hl Hc. eauto. Qed.
Lemma leaves_insert h l c : (forall c0, h !! l = Some c0 -> ~ is_leaf c0) -> leaves h (<[l := c]> h).
Proof. intros Hl l' c' Hl' Hc'. rewrite lookup_insert_ne; [done|]. intros ->. by eapply Hl. Qed.

Lemma next_above h l c : (h : heap) !! l = Some c -> (l < next h)%positive.
Proof.
  revert l c. unfold next. apply (map_fold_weak_ind (fun n (h : heap) => forall l c, h !! l = Some c -> (l < n)%positive)).
  - intros l c. by rewrite lookup_empty.
  - intros l0 c0 h0 n _ IH l c [[<- _]|[_ Hl]]%lookup_insert_Some; [|apply IH in Hl]; lia.
Qed.

Lemma alloc_fresh c h l h' : alloc c h = (l, h') -> h !! l = None /\ h' = <[l := c]> h.
Proof.
  intros [= <- <-]. split; [|done]. destruct (h !! next h) eqn:E; [|done].
  apply next_above in E. lia.
Qed.
Lemma leaves_alloc c h l h' : alloc c h = (l, h') -> leaves h h'.
Proof. intros [Hl ->]%alloc_fresh. apply leaves_insert. congruence. Qed.

Lemma strings_at_leaves h h' p ws : leaves h h' -> strings_at h p = Some ws -> strings_at h' p = Some ws.
Proof.
  intros Hh. destruct p as [l|]; [|done]. cbn. destruct (h !! l) as [c|] eqn:E; [|done].
  destruct c; try done. by rewrite (Hh l _ E I).
Qed.
Lemma time_at_leaves h h' p t : leaves h h' -> time_at h p = Some t -> time_at h' p = Some t.
Proof.
  intros Hh. destruct p as [l|]; [|done]. cbn. destruct (h !! l) as [c|] eqn:E; [|done].
  destruct c; try done. by rewrite (Hh l _ E I).
Qed.

(** A kind of struct: what it is worth depends on the leaves alone. *)
Class Kind {O A} (struct : cell -> option O) (value : heap -> O -> option A) : Prop := {
  kind_leaves h h' o a : leaves h h' -> value h o = Some a -> value h' o = Some a;
  kind_struct c o : struct c = Some o -> ~ is_leaf c
}.

#[export] Instance user_kind : Kind user_cell user_value.
Proof.
  split; [|by intros [] ? Ho Hl]. intros h h' o a Hh. unfold user_value.
  destruct (strings_at h _) as [ws|] eqn:E; [|done]. by rewrite (strings_at_leaves h h' _ _ Hh E).
Qed.
#[export] Instance token_kind : Kind token_cell token_value.
Proof.
  split; [|by intros [] ? Ho Hl]. intros h h' o a Hh. unfold token_value.
  destruct (time_at h (to_RotatedAt o)) as [r|] eqn:E1; [|done]. rewrite (time_at_leaves h h' _ _ Hh E1). cbn.
  destruct (time_at h (to_EndedAt o)) as [e|] eqn:E2; [|done]. by rewrite (time_at_leaves h h' _ _ Hh E2).
Qed.
#[export] Instance pat_kind : Kind pat_cell pat_value.
Proof.
  split; [|by intros [] ? Ho Hl]. intros h h' o a Hh. unfold pat_value.
  destruct (strings_at h _) as [ws|] eqn:E; [|done]. rewrite (strings_at_leaves h h' _ _ Hh E). cbn.
  destruct (time_at h (po_ExpiresAt o)) as [r|] eqn:E1; [|done]. rewrite (time_at_leaves h h' _ _ Hh E1). cbn.
  destruct (time_at h (po_LastUsedAt o)) as [e|] eqn:E2; [|done]. by rewrite (time_at_leaves h h' _ _ Hh E2).
Qed.

#[export] Instance family_kind : Kind family_cell family_value.
Proof.
  split; [|by intros [] ? Ho Hl]. intros h h' o a Hh. unfold family_value.
  destruct (time_at h _) as [t|] eqn:E; [|done]. by rewrite (time_at_leaves h h' _ _ Hh E).
Qed.
#[export] Instance oauth_kind : Kind oauth_cell flat_value.
Proof. split; [done|by intros [] ? Ho Hl]. Qed.
#[export] Instance wallet_kind : Kind wallet_cell flat_value.
Proof. split; [done|by intros [] ? Ho Hl]. Qed.
#[export] Instance challenge_kind : Kind challenge_cell flat_value.
Proof. split; [done|by intros [] ? Ho Hl]. Qed.

(** ** A map of the store as values *)

Section table.
Context {O A} (struct : cell -> option O) (value : heap -> O -> option A) `{!Kind struct value}.
Context `{Countable K}.
Implicit Types (h : heap) (m : gmap K loc).

Definition view h m : gmap K A := omap (read struct value h) m.

(** Every pointer is to a struct of the kind, with nothing dangling. *)
Definition sound h m : Prop := forall k l, m !! k = Some l -> is_Some (read struct value h l).

Lemma read_some h l a : read struct value h l = Some a <->
  exists c o, h !! l = Some c /\ struct c = Some o /\ value h o = Some a.
Proof.
  unfold read. split.
  - intros (c & Hc & (o & Ho & Hv)%bind_Some)%bind_Some. eauto.
  - intros (c & o & -> & Ho & Hv). cbn. by rewrite Ho.
Qed.

Lemma read_keep h h' l a : leaves h h' -> h' !! l = h !! l -> read struct value h l = Some a -> read struct value h' l = Some a.
Proof.
  intros Hh Hl (c & o & Hc & Ho & Hv)%read_some. apply read_some. exists c, o.
  split_and!; [congruence|done|by eapply kind_leaves].
Qed.

Lemma view_lookup h m k : sound h m ->
  view h m !! k = (l ← m !! k; read struct value h l) /\ (view h m !! k = None <-> m !! k = None).
Proof.
  intros Hs. unfold view. rewrite lookup_omap. destruct (m !! k) as [l|] eqn:E; cbn; [|done].
  destruct (Hs k l E) as [a Ha]. rewrite Ha. done.
Qed.

Lemma stored_view h m k : sound h m ->
  match stored struct h (m !! k) with
  | Some o => exists l c v, m !! k = Some l /\ h !! l = Some c /\ struct c = Some o /\ value h o = Some v /\
                view h m !! k = Some v
  | None => view h m !! k = None /\ m !! k = None
  end.
Proof.
  intros Hs. destruct (view_lookup h m k Hs) as [Hv Hn]. unfold stored.
  destruct (m !! k) as [l|] eqn:E; cbn in Hv |- *; [|by split; [apply Hn|]].
  destruct (Hs k l E) as [v Hr]. pose proof Hr as (c & o & Hc & Ho & Hval)%read_some. rewrite Hc. cbn. rewrite Ho.
  exists l, c, v. by rewrite Hv, Hr.
Qed.

Lemma view_keep h h' m : leaves h h' -> (forall k l, m !! k = Some l -> h' !! l = h !! l) -> sound h m ->
  view h' m = view h m /\ sound h' m.
Proof.
  intros Hh Hm Hs.
  assert (forall k l, m !! k = Some l -> exists a, read struct value h l = Some a /\ read struct value h' l = Some a) as Hr.
  { intros k l Hl. destruct (Hs k l Hl) as [a Ha]. exists a. split; [done|]. by eapply read_keep; [|eapply Hm|]. }
  split.
  - apply map_eq. intros k. unfold view. rewrite !lookup_omap. destruct (m !! k) as [l|] eqn:E; [|done]. cbn.
    destruct (Hr k l E) as (a & -> & ->). done.
  - intros k l Hl. destruct (Hr k l Hl) as (a & _ & ->). by eexists.
Qed.

(** The same for a change that spares the structs of the kind. *)
Lemma view_spared h h' m : leaves h h' -> (forall l c o, h !! l = Some c -> struct c = Some o -> h' !! l = Some c) ->
  sound h m -> view h' m = view h m /\ sound h' m.
Proof.
  intros Hh Hs Hm. apply view_keep; [done| |done]. intros k l Hk. destruct (Hm k l Hk) as [a (c & o & Hc & Ho & _)%read_some].
  rewrite Hc. by eapply Hs.
Qed.

Lemma view_insert h m k l a : sound h m -> read struct value h l = Some a ->
  view h (<[k := l]> m) = <[k := a]> (view h m) /\ sound h (<[k := l]> m).
Proof.
  intros Hs Ha. split.
  - unfold view. by rewrite (omap_insert_Some _ _ _ _ a).
  - intros k' l' [[-> ->]|[? Hl]]%lookup_insert_Some; [by eexists|by eapply Hs].
Qed.

Lemma view_delete h m k : sound h m -> view h (delete k m) = delete k (view h m) /\ sound h (delete k m).
Proof.
  intros Hs. split; [apply omap_delete|]. intros k' l' [? Hl]%lookup_delete_Some. by eapply Hs.
Qed.

(** Writing to the struct of one key. *)
Lemma view_update h h' m k l a :
  leaves h h' -> (forall k' l', m !! k' = Some l' -> k' <> k -> h' !! l' = h !! l') -> m !! k = Some l ->
  read struct value h' l = Some a -> sound h m -> view h' m = <[k := a]> (view h m) /\ sound h' m.
Proof.
  intros Hh Hm Hk Ha Hs.
  destruct (view_keep h h' (delete k m)) as [Hv Hd]; [done| |by apply view_delete|].
  { intros k' l' [? Hl]%lookup_delete_Some. by eapply Hm. }
  rewrite (proj1 (view_delete h m k Hs)) in Hv.
  destruct (view_insert h' (delete k m) k l a Hd Ha) as [Hi Si]. rewrite insert_delete_id in Hi, Si by done.
  split; [|done]. by rewrite Hi, Hv, insert_delete_eq.
Qed.
End table.

Abbreviation view_users := (view user_cell user_value).
Abbreviation view_tokens := (view token_cell token_value).
Abbreviation view_pats := (view pat_cell pat_value).
Abbreviation view_oauth := (view oauth_cell flat_value).
Abbreviation view_wallets := (view wallet_cell flat_value).
Abbreviation view_challenges := (view challenge_cell flat_value).

(** The store as Memory.v has it. *)
Definition as_store (st : mem) : Memory.Store :=
  mkStore (view_users st.1 (r_users st.2)) (view_users st.1 (r_usersByEmail st.2))
    (view_tokens st.1 (r_refreshTokens st.2)) (view_pats st.1 (r_pats st.2)) (r_passwordHashes st.2)
    (view_oauth st.1 (r_oauthIdentities st.2)) (view_wallets st.1 (r_walletIdentities st.2))
    (view_challenges st.1 (r_challenges st.2)).

(** Two keys never share a struct. *)
Definition separate (m : gmap string loc) : Prop := forall k k' l, m !! k = Some l -> m !! k' = Some l -> k = k'.

(** The maps of the structs without pointers. *)
Record sound_flat (h : heap) (s : refs) : Prop := mkSoundFlat {
  sf_oauth : sound oauth_cell flat_value h (r_oauthIdentities s);
  sf_wallets : sound wallet_cell flat_value h (r_walletIdentities s);
  sf_challenges : sound challenge_cell flat_value h (r_challenges s)
}.

Definition same_flat (h h' : heap) (s : refs) : Prop :=
  view_oauth h' (r_oauthIdentities s) = view_oauth h (r_oauthIdentities s) /\
  view_wallets h' (r_walletIdentities s) = view_wallets h (r_walletIdentities s) /\
  view_challenges h' (r_challenges s) = view_challenges h (r_challenges s).

Record sound_store (st : mem) : Prop := mkSound {
  so_users : sound user_cell user_value st.1 (r_users st.2);
  so_usersByEmail : sound user_cell user_value st.1 (r_usersByEmail st.2);
  so_tokens : sound token_cell token_value st.1 (r_refreshTokens st.2);
  so_pats : sound pat_cell pat_value st.1 (r_pats st.2);
  so_separate_tokens : separate (r_refreshTokens st.2);
  so_separate_pats : separate (r_pats st.2);
  so_flat : sound_flat st.1 st.2
}.

(** The structs the maps point to. *)
Definition structs (s : refs) (l : loc) : Prop :=
  (exists k, r_users s !! k = Some l) \/ (exists k, r_usersByEmail s !! k = Some l) \/
  (exists k, r_refreshTokens s !! k = Some l) \/ (exists k, r_pats s !! k = Some l) \/
  (exists k, r_oauthIdentities s !! k = Some l) \/ (exists k, r_walletIdentities s !! k = Some l) \/
  (exists k, r_challenges s !! k = Some l).

(** A change of the heap away from the store's structs and from all leaves. *)
Lemma store_keep h h' s : leaves h h' -> (forall l, structs s l -> h' !! l = h !! l) -> sound_store (h, s) ->
  as_store (h', s) = as_store (h, s) /\ sound_store (h', s).
Proof.
  intros Hh Hl [H1 H2 H3 H4 H5 H6 [H7 H8 H9]]. cbn in *. unfold structs in Hl.
  destruct (view_keep user_cell user_value h h' (r_users s)) as [E1 S1]; [done|intros; apply Hl; eauto|done|].
  destruct (view_keep user_cell user_value h h' (r_usersByEmail s)) as [E2 S2]; [done|intros; apply Hl; eauto|done|].
  destruct (view_keep token_cell token_value h h' (r_refreshTokens s)) as [E3 S3]; [done|intros; apply Hl; eauto 6|done|].
  destruct (view_keep pat_cell pat_value h h' (r_pats s)) as [E4 S4]; [done|intros; apply Hl; eauto 7|done|].
  destruct (view_keep oauth_cell flat_value h h' (r_oauthIdentities s)) as [E5 S5]; [done|intros; apply Hl; eauto 8|done|].
  destruct (view_keep wallet_cell flat_value h h' (r_walletIdentities s)) as [E6 S6]; [done|intros; apply Hl; eauto 9|done|].
  destruct (view_keep challenge_cell flat_value h h' (r_challenges s)) as [E7 S7]; [done|intros; apply Hl; eauto 10|done|].
  split; [|by constructor]. unfold as_store. cbn. by rewrite E1, E2, E3, E4, E5, E6, E7.
Qed.

Lemma sound_struct {O A} (struct : cell -> option O) (value : heap -> O -> option A) `{!Kind struct value} `{Countable K}
    h (m : gmap K loc) l :
  sound struct value h m -> (exists k, m !! k = Some l) -> exists c, h !! l = Some c /\ ~ is_leaf c.
Proof.
  intros Hs [k Hk]. destruct (Hs k l Hk) as [a (c & o & ? & ? & _)%read_some]. exists c.
  split; [done|by eapply (kind_struct (struct := struct) (value := value))].
Qed.

Lemma structs_dom st l : sound_store st -> structs st.2 l -> exists c, st.1 !! l = Some c /\ ~ is_leaf c.
Proof.
  intros [H1 H2 H3 H4 _ _ [H7 H8 H9]] Hl. unfold structs in Hl. destruct_or! Hl.
  - by apply (sound_struct user_cell user_value st.1) in Hl; [|done].
  - by apply (sound_struct user_cell user_value st.1) in Hl; [|done].
  - by apply (sound_struct token_cell token_value st.1) in Hl; [|done].
  - by apply (sound_struct pat_cell pat_value st.1) in Hl; [|done].
  - by apply (sound_struct oauth_cell flat_value st.1) in Hl; [|done].
  - by apply (sound_struct wallet_cell flat_value st.1) in Hl; [|done].
  - by apply (sound_struct challenge_cell flat_value st.1) in Hl; [|done].
Qed.

(** ** Copies *)

Definition option_locs (p : option loc) : gset loc := match p with Some l => {[l]} | None => ∅ end.

Lemma alloc_spec c h l h' : alloc c h = (l, h') ->
  (l ∉ dom h) /\ h' !! l = Some c /\ h ⊆ h' /\ dom h' = {[l]} ∪ dom h /\ leaves h h'.
Proof.
  intros Ha. pose proof (leaves_alloc c h l h' Ha) as Hl. apply alloc_fresh in Ha as [Hn ->]. split_and!; [|..|done].
  - by apply not_elem_of_dom.
  - by rewrite lookup_insert_eq.
  - by apply insert_subseteq.
  - by rewrite dom_insert_L.
Qed.

Lemma leaves_subseteq (h h' : heap) : h ⊆ h' -> leaves h h'.
Proof. intros Hs l c Hl _. by eapply lookup_weaken. Qed.

(** A copy of a user: its own struct and its own array. *)
Lemma copyUser_spec o h v l h' : user_value h o = Some v -> copyUser o h = (l, h') ->
  exists roles, h' !! l = Some (CUser (mkUserObj (uo_ID o) (uo_Email o) roles (uo_CreatedAt o) (uo_UpdatedAt o))) /\
    deref_user h' l = Some v /\ h ⊆ h' /\ dom h' = {[l]} ∪ option_locs roles ∪ dom h /\
    (l ∉ dom h) /\ (forall r, roles = Some r -> r ∉ dom h).
Proof.
  unfold copyUser, slices_Clone, user_value. intros Hv Hc.
  destruct (uo_Roles o) as [r|]; cbn in Hv.
  - destruct (h !! r) as [c|] eqn:Er; [|done]. destruct c; try done. cbn in Hv. injection Hv as <-.
    destruct (alloc _ h) as [r' h1] eqn:E1. apply alloc_spec in E1 as (Hr & Hl1 & Hs1 & Hd1 & _).
    apply alloc_spec in Hc as (Hr2 & Hl2 & Hs2 & Hd2 & _). exists (Some r'). rewrite Hd1 in Hr2.
    split_and!; [done| |by etransitivity|cbn; set_solver|set_solver|by intros ? [= <-]].
    unfold deref_user, read. rewrite Hl2. cbn. unfold user_value. cbn. by rewrite (lookup_weaken _ _ _ _ Hl1 Hs2).
  - injection Hv as <-. apply alloc_spec in Hc as (Hr2 & Hl2 & Hs2 & Hd2 & _). exists None.
    split_and!; [done| |done|cbn; set_solver|done|done].
    unfold deref_user, read. by rewrite Hl2.
Qed.

Lemma store_grows (h h' : heap) s : h ⊆ h' -> sound_store (h, s) -> as_store (h', s) = as_store (h, s) /\ sound_store (h', s).
Proof.
  intros Hs Hst. apply store_keep; [by apply leaves_subseteq| |done]. intros l Hl.
  destruct (structs_dom (h, s) l Hst Hl) as (c & Hc & _). cbn in Hc. rewrite Hc. by eapply lookup_weaken.
Qed.

(** A write to a struct of a caller. *)
Lemma store_caller_struct h s l c0 c : ~ structs s l -> h !! l = Some c0 -> ~ is_leaf c0 -> sound_store (h, s) ->
  leaves h (<[l := c]> h) /\ as_store (<[l := c]> h, s) = as_store (h, s) /\ sound_store (<[l := c]> h, s).
Proof.
  intros Hl Hc Hleaf Hst. assert (leaves h (<[l := c]> h)) as Hh by (apply leaves_insert; intros ? E; congruence).
  split; [done|]. apply store_keep; [done| |done]. intros l' Hl'. rewrite lookup_insert_ne; [done|]. by intros ->.
Qed.

(** ** The calls are those of Memory.v *)

(** What a caller is told: an error, or what it reads through its pointer. *)
Definition told {A} (e : option error) (a : option A) : option (res A) :=
  match e, a with Some e, _ => Some (Err e) | None, Some a => Some (Ok a) | None, None => None end.

Lemma user_cell_some c o : user_cell c = Some o -> c = CUser o.
Proof. destruct c; naive_solver. Qed.
Lemma token_cell_some c o : token_cell c = Some o -> c = CToken o.
Proof. destruct c; naive_solver. Qed.
Lemma pat_cell_some c o : pat_cell c = Some o -> c = CPat o.
Proof. destruct c; naive_solver. Qed.

Lemma return_user_exact o v st r st' : user_value st.1 o = Some v -> sound_store st -> return_user o st = (r, st') ->
  sound_store st' /\ told (ret_err r) (p ← ret_ptr r; deref_user st'.1 p) = Some (Ok v) /\ as_store st' = as_store st.
Proof.
  intros Hv Hst. unfold return_user. destruct (copyUser o st.1) as [l h'] eqn:Ec. intros [= <- <-].
  destruct (copyUser_spec o st.1 v l h' Hv Ec) as (roles & _ & Hd & Hs & _). destruct st as [h s].
  destruct (store_grows h h' s Hs Hst) as [Ha Hst']. split_and!; [done| |done]. cbn. by rewrite Hd.
Qed.

(** A copy of a struct, read by the caller. *)
Lemma return_copy_exact {O A} (struct : cell -> option O) (value : heap -> O -> option A) `{!Kind struct value} c o v st r st' :
  struct c = Some o -> value st.1 o = Some v -> sound_store st -> return_copy c st = (r, st') ->
  sound_store st' /\ told (ret_err r) (p ← ret_ptr r; read struct value st'.1 p) = Some (Ok v) /\ as_store st' = as_store st.
Proof.
  intros Ho Hv Hst. unfold return_copy. destruct (alloc c st.1) as [l h'] eqn:Ec. intros [= <- <-].
  apply alloc_spec in Ec as (_ & Hl & Hs & _ & Hlv). destruct st as [h s].
  destruct (store_grows h h' s Hs Hst) as [Ha Hst']. split_and!; [done| |done].
  cbn. unfold read. rewrite Hl. cbn. rewrite Ho. cbn.
  by rewrite (kind_leaves (struct := struct) (value := value) h h' o v Hlv Hv).
Qed.

(** The token a call returns, next to its error. *)
Lemma return_token_exact o e v st r st' : token_value st.1 o = Some v -> sound_store st -> return_token o e st = (r, st') ->
  sound_store st' /\ ret_err r = e /\ (p ← ret_ptr r; deref_token st'.1 p) = Some v /\ as_store st' = as_store st.
Proof.
  intros Hv Hst. unfold return_token, snapshot. destruct (alloc _ st.1) as [l h'] eqn:Ec. intros [= <- <-].
  apply alloc_spec in Ec as (_ & Hl & Hs & _ & Hlv). destruct st as [h s].
  destruct (store_grows h h' s Hs Hst) as [Ha Hst']. split_and!; [done|done| |done].
  cbn. unfold deref_token, read. rewrite Hl. by apply (kind_leaves (Kind := token_kind) h).
Qed.

Lemma user_value_fields h o v : user_value h o = Some v ->
  user_ID v = uo_ID o /\ user_Email v = uo_Email o /\ user_CreatedAt v = uo_CreatedAt o /\ user_UpdatedAt v = uo_UpdatedAt o /\
  strings_at h (uo_Roles o) = Some (user_Roles v).
Proof. unfold user_value. destruct (strings_at h _); [|done]. cbn. by intros [= <-]. Qed.

Lemma token_value_fields h o v : token_value h o = Some v ->
  rt_Hash v = to_Hash o /\ rt_UserID v = to_UserID o /\ rt_Parent v = to_Parent o /\ rt_ExpiresAt v = to_ExpiresAt o /\
  rt_CreatedAt v = to_CreatedAt o /\ rt_Revoked v = to_Revoked o /\ time_at h (to_RotatedAt o) = Some (rt_RotatedAt v) /\
  time_at h (to_EndedAt o) = Some (rt_EndedAt v).
Proof.
  unfold token_value. destruct (time_at h (to_RotatedAt o)) as [r|]; [|done]. cbn.
  destruct (time_at h (to_EndedAt o)) as [e|]; [|done]. cbn. by intros [= <-].
Qed.

Lemma pat_value_fields h o v : pat_value h o = Some v ->
  pat_ID v = po_ID o /\ pat_Hash v = po_Hash o /\ pat_UserID v = po_UserID o /\ pat_Name v = po_Name o /\
  pat_CreatedAt v = po_CreatedAt o /\ strings_at h (po_Scopes o) = Some (pat_Scopes v) /\
  time_at h (po_ExpiresAt o) = Some (pat_ExpiresAt v) /\ time_at h (po_LastUsedAt o) = Some (pat_LastUsedAt v).
Proof.
  unfold pat_value. destruct (strings_at h _) as [ws|]; [|done]. cbn. destruct (time_at h (po_ExpiresAt o)) as [e|]; [|done].
  cbn. destruct (time_at h (po_LastUsedAt o)) as [u|]; [|done]. cbn. by intros [= <-].
Qed.

(** Changes that spare the structs without pointers. *)
Lemma flat_spared h h' s : leaves h h' ->
  (forall l c, h !! l = Some c -> user_cell c = None -> token_cell c = None -> pat_cell c = None -> h' !! l = Some c) ->
  sound_flat h s -> same_flat h h' s /\ sound_flat h' s.
Proof.
  intros Hlv Hh [S1 S2 S3].
  destruct (view_spared oauth_cell flat_value h h' (r_oauthIdentities s)) as [E1 T1]; [done| |done|].
  { intros l c o Hl Hc. apply Hh; [done|by destruct c..]. }
  destruct (view_spared wallet_cell flat_value h h' (r_walletIdentities s)) as [E2 T2]; [done| |done|].
  { intros l c o Hl Hc. apply Hh; [done|by destruct c..]. }
  destruct (view_spared challenge_cell flat_value h h' (r_challenges s)) as [E3 T3]; [done| |done|].
  { intros l c o Hl Hc. apply Hh; [done|by destruct c..]. }
  by split.
Qed.

(** Changes of the structs of refresh tokens, or of access tokens, alone. *)
Lemma other_than_tokens h h' s : leaves h h' -> (forall l c, h !! l = Some c -> token_cell c = None -> h' !! l = Some c) ->
  sound_store (h, s) ->
  (view_users h' (r_users s) = view_users h (r_users s) /\ sound user_cell user_value h' (r_users s)) /\
  (view_users h' (r_usersByEmail s) = view_users h (r_usersByEmail s) /\ sound user_cell user_value h' (r_usersByEmail s)) /\
  (view_pats h' (r_pats s) = view_pats h (r_pats s) /\ sound pat_cell pat_value h' (r_pats s)) /\
  same_flat h h' s /\ sound_flat h' s.
Proof.
  intros Hlv Hh [S1 S2 S3 S4 _ _ SF]. split; [|split; [|split]];
    [apply view_spared; [typeclasses eauto|done|intros l c o Hl Hc; apply Hh; [done|by destruct c]|done]..|].
  apply flat_spared; [done| |done]. intros l c Hl _ Hc1 Hc2. by apply Hh.
Qed.

Lemma other_than_pats h h' s : leaves h h' -> (forall l c, h !! l = Some c -> pat_cell c = None -> h' !! l = Some c) ->
  sound_store (h, s) ->
  (view_users h' (r_users s) = view_users h (r_users s) /\ sound user_cell user_value h' (r_users s)) /\
  (view_users h' (r_usersByEmail s) = view_users h (r_usersByEmail s) /\ sound user_cell user_value h' (r_usersByEmail s)) /\
  (view_tokens h' (r_refreshTokens s) = view_tokens h (r_refreshTokens s) /\ sound token_cell token_value h' (r_refreshTokens s)) /\
  same_flat h h' s /\ sound_flat h' s.
Proof.
  intros Hlv Hh [S1 S2 S3 S4 _ _ SF]. split; [|split; [|split]];
    [apply view_spared; [typeclasses eauto|done|intros l c o Hl Hc; apply Hh; [done|by destruct c]|done]..|].
  apply flat_spared; [done| |done]. intros l c Hl _ Hc1 Hc2. by apply Hh.
Qed.

Lemma store_own_token h s hash l o o' v' : sound_store (h, s) -> r_refreshTokens s !! hash = Some l ->
  h !! l = Some (CToken o) -> token_value (<[l := CToken o']> h) o' = Some v' ->
  sound_store (<[l := CToken o']> h, s) /\
  as_store (<[l := CToken o']> h, s) =
    set_refreshTokens (as_store (h, s)) (<[hash := v']> (refreshTokens (as_store (h, s)))).
Proof.
  intros Hst Hk Hl Hv'.
  assert (leaves h (<[l := CToken o']> h)) as Hlv
    by (apply leaves_insert; rewrite Hl; intros ? [= <-]; exact (fun H => H)).
  destruct (other_than_tokens h (<[l := CToken o']> h) s) as ([K1 T1] & [K2 T2] & [K3 T3] & (F1 & F2 & F3) & TF); [done| |done|].
  { intros l' c Hl' Hc. rewrite lookup_insert_ne; [done|]. intros <-. rewrite Hl in Hl'. by injection Hl' as <-. }
  destruct Hst as [S1 S2 S3 S4 S5 S6 SF]; cbn in S1, S2, S3, S4, S5, S6, SF.
  destruct (view_update token_cell token_value h (<[l := CToken o']> h) (r_refreshTokens s) hash l v') as [U T]; try done.
  { intros k' l' Hk' Hne. rewrite lookup_insert_ne; [done|]. intros <-. apply Hne. by eapply S5. }
  { unfold read. by rewrite lookup_insert_eq. }
  split; [by constructor|]. unfold as_store, set_refreshTokens. cbn [fst snd r_users r_usersByEmail r_refreshTokens r_pats r_passwordHashes r_oauthIdentities r_walletIdentities r_challenges
      set_r_users set_r_refreshTokens set_r_pats set_r_oauthIdentities set_r_walletIdentities set_r_challenges set_r_passwordHashes
      users usersByEmail refreshTokens pats passwordHashes oauthIdentities walletIdentities challenges].
  by rewrite U, K1, K2, K3, F1, F2, F3.
Qed.

Lemma store_own_pat h s hash l o o' v' : sound_store (h, s) -> r_pats s !! hash = Some l ->
  h !! l = Some (CPat o) -> pat_value (<[l := CPat o']> h) o' = Some v' ->
  sound_store (<[l := CPat o']> h, s) /\
  as_store (<[l := CPat o']> h, s) = set_pats (as_store (h, s)) (<[hash := v']> (pats (as_store (h, s)))).
Proof.
  intros Hst Hk Hl Hv'.
  assert (leaves h (<[l := CPat o']> h)) as Hlv
    by (apply leaves_insert; rewrite Hl; intros ? [= <-]; exact (fun H => H)).
  destruct (other_than_pats h (<[l := CPat o']> h) s) as ([K1 T1] & [K2 T2] & [K3 T3] & (F1 & F2 & F3) & TF); [done| |done|].
  { intros l' c Hl' Hc. rewrite lookup_insert_ne; [done|]. intros <-. rewrite Hl in Hl'. by injection Hl' as <-. }
  destruct Hst as [S1 S2 S3 S4 S5 S6 SF]; cbn in S1, S2, S3, S4, S5, S6, SF.
  destruct (view_update pat_cell pat_value h (<[l := CPat o']> h) (r_pats s) hash l v') as [U T]; try done.
  { intros k' l' Hk' Hne. rewrite lookup_insert_ne; [done|]. intros <-. apply Hne. by eapply S6. }
  { unfold read. by rewrite lookup_insert_eq. }
  split; [by constructor|]. unfold as_store, set_pats. cbn [fst snd r_users r_usersByEmail r_refreshTokens r_pats r_passwordHashes r_oauthIdentities r_walletIdentities r_challenges
      set_r_users set_r_refreshTokens set_r_pats set_r_oauthIdentities set_r_walletIdentities set_r_challenges set_r_passwordHashes
      users usersByEmail refreshTokens pats passwordHashes oauthIdentities walletIdentities challenges].
  by rewrite U, K1, K2, K3, F1, F2, F3.
Qed.

(** A new struct under a new key keeps the structs of a map apart. *)
Lemma separate_insert (m : gmap string loc) k l : separate m -> (forall k', m !! k' <> Some l) -> separate (<[k := l]> m).
Proof.
  intros Hm Hl k1 k2 l'. rewrite !lookup_insert_Some. intros [[<- <-]|[? H1]] [[<- H2]|[? H2]]; try done.
  - by apply Hl in H2.
  - subst l'. by apply Hl in H1.
  - by eapply Hm.
Qed.

Section exact.
Context (now : time) (seed : nat).
Abbreviation env := (mkCallenv now seed).

Lemma exact_GetByID id st r st' : sound_store st -> heap_GetByID id st = (r, st') ->
  sound_store st' /\ exists x, told (ret_err r) (p ← ret_ptr r; deref_user st'.1 p) = Some x /\
    mem_GetByID id (as_store st) = (x, as_store st').
Proof.
  intros Hst. unfold heap_GetByID, mem_GetByID. cbn [as_store users].
  pose proof (stored_view user_cell user_value st.1 _ id (so_users _ Hst)) as Hu. destruct (stored_user st _) as [o|].
  - destruct Hu as (l & c & v & _ & _ & _ & Hv & ->). intros Hr.
    destruct (return_user_exact o v st r st' Hv Hst Hr) as (Hst' & Ht & ->). split; [done|]. by exists (Ok v).
  - destruct Hu as [-> _]. intros [= <- <-]. split; [done|]. by eexists.
Qed.

Lemma exact_GetByEmail email st r st' : sound_store st -> heap_GetByEmail email st = (r, st') ->
  sound_store st' /\ exists x, told (ret_err r) (p ← ret_ptr r; deref_user st'.1 p) = Some x /\
    mem_GetByEmail email (as_store st) = (x, as_store st').
Proof.
  intros Hst. unfold heap_GetByEmail, mem_GetByEmail. cbn [as_store usersByEmail].
  pose proof (stored_view user_cell user_value st.1 _ email (so_usersByEmail _ Hst)) as Hu. destruct (stored_user st _) as [o|].
  - destruct Hu as (l & c & v & _ & _ & _ & Hv & ->). intros Hr.
    destruct (return_user_exact o v st r st' Hv Hst Hr) as (Hst' & Ht & ->). split; [done|]. by exists (Ok v).
  - destruct Hu as [-> _]. intros [= <- <-]. split; [done|]. by eexists.
Qed.

Lemma view_is_some `{Countable K} {O A} (struct : cell -> option O) (value : heap -> O -> option A) h (m : gmap K loc) k : sound struct value h m ->
  is_Some (view struct value h m !! k) <-> is_Some (m !! k).
Proof.
  intros Hs. unfold view. rewrite lookup_omap. destruct (m !! k) as [l|] eqn:E; cbn; [|done].
  split; [by eexists|]. intros _. by apply (Hs k l).
Qed.

Lemma exact_Create u o v st r st' : sound_store st -> ~ structs st.2 u -> st.1 !! u = Some (CUser o) ->
  user_value st.1 o = Some v -> heap_Create now u o st = (r, st') ->
  sound_store st' /\ exists x, told (ret_err r) (deref_user st'.1 u) = Some x /\
    mem_Create env v (as_store st) = (x, as_store st').
Proof.
  intros Hst Hu Hc Hv. unfold heap_Create, mem_Create. destruct st as [h s]. cbn [fst snd] in *.
  pose proof (user_value_fields h o v Hv) as (-> & -> & -> & -> & Hro).
  cbn [as_store users usersByEmail fst snd].
  rewrite (bool_decide_ext _ _ (view_is_some user_cell user_value h (r_users s) (uo_ID o) (so_users _ Hst))).
  case_bool_decide; [intros [= <- <-]; split; [done|]; by eexists|].
  rewrite (bool_decide_ext _ _ (view_is_some user_cell user_value h (r_usersByEmail s) (uo_Email o) (so_usersByEmail _ Hst))).
  destruct (bool_decide _ && _); [intros [= <- <-]; split; [done|]; by eexists|].
  set (o' := mkUserObj _ _ _ _ _). set (v' := mkUser _ _ _ _ _).
  destruct (store_caller_struct h s u _ (CUser o') Hu Hc (fun H => H) Hst) as (Hlv & Ha1 & Hst1).
  assert (user_value (<[u := CUser o']> h) o' = Some v') as Hv'.
  { unfold user_value. cbn. by rewrite (strings_at_leaves _ _ _ _ Hlv Hro). }
  destruct (copyUser o' _) as [l h'] eqn:Ec. intros [= <- <-].
  destruct (copyUser_spec o' _ v' l h' Hv' Ec) as (roles & _ & Hd & Hs & _).
  destruct (store_grows _ h' s Hs Hst1) as [Ha2 Hst2]. cbn [fst snd].
  destruct Hst2 as [S1 S2 S3 S4 S5 S6 SF]; cbn in S1, S2, S3, S4, S5, S6, SF.
  destruct (view_insert user_cell user_value h' (r_users s) (uo_ID o) l v' S1 Hd) as [I1 T1].
  destruct (view_insert user_cell user_value h' (r_usersByEmail s) (uo_Email o) l v' S2 Hd) as [I2 T2].
  rewrite <- Ha2 in Ha1. split; [constructor; cbn; try done; [by destruct (strEq _ _)|by destruct SF]|].
  exists (Ok v'). split.
  - cbn. unfold deref_user, read. rewrite (lookup_weaken _ h' u (CUser o') (lookup_insert_eq _ _ _) Hs). cbn.
    by rewrite (kind_leaves (Kind := user_kind) _ h' o' v' (leaves_subseteq _ _ Hs) Hv').
  - injection Ha1 as A1 A2 A3 A4 A5 A6 A7. unfold as_store. cbn [fst snd r_users r_usersByEmail r_refreshTokens r_pats r_passwordHashes r_oauthIdentities r_walletIdentities r_challenges
      set_r_users set_r_refreshTokens set_r_pats set_r_oauthIdentities set_r_walletIdentities set_r_challenges set_r_passwordHashes].
    change (user_ID v') with (uo_ID o). change (user_Email v') with (uo_Email o). rewrite I1.
    destruct (strEq (uo_Email o) ""); rewrite ?I2; cbn [refreshTokens pats passwordHashes oauthIdentities walletIdentities challenges];
      by rewrite A1, A2, A3, A4, A5, A6, A7.
Qed.

Lemma DeleteFunc_view `{Countable K} {O A} (struct : cell -> option O) (value : heap -> O -> option A) `{!Kind struct value}
    (owner : O -> string) (owner' : A -> string) h (m : gmap K loc) id :
  (forall o a, value h o = Some a -> owner' a = owner o) -> sound struct value h m ->
  let m' := filter (fun kl => (owner <$> stored struct h (Some kl.2)) <> Some id) m in
  view struct value h m' = DeleteFunc (fun a => strEq (owner' a) id) (view struct value h m) /\ sound struct value h m'.
Proof.
  intros How Hs m'. split.
  - apply map_eq. intros k. unfold m', view, DeleteFunc. rewrite lookup_omap, map_lookup_filter.
    apply option_eq. intros a. rewrite map_lookup_filter_Some, lookup_omap. cbn.
    destruct (m !! k) as [l|] eqn:E; cbn; [|naive_solver].
    destruct (Hs k l E) as [b Hr]. pose proof Hr as (c & o & Hc & Ho & Hv)%read_some. rewrite Hr.
    unfold stored. cbn. rewrite Hc. cbn. rewrite Ho. cbn. specialize (How o b Hv).
    case_guard as Hg; cbn; [rewrite Hr|]; (split; [intros Hx|intros Hx]).
    + simplify_eq. split; [done|]. apply strEq_false. congruence.
    + naive_solver.
    + done.
    + destruct Hx as [[= <-] Hf]. apply strEq_false in Hf. congruence.
  - intros k l [Hl _]%map_lookup_filter_Some. by eapply Hs.
Qed.

Lemma separate_filter (P : string * loc -> Prop) `{forall x, Decision (P x)} m : separate m -> separate (filter P m).
Proof. intros Hm k k' l [Hk _]%map_lookup_filter_Some [Hk' _]%map_lookup_filter_Some. by eapply Hm. Qed.

Lemma exact_Delete id st r st' : sound_store st -> heap_Delete id st = (r, st') ->
  sound_store st' /\ exists x, told (ret_err r) (Some tt) = Some x /\ mem_Delete id (as_store st) = (x, as_store st').
Proof.
  intros Hst. unfold heap_Delete, mem_Delete. cbn [as_store users].
  pose proof (stored_view user_cell user_value st.1 _ id (so_users _ Hst)) as Hu. destruct (stored_user st _) as [o|].
  2: { destruct Hu as [-> _]. intros [= <- <-]. split; [done|]. by eexists. }
  destruct Hu as (l & c & v & _ & _ & _ & Hv & ->). destruct st as [h s]. intros [= <- <-]. cbn [fst snd] in *.
  destruct Hst as [S1 S2 S3 S4 S5 S6 SF]; cbn in S1, S2, S3, S4, S5, S6, SF.
  apply user_value_fields in Hv as (_ & -> & _).
  destruct (view_delete user_cell user_value h _ id S1) as [D1 T1].
  destruct (view_delete user_cell user_value h _ (uo_Email o) S2) as [D2 T2].
  destruct (DeleteFunc_view token_cell token_value to_UserID rt_UserID h (r_refreshTokens s) id) as [D3 T3]; [|exact S3|].
  { intros o1 a Ha%token_value_fields. by destruct_and?. }
  destruct (DeleteFunc_view pat_cell pat_value po_UserID pat_UserID h (r_pats s) id) as [D4 T4]; [|exact S4|].
  { intros o1 a Ha%pat_value_fields. by destruct_and?. }
  destruct SF as [S7 S8 S9].
  destruct (DeleteFunc_view oauth_cell flat_value oi_UserID oi_UserID h (r_oauthIdentities s) id) as [D5 T5]; [|exact S7|].
  { by intros o1 a [= ->]. }
  destruct (DeleteFunc_view wallet_cell flat_value wi_UserID wi_UserID h (r_walletIdentities s) id) as [D6 T6]; [|exact S8|].
  { by intros o1 a [= ->]. }
  split; [constructor; cbn; try done; first [by apply separate_filter|by constructor]|].
  exists (Ok tt). split; [done|]. unfold as_store. cbn [fst snd r_users r_usersByEmail r_refreshTokens r_pats r_passwordHashes r_oauthIdentities r_walletIdentities r_challenges
      set_r_users set_r_refreshTokens set_r_pats set_r_oauthIdentities set_r_walletIdentities set_r_challenges set_r_passwordHashes users usersByEmail
    refreshTokens pats passwordHashes oauthIdentities walletIdentities challenges]. by rewrite D1, D2, <- D3, <- D4, <- D5, <- D6.
Qed.

Lemma requireUser_exact st id : sound_store st -> heap_requireUser st.2 id = requireUser (as_store st) id.
Proof.
  intros Hst. unfold heap_requireUser, requireUser. cbn [as_store users].
  destruct (view_lookup user_cell user_value st.1 _ id (so_users _ Hst)) as [Hv Hn].
  destruct (r_users st.2 !! id) as [l|] eqn:E; [|by rewrite Hv].
  destruct (view_users st.1 (r_users st.2) !! id) eqn:Ev; [done|]. by discriminate (proj1 Hn eq_refl).
Qed.

(** A pointer is nil exactly when there is no instant. *)
Lemma time_at_none h p t : time_at h p = Some t -> (p = None <-> t = None).
Proof. destruct p as [l|]; cbn; [|naive_solver]. destruct (h !! l) as [[]|]; naive_solver. Qed.

Lemma exact_SaveRefreshToken t o v st r st' : sound_store st -> ~ structs st.2 t -> st.1 !! t = Some (CToken o) ->
  token_value st.1 o = Some v -> heap_SaveRefreshToken now t o st = (r, st') ->
  sound_store st' /\ exists x, told (ret_err r) (deref_token st'.1 t) = Some x /\
    mem_SaveRefreshToken env v (as_store st) = (x, as_store st').
Proof.
  intros Hst Ht Hc Hv. destruct st as [h s]. cbn [fst snd] in *. unfold heap_SaveRefreshToken, mem_SaveRefreshToken. cbn [fst snd].
  set (o' := mkTokenObj _ _ _ _ _ _ _ _). set (v' := mkRefreshToken _ _ _ _ _ _ _ _).
  destruct (store_caller_struct h s t _ (CToken o') Ht Hc (fun H => H) Hst) as (Hlv & Ha1 & Hst1).
  set (h1 := <[t := CToken o']> h) in *.
  pose proof (token_value_fields h o v Hv) as (Hh & Hid & Hp & He & Hcr & Hr & Hro & Hen).
  assert (token_value h1 o' = Some v') as Hv'.
  { unfold token_value. cbn. rewrite (time_at_leaves _ _ _ _ Hlv Hro). cbn. rewrite (time_at_leaves _ _ _ _ Hlv Hen). cbn.
    unfold v'. by rewrite Hh, Hid, Hp, He, Hcr, Hr. }
  assert (deref_token h1 t = Some v') as Hd by (unfold deref_token, read, h1; rewrite lookup_insert_eq; exact Hv').
  rewrite <- Ha1. change (to_Parent o') with (to_Parent o). change (rt_Parent v') with (rt_Parent v). rewrite Hp.
  set (refuse := if strEq (to_Parent o) "" then _ else _). set (refuse' := if strEq (to_Parent o) "" then _ else _).
  assert (refuse' = refuse) as ->.
  { unfold refuse, refuse'. destruct (strEq _ ""); [done|]. cbn [as_store refreshTokens fst snd].
    pose proof (stored_view token_cell token_value h1 _ (to_Parent o) (so_tokens _ Hst1)) as Hs. cbn [snd] in Hs.
    destruct (stored _ _ _) as [root|]; [|by destruct Hs as [-> _]].
    destruct Hs as (l & c & w & _ & _ & _ & Hw & ->). apply token_value_fields in Hw as (_ & _ & _ & _ & _ & _ & _ & Hw).
    apply time_at_none in Hw. destruct (rt_EndedAt w), (to_EndedAt root); naive_solver. }
  destruct refuse as [e|]; [intros [= <- <-]; split; [done|]; by eexists|].
  change (rt_UserID v') with (rt_UserID v). rewrite Hid. change (to_UserID o') with (to_UserID o).
  pose proof (requireUser_exact (h1, s) (to_UserID o) Hst1) as Hreq. cbn [snd] in Hreq. rewrite <- Hreq.
  destruct (heap_requireUser s _) as [e|]; [intros [= <- <-]; split; [done|]; by eexists|].
  destruct (snapshot o' h1) as [l h'] eqn:Ec. intros [= <- <-]. apply alloc_spec in Ec as (Hnew & Hl & Hs & _ & Hlv').
  destruct (store_grows h1 h' s Hs Hst1) as [Ha2 [S1 S2 S3 S4 S5 S6 SF]]; cbn in S1, S2, S3, S4, S5, S6, SF.
  assert (deref_token h' l = Some v') as Hdl
    by (unfold deref_token, read; rewrite Hl; by apply (kind_leaves (Kind := token_kind) h1)).
  destruct (view_insert token_cell token_value h' _ (to_Hash o) l v' S3 Hdl) as [I1 T1].
  split.
  { constructor; cbn; try done; [|by destruct SF]. apply separate_insert; [done|]. intros k0 Hk0.
    destruct (structs_dom (h1, s) l Hst1) as (c & Hc' & _); [right; right; left; eauto|].
    apply Hnew, elem_of_dom. by eexists. }
  exists (Ok v'). split; [cbn|].
  - unfold deref_token, read. unfold h1 in Hs. rewrite (lookup_weaken _ h' t (CToken o') (lookup_insert_eq _ _ _) Hs).
    cbn. by rewrite (kind_leaves (Kind := token_kind) h1 h' o' v' Hlv' Hv').
  - injection Ha2 as A1 A2 A3 A4 A5 A6 A7. unfold as_store, set_refreshTokens. cbn [fst snd r_users r_usersByEmail r_refreshTokens r_pats r_passwordHashes r_oauthIdentities r_walletIdentities r_challenges
      set_r_users set_r_refreshTokens set_r_pats set_r_oauthIdentities set_r_walletIdentities set_r_challenges set_r_passwordHashes
      users usersByEmail refreshTokens pats passwordHashes oauthIdentities walletIdentities challenges].
    change (rt_Hash v') with (rt_Hash v). by rewrite I1, A1, A2, A3, A4, A5, A6, A7, Hh.
Qed.

Lemma exact_GetRefreshToken hash st r st' : sound_store st -> heap_GetRefreshToken hash st = (r, st') ->
  sound_store st' /\ exists x, told (ret_err r) (p ← ret_ptr r; deref_token st'.1 p) = Some x /\
    mem_GetRefreshToken hash (as_store st) = (x, as_store st').
Proof.
  intros Hst. unfold heap_GetRefreshToken, mem_GetRefreshToken. cbn [as_store refreshTokens].
  pose proof (stored_view token_cell token_value st.1 _ hash (so_tokens _ Hst)) as Hu. destruct (stored_token st _) as [o|].
  - destruct Hu as (l & c & v & _ & _ & _ & Hv & ->). intros Hr.
    destruct (return_token_exact o None v st r st' Hv Hst Hr) as (Hst' & He & Hd & ->). split; [done|]. exists (Ok v).
    by rewrite He, Hd.
  - destruct Hu as [-> _]. intros [= <- <-]. split; [done|]. by eexists.
Qed.

(** What a caller is told of a rotation: a token next to the error. *)
Definition told_rotation (e : option error) (t : option RefreshToken) : option rotation :=
  match e, t with
  | Some e, t => Some (RotateErr t e)
  | None, Some t => Some (Rotated t)
  | None, None => None
  end.

Lemma exact_RotateRefreshToken hash st r st' : sound_store st -> heap_RotateRefreshToken now hash st = (r, st') ->
  sound_store st' /\ exists x, told_rotation (ret_err r) (p ← ret_ptr r; deref_token st'.1 p) = Some x /\
    mem_RotateRefreshToken hash now (as_store st) = (x, as_store st').
Proof.
  intros Hst. unfold heap_RotateRefreshToken, mem_RotateRefreshToken. cbn [as_store refreshTokens].
  pose proof (stored_view token_cell token_value st.1 _ hash (so_tokens _ Hst)) as Hu.
  destruct (r_refreshTokens st.2 !! hash) as [l|] eqn:El.
  2: { cbn in Hu. destruct Hu as [-> _]. intros [= <- <-]. split; [done|]. by eexists. }
  destruct (stored token_cell st.1 (Some l)) as [o|]; [|by destruct Hu].
  destruct Hu as (l0 & c & v & [= <-] & Hc & Ho%token_cell_some & Hv & ->). subst c.
  pose proof (token_value_fields _ o v Hv) as (Hh & Hid & Hp & He & Hcr & Hr & Hro & Hen). rewrite Hr, He.
  destruct (to_Revoked o).
  { intros Hret. destruct (return_token_exact _ _ v st r st' Hv Hst Hret) as (Hst' & -> & -> & ->). split; [done|]. by eexists. }
  destruct (negb _).
  { intros Hret. destruct (return_token_exact _ _ v st r st' Hv Hst Hret) as (Hst' & -> & -> & ->). split; [done|]. by eexists. }
  destruct (alloc (CTime now) st.1) as [p h1] eqn:Ea. apply alloc_spec in Ea as (Hnew & Hp1 & Hs1 & _ & Hlv1).
  destruct st as [h s]. cbn [fst snd] in *. set (o' := mkTokenObj _ _ _ _ _ _ _ _). set (v' := mkRefreshToken _ _ _ _ _ _ _ _).
  destruct (store_grows h h1 s Hs1 Hst) as [Ha1 Hst1].
  assert (h1 !! l = Some (CToken o)) as Hl1 by (by eapply lookup_weaken).
  assert (l <> p) as Hlp by (intros ->; apply Hnew, elem_of_dom; by eexists).
  assert (leaves h1 (<[l := CToken o']> h1)) as Hlv2
    by (apply leaves_insert; rewrite Hl1; intros ? [= <-]; exact (fun H => H)).
  assert (token_value (<[l := CToken o']> h1) o' = Some v') as Hv'.
  { unfold token_value. cbn. rewrite lookup_insert_ne by done. rewrite Hp1. cbn.
    rewrite (time_at_leaves _ _ _ _ (leaves_trans _ _ _ Hlv1 Hlv2) Hen). cbn. unfold v'. by rewrite Hh, Hid, Hp, Hcr. }
  destruct (store_own_token h1 s hash l o o' v' Hst1 El Hl1 Hv') as [Hst2 Ha2].
  intros Hret. eapply (return_token_exact _ _ v') in Hret as (Hst' & -> & -> & ->); [|exact Hv'|exact Hst2].
  split; [done|]. exists (Rotated v'). split; [done|]. by rewrite Ha2, Ha1.
Qed.

(** The loop of [RevokeTokens] on the heap: each struct of the order is revoked. *)
Lemma revoke_all_lookup hash p order h x : NoDup order ->
  foldl (fun h l => alter (revoke_cell hash p) l h) h order !! x =
    if decide (x ∈ order) then revoke_cell hash p <$> (h : heap) !! x else (h : heap) !! x.
Proof.
  revert h. induction order as [|l order IH]; intros h Hnd; cbn [foldl].
  - by rewrite decide_False by (by apply not_elem_of_nil).
  - apply NoDup_cons in Hnd as [Hl Hnd]. rewrite IH by done. destruct (decide (x = l)) as [->|Hx].
    + rewrite decide_False, decide_True by (done || by left). by rewrite lookup_alter_eq.
    + rewrite lookup_alter_ne by done. destruct (decide (x ∈ order)) as [Hin|Hin].
      * by rewrite decide_True by (by right).
      * rewrite decide_False; [done|]. by intros [?|?]%elem_of_cons.
Qed.

(** The token a revocation leaves, and its struct. *)
Definition revoked_value (hash : string) (v : RefreshToken) : RefreshToken :=
  if strEq (rt_Hash v) hash || strEq (rt_Parent v) hash then
    mkRefreshToken (rt_Hash v) (rt_UserID v) (rt_Parent v) (rt_ExpiresAt v) (rt_CreatedAt v) true (rt_RotatedAt v)
      (match rt_EndedAt v with None => Some now | Some e => Some e end)
  else v.

Lemma revoke_deref h1 h2 hash p l v : leaves h1 h2 -> h1 !! p = Some (CTime now) -> deref_token h1 l = Some v ->
  h2 !! l = revoke_cell hash p <$> h1 !! l -> deref_token h2 l = Some (revoked_value hash v).
Proof.
  intros Hlv Hp (c & o & Hc & ->%token_cell_some & Hv)%read_some Hh2.
  pose proof (token_value_fields _ _ _ Hv) as (Hh & Hid & Hpa & He & Hcr & Hre & Hro & Hen).
  unfold revoked_value, deref_token, read. rewrite Hh, Hpa, Hh2, Hc. cbn.
  destruct (strEq (to_Hash o) hash || strEq (to_Parent o) hash); cbn; [|by eapply (kind_leaves (Kind := token_kind))].
  unfold token_value. cbn. rewrite (time_at_leaves _ _ _ _ Hlv Hro). cbn.
  pose proof (time_at_none _ _ _ Hen) as Hnone. destruct (to_EndedAt o) as [q|] eqn:Eq.
  - rewrite (time_at_leaves h1 h2 (Some q) _ Hlv Hen). cbn. destruct (rt_EndedAt v); [|by discriminate (proj2 Hnone eq_refl)].
    by rewrite Hid, He, Hcr.
  - rewrite (proj1 Hnone eq_refl). rewrite (time_at_leaves h1 h2 (Some p) (Some now) Hlv) by (cbn; by rewrite Hp). cbn.
    by rewrite Hid, He, Hcr.
Qed.

Lemma exact_RevokeTokens `{RangeOrder} hash st r st' : sound_store st -> heap_RevokeTokens now seed hash st = (r, st') ->
  sound_store st' /\ exists x, told (ret_err r) (Some tt) = Some x /\ mem_RevokeTokens env hash (as_store st) = (x, as_store st').
Proof.
  intros Hst. unfold heap_RevokeTokens, mem_RevokeTokens. destruct st as [h s]. cbn [fst snd].
  destruct (alloc (CTime now) h) as [p h1] eqn:Ea. apply alloc_spec in Ea as (_ & Hp & Hs1 & _ & Hlv1).
  destruct (store_grows h h1 s Hs1 Hst) as [Ha1 Hst1].
  set (order := range_order seed _). assert (NoDup order) as Hnd.
  { unfold order. rewrite range_order_perm. apply NoDup_fmap_2_strong; [|apply NoDup_map_to_list].
    intros [k l] [k' l'] Hk%elem_of_map_to_list Hk'%elem_of_map_to_list. cbn. intros ->.
    by rewrite (so_separate_tokens _ Hst _ _ _ Hk Hk'). }
  assert (forall l, l ∈ order <-> exists k, r_refreshTokens s !! k = Some l) as Hin.
  { intros l. unfold order. rewrite range_order_perm, list_elem_of_fmap. split.
    - intros ([k ?] & -> & Hk%elem_of_map_to_list). by exists k.
    - intros [k Hk]. exists (k, l). split; [done|]. by apply elem_of_map_to_list. }
  set (h2 := foldl _ h1 order). intros [= <- <-].
  assert (forall x, h2 !! x = if decide (x ∈ order) then revoke_cell hash p <$> h1 !! x else h1 !! x) as Hh2
    by (intros; by apply revoke_all_lookup).
  assert (forall l c, h1 !! l = Some c -> token_cell c = None -> h2 !! l = Some c) as Hspare.
  { intros l c Hl Hc. rewrite Hh2, Hl. case_decide; [|done]. by destruct c. }
  assert (leaves h1 h2) as Hlv by (intros l c Hl Hc; apply Hspare; [done|by destruct c]).
  destruct (other_than_tokens h1 h2 s Hlv Hspare Hst1) as ([K1 T1] & [K2 T2] & [K3 T3] & (F1 & F2 & F3) & TF).
  destruct Hst1 as [S1 S2 S3 S4 S5 S6 SF]; cbn in S1, S2, S3, S4, S5, S6, SF.
  assert (forall k l, r_refreshTokens s !! k = Some l -> exists v, deref_token h1 l = Some v /\
    deref_token h2 l = Some (revoked_value hash v)) as Hrev.
  { intros k l Hk. destruct (S3 k l Hk) as [v Hr]. exists v. split; [exact Hr|].
    eapply (revoke_deref h1 h2); [done..|]. rewrite Hh2, decide_True; [done|]. apply Hin. eauto. }
  split.
  { constructor; cbn; try done. intros k l Hk. destruct (Hrev k l Hk) as (v & _ & Hd). by eexists. }
  exists (Ok tt). split; [done|]. rewrite <- Ha1. unfold as_store, set_refreshTokens. cbn [fst snd r_users r_usersByEmail r_refreshTokens r_pats r_passwordHashes r_oauthIdentities r_walletIdentities r_challenges
      set_r_users set_r_refreshTokens set_r_pats set_r_oauthIdentities set_r_walletIdentities set_r_challenges set_r_passwordHashes
      users usersByEmail refreshTokens pats passwordHashes oauthIdentities walletIdentities challenges].
  rewrite K1, K2, K3, F1, F2, F3. do 2 f_equal. apply map_eq. intros k. unfold view. rewrite lookup_fmap, !lookup_omap.
  destruct (r_refreshTokens s !! k) as [l|] eqn:E; [|done]. destruct (Hrev k l E) as (v & Hd1 & Hd2).
  cbn. unfold deref_token in Hd1, Hd2. by rewrite Hd1, Hd2.
Qed.

Lemma exact_savePATLocked p o v st r st' : sound_store st -> ~ structs st.2 p -> st.1 !! p = Some (CPat o) ->
  pat_value st.1 o = Some v -> heap_savePATLocked now p o st = (r, st') ->
  sound_store st' /\ exists x, told (ret_err r) (deref_pat st'.1 p) = Some x /\
    savePATLocked env v (as_store st) = (x, as_store st').
Proof.
  intros Hst Ht Hc Hv. unfold heap_savePATLocked, savePATLocked.
  pose proof (pat_value_fields _ o v Hv) as (Hid & Hh & Hus & Hna & Hcr & Hsc & Hex & Hlu).
  destruct st as [h s]. cbn [fst snd] in *. rewrite Hus, Hh. cbn [as_store pats fst snd].
  rewrite (bool_decide_ext _ _ (view_is_some pat_cell pat_value h (r_pats s) (po_Hash o) (so_pats _ Hst))).
  case_bool_decide; [intros [= <- <-]; split; [done|]; by eexists|].
  set (o' := mkPatObj _ _ _ _ _ _ _ _). set (v' := mkPAT _ _ _ _ _ _ _ _).
  destruct (store_caller_struct h s p _ (CPat o') Ht Hc (fun H => H) Hst) as (Hlv & Ha1 & Hst1).
  set (h1 := <[p := CPat o']> h) in *.
  assert (pat_value h1 o' = Some v') as Hv'.
  { unfold pat_value. cbn. rewrite (strings_at_leaves _ _ _ _ Hlv Hsc). cbn. rewrite (time_at_leaves _ _ _ _ Hlv Hex). cbn.
    rewrite (time_at_leaves _ _ _ _ Hlv Hlu). cbn. unfold v'. by rewrite Hid, Hna, Hcr. }
  destruct (alloc (CPat o') h1) as [l h'] eqn:Ec. intros [= <- <-]. apply alloc_spec in Ec as (Hnew & Hl & Hs & _ & Hlv').
  destruct (store_grows h1 h' s Hs Hst1) as [Ha2 [S1 S2 S3 S4 S5 S6 SF]]; cbn in S1, S2, S3, S4, S5, S6, SF.
  assert (pat_value h' o' = Some v') as Hv'' by (by eapply (kind_leaves (Kind := pat_kind))).
  assert (deref_pat h' l = Some v') as Hdl by (unfold deref_pat, read; rewrite Hl; exact Hv'').
  destruct (view_insert pat_cell pat_value h' _ (po_Hash o) l v' S4 Hdl) as [I1 T1]. cbn [fst snd].
  split.
  { constructor; cbn; try done; [|by destruct SF]. apply separate_insert; [done|]. intros k0 Hk0.
    destruct (structs_dom (h1, s) l Hst1) as (c & Hc' & _); [right; right; right; left; eauto|].
    apply Hnew, elem_of_dom. by eexists. }
  exists (Ok v'). split; [cbn|].
  - unfold deref_pat, read. unfold h1 in Hs. rewrite (lookup_weaken _ h' p (CPat o') (lookup_insert_eq _ _ _) Hs).
    cbn. by rewrite Hv''.
  - rewrite <- Ha2 in Ha1. injection Ha1 as A1 A2 A3 A4 A5 A6 A7. unfold as_store, set_pats. cbn [fst snd r_users r_usersByEmail r_refreshTokens r_pats r_passwordHashes r_oauthIdentities r_walletIdentities r_challenges
      set_r_users set_r_refreshTokens set_r_pats set_r_oauthIdentities set_r_walletIdentities set_r_challenges set_r_passwordHashes
      users usersByEmail refreshTokens pats passwordHashes oauthIdentities walletIdentities challenges].
    change (pat_Hash v') with (po_Hash o). by rewrite I1, A1, A2, A3, A4, A5, A6, A7.
Qed.

Lemma exact_SavePAT p o v st r st' : sound_store st -> ~ structs st.2 p -> st.1 !! p = Some (CPat o) ->
  pat_value st.1 o = Some v -> heap_SavePAT now p o st = (r, st') ->
  sound_store st' /\ exists x, told (ret_err r) (deref_pat st'.1 p) = Some x /\
    mem_SavePAT env v (as_store st) = (x, as_store st').
Proof.
  intros Hst Ht Hc Hv. unfold heap_SavePAT, mem_SavePAT. pose proof (pat_value_fields _ o v Hv) as (_ & _ & -> & _).
  rewrite <- (requireUser_exact st (po_UserID o) Hst).
  destruct (heap_requireUser st.2 _) as [e|]; [intros [= <- <-]; split; [done|]; by eexists|]. by apply exact_savePATLocked.
Qed.

Lemma exact_GetPAT hash st r st' : sound_store st -> heap_GetPAT hash st = (r, st') ->
  sound_store st' /\ exists x, told (ret_err r) (p ← ret_ptr r; deref_pat st'.1 p) = Some x /\
    mem_GetPAT hash (as_store st) = (x, as_store st').
Proof.
  intros Hst. unfold heap_GetPAT, mem_GetPAT. cbn [as_store pats].
  pose proof (stored_view pat_cell pat_value st.1 _ hash (so_pats _ Hst)) as Hu. destruct (stored_pat st _) as [o|].
  2: { destruct Hu as [-> _]. intros [= <- <-]. split; [done|]. by eexists. }
  destruct Hu as (l & c & v & _ & _ & _ & Hv & ->). intros Hr.
  eapply (return_copy_exact pat_cell pat_value) in Hr as (Hst' & Ht & ->); [|done..]. split; [done|]. by exists (Ok v).
Qed.

Lemma exact_TouchPAT hash st r st' : sound_store st -> heap_TouchPAT now hash st = (r, st') ->
  sound_store st' /\ exists x, told (ret_err r) (Some tt) = Some x /\ mem_TouchPAT hash now (as_store st) = (x, as_store st').
Proof.
  intros Hst. unfold heap_TouchPAT, mem_TouchPAT. cbn [as_store pats].
  pose proof (stored_view pat_cell pat_value st.1 _ hash (so_pats _ Hst)) as Hu.
  destruct (r_pats st.2 !! hash) as [l|] eqn:El.
  2: { destruct Hu as [Hn _]. intros [= <- <-]. split; [done|]. exists (Ok tt). split; [done|].
       change (view_pats st.1 (r_pats st.2)) with (pats (as_store st)) in Hn |- *. by rewrite alter_id by (intros ? E; congruence). }
  destruct (stored pat_cell st.1 (Some l)) as [o|]; [|by destruct Hu].
  destruct Hu as (l0 & c & v & [= <-] & Hc & Ho%pat_cell_some & Hv & Hview). subst c.
  pose proof (pat_value_fields _ o v Hv) as (Hid & Hh & Hus & Hna & Hcr & Hsc & Hex & Hlu).
  destruct (alloc (CTime now) st.1) as [p h1] eqn:Ea. apply alloc_spec in Ea as (Hnew & Hp1 & Hs1 & _ & Hlv1).
  destruct st as [h s]. cbn [fst snd] in *. destruct (store_grows h h1 s Hs1 Hst) as [Ha1 Hst1].
  set (o' := mkPatObj _ _ _ _ _ _ _ _). intros [= <- <-].
  set (v' := mkPAT (pat_ID v) (pat_Hash v) (pat_UserID v) (pat_Name v) (pat_Scopes v) (pat_ExpiresAt v) (Some now) (pat_CreatedAt v)).
  assert (h1 !! l = Some (CPat o)) as Hl1 by (by eapply lookup_weaken).
  assert (l <> p) as Hlp by (intros ->; apply Hnew, elem_of_dom; by eexists).
  assert (leaves h1 (<[l := CPat o']> h1)) as Hlv2
    by (apply leaves_insert; rewrite Hl1; intros ? [= <-]; exact (fun H => H)).
  assert (pat_value (<[l := CPat o']> h1) o' = Some v') as Hv'.
  { unfold pat_value. cbn [o' po_Scopes po_ExpiresAt po_LastUsedAt].
    rewrite (strings_at_leaves _ _ _ _ (leaves_trans _ _ _ Hlv1 Hlv2) Hsc). cbn.
    rewrite (time_at_leaves _ _ _ _ (leaves_trans _ _ _ Hlv1 Hlv2) Hex). cbn.
    rewrite lookup_insert_ne by done. rewrite Hp1. cbn. unfold v'. by rewrite Hid, Hh, Hus, Hna, Hcr. }
  destruct (store_own_pat h1 s hash l o o' v' Hst1 El Hl1 Hv') as [Hst2 Ha2].
  split; [done|]. exists (Ok tt). split; [done|]. rewrite Ha2, Ha1. do 2 f_equal.
  change (view_pats h (r_pats s)) with (pats (as_store (h, s))) in Hview |- *.
  apply map_eq. intros k. destruct (decide (k = hash)) as [->|Hk].
  - by rewrite lookup_alter_eq, lookup_insert_eq, Hview.
  - by rewrite lookup_alter_ne, lookup_insert_ne.
Qed.
End exact.
