(* ===== verification/MemoryCopies.v ===== *)
(** * The methods that list, count and link, on the heap (store/memory/memory.go)

    The rest of the methods of MemoryHeap.v are those of Memory.v on the values:
    the loops over a map ([SavePATLimited], [GetRefreshFamily], [DeletePAT] and the
    [List*] methods), the identities, the challenges and the passwords. *)

From S2P Require Import Prelude GoTime Errors Entity Ports Contract ContractFacts Memory MemoryHeap.

Abbreviation loc := positive (only parsing).
Abbreviation heap := (gmap loc cell) (only parsing).
Abbreviation mem := (heap * refs)%type (only parsing).

(** ** Ranging over a map of pointers *)

(** The order of a range depends on where the entries of the map lie, not on what
    they hold: it is the same over the pointers and over what they lead to. *)
Class RangeUniform `{RangeOrder} : Prop :=
  range_order_fmap : forall {A B} (f : A -> B) n l, range_order n (f <$> l) = f <$> range_order n l.

#[export] Instance user_inhabited : Inhabited User := populate (mkUser "" "" [] 0 0).
#[export] Instance token_inhabited : Inhabited RefreshToken := populate (mkRefreshToken "" "" "" 0 0 false None None).
#[export] Instance pat_inhabited : Inhabited PersonalAccessToken := populate (mkPAT "" "" "" "" [] None None 0).
#[export] Instance oauth_inhabited : Inhabited OAuthIdentity := populate (mkOAuthIdentity "" "" "" "" "" 0).
#[export] Instance wallet_inhabited : Inhabited WalletIdentity := populate (mkWalletIdentity "" "" "" "" 0).

Section ranges.
Context `{RangeUniform} {O A} (struct : cell -> option O) (value : heap -> O -> option A) `{!Kind struct value, !Inhabited A}.
Context `{Countable K}.
Implicit Types (h : heap) (m : gmap K loc).

(** What a pointer of the map leads to. *)
Definition pointee h (l : loc) : A := default inhabitant (read struct value h l).

Lemma view_pointee h m : sound struct value h m -> view struct value h m = pointee h <$> m.
Proof.
  intros Hs. apply map_eq. intros k. unfold view, pointee. rewrite lookup_omap, lookup_fmap.
  destruct (m !! k) as [l|] eqn:E; [|done]. cbn. by destruct (Hs k l E) as [a ->].
Qed.

Lemma range_view n h m : sound struct value h m ->
  range_order n (map_to_list (view struct value h m)) = prod_map id (pointee h) <$> range_order n (map_to_list m).
Proof. intros Hs. by rewrite view_pointee, map_to_list_fmap, range_order_fmap. Qed.

Lemma range_values n h m : sound struct value h m ->
  range_order n (map_to_list (view struct value h m)).*2 = pointee h <$> range_order n (map_to_list m).*2.
Proof.
  intros Hs. rewrite view_pointee, map_to_list_fmap by done. rewrite <- range_order_fmap, <- !list_fmap_compose. done.
Qed.

Lemma range_entry n h m k l : sound struct value h m -> (k, l) ∈ range_order n (map_to_list m) ->
  m !! k = Some l /\ read struct value h l = Some (pointee h l).
Proof.
  intros Hs. rewrite range_order_perm, elem_of_map_to_list. intros Hk. split; [done|]. unfold pointee.
  by destruct (Hs k l Hk) as [a ->].
Qed.
Lemma range_pointer n h m l : sound struct value h m -> l ∈ range_order n (map_to_list m).*2 ->
  read struct value h l = Some (pointee h l).
Proof.
  intros Hs. rewrite range_order_perm, list_elem_of_fmap. intros ([k ?] & -> & Hk%elem_of_map_to_list). unfold pointee.
  destruct (Hs k _ Hk) as [a Ha]. cbn. by rewrite Ha.
Qed.

(** *** The listing loop *)

Context (owner : O -> string) (created : O -> time) (owner' : A -> string) (created' : A -> time).
Context (Hfields : forall h o a, value h o = Some a -> owner o = owner' a /\ created o = created' a).

(** A copy the caller reads as the value. *)
Definition copied h (l : loc) (a : A) : Prop := read struct value h l = Some a /\ field struct created h l = created' a.

Lemma copied_grows h h' l a : h ⊆ h' -> copied h l a -> copied h' l a.
Proof.
  intros Hs [(c & o & Hc & Ho & Hv)%read_some Hf]. assert (h' !! l = Some c) as Hc' by (by eapply lookup_weaken). split.
  - apply read_some. exists c, o. split_and!; [done..|].
    by apply (kind_leaves (struct := struct) (value := value) h); [apply leaves_subseteq|].
  - unfold field in *. by rewrite Hc' , <- Hc.
Qed.

Lemma copies_exact userID order h out h' :
  (forall l, l ∈ order -> read struct value h l = Some (pointee h l)) ->
  copies struct owner userID order h = (out, h') ->
  h ⊆ h' /\ Forall2 (copied h') out (filter (fun a => strEq (owner' a) userID = true) (pointee h <$> order)).
Proof.
  assert (forall f, (forall l, l ∈ order -> read struct value h l = Some (f l)) ->
    copies struct owner userID order h = (out, h') ->
    h ⊆ h' /\ Forall2 (copied h') out (filter (fun a => strEq (owner' a) userID = true) (f <$> order))) as Hgen; [|apply Hgen].
  intros f. revert h out h'. induction order as [|l order IH]; intros h out h' Hr; cbn [copies].
  { intros [= <- <-]. split; [done|constructor]. }
  pose proof (Hr l ltac:(left)) as (c & o & Hc & Ho & Hv)%read_some. rewrite Hc, Ho. cbn [fmap option_fmap option_map].
  destruct (Hfields h o _ Hv) as [How Hcr].
  rewrite fmap_cons, filter_cons. destruct (decide (strEq (owner' (f l)) userID = true)) as [Hown|Hown].
  - apply strEq_true in Hown. rewrite bool_decide_true by congruence.
    destruct (alloc c h) as [l' h1] eqn:Ea. destruct (copies _ _ _ order h1) as [out1 h2] eqn:Ec. intros [= <- <-].
    apply alloc_spec in Ea as (_ & Hl' & Hs1 & _ & Hlv).
    apply IH in Ec as [Hs2 HF].
    2: { intros x Hx. pose proof (Hr x ltac:(by right)) as Hx'. pose proof Hx' as (cx & ox & Hcx & _)%read_some.
         apply (read_keep struct value h h1); [done| |done]. rewrite Hcx. by eapply lookup_weaken. }
    split; [by etransitivity|]. constructor; [|exact HF].
    apply (copied_grows h1); [done|]. split.
    + apply read_some. exists c, o. split_and!; [done..|]. by apply (kind_leaves (struct := struct) (value := value) h).
    + unfold field. rewrite Hl'. cbn. rewrite Ho. exact Hcr.
  - rewrite bool_decide_false by (intros [= E]; apply Hown, strEq_true; congruence). intros Hc'. apply IH in Hc'; [done|].
    intros x Hx. apply Hr. by right.
Qed.

(** Sorting the pointers by what they lead to sorts the values. *)
Lemma sort_insert_copied h l a out vs : copied h l a -> Forall2 (copied h) out vs ->
  Forall2 (copied h) (sort_insert (field struct created h) l out) (sort_insert created' a vs).
Proof.
  intros Hl HF. pose proof Hl as [_ Hf]. induction HF as [|l1 a1 out vs Hl1 HF IH]; cbn [sort_insert]; [by constructor; [|constructor]|].
  pose proof Hl1 as [_ Hf1]. rewrite Hf, Hf1. destruct (_ <=? _); [by constructor; [|constructor]|by constructor].
Qed.

Lemma sort_newest_copied h out vs : Forall2 (copied h) out vs ->
  Forall2 (copied h) (sort_newest (field struct created h) out) (sort_newest created' vs).
Proof. unfold sort_newest. induction 1; cbn; [constructor|by apply sort_insert_copied]. Qed.

Lemma heap_list_exact now seed userID m st r st' : sound_store st -> sound struct value st.1 m ->
  heap_list struct owner created seed userID m st = (r, st') ->
  sound_store st' /\ as_store st' = as_store st /\ ret_err r = None /\
  mapM (read struct value st'.1) (ret_ptrs r) =
    Some (list_owned (mkCallenv now seed) owner' created' userID (view struct value st.1 m)).
Proof.
  intros Hst Hs. unfold heap_list. destruct (copies _ _ _ _ st.1) as [out h'] eqn:Ec. intros [= <- <-].
  apply copies_exact in Ec as [Hsub HF]; [|intros l Hl; by eapply range_pointer]. destruct st as [h s].
  destruct (store_grows h h' s Hsub Hst) as [Ha Hst']. split_and!; [done..|]. cbn [ret_ptrs fst snd ce_seed] in *.
  unfold list_owned. cbn [ce_seed]. rewrite (range_values seed h m Hs).
  apply mapM_Some_2. eapply Forall2_impl; [by apply sort_newest_copied|]. by intros l a [? _].
Qed.
End ranges.

Section exact.
Context `{RangeUniform} (now : time) (seed : nat).
Abbreviation env := (mkCallenv now seed).

(** ** Access tokens *)

Lemma exact_ListPATs userID st r st' : sound_store st -> heap_ListPATs seed userID st = (r, st') ->
  sound_store st' /\ ret_err r = None /\ exists vs, mapM (deref_pat st'.1) (ret_ptrs r) = Some vs /\
    mem_ListPATs env userID (as_store st) = (Ok vs, as_store st').
Proof.
  intros Hst Hr. eapply (heap_list_exact pat_cell pat_value po_UserID po_CreatedAt pat_UserID pat_CreatedAt _ now) in Hr
    as (Hst' & Ha & He & Hm); [|done|apply Hst].
  split; [done|]. split; [done|]. eexists. split; [exact Hm|]. by rewrite Ha.
  Unshelve. intros h o a Ha%pat_value_fields. by destruct_and!.
Qed.

Lemma find_fmap {A B} (f : A -> B) (P : B -> bool) l : find P (f <$> l) = f <$> find (fun x => P (f x)) l.
Proof. induction l as [|x l IH]; [done|]. cbn. by destruct (P (f x)). Qed.
Lemma find_ext {A} (P P' : A -> bool) l : (forall x, x ∈ l -> P x = P' x) -> find P l = find P' l.
Proof.
  induction l as [|x l IH]; [done|]. intros Hl. cbn. rewrite (Hl x) by (by left). case_match; [done|].
  apply IH. intros y Hy. apply Hl. by right.
Qed.

(** The store without an access token. *)
Lemma store_fewer_pats h s m : m ⊆ r_pats s -> sound_store (h, s) ->
  sound_store (h, set_r_pats m s) /\ as_store (h, set_r_pats m s) = set_pats (as_store (h, s)) (view_pats h m).
Proof.
  intros Hm [S1 S2 S3 S4 S5 S6 SF]. cbn in *. split; [|done].
  constructor; cbn; try done; [| |by destruct SF].
  - intros k l Hk. eapply S4, lookup_weaken; done.
  - intros k k' l Hk Hk'. eapply S6; eapply lookup_weaken; done.
Qed.

Lemma exact_DeletePAT userID id st r st' : sound_store st -> heap_DeletePAT seed userID id st = (r, st') ->
  sound_store st' /\ exists x, told (ret_err r) (Some tt) = Some x /\
    mem_DeletePAT env userID id (as_store st) = (x, as_store st').
Proof.
  intros Hst. unfold heap_DeletePAT, mem_DeletePAT. destruct st as [h s]. cbn [fst snd as_store pats ce_seed].
  pose proof (so_pats _ Hst) as Hs. cbn [fst snd] in Hs. rewrite (range_view pat_cell pat_value seed h _ Hs), find_fmap.
  set (P := fun kl : string * loc => _). set (P' := fun kl : string * loc => _).
  rewrite (find_ext P P').
  2: { intros [k l] [_ Hr]%(range_entry pat_cell pat_value seed h); [|done]. unfold P, P'. cbn.
       pose proof Hr as (c & o & Hc & Ho & Hv)%read_some. rewrite Hc. cbn. rewrite Ho.
       apply pat_value_fields in Hv as (-> & _ & -> & _). done. }
  destruct (find P' _) as [[k l]|]; cbn.
  - intros [= <- <-]. destruct (store_fewer_pats h s (delete k (r_pats s))) as [Hst' Ha]; [apply delete_subseteq|done|].
    split; [done|]. exists (Ok tt). split; [done|]. rewrite Ha. do 2 f_equal.
    symmetry. by apply (view_delete pat_cell pat_value).
  - intros [= <- <-]. split; [done|]. by eexists.
Qed.

(** The loop of [SavePATLimited] drops from both what it drops. *)
Lemma limit_loop h m userID at_ order live m1 : sound pat_cell pat_value h m -> m1 ⊆ m ->
  (forall kl, kl ∈ order -> read pat_cell pat_value h kl.2 = Some (pointee pat_cell pat_value h kl.2)) ->
  let acc := foldl (heap_limit_step h userID at_) (live, m1) order in
  let acc' := foldl (limit_step userID at_) (live, view_pats h m1) (prod_map id (pointee pat_cell pat_value h) <$> order) in
  acc.1 = acc'.1 /\ acc.2 ⊆ m /\ view_pats h acc.2 = acc'.2.
Proof.
  intros Hs. revert live m1. induction order as [|[k l] order IH]; intros live m1 Hm Hr; [done|]. cbn [foldl fmap list_fmap].
  pose proof (Hr _ ltac:(left)) as (c & o & Hc & ->%pat_cell_some & Hv)%read_some. cbn [snd] in Hc, Hv.
  pose proof (pat_value_fields _ _ _ Hv) as (_ & _ & Hu & _ & _ & _ & Hex & _).
  assert (forall kl, kl ∈ order -> read pat_cell pat_value h kl.2 = Some (pointee pat_cell pat_value h kl.2)) as Hr'
    by (intros kl Hkl; apply Hr; by right).
  set (v := pointee pat_cell pat_value h l) in *.
  set (expired := match pat_ExpiresAt v with Some e => After at_ e | None => false end).
  assert (heap_limit_step h userID at_ (live, m1) (k, l) =
    if negb (strEq (po_UserID o) userID) then (live, m1) else if expired then (live, delete k m1) else (live + 1, m1)) as ->.
  { unfold heap_limit_step. cbn. rewrite Hc. cbn. by rewrite Hex. }
  assert (limit_step userID at_ (live, view_pats h m1) (prod_map id (pointee pat_cell pat_value h) (k, l)) =
    if negb (strEq (po_UserID o) userID) then (live, view_pats h m1)
    else if expired then (live, delete k (view_pats h m1)) else (live + 1, view_pats h m1)) as ->.
  { unfold limit_step. cbn. fold v. by rewrite Hu. }
  destruct (strEq (po_UserID o) userID); cbn [negb]; [|by apply IH]. destruct expired; [|by apply IH].
  assert (sound pat_cell pat_value h m1) as Hs1 by (intros k1 l1 Hk1; eapply Hs, lookup_weaken; done).
  rewrite <- (proj1 (view_delete pat_cell pat_value h m1 k Hs1)). apply IH; [|done].
  etransitivity; [apply delete_subseteq|done].
Qed.

Lemma exact_SavePATLimited p o v limit at_ st r st' : sound_store st -> ~ structs st.2 p -> st.1 !! p = Some (CPat o) ->
  pat_value st.1 o = Some v -> heap_SavePATLimited now seed p o limit at_ st = (r, st') ->
  sound_store st' /\ exists x, told (ret_err r) (deref_pat st'.1 p) = Some x /\
    mem_SavePATLimited env v limit at_ (as_store st) = (x, as_store st').
Proof.
  intros Hst Ht Hc Hv. unfold heap_SavePATLimited, mem_SavePATLimited.
  pose proof (pat_value_fields _ o v Hv) as (_ & _ & -> & _).
  rewrite <- (requireUser_exact st (po_UserID o) Hst).
  destruct (heap_requireUser st.2 _) as [e|]; [intros [= <- <-]; split; [done|]; by eexists|].
  destruct st as [h s]. cbn [fst snd ce_seed] in *.
  change (pats (as_store (h, s))) with (view_pats h (r_pats s)). pose proof (so_pats _ Hst) as Hs. cbn [fst snd] in Hs.
  rewrite (range_view pat_cell pat_value seed h _ Hs).
  pose proof (limit_loop h (r_pats s) (po_UserID o) at_ (range_order seed (map_to_list (r_pats s))) 0 (r_pats s) Hs) as Hloop.
  destruct (foldl (heap_limit_step _ _ _) _ _) as [live m]. destruct (foldl (limit_step _ _) _ _) as [live' m'].
  cbn [fst snd] in Hloop. destruct Hloop as (-> & Hm & <-); [done|by intros [k l] [_ ?]%(range_entry pat_cell pat_value seed h)|].
  destruct (store_fewer_pats h s m Hm Hst) as [Hst1 Ha1]. rewrite <- Ha1.
  destruct (limit <=? live'); [intros [= <- <-]; split; [done|]; by eexists|].
  apply exact_savePATLocked; [done| |done|done]. cbn. intros Hp. apply Ht. unfold structs in *. cbn in Hp.
  destruct_or! Hp; auto 8. destruct Hp as [k Hk]. right; right; right; left. exists k. by eapply lookup_weaken.
Qed.

(** ** The summary of a session *)

Lemma family_value_leaves h h' o a : leaves h h' -> family_value h o = Some a -> family_value h' o = Some a.
Proof. apply (kind_leaves (Kind := family_kind)). Qed.

Lemma family_step_exact root h family v l t family' h' : read token_cell token_value h l = Some t ->
  family_value h family = Some v -> heap_family_step root (family, h) l = (family', h') ->
  h ⊆ h' /\ family_value h' family' = Some (family_step root v t).
Proof.
  intros (c & o & Hc & ->%token_cell_some & Ht)%read_some Hv. unfold heap_family_step, family_step. rewrite Hc. cbn -[alloc].
  pose proof (token_value_fields _ _ _ Ht) as (-> & _ & -> & _ & _ & _ & Hro & Hen).
  destruct (negb _ && negb _); [by intros [= <- <-]|]. rewrite Hro. cbn -[alloc].
  apply time_at_none in Hen. set (ended := match to_EndedAt o with Some _ => true | None => _ end).
  unfold family_value in Hv. destruct (time_at h (fo_LastRotatedAt family)) as [last|] eqn:El; [|done]. cbn in Hv.
  injection Hv as <-. cbn [rf_SessionEnded rf_LastRotatedAt default from_option id].
  assert ((match rt_EndedAt t with Some _ => true | None => fo_SessionEnded family end) = ended) as ->
    by (unfold ended; destruct (rt_EndedAt t), (to_EndedAt o); naive_solver).
  assert (forall x, family_value h (mkFamilyObj x (fo_LastRotatedAt family)) = Some (mkRefreshFamily x last)) as Hkeep
    by (intros x; unfold family_value; cbn; by rewrite El).
  destruct (rt_RotatedAt t) as [at_|]; [|intros [= <- <-]; split; [done|apply Hkeep]].
  destruct (match last with Some l => _ | None => true end) eqn:Elast.
  - destruct (alloc (CTime at_) h) as [p h1] eqn:Ea. intros [= <- <-]. apply alloc_spec in Ea as (_ & Hp & Hs & _ & _).
    split; [done|]. unfold family_value. cbn. rewrite Hp. cbn. destruct last; [|done]. by rewrite Elast.
  - intros [= <- <-]. split; [done|]. rewrite Hkeep. destruct last; [|done]. by rewrite Elast.
Qed.

Lemma family_loop root order f h family v family' h' : (forall l, l ∈ order -> read token_cell token_value h l = Some (f l)) ->
  family_value h family = Some v -> foldl (heap_family_step root) (family, h) order = (family', h') ->
  h ⊆ h' /\ family_value h' family' = Some (foldl (family_step root) v (f <$> order)).
Proof.
  revert h family v. induction order as [|l order IH]; intros h family v Hr Hv; cbn [foldl fmap list_fmap].
  { by intros [= <- <-]. }
  destruct (heap_family_step root (family, h) l) as [family1 h1] eqn:E.
  destruct (family_step_exact root h family v l (f l) family1 h1 (Hr l ltac:(left)) Hv E) as [Hs Hv1].
  intros Hf. apply (IH h1 family1 (family_step root v (f l))) in Hf as [Hs' Hv']; [split; [by etransitivity|done]| |done].
  intros x Hx. pose proof (Hr x ltac:(by right)) as Hx'. pose proof Hx' as (c & o & Hc & _)%read_some.
  apply (read_keep token_cell token_value h); [by apply leaves_subseteq| |done]. rewrite Hc. by eapply lookup_weaken.
Qed.

Lemma exact_GetRefreshFamily root st r st' : sound_store st -> heap_GetRefreshFamily seed root st = (r, st') ->
  sound_store st' /\ exists x, told (ret_err r) (p ← ret_ptr r; deref_family st'.1 p) = Some x /\
    mem_GetRefreshFamily env root (as_store st) = (x, as_store st').
Proof.
  intros Hst. unfold heap_GetRefreshFamily, mem_GetRefreshFamily. destruct st as [h s]. cbn [fst snd as_store refreshTokens ce_seed].
  pose proof (so_tokens _ Hst) as Hs. cbn [fst snd] in Hs. rewrite (range_values token_cell token_value seed h _ Hs).
  destruct (foldl (heap_family_step root) _ _) as [family h1] eqn:Ef.
  eapply (family_loop root _ (pointee token_cell token_value h)) in Ef as [Hsub Hv];
    [|intros l Hl; by eapply (range_pointer token_cell token_value)|done].
  destruct (store_grows h h1 s Hsub Hst) as [Ha1 Hst1]. intros Hr.
  eapply (return_copy_exact family_cell family_value (CFamily family)) in Hr as (Hst' & Ht & Ha); [|done|exact Hv|done].
  split; [done|]. eexists. split; [exact Ht|]. by rewrite Ha, Ha1.
Qed.
End exact.

(** ** Identities, challenges, passwords *)

(** Storing a struct without pointers: the caller's is stamped, the store's is a
    copy of it. *)
Lemma stored_copy {A} (struct : cell -> option A) `{!Kind struct flat_value} h s p c0 c a l h' :
  sound_store (h, s) -> ~ structs s p -> h !! p = Some c0 -> ~ is_leaf c0 -> struct c = Some a ->
  alloc c (<[p := c]> h) = (l, h') ->
  sound_store (h', s) /\ as_store (h', s) = as_store (h, s) /\
  read struct flat_value h' p = Some a /\ read struct flat_value h' l = Some a.
Proof.
  intros Hst Hp Hc0 Hleaf Ha Hal. destruct (store_caller_struct h s p c0 c Hp Hc0 Hleaf Hst) as (_ & Ha1 & Hst1).
  apply alloc_spec in Hal as (_ & Hl & Hs & _ & _). destruct (store_grows _ h' s Hs Hst1) as [Ha2 Hst2].
  split_and!; [done|congruence| |].
  - unfold read. rewrite (lookup_weaken _ h' p c (lookup_insert_eq _ _ _) Hs). cbn. by rewrite Ha.
  - unfold read. rewrite Hl. cbn. by rewrite Ha.
Qed.

(** A map of the store is replaced by another sound one. *)
Lemma store_oauth h s m : sound_store (h, s) -> sound oauth_cell flat_value h m ->
  sound_store (h, set_r_oauthIdentities m s) /\
  as_store (h, set_r_oauthIdentities m s) = set_oauthIdentities (as_store (h, s)) (view_oauth h m).
Proof. intros [S1 S2 S3 S4 S5 S6 [S7 S8 S9]] Hm. split; [|done]. constructor; first [done|by constructor]. Qed.
Lemma store_wallets h s m : sound_store (h, s) -> sound wallet_cell flat_value h m ->
  sound_store (h, set_r_walletIdentities m s) /\
  as_store (h, set_r_walletIdentities m s) = set_walletIdentities (as_store (h, s)) (view_wallets h m).
Proof. intros [S1 S2 S3 S4 S5 S6 [S7 S8 S9]] Hm. split; [|done]. constructor; first [done|by constructor]. Qed.
Lemma store_challenges h s m : sound_store (h, s) -> sound challenge_cell flat_value h m ->
  sound_store (h, set_r_challenges m s) /\
  as_store (h, set_r_challenges m s) = set_challenges (as_store (h, s)) (view_challenges h m).
Proof. intros [S1 S2 S3 S4 S5 S6 [S7 S8 S9]] Hm. split; [|done]. constructor; first [done|by constructor]. Qed.

Section flat.
Context (now : time) (seed : nat).
Abbreviation env := (mkCallenv now seed).

Lemma exact_SaveOAuthIdentity p i st r st' : sound_store st -> ~ structs st.2 p -> st.1 !! p = Some (COAuth i) ->
  heap_SaveOAuthIdentity now p i st = (r, st') ->
  sound_store st' /\ exists x, told (ret_err r) (deref_oauth st'.1 p) = Some x /\
    mem_SaveOAuthIdentity env i (as_store st) = (x, as_store st').
Proof.
  intros Hst Hp Hc. unfold heap_SaveOAuthIdentity, mem_SaveOAuthIdentity. cbv zeta.
  rewrite <- (requireUser_exact st (oi_UserID i) Hst).
  destruct (heap_requireUser st.2 _); [intros [= <- <-]; split; [done|]; by eexists|]. destruct st as [h s]. cbn [fst snd] in *.
  change (oauthIdentities (as_store (h, s))) with (view_oauth h (r_oauthIdentities s)).
  rewrite (bool_decide_ext _ _ (view_is_some oauth_cell flat_value h _ _ (sf_oauth _ _ (so_flat _ Hst)))). cbn [fst snd].
  case_bool_decide; [intros [= <- <-]; split; [done|]; by eexists|].
  destruct (alloc _ _) as [l h'] eqn:Ea. intros [= <- <-].
  destruct (stored_copy oauth_cell h s p _ (COAuth (stamp_oauth now i)) (stamp_oauth now i) l h' Hst Hp Hc (fun H => H) eq_refl Ea) as (Hst1 & Ha & Hrp & Hrl).
  destruct (view_insert oauth_cell flat_value h' _ (oi_Provider i, oi_ExternalID i) l _ (sf_oauth _ _ (so_flat _ Hst1)) Hrl)
    as [Hv Hs]. cbn [fst snd] in Hv, Hs.
  destruct (store_oauth h' s _ Hst1 Hs) as [Hst2 Ha2]. split; [done|]. exists (Ok (stamp_oauth now i)).
  split; [unfold deref_oauth, deref_wallet, deref_challenge; cbn [fst]; by rewrite Hrp|]. rewrite Ha2, Hv, Ha.
  assert (view_oauth h' (r_oauthIdentities s) = view_oauth h (r_oauthIdentities s)) as -> by (by apply (f_equal oauthIdentities) in Ha). done.
Qed.

Lemma exact_SaveWalletIdentity p i st r st' : sound_store st -> ~ structs st.2 p -> st.1 !! p = Some (CWallet i) ->
  heap_SaveWalletIdentity now p i st = (r, st') ->
  sound_store st' /\ exists x, told (ret_err r) (deref_wallet st'.1 p) = Some x /\
    mem_SaveWalletIdentity env i (as_store st) = (x, as_store st').
Proof.
  intros Hst Hp Hc. unfold heap_SaveWalletIdentity, mem_SaveWalletIdentity. cbv zeta.
  rewrite <- (requireUser_exact st (wi_UserID i) Hst).
  destruct (heap_requireUser st.2 _); [intros [= <- <-]; split; [done|]; by eexists|]. destruct st as [h s]. cbn [fst snd] in *.
  change (walletIdentities (as_store (h, s))) with (view_wallets h (r_walletIdentities s)).
  rewrite (bool_decide_ext _ _ (view_is_some wallet_cell flat_value h _ _ (sf_wallets _ _ (so_flat _ Hst)))). cbn [fst snd].
  case_bool_decide; [intros [= <- <-]; split; [done|]; by eexists|].
  destruct (alloc _ _) as [l h'] eqn:Ea. intros [= <- <-].
  destruct (stored_copy wallet_cell h s p _ (CWallet (stamp_wallet now i)) (stamp_wallet now i) l h' Hst Hp Hc (fun H => H) eq_refl Ea) as (Hst1 & Ha & Hrp & Hrl).
  destruct (view_insert wallet_cell flat_value h' _ (wi_Chain i, wi_Address i) l _ (sf_wallets _ _ (so_flat _ Hst1)) Hrl)
    as [Hv Hs]. cbn [fst snd] in Hv, Hs.
  destruct (store_wallets h' s _ Hst1 Hs) as [Hst2 Ha2]. split; [done|]. exists (Ok (stamp_wallet now i)).
  split; [unfold deref_oauth, deref_wallet, deref_challenge; cbn [fst]; by rewrite Hrp|]. rewrite Ha2, Hv, Ha.
  assert (view_wallets h' (r_walletIdentities s) = view_wallets h (r_walletIdentities s)) as -> by (by apply (f_equal walletIdentities) in Ha). done.
Qed.

Lemma exact_GetOAuthIdentity provider externalID st r st' : sound_store st ->
  heap_GetOAuthIdentity provider externalID st = (r, st') ->
  sound_store st' /\ exists x, told (ret_err r) (p ← ret_ptr r; deref_oauth st'.1 p) = Some x /\
    mem_GetOAuthIdentity provider externalID (as_store st) = (x, as_store st').
Proof.
  intros Hst. unfold heap_GetOAuthIdentity, mem_GetOAuthIdentity. cbn [as_store oauthIdentities].
  pose proof (stored_view oauth_cell flat_value st.1 _ (provider, externalID) (sf_oauth _ _ (so_flat _ Hst))) as Hu.
  destruct (stored_oauth st _) as [i|].
  2: { destruct Hu as [-> _]. intros [= <- <-]. split; [done|]. by eexists. }
  destruct Hu as (l & c & v & _ & _ & _ & Hv & ->). intros Hr.
  eapply (return_copy_exact oauth_cell flat_value (COAuth i) i v) in Hr as (Hst' & Ht & ->); [|done..]. split; [done|]. by exists (Ok v).
Qed.

Lemma exact_GetWalletIdentity chain address st r st' : sound_store st ->
  heap_GetWalletIdentity chain address st = (r, st') ->
  sound_store st' /\ exists x, told (ret_err r) (p ← ret_ptr r; deref_wallet st'.1 p) = Some x /\
    mem_GetWalletIdentity chain address (as_store st) = (x, as_store st').
Proof.
  intros Hst. unfold heap_GetWalletIdentity, mem_GetWalletIdentity. cbn [as_store walletIdentities].
  pose proof (stored_view wallet_cell flat_value st.1 _ (chain, address) (sf_wallets _ _ (so_flat _ Hst))) as Hu.
  destruct (stored_wallet st _) as [i|].
  2: { destruct Hu as [-> _]. intros [= <- <-]. split; [done|]. by eexists. }
  destruct Hu as (l & c & v & _ & _ & _ & Hv & ->). intros Hr.
  eapply (return_copy_exact wallet_cell flat_value (CWallet i) i v) in Hr as (Hst' & Ht & ->); [|done..]. split; [done|]. by exists (Ok v).
Qed.

Lemma exact_ListOAuthIdentities `{RangeUniform} userID st r st' : sound_store st -> heap_ListOAuthIdentities seed userID st = (r, st') ->
  sound_store st' /\ ret_err r = None /\ exists vs, mapM (deref_oauth st'.1) (ret_ptrs r) = Some vs /\
    mem_ListOAuthIdentities env userID (as_store st) = (Ok vs, as_store st').
Proof.
  intros Hst Hr. eapply (heap_list_exact oauth_cell flat_value oi_UserID oi_CreatedAt oi_UserID oi_CreatedAt _ now) in Hr
    as (Hst' & Ha & He & Hm); [|done|apply Hst].
  split; [done|]. split; [done|]. eexists. split; [exact Hm|]. by rewrite Ha.
  Unshelve. by intros h o a [= ->].
Qed.

Lemma exact_ListWalletIdentities `{RangeUniform} userID st r st' : sound_store st -> heap_ListWalletIdentities seed userID st = (r, st') ->
  sound_store st' /\ ret_err r = None /\ exists vs, mapM (deref_wallet st'.1) (ret_ptrs r) = Some vs /\
    mem_ListWalletIdentities env userID (as_store st) = (Ok vs, as_store st').
Proof.
  intros Hst Hr. eapply (heap_list_exact wallet_cell flat_value wi_UserID wi_CreatedAt wi_UserID wi_CreatedAt _ now) in Hr
    as (Hst' & Ha & He & Hm); [|done|apply Hst].
  split; [done|]. split; [done|]. eexists. split; [exact Hm|]. by rewrite Ha.
  Unshelve. by intros h o a [= ->].
Qed.

(** The sweep, over the pointers and over the values. *)
Lemma swept_view h (m : gmap string loc) : sound challenge_cell flat_value h m ->
  let swept := filter (fun kl => match stored challenge_cell h (Some kl.2) with
                                 | Some c => Before (ch_ExpiresAt c) now
                                 | None => false
                                 end = false) m in
  view_challenges h swept = DeleteFunc (fun c => Before (ch_ExpiresAt c) now) (view_challenges h m) /\
  sound challenge_cell flat_value h swept.
Proof.
  intros Hs swept. split; [|intros k l [Hl _]%map_lookup_filter_Some; by eapply Hs].
  apply map_eq. intros k. unfold swept, view, DeleteFunc. rewrite lookup_omap, map_lookup_filter.
  apply option_eq. intros a. rewrite map_lookup_filter_Some, lookup_omap. cbn.
  destruct (m !! k) as [l|] eqn:E; cbn; [|naive_solver].
  destruct (Hs k l E) as [b Hr]. pose proof Hr as (c & o & Hc & Ho & [= ->])%read_some. rewrite Hr.
  unfold stored. cbn. rewrite Hc. cbn. rewrite Ho. cbn.
  case_guard as Hg; cbn; [rewrite Hr|]; naive_solver.
Qed.

Lemma exact_SaveChallenge p c st r st' : sound_store st -> ~ structs st.2 p -> st.1 !! p = Some (CChallenge c) ->
  heap_SaveChallenge now p c st = (r, st') ->
  sound_store st' /\ exists x, told (ret_err r) (deref_challenge st'.1 p) = Some x /\
    mem_SaveChallenge env c (as_store st) = (x, as_store st').
Proof.
  intros Hst Hp Hc. unfold heap_SaveChallenge, mem_SaveChallenge. cbv zeta. destruct st as [h s]. cbn [fst snd] in *.
  destruct (swept_view h _ (sf_challenges _ _ (so_flat _ Hst))) as [Hsw Hss]. cbv zeta in Hsw, Hss.
  set (swept := filter _ _) in *. destruct (alloc _ _) as [l h'] eqn:Ea. intros [= <- <-].
  destruct (store_challenges h s swept Hst Hss) as [Hst0 Ha0].
  assert (~ structs (set_r_challenges swept s) p) as Hp0.
  { intros Hin. apply Hp. unfold structs in *. cbn in Hin. destruct_or! Hin; auto 10. destruct Hin as [k Hk].
    do 6 right. exists k. by apply map_lookup_filter_Some in Hk as [? _]. }
  destruct (stored_copy challenge_cell h _ p _ (CChallenge (stamp_challenge now c)) (stamp_challenge now c) l h' Hst0 Hp0 Hc (fun H => H) eq_refl Ea)
    as (Hst1 & Ha & Hrp & Hrl).
  destruct (view_insert challenge_cell flat_value h' swept (ch_Nonce c) l _ (sf_challenges _ _ (so_flat _ Hst1)) Hrl) as [Hv Hs].
  cbn [fst snd] in Hv, Hs.
  destruct (store_challenges h' _ _ Hst1 Hs) as [Hst2 Ha2]. split; [exact Hst2|]. exists (Ok (stamp_challenge now c)).
  split; [unfold deref_oauth, deref_wallet, deref_challenge; cbn [fst]; by rewrite Hrp|].
  assert (view_challenges h' swept = view_challenges h swept) as Hw by (by apply (f_equal challenges) in Ha).
  etransitivity; [|exact (f_equal (pair _) (eq_sym Ha2))]. by rewrite Hv, Hw, Hsw, Ha, Ha0.
Qed.

Lemma exact_GetChallenge nonce st r st' : sound_store st -> heap_GetChallenge now nonce st = (r, st') ->
  sound_store st' /\ exists x, told (ret_err r) (p ← ret_ptr r; deref_challenge st'.1 p) = Some x /\
    mem_GetChallenge env nonce (as_store st) = (x, as_store st').
Proof.
  intros Hst. unfold heap_GetChallenge, mem_GetChallenge.
  pose proof (stored_view challenge_cell flat_value st.1 _ nonce (sf_challenges _ _ (so_flat _ Hst))) as Hu.
  change (challenges (as_store st)) with (view_challenges st.1 (r_challenges st.2)).
  destruct (stored_challenge st _) as [c|].
  2: { destruct Hu as [-> _]. intros [= <- <-]. split; [done|]. by eexists. }
  destruct Hu as (l & cl & v & _ & _ & _ & [= ->] & ->). cbn [ce_now]. destruct (Before (ch_ExpiresAt v) now).
  - destruct st as [h s]. cbn [fst snd]. intros [= <- <-].
    destruct (view_delete challenge_cell flat_value h _ nonce (sf_challenges _ _ (so_flat _ Hst))) as [Hv Hs].
    cbn [fst snd] in Hv, Hs. destruct (store_challenges h s _ Hst Hs) as [Hst1 Ha1]. split; [done|]. eexists. split; [done|]. by rewrite Ha1, Hv.
  - intros Hr. eapply (return_copy_exact challenge_cell flat_value (CChallenge v) v v) in Hr as (Hst' & Ht & ->); [|done..].
    split; [done|]. by exists (Ok v).
Qed.

Lemma exact_DeleteChallenge nonce st r st' : sound_store st -> heap_DeleteChallenge nonce st = (r, st') ->
  sound_store st' /\ exists x, told (ret_err r) (Some tt) = Some x /\ mem_DeleteChallenge nonce (as_store st) = (x, as_store st').
Proof.
  intros Hst. unfold heap_DeleteChallenge, mem_DeleteChallenge. destruct st as [h s]. cbn [fst snd].
  change (challenges (as_store (h, s))) with (view_challenges h (r_challenges s)).
  pose proof (sf_challenges _ _ (so_flat _ Hst)) as Hc. cbn [fst snd] in Hc.
  rewrite (bool_decide_ext _ _ (view_is_some challenge_cell flat_value h _ nonce Hc)).
  case_bool_decide; intros [= <- <-]; [|split; [done|]; by eexists].
  destruct (view_delete challenge_cell flat_value h _ nonce Hc) as [Hv Hs].
  cbn [fst snd] in Hv, Hs. destruct (store_challenges h s _ Hst Hs) as [Hst1 Ha1]. split; [done|]. exists (Ok tt). split; [done|]. by rewrite Ha1, Hv.
Qed.

Lemma exact_SavePasswordHash userID hash st r st' : sound_store st -> heap_SavePasswordHash userID hash st = (r, st') ->
  sound_store st' /\ exists x, told (ret_err r) (Some tt) = Some x /\
    mem_SavePasswordHash userID hash (as_store st) = (x, as_store st').
Proof.
  intros Hst. unfold heap_SavePasswordHash, mem_SavePasswordHash. rewrite <- (requireUser_exact st userID Hst).
  destruct (heap_requireUser st.2 _); intros [= <- <-]; [split; [done|]; by eexists|].
  destruct Hst as [S1 S2 S3 S4 S5 S6 SF]. split; [constructor; try done; by destruct SF|]. by exists (Ok tt).
Qed.

Lemma exact_GetPasswordHash userID st r st' : sound_store st -> heap_GetPasswordHash userID st = (r, st') ->
  sound_store st' /\ exists x, told (ret_err r) (Some (ret_text r)) = Some x /\
    mem_GetPasswordHash userID (as_store st) = (x, as_store st').
Proof.
  intros Hst. unfold heap_GetPasswordHash, mem_GetPasswordHash. cbn [as_store passwordHashes].
  destruct (r_passwordHashes st.2 !! userID); intros [= <- <-]; (split; [done|]); by eexists.
Qed.
End flat.
