(* ===== verification/MemoryAlias.v ===== *)
(** * Who holds what of the in-memory store (store/memory/memory.go)

    The store on a heap (MemoryHeap.v, MemoryCopies.v), each of its 26 methods, inside a program that allocates, follows
    and writes through the pointers it has: the calls are those of Memory.v on the
    values ([calls_exact]); the store's structs and the arrays of its users stay
    its own ([private], kept by every call); so the values of Memory.v are exact
    ([memory_values_exact]).  What is shared is what [snapshot] and [*pat] leave
    shared: the scopes and instants behind the pointers of a token
    ([GetPAT_shares_scopes]). *)

From S2P Require Import Prelude GoTime Errors Entity Ports Contract ContractFacts Memory MemoryFacts Histories MemoryHeap MemoryCopies.

Abbreviation loc := positive (only parsing).
Abbreviation heap := (gmap loc cell) (only parsing).
Abbreviation mem := (heap * refs)%type (only parsing).

(** ** Calls *)

Inductive hcall :=
| HCreate (u : loc) | HGetByID (id : string) | HGetByEmail (email : string) | HDelete (id : string)
| HSaveRefreshToken (t : loc) | HGetRefreshToken (hash : string) | HRotateRefreshToken (hash : string)
| HRevokeTokens (hash : string) | HSavePAT (p : loc) | HGetPAT (hash : string) | HTouchPAT (hash : string)
| HGetRefreshFamily (root : string) | HSavePATLimited (p : loc) (limit : Z) (at_ : time) | HListPATs (userID : string)
| HDeletePAT (userID id : string)
| HSaveOAuthIdentity (p : loc) | HGetOAuthIdentity (provider externalID : string) | HListOAuthIdentities (userID : string)
| HSaveWalletIdentity (p : loc) | HGetWalletIdentity (chain address : string) | HListWalletIdentities (userID : string)
| HSaveChallenge (p : loc) | HGetChallenge (nonce : string) | HDeleteChallenge (nonce : string)
| HSavePasswordHash (userID hash : string) | HGetPasswordHash (userID : string).

(** The pointers a call is given. *)
Definition args (c : hcall) : gset loc :=
  match c with
  | HCreate l | HSaveRefreshToken l | HSavePAT l | HSavePATLimited l _ _ | HSaveOAuthIdentity l | HSaveWalletIdentity l
  | HSaveChallenge l => {[l]}
  | _ => ∅
  end.

Section calls.
Context `{RangeUniform} (now : time) (seed : nat).

(** [None] for a pointer to a struct of another type, which does not compile. *)
Definition heap_call (c : hcall) (st : mem) : option (returned * mem) :=
  match c with
  | HCreate u => match st.1 !! u with Some (CUser o) => Some (heap_Create now u o st) | _ => None end
  | HGetByID id => Some (heap_GetByID id st)
  | HGetByEmail email => Some (heap_GetByEmail email st)
  | HDelete id => Some (heap_Delete id st)
  | HSaveRefreshToken t => match st.1 !! t with Some (CToken o) => Some (heap_SaveRefreshToken now t o st) | _ => None end
  | HGetRefreshToken hash => Some (heap_GetRefreshToken hash st)
  | HRotateRefreshToken hash => Some (heap_RotateRefreshToken now hash st)
  | HRevokeTokens hash => Some (heap_RevokeTokens now seed hash st)
  | HSavePAT p => match st.1 !! p with Some (CPat o) => Some (heap_SavePAT now p o st) | _ => None end
  | HGetPAT hash => Some (heap_GetPAT hash st)
  | HTouchPAT hash => Some (heap_TouchPAT now hash st)
  | HGetRefreshFamily root => Some (heap_GetRefreshFamily seed root st)
  | HSavePATLimited p limit at_ =>
      match st.1 !! p with Some (CPat o) => Some (heap_SavePATLimited now seed p o limit at_ st) | _ => None end
  | HListPATs userID => Some (heap_ListPATs seed userID st)
  | HDeletePAT userID id => Some (heap_DeletePAT seed userID id st)
  | HSaveOAuthIdentity p => match st.1 !! p with Some (COAuth i) => Some (heap_SaveOAuthIdentity now p i st) | _ => None end
  | HGetOAuthIdentity provider externalID => Some (heap_GetOAuthIdentity provider externalID st)
  | HListOAuthIdentities userID => Some (heap_ListOAuthIdentities seed userID st)
  | HSaveWalletIdentity p => match st.1 !! p with Some (CWallet i) => Some (heap_SaveWalletIdentity now p i st) | _ => None end
  | HGetWalletIdentity chain address => Some (heap_GetWalletIdentity chain address st)
  | HListWalletIdentities userID => Some (heap_ListWalletIdentities seed userID st)
  | HSaveChallenge p => match st.1 !! p with Some (CChallenge c) => Some (heap_SaveChallenge now p c st) | _ => None end
  | HGetChallenge nonce => Some (heap_GetChallenge now nonce st)
  | HDeleteChallenge nonce => Some (heap_DeleteChallenge nonce st)
  | HSavePasswordHash userID hash => Some (heap_SavePasswordHash userID hash st)
  | HGetPasswordHash userID => Some (heap_GetPasswordHash userID st)
  end.

(** The call of Memory.v on the values that the pointers lead to: the same
    answer, read through the pointer returned or the argument, and the same store. *)
Definition exact_call (c : hcall) (st : mem) (r : returned) (st' : mem) : Prop :=
  let env := mkCallenv now seed in
  match c with
  | HCreate u => exists v x, deref_user st.1 u = Some v /\ told (ret_err r) (deref_user st'.1 u) = Some x /\
      mem_Create env v (as_store st) = (x, as_store st')
  | HGetByID id => exists x, told (ret_err r) (p ← ret_ptr r; deref_user st'.1 p) = Some x /\
      mem_GetByID id (as_store st) = (x, as_store st')
  | HGetByEmail email => exists x, told (ret_err r) (p ← ret_ptr r; deref_user st'.1 p) = Some x /\
      mem_GetByEmail email (as_store st) = (x, as_store st')
  | HDelete id => exists x, told (ret_err r) (Some tt) = Some x /\ mem_Delete id (as_store st) = (x, as_store st')
  | HSaveRefreshToken t => exists v x, deref_token st.1 t = Some v /\ told (ret_err r) (deref_token st'.1 t) = Some x /\
      mem_SaveRefreshToken env v (as_store st) = (x, as_store st')
  | HGetRefreshToken hash => exists x, told (ret_err r) (p ← ret_ptr r; deref_token st'.1 p) = Some x /\
      mem_GetRefreshToken hash (as_store st) = (x, as_store st')
  | HRotateRefreshToken hash => exists x, told_rotation (ret_err r) (p ← ret_ptr r; deref_token st'.1 p) = Some x /\
      mem_RotateRefreshToken hash now (as_store st) = (x, as_store st')
  | HRevokeTokens hash => exists x, told (ret_err r) (Some tt) = Some x /\
      mem_RevokeTokens env hash (as_store st) = (x, as_store st')
  | HSavePAT p => exists v x, deref_pat st.1 p = Some v /\ told (ret_err r) (deref_pat st'.1 p) = Some x /\
      mem_SavePAT env v (as_store st) = (x, as_store st')
  | HGetPAT hash => exists x, told (ret_err r) (p ← ret_ptr r; deref_pat st'.1 p) = Some x /\
      mem_GetPAT hash (as_store st) = (x, as_store st')
  | HTouchPAT hash => exists x, told (ret_err r) (Some tt) = Some x /\ mem_TouchPAT hash now (as_store st) = (x, as_store st')
  | HGetRefreshFamily root => exists x, told (ret_err r) (p ← ret_ptr r; deref_family st'.1 p) = Some x /\
      mem_GetRefreshFamily env root (as_store st) = (x, as_store st')
  | HSavePATLimited p limit at_ => exists v x, deref_pat st.1 p = Some v /\ told (ret_err r) (deref_pat st'.1 p) = Some x /\
      mem_SavePATLimited env v limit at_ (as_store st) = (x, as_store st')
  | HListPATs userID => ret_err r = None /\ exists vs, mapM (deref_pat st'.1) (ret_ptrs r) = Some vs /\
      mem_ListPATs env userID (as_store st) = (Ok vs, as_store st')
  | HDeletePAT userID id => exists x, told (ret_err r) (Some tt) = Some x /\
      mem_DeletePAT env userID id (as_store st) = (x, as_store st')
  | HSaveOAuthIdentity p => exists v x, deref_oauth st.1 p = Some v /\ told (ret_err r) (deref_oauth st'.1 p) = Some x /\
      mem_SaveOAuthIdentity env v (as_store st) = (x, as_store st')
  | HGetOAuthIdentity provider externalID => exists x, told (ret_err r) (p ← ret_ptr r; deref_oauth st'.1 p) = Some x /\
      mem_GetOAuthIdentity provider externalID (as_store st) = (x, as_store st')
  | HListOAuthIdentities userID => ret_err r = None /\ exists vs, mapM (deref_oauth st'.1) (ret_ptrs r) = Some vs /\
      mem_ListOAuthIdentities env userID (as_store st) = (Ok vs, as_store st')
  | HSaveWalletIdentity p => exists v x, deref_wallet st.1 p = Some v /\ told (ret_err r) (deref_wallet st'.1 p) = Some x /\
      mem_SaveWalletIdentity env v (as_store st) = (x, as_store st')
  | HGetWalletIdentity chain address => exists x, told (ret_err r) (p ← ret_ptr r; deref_wallet st'.1 p) = Some x /\
      mem_GetWalletIdentity chain address (as_store st) = (x, as_store st')
  | HListWalletIdentities userID => ret_err r = None /\ exists vs, mapM (deref_wallet st'.1) (ret_ptrs r) = Some vs /\
      mem_ListWalletIdentities env userID (as_store st) = (Ok vs, as_store st')
  | HSaveChallenge p => exists v x, deref_challenge st.1 p = Some v /\ told (ret_err r) (deref_challenge st'.1 p) = Some x /\
      mem_SaveChallenge env v (as_store st) = (x, as_store st')
  | HGetChallenge nonce => exists x, told (ret_err r) (p ← ret_ptr r; deref_challenge st'.1 p) = Some x /\
      mem_GetChallenge env nonce (as_store st) = (x, as_store st')
  | HDeleteChallenge nonce => exists x, told (ret_err r) (Some tt) = Some x /\
      mem_DeleteChallenge nonce (as_store st) = (x, as_store st')
  | HSavePasswordHash userID hash => exists x, told (ret_err r) (Some tt) = Some x /\
      mem_SavePasswordHash userID hash (as_store st) = (x, as_store st')
  | HGetPasswordHash userID => exists x, told (ret_err r) (Some (ret_text r)) = Some x /\
      mem_GetPasswordHash userID (as_store st) = (x, as_store st')
  end.

(** Nothing in a cell dangles or points to a cell of another type. *)
Definition typed (h : heap) (c : cell) : Prop :=
  match c with
  | CUser o => is_Some (user_value h o)
  | CToken o => is_Some (token_value h o)
  | CPat o => is_Some (pat_value h o)
  | CFamily o => is_Some (family_value h o)
  | COAuth _ | CWallet _ | CChallenge _ | CStrings _ | CTime _ => True
  end.

Lemma calls_exact c st r st' : sound_store st -> (forall l, l ∈ args c -> ~ structs st.2 l) ->
  (forall l cl, st.1 !! l = Some cl -> typed st.1 cl) -> heap_call c st = Some (r, st') ->
  sound_store st' /\ exact_call c st r st'.
Proof.
  intros Hst Hargs Hty Hc. destruct c as [u|id|email|id|t|hash|hash|hash|p|hash|hash|root|p limit at_|uid|uid id|p|pr ext|uid|p|ch ad|uid|p|n|n|uid hash|uid];
    cbn [heap_call exact_call] in *.
  - destruct (st.1 !! u) as [[o| | | | | | | |]|] eqn:E; try done. destruct (Hty _ _ E) as [v Hv]. apply (inj Some) in Hc.
    assert (~ structs st.2 u) as Hn by (apply Hargs; set_solver).
    destruct (exact_Create now seed u o v st r st' Hst Hn E Hv Hc) as (? & x & Ht & Hm).
    split; [done|]. exists v, x. split; [|done]. unfold deref_user, read. by rewrite E.
  - apply (inj Some) in Hc. by apply exact_GetByID in Hc.
  - apply (inj Some) in Hc. by apply exact_GetByEmail in Hc.
  - apply (inj Some) in Hc. by apply exact_Delete in Hc.
  - destruct (st.1 !! t) as [[|o| | | | | | |]|] eqn:E; try done. destruct (Hty _ _ E) as [v Hv]. apply (inj Some) in Hc.
    assert (~ structs st.2 t) as Hn by (apply Hargs; set_solver).
    destruct (exact_SaveRefreshToken now seed t o v st r st' Hst Hn E Hv Hc) as (? & x & Ht & Hm).
    split; [done|]. exists v, x. split; [|done]. unfold deref_token, read. by rewrite E.
  - apply (inj Some) in Hc. by apply exact_GetRefreshToken in Hc.
  - apply (inj Some) in Hc. by apply exact_RotateRefreshToken in Hc.
  - apply (inj Some) in Hc. by apply (exact_RevokeTokens now seed) in Hc.
  - destruct (st.1 !! p) as [[| |o| | | | | |]|] eqn:E; try done. destruct (Hty _ _ E) as [v Hv]. apply (inj Some) in Hc.
    assert (~ structs st.2 p) as Hn by (apply Hargs; set_solver).
    destruct (exact_SavePAT now seed p o v st r st' Hst Hn E Hv Hc) as (? & x & Ht & Hm).
    split; [done|]. exists v, x. split; [|done]. unfold deref_pat, read. by rewrite E.
  - apply (inj Some) in Hc. by apply exact_GetPAT in Hc.
  - apply (inj Some) in Hc. by apply exact_TouchPAT in Hc.
  - apply (inj Some) in Hc. by apply (exact_GetRefreshFamily now) in Hc.
  - destruct (st.1 !! p) as [[| |o| | | | | |]|] eqn:E; try done. destruct (Hty _ _ E) as [v Hv]. apply (inj Some) in Hc.
    assert (~ structs st.2 p) as Hn by (apply Hargs; set_solver).
    destruct (exact_SavePATLimited now seed p o v limit at_ st r st' Hst Hn E Hv Hc) as (? & x & Ht & Hm).
    split; [done|]. exists v, x. split; [|done]. unfold deref_pat, read. by rewrite E.
  - apply (inj Some) in Hc. by apply (exact_ListPATs now) in Hc.
  - apply (inj Some) in Hc. by apply (exact_DeletePAT now) in Hc.
  - destruct (st.1 !! p) as [[| | |i| | | | |]|] eqn:E; try done. apply (inj Some) in Hc.
    assert (~ structs st.2 p) as Hn by (apply Hargs; set_solver).
    destruct (exact_SaveOAuthIdentity now seed p i st r st' Hst Hn E Hc) as (? & x & Ht & Hm).
    split; [done|]. exists i, x. split; [|done]. unfold deref_oauth, read. by rewrite E.
  - apply (inj Some) in Hc. by apply exact_GetOAuthIdentity in Hc.
  - apply (inj Some) in Hc. by apply (exact_ListOAuthIdentities now) in Hc.
  - destruct (st.1 !! p) as [[| | | |i| | | |]|] eqn:E; try done. apply (inj Some) in Hc.
    assert (~ structs st.2 p) as Hn by (apply Hargs; set_solver).
    destruct (exact_SaveWalletIdentity now seed p i st r st' Hst Hn E Hc) as (? & x & Ht & Hm).
    split; [done|]. exists i, x. split; [|done]. unfold deref_wallet, read. by rewrite E.
  - apply (inj Some) in Hc. by apply exact_GetWalletIdentity in Hc.
  - apply (inj Some) in Hc. by apply (exact_ListWalletIdentities now) in Hc.
  - destruct (st.1 !! p) as [[| | | | |i| | |]|] eqn:E; try done. apply (inj Some) in Hc.
    assert (~ structs st.2 p) as Hn by (apply Hargs; set_solver).
    destruct (exact_SaveChallenge now seed p i st r st' Hst Hn E Hc) as (? & x & Ht & Hm).
    split; [done|]. exists i, x. split; [|done]. unfold deref_challenge, read. by rewrite E.
  - apply (inj Some) in Hc. by apply (exact_GetChallenge now seed) in Hc.
  - apply (inj Some) in Hc. by apply exact_DeleteChallenge in Hc.
  - apply (inj Some) in Hc. by apply exact_SavePasswordHash in Hc.
  - apply (inj Some) in Hc. by apply exact_GetPasswordHash in Hc.
Qed.
End calls.

(** ** Who may hold what *)

Definition pointers (c : cell) : gset loc :=
  match c with
  | CUser o => option_locs (uo_Roles o)
  | CToken o => option_locs (to_RotatedAt o) ∪ option_locs (to_EndedAt o)
  | CPat o => option_locs (po_Scopes o) ∪ option_locs (po_ExpiresAt o) ∪ option_locs (po_LastUsedAt o)
  | CFamily o => option_locs (fo_LastRotatedAt o)
  | COAuth _ | CWallet _ | CChallenge _ | CStrings _ | CTime _ => ∅
  end.

Definition same_kind (c c' : cell) : bool :=
  match c, c' with
  | CUser _, CUser _ | CToken _, CToken _ | CPat _, CPat _ | COAuth _, COAuth _ | CWallet _, CWallet _
  | CChallenge _, CChallenge _ | CFamily _, CFamily _ | CStrings _, CStrings _ | CTime _, CTime _ => true
  | _, _ => false
  end.

(** [P] are the cells the store has allocated for itself: its structs and the
    arrays of its users.  No other cell leads to them, nor does a token. *)
Record private (P : gset loc) (h : heap) : Prop := mkPrivate {
  pv_dom : P ⊆ dom h;
  pv_typed l c : h !! l = Some c -> typed h c;
  pv_roles l o : l ∈ P -> h !! l = Some (CUser o) -> option_locs (uo_Roles o) ⊆ P;
  pv_apart l c : h !! l = Some c -> l ∉ P \/ user_cell c = None -> pointers c ## P
}.

(** No cell goes away or changes its type. *)
Definition kinds (h h' : heap) : Prop :=
  forall l c, h !! l = Some c -> exists c', h' !! l = Some c' /\ same_kind c c' = true.

Lemma kinds_insert h l c : (forall c0, h !! l = Some c0 -> same_kind c0 c = true) -> kinds h (<[l := c]> h).
Proof.
  intros Hl l' c' Hc'. destruct (decide (l = l')) as [<-|].
  - exists c. rewrite lookup_insert_eq. auto.
  - exists c'. rewrite lookup_insert_ne by done. split; [done|]. by destruct c'.
Qed.

Lemma strings_at_kinds h h' p : kinds h h' -> is_Some (strings_at h p) -> is_Some (strings_at h' p).
Proof.
  intros Hk. destruct p as [l|]; [|done]. cbn. destruct (h !! l) as [c|] eqn:E; [|by intros []].
  destruct (Hk l c E) as (c' & -> & Hs). by destruct c, c'; try done; intros [? ?].
Qed.
Lemma time_at_kinds h h' p : kinds h h' -> is_Some (time_at h p) -> is_Some (time_at h' p).
Proof.
  intros Hk. destruct p as [l|]; [|done]. cbn. destruct (h !! l) as [c|] eqn:E; [|by intros []].
  destruct (Hk l c E) as (c' & -> & Hs). by destruct c, c'; try done; intros [? ?].
Qed.

Lemma typed_user h o : typed h (CUser o) <-> is_Some (strings_at h (uo_Roles o)).
Proof. cbn. unfold user_value. destruct (strings_at h _); cbn; [|done]. by split; intros _; eexists. Qed.
Lemma typed_token h o : typed h (CToken o) <-> is_Some (time_at h (to_RotatedAt o)) /\ is_Some (time_at h (to_EndedAt o)).
Proof.
  cbn. unfold token_value. destruct (time_at h (to_RotatedAt o)), (time_at h (to_EndedAt o)); cbn; rewrite ?is_Some_alt; naive_solver.
Qed.
Lemma typed_pat h o : typed h (CPat o) <->
  is_Some (strings_at h (po_Scopes o)) /\ is_Some (time_at h (po_ExpiresAt o)) /\ is_Some (time_at h (po_LastUsedAt o)).
Proof.
  cbn. unfold pat_value. destruct (strings_at h _), (time_at h (po_ExpiresAt o)), (time_at h (po_LastUsedAt o)); cbn;
    rewrite ?is_Some_alt; naive_solver.
Qed.

Lemma typed_family h o : typed h (CFamily o) <-> is_Some (time_at h (fo_LastRotatedAt o)).
Proof. cbn. unfold family_value. destruct (time_at h _); cbn; [|done]. by split; intros _; eexists. Qed.

Lemma typed_kinds h h' c : kinds h h' -> typed h c -> typed h' c.
Proof.
  intros Hk. destruct c as [o|o|o|i|i|i|o|ws|t]; try done.
  - rewrite !typed_user. by apply strings_at_kinds.
  - rewrite !typed_token. intros [? ?]. split; by eapply time_at_kinds.
  - rewrite !typed_pat. intros (? & ? & ?). split_and!; [by eapply strings_at_kinds|by eapply time_at_kinds..].
  - rewrite !typed_family. by apply time_at_kinds.
Qed.

Lemma strings_at_dom h p : is_Some (strings_at h p) -> option_locs p ⊆ dom h.
Proof.
  destruct p as [l|]; cbn; [|set_solver]. destruct (h !! l) as [c|] eqn:E; [|by intros []]. intros _.
  apply singleton_subseteq_l, elem_of_dom. by eexists.
Qed.
Lemma time_at_dom h p : is_Some (time_at h p) -> option_locs p ⊆ dom h.
Proof.
  destruct p as [l|]; cbn; [|set_solver]. destruct (h !! l) as [c|] eqn:E; [|by intros []]. intros _.
  apply singleton_subseteq_l, elem_of_dom. by eexists.
Qed.

Lemma typed_pointers h c : typed h c -> pointers c ⊆ dom h.
Proof.
  destruct c as [o|o|o|i|i|i|o|ws|t]; cbn [pointers]; try set_solver.
  - rewrite typed_user. apply strings_at_dom.
  - rewrite typed_token. intros [?%time_at_dom ?%time_at_dom]. set_solver.
  - rewrite typed_pat. intros (?%strings_at_dom & ?%time_at_dom & ?%time_at_dom). set_solver.
  - rewrite typed_family. apply time_at_dom.
Qed.

(** A cell of a caller, or one that is returned to it. *)
Lemma private_alloc_out P h l c : private P h -> h !! l = None -> typed h c -> pointers c ## P -> private P (<[l := c]> h).
Proof.
  intros [H1 H2 H3 H4] Hl Hc Hp. assert (kinds h (<[l := c]> h)) as Hk by (apply kinds_insert; congruence).
  assert (l ∉ P) as HlP by (intros Hin; apply H1 in Hin; by apply not_elem_of_dom in Hl).
  split.
  - rewrite dom_insert. set_solver.
  - intros l' c' [[_ <-]|[_ Hc']]%lookup_insert_Some; eapply typed_kinds; eauto.
  - intros l' o Hin [[<- _]|[_ Hc']]%lookup_insert_Some; [done|]. by eapply H3.
  - intros l' c' [[_ <-]|[_ Hc']]%lookup_insert_Some; [done|]. by eapply H4.
Qed.

(** A cell of the store. *)
Lemma private_alloc_in P h l c : private P h -> h !! l = None -> typed h c ->
  match c with CUser o => option_locs (uo_Roles o) ⊆ P | _ => pointers c ## P end ->
  private ({[l]} ∪ P) (<[l := c]> h).
Proof.
  intros [H1 H2 H3 H4] Hl Hc Hp. assert (kinds h (<[l := c]> h)) as Hk by (apply kinds_insert; congruence).
  assert (l ∉ dom h) as Hld by (by apply not_elem_of_dom). split.
  - rewrite dom_insert. set_solver.
  - intros l' c' [[_ <-]|[_ Hc']]%lookup_insert_Some; eapply typed_kinds; eauto.
  - intros l' o Hin [[<- ->]|[Hne Hc']]%lookup_insert_Some; [set_solver|].
    assert (l' ∈ P) as Hin' by set_solver. specialize (H3 _ _ Hin' Hc'). set_solver.
  - intros l' c' [[<- <-]|[Hne Hc']]%lookup_insert_Some Hor.
    + assert (user_cell c = None) as Hu by (destruct Hor; [set_solver|done]). apply typed_pointers in Hc.
      destruct c; try done; set_solver.
    + assert (pointers c' ## P) by (eapply H4; [done|]; destruct Hor; [left; set_solver|by right]).
      apply H2, typed_pointers in Hc'. set_solver.
Qed.

(** A struct or a leaf is overwritten. *)
Lemma private_write P h l c0 c : private P h -> h !! l = Some c0 -> same_kind c0 c = true -> typed h c ->
  l ∉ P \/ user_cell c = None -> pointers c ## P -> private P (<[l := c]> h).
Proof.
  intros [H1 H2 H3 H4] Hl Hs Hc Hor Hp.
  assert (kinds h (<[l := c]> h)) as Hk by (apply kinds_insert; intros ? E; congruence). split.
  - rewrite dom_insert. set_solver.
  - intros l' c' [[_ <-]|[_ Hc']]%lookup_insert_Some; eapply typed_kinds; eauto.
  - intros l' o Hin [[<- ->]|[_ Hc']]%lookup_insert_Some; [by destruct Hor|]. by eapply H3.
  - intros l' c' [[_ <-]|[_ Hc']]%lookup_insert_Some; [done|]. by eapply H4.
Qed.

(** A change that gives the store new cells only. *)
Record extends (P : gset loc) (h : heap) (P' : gset loc) (h' : heap) : Prop := mkExtends {
  ex_private : private P' h';
  ex_more : P ⊆ P';
  ex_new : P' ∩ dom h ⊆ P;
  ex_dom : dom h ⊆ dom h'
}.

Lemma extends_refl P h : private P h -> extends P h P h.
Proof. intros HP. split; [done|set_solver..]. Qed.

Lemma extends_trans P1 h1 P2 h2 P3 h3 : extends P1 h1 P2 h2 -> extends P2 h2 P3 h3 -> extends P1 h1 P3 h3.
Proof. intros [_ ? ? ?] [? ? ? ?]. split; [done|set_solver..]. Qed.

Lemma alloc_out P h c l h' : private P h -> alloc c h = (l, h') -> typed h c -> pointers c ## P ->
  extends P h P h' /\ l ∈ dom h' /\ l ∉ P.
Proof.
  intros HP [Hl ->]%alloc_fresh Hc Hp. pose proof (pv_dom _ _ HP) as Hd. apply not_elem_of_dom in Hl as Hld.
  rewrite dom_insert_L. split_and!; [|set_solver..]. split; [by apply private_alloc_out|set_solver..].
Qed.

Lemma alloc_in P h c l h' : private P h -> alloc c h = (l, h') -> typed h c ->
  match c with CUser o => option_locs (uo_Roles o) ⊆ P | _ => pointers c ## P end ->
  extends P h ({[l]} ∪ P) h'.
Proof.
  intros HP [Hl ->]%alloc_fresh Hc Hp. apply not_elem_of_dom in Hl as Hld.
  split; [by apply private_alloc_in|set_solver..].
Qed.

Lemma write_extends P h l c0 c : private P h -> h !! l = Some c0 -> same_kind c0 c = true -> typed h c ->
  l ∉ P \/ user_cell c = None -> pointers c ## P -> extends P h P (<[l := c]> h).
Proof. intros HP Hl Hs Hc Hor Hp. split; [by eapply private_write|set_solver..]. Qed.

(** The array of a copy is new. *)
Lemma slices_Clone_alloc p h p' h' : is_Some (strings_at h p) -> slices_Clone p h = (p', h') ->
  (p' = None /\ h' = h) \/ exists ws l, p' = Some l /\ alloc (CStrings ws) h = (l, h').
Proof.
  unfold slices_Clone. destruct p as [l|]; [|intros _ [= <- <-]; by left]. cbn.
  destruct (h !! l) as [[| | | | | | |ws|]|]; try by intros [].
  destruct (alloc (CStrings ws) h) as [l' h1] eqn:E. intros _ [= <- <-]. right. by eexists _, _.
Qed.

Lemma copyUser_out P h o l h' : private P h -> typed h (CUser o) -> copyUser o h = (l, h') ->
  extends P h P h' /\ l ∈ dom h' /\ l ∉ P.
Proof.
  intros HP Hty%typed_user. unfold copyUser. destruct (slices_Clone _ h) as [p h1] eqn:E. intros Ha.
  destruct (slices_Clone_alloc _ _ _ _ Hty E) as [[-> ->]|(ws & q & -> & Eq)].
  - eapply alloc_out in Ha; [exact Ha|done| |set_solver]. by apply typed_user.
  - apply (alloc_out P) in Eq as HE; [|done..|set_solver]. destruct HE as (HE & _ & Hq).
    apply alloc_fresh in Eq as [_ ->]. apply (alloc_out P) in Ha as (HE2 & ? & ?); [|apply HE| |cbn; set_solver].
    + split_and!; [by eapply extends_trans|done..].
    + apply typed_user. cbn. by rewrite lookup_insert_eq.
Qed.

Lemma copyUser_in P h o l h' : private P h -> typed h (CUser o) -> copyUser o h = (l, h') ->
  exists P', extends P h P' h' /\ l ∈ P'.
Proof.
  intros HP Hty%typed_user. unfold copyUser. destruct (slices_Clone _ h) as [p h1] eqn:E. intros Ha.
  destruct (slices_Clone_alloc _ _ _ _ Hty E) as [[-> ->]|(ws & q & -> & Eq)].
  - eapply alloc_in in Ha; [eexists; split; [exact Ha|set_solver]|done| |set_solver]. by apply typed_user.
  - apply (alloc_in P) in Eq as HE; [|done..|set_solver].
    apply alloc_fresh in Eq as [_ ->]. apply (alloc_in ({[q]} ∪ P)) in Ha as HE2; [|apply HE| |cbn; set_solver].
    + eexists. split; [by eapply extends_trans|set_solver].
    + apply typed_user. cbn. by rewrite lookup_insert_eq.
Qed.

(** The maps point to cells of the store. *)
Definition in_cells `{Countable K} (P : gset loc) (m : gmap K loc) : Prop := map_Forall (fun _ l => l ∈ P) m.
Record owns (P : gset loc) (s : refs) : Prop := mkOwns {
  ow_users : in_cells P (r_users s);
  ow_usersByEmail : in_cells P (r_usersByEmail s);
  ow_tokens : in_cells P (r_refreshTokens s);
  ow_pats : in_cells P (r_pats s);
  ow_oauth : in_cells P (r_oauthIdentities s);
  ow_wallets : in_cells P (r_walletIdentities s);
  ow_challenges : in_cells P (r_challenges s)
}.

Lemma owns_structs P s l : owns P s -> structs s l -> l ∈ P.
Proof. intros [H1 H2 H3 H4 H5 H6 H7] Hl. unfold structs in Hl. destruct_or! Hl; destruct Hl as [k Hk]; eauto. Qed.

Lemma in_cells_more `{Countable K} P P' (m : gmap K loc) : P ⊆ P' -> in_cells P m -> in_cells P' m.
Proof. intros HP Hm k l Hl. apply HP. by eapply Hm. Qed.
Lemma owns_more P P' s : P ⊆ P' -> owns P s -> owns P' s.
Proof. intros HP [? ? ? ? ? ? ?]. split; by eapply in_cells_more. Qed.
Lemma in_cells_insert `{Countable K} P (m : gmap K loc) k l : l ∈ P -> in_cells P m -> in_cells P (<[k := l]> m).
Proof. intros Hl Hm. by apply map_Forall_insert_2. Qed.

(** The pointers a call returns. *)
Definition ret_locs (r : returned) : gset loc := option_locs (ret_ptr r) ∪ list_to_set (ret_ptrs r).

(** What a call leaves: the cells of the store are still its own, and no pointer
    that is returned is to one of them. *)
Definition kept (P : gset loc) (st : mem) (rst : returned * mem) : Prop :=
  exists P', extends P st.1 P' rst.2.1 /\ owns P' rst.2.2 /\ ret_locs rst.1 ⊆ dom rst.2.1 ∖ P'.

Lemma kept_refl P st e : private P st.1 -> owns P st.2 -> kept P st (mkReturned None e, st).
Proof. intros HP Ho. exists P. split_and!; [by apply extends_refl|done|set_solver]. Qed.

(** A change of the heap, then the rest of the call. *)
Lemma kept_trans P h s P' h' r : extends P h P' h' -> kept P' (h', s) r -> kept P (h, s) r.
Proof.
  intros HE (P2 & HE2 & ? & ?). exists P2. split_and!; [|done..]. by eapply extends_trans.
Qed.

Lemma kept_return_user P o st : private P st.1 -> owns P st.2 -> typed st.1 (CUser o) -> kept P st (return_user o st).
Proof.
  intros HP Ho Hty. unfold return_user. destruct (copyUser o st.1) as [l h'] eqn:E.
  apply (copyUser_out P) in E as (HE & ? & ?); [|done..]. exists P. split_and!; [done..|cbn; set_solver].
Qed.

Lemma kept_return_token P o e st : private P st.1 -> owns P st.2 -> typed st.1 (CToken o) -> pointers (CToken o) ## P ->
  kept P st (return_token o e st).
Proof.
  intros HP Ho Hty Hp. unfold return_token, snapshot. destruct (alloc _ st.1) as [l h'] eqn:E.
  apply (alloc_out P) in E as (HE & ? & ?); [|done..]. exists P. split_and!; [done..|cbn; set_solver].
Qed.

Lemma kept_return_copy P c st : private P st.1 -> owns P st.2 -> typed st.1 c -> pointers c ## P -> kept P st (return_copy c st).
Proof.
  intros HP Ho Hty Hp. unfold return_copy. destruct (alloc _ st.1) as [l h'] eqn:E.
  apply (alloc_out P) in E as (HE & ? & ?); [|done..]. exists P. split_and!; [done..|cbn; set_solver].
Qed.

(** A struct of the store. *)
Lemma stored_cell {O} (struct : cell -> option O) `{Countable K} h (m : gmap K loc) k o P : in_cells P m -> stored struct h (m !! k) = Some o ->
  exists l c, m !! k = Some l /\ l ∈ P /\ h !! l = Some c /\ struct c = Some o.
Proof.
  intros Hm. unfold stored. destruct (m !! k) as [l|] eqn:E; [|done]. cbn. destruct (h !! l) as [c|] eqn:Ec; [|done]. cbn.
  intros Ho. exists l, c. split_and!; [done|by eapply Hm|done|done].
Qed.

Section kept.
Context (now : time) (P : gset loc).

Lemma kept_Create u o st : private P st.1 -> owns P st.2 -> u ∉ P -> st.1 !! u = Some (CUser o) ->
  kept P st (heap_Create now u o st).
Proof.
  destruct st as [h s]. cbn [fst snd]. intros HP Ho Hu Hc. unfold heap_Create.
  case_bool_decide; [by apply kept_refl|]. destruct (_ && _); [by apply kept_refl|]. set (o' := mkUserObj _ _ _ _ _).
  pose proof (pv_typed _ _ HP _ _ Hc) as Hty%typed_user. pose proof (pv_apart _ _ HP _ _ Hc (or_introl Hu)) as Hp.
  assert (extends P h P (<[u := CUser o']> h)) as HE by (eapply write_extends; eauto; by apply typed_user).
  destruct (copyUser o' _) as [l h'] eqn:E. apply (copyUser_in P) in E as (P' & HE' & Hl); [|apply HE|].
  2: { eapply pv_typed; [apply HE|]. apply lookup_insert_eq. }
  exists P'. split_and!; [by eapply extends_trans| |set_solver].
  apply (owns_more P P') in Ho as [? ? ? ? ? ? ?]; [|apply HE']. split; cbn; try done; [by apply in_cells_insert|].
  destruct (strEq _ _); [done|by apply in_cells_insert].
Qed.

Lemma kept_SaveRefreshToken t o st : private P st.1 -> owns P st.2 -> t ∉ P -> st.1 !! t = Some (CToken o) ->
  kept P st (heap_SaveRefreshToken now t o st).
Proof.
  destruct st as [h s]. cbn [fst snd]. intros HP Ho Hu Hc. unfold heap_SaveRefreshToken. cbn [fst snd]. set (o' := mkTokenObj _ _ _ _ _ _ _ _).
  pose proof (pv_typed _ _ HP _ _ Hc) as Hty%typed_token. pose proof (pv_apart _ _ HP _ _ Hc (or_introl Hu)) as Hp.
  assert (extends P h P (<[t := CToken o']> h)) as HE by (eapply write_extends; eauto; by apply typed_token).
  apply (kept_trans P h s P (<[t := CToken o']> h)); [done|]. pose proof (ex_private _ _ _ _ HE) as HP'.
  destruct (if strEq (to_Parent o') "" then _ else _); [by apply kept_refl|].
  destruct (heap_requireUser s _); [by apply kept_refl|]. unfold snapshot. destruct (alloc _ _) as [l h'] eqn:E.
  apply (alloc_in P) in E; [|done| |done].
  2: { eapply pv_typed; [apply HP'|]. apply lookup_insert_eq. }
  exists ({[l]} ∪ P). split_and!; [done| |set_solver].
  apply (owns_more P ({[l]} ∪ P)) in Ho as [? ? ? ? ? ? ?]; [|set_solver]. split; cbn; try done. apply in_cells_insert; [set_solver|done].
Qed.

Lemma kept_savePATLocked p o st : private P st.1 -> owns P st.2 -> p ∉ P -> st.1 !! p = Some (CPat o) ->
  kept P st (heap_savePATLocked now p o st).
Proof.
  destruct st as [h s]. cbn [fst snd]. intros HP Ho Hu Hc. unfold heap_savePATLocked. cbn [fst snd].
  case_bool_decide; [by apply kept_refl|]. set (o' := mkPatObj _ _ _ _ _ _ _ _).
  pose proof (pv_typed _ _ HP _ _ Hc) as Hty%typed_pat. pose proof (pv_apart _ _ HP _ _ Hc (or_introl Hu)) as Hp.
  assert (extends P h P (<[p := CPat o']> h)) as HE by (eapply write_extends; eauto; by apply typed_pat).
  apply (kept_trans P h s P (<[p := CPat o']> h)); [done|]. pose proof (ex_private _ _ _ _ HE) as HP'.
  destruct (alloc _ _) as [l h'] eqn:E. apply (alloc_in P) in E; [|done| |done].
  2: { eapply pv_typed; [apply HP'|]. apply lookup_insert_eq. }
  exists ({[l]} ∪ P). split_and!; [done| |set_solver].
  apply (owns_more P ({[l]} ∪ P)) in Ho as [? ? ? ? ? ? ?]; [|set_solver]. split; cbn; try done. apply in_cells_insert; [set_solver|done].
Qed.

Lemma kept_SavePAT p o st : private P st.1 -> owns P st.2 -> p ∉ P -> st.1 !! p = Some (CPat o) ->
  kept P st (heap_SavePAT now p o st).
Proof.
  intros HP Ho Hp Hc. unfold heap_SavePAT. destruct (heap_requireUser st.2 _); [by apply kept_refl|]. by apply kept_savePATLocked.
Qed.

(** The stored struct of a key, for the calls that return a copy of it. *)
Lemma private_stored l c h : private P h -> l ∈ P -> h !! l = Some c -> typed h c /\ (user_cell c = None -> pointers c ## P).
Proof. intros HP Hl Hc. split; [by eapply pv_typed|]. intros Hu. eapply pv_apart; eauto. Qed.

Lemma kept_GetByID id st : private P st.1 -> owns P st.2 -> kept P st (heap_GetByID id st).
Proof.
  intros HP Ho. unfold heap_GetByID. destruct (stored_user st _) as [o|] eqn:E; [|by apply kept_refl].
  apply (stored_cell _ _ _ _ _ P) in E as (l & c & _ & Hl & Hc & ->%user_cell_some); [|apply Ho].
  apply kept_return_user; [done..|]. by eapply private_stored.
Qed.
Lemma kept_GetByEmail email st : private P st.1 -> owns P st.2 -> kept P st (heap_GetByEmail email st).
Proof.
  intros HP Ho. unfold heap_GetByEmail. destruct (stored_user st _) as [o|] eqn:E; [|by apply kept_refl].
  apply (stored_cell _ _ _ _ _ P) in E as (l & c & _ & Hl & Hc & ->%user_cell_some); [|apply Ho].
  apply kept_return_user; [done..|]. by eapply private_stored.
Qed.

Lemma in_cells_filter `{Countable K} (Q : K * loc -> Prop) `{forall x, Decision (Q x)} (m : gmap K loc) : in_cells P m -> in_cells P (filter Q m).
Proof. intros Hm k l [Hk _]%map_lookup_filter_Some. by eapply Hm. Qed.

Lemma kept_Delete id st : private P st.1 -> owns P st.2 -> kept P st (heap_Delete id st).
Proof.
  destruct st as [h s]. cbn [fst snd]. intros HP Ho. unfold heap_Delete.
  destruct (stored_user _ _) as [o|]; [|by apply kept_refl]. exists P. split_and!; [by apply extends_refl| |set_solver].
  destruct Ho as [? ? ? ? ? ? ?]. split; cbn; try done; first [by apply map_Forall_delete|by apply in_cells_filter].
Qed.

Lemma kept_GetRefreshToken hash st : private P st.1 -> owns P st.2 -> kept P st (heap_GetRefreshToken hash st).
Proof.
  intros HP Ho. unfold heap_GetRefreshToken. destruct (stored_token st _) as [o|] eqn:E; [|by apply kept_refl].
  apply (stored_cell _ _ _ _ _ P) in E as (l & c & _ & Hl & Hc & ->%token_cell_some); [|apply Ho].
  apply private_stored in Hc as [? ?]; [|done..]. apply kept_return_token; auto.
Qed.

Lemma kept_GetPAT hash st : private P st.1 -> owns P st.2 -> kept P st (heap_GetPAT hash st).
Proof.
  intros HP Ho. unfold heap_GetPAT. destruct (stored_pat st _) as [o|] eqn:E; [|by apply kept_refl].
  apply (stored_cell _ _ _ _ _ P) in E as (l & c & _ & Hl & Hc & ->%pat_cell_some); [|apply Ho].
  apply private_stored in Hc as [? Hp]; [|done..]. apply kept_return_copy; auto.
Qed.

Lemma kept_RotateRefreshToken hash st : private P st.1 -> owns P st.2 -> kept P st (heap_RotateRefreshToken now hash st).
Proof.
  destruct st as [h s]. cbn [fst snd]. intros HP Ho. unfold heap_RotateRefreshToken. cbn [fst snd].
  destruct (r_refreshTokens s !! hash) as [l|] eqn:El; [|by apply kept_refl].
  pose proof (ow_tokens _ _ Ho _ _ El) as Hl. cbn in Hl.
  destruct (stored token_cell h (Some l)) as [o|] eqn:E; [|by apply kept_refl]. cbn in E.
  destruct (h !! l) as [c|] eqn:Hc; [|done]. apply token_cell_some in E as ->.
  pose proof (private_stored _ _ _ HP Hl Hc) as [Hty Hp]. specialize (Hp eq_refl).
  destruct (to_Revoked o); [by apply kept_return_token|]. destruct (negb _); [by apply kept_return_token|].
  destruct (alloc _ h) as [p h1] eqn:Ea. pose proof (alloc_spec _ _ _ _ Ea) as (Hnew & Hp1 & Hs1 & _ & Hlv1).
  apply (alloc_out P) in Ea as (HE & _ & HpP); [|done|done|set_solver].
  set (o' := mkTokenObj _ _ _ _ _ _ _ _). pose proof (lookup_weaken _ _ _ _ Hc Hs1) as Hc1.
  assert (pointers (CToken o') ## P) as Hp' by (cbn in Hp |- *; set_solver).
  assert (extends P h1 P (<[l := CToken o']> h1)) as HE2.
  { eapply write_extends; [apply HE|done|done| |by right|done]. apply typed_token in Hty as [_ [x Hx]].
    apply typed_token. cbn [o' to_RotatedAt to_EndedAt]. split; [cbn; by rewrite Hp1|]. exists x. by eapply time_at_leaves. }
  apply (kept_trans P h s P (<[l := CToken o']> h1)); [by eapply extends_trans|].
  apply kept_return_token; [apply HE2|done| |done]. eapply pv_typed; [apply HE2|]. apply lookup_insert_eq.
Qed.

Lemma kept_TouchPAT hash st : private P st.1 -> owns P st.2 -> kept P st (heap_TouchPAT now hash st).
Proof.
  destruct st as [h s]. cbn [fst snd]. intros HP Ho. unfold heap_TouchPAT. cbn [fst snd].
  destruct (r_pats s !! hash) as [l|] eqn:El; [|by apply kept_refl].
  pose proof (ow_pats _ _ Ho _ _ El) as Hl. cbn in Hl.
  destruct (stored pat_cell h (Some l)) as [o|] eqn:E; [|by apply kept_refl]. cbn in E.
  destruct (h !! l) as [c|] eqn:Hc; [|done]. apply pat_cell_some in E as ->.
  pose proof (private_stored _ _ _ HP Hl Hc) as [Hty Hp]. specialize (Hp eq_refl).
  destruct (alloc _ h) as [p h1] eqn:Ea. pose proof (alloc_spec _ _ _ _ Ea) as (Hnew & Hp1 & Hs1 & _ & Hlv1).
  apply (alloc_out P) in Ea as (HE & _ & HpP); [|done|done|set_solver].
  set (o' := mkPatObj _ _ _ _ _ _ _ _). pose proof (lookup_weaken _ _ _ _ Hc Hs1) as Hc1.
  exists P. split_and!; [|done|set_solver]. eapply extends_trans; [done|].
  eapply write_extends; [apply HE|done|done| |by right|cbn in Hp |- *; set_solver].
  apply typed_pat in Hty as ([x Hx] & [y Hy] & _). apply typed_pat. cbn [o' po_Scopes po_ExpiresAt po_LastUsedAt].
  split_and!; [exists x; by eapply strings_at_leaves|exists y; by eapply time_at_leaves|cbn; by rewrite Hp1].
Qed.

(** The loop of [RevokeTokens]. *)
Lemma revoke_extends hash p t order h : private P h -> h !! p = Some (CTime t) -> p ∉ P ->
  extends P h P (foldl (fun h l => alter (revoke_cell hash p) l h) h order).
Proof.
  revert h. induction order as [|l order IH]; intros h HP Hp HpP; [by apply extends_refl|]. cbn [foldl].
  destruct (h !! l) as [c|] eqn:El.
  2: { rewrite alter_id by (intros ? E; congruence). by apply IH. }
  destruct (token_cell c) as [o|] eqn:Ec.
  2: { rewrite alter_id; [by apply IH|]. intros x Hx. assert (x = c) as -> by congruence. by destruct c. }
  apply token_cell_some in Ec as ->. set (h' := alter _ l h).
  assert (h' = <[l := revoke_cell hash p (CToken o)]> h) as Hh'.
  { apply map_eq. intros x. unfold h'. destruct (decide (x = l)) as [->|].
    - by rewrite lookup_alter_eq, lookup_insert_eq, El.
    - by rewrite lookup_alter_ne, lookup_insert_ne. }
  assert (extends P h P h') as HE.
  { rewrite Hh'. pose proof (pv_typed _ _ HP _ _ El) as Hty.
    pose proof (pv_apart _ _ HP _ _ El (or_intror eq_refl)) as Hd.
    cbn [revoke_cell]. destruct (_ || _); [|by eapply write_extends; eauto].
    eapply write_extends; [done|done|done| |by right|].
    - apply typed_token in Hty as [? ?]. apply typed_token. cbn [to_RotatedAt to_EndedAt]. split; [done|].
      destruct (to_EndedAt o); [done|]. cbn. by rewrite Hp.
    - cbn in Hd |- *. destruct (to_EndedAt o); set_solver. }
  eapply extends_trans; [exact HE|]. apply IH; [apply HE| |done].
  rewrite Hh', lookup_insert_ne; [done|]. intros ->. congruence.
Qed.

Lemma kept_RevokeTokens `{RangeOrder} seed hash st : private P st.1 -> owns P st.2 -> kept P st (heap_RevokeTokens now seed hash st).
Proof.
  destruct st as [h s]. cbn [fst snd]. intros HP Ho. unfold heap_RevokeTokens. cbn [fst snd].
  destruct (alloc _ h) as [p h1] eqn:Ea. pose proof (alloc_spec _ _ _ _ Ea) as (_ & Hp1 & _).
  apply (alloc_out P) in Ea as (HE & _ & HpP); [|done|done|set_solver].
  exists P. split_and!; [|done|set_solver]. eapply extends_trans; [done|]. eapply revoke_extends; [apply HE|done|done].
Qed.

(** *** The loops over a map *)

Lemma copies_extends {O} (struct : cell -> option O) (owner : O -> string) userID order h out h' :
  (forall c o, struct c = Some o -> user_cell c = None) -> private P h ->
  copies struct owner userID order h = (out, h') -> extends P h P h' /\ forall l, l ∈ out -> l ∈ dom h' ∖ P.
Proof.
  intros Hk. revert h out. induction order as [|l order IH]; intros h out HP; cbn [copies].
  { intros [= <- <-]. split; [by apply extends_refl|]. by intros l ?%elem_of_nil. }
  destruct (h !! l) as [c|] eqn:Hc; [|by apply IH]. case_bool_decide as Hown; [|by apply IH].
  apply fmap_Some in Hown as (o & Ho & _).
  destruct (alloc c h) as [l' h1] eqn:Ea. destruct (copies _ _ _ order h1) as [out1 h2] eqn:Ec. intros [= <- <-].
  apply (alloc_out P) in Ea as (HE & Hl' & HlP); [|done|by eapply pv_typed|eapply pv_apart; [done..|]; right; eauto].
  apply IH in Ec as [HE2 Hout]; [|apply HE]. split; [by eapply extends_trans|].
  intros x [->|Hx]%elem_of_cons; [|by apply Hout]. pose proof (ex_dom _ _ _ _ HE2). set_solver.
Qed.

Lemma kept_list `{RangeOrder, Countable K} {O} (struct : cell -> option O) (owner : O -> string) created seed userID (m : gmap K loc) st :
  (forall c o, struct c = Some o -> user_cell c = None) -> private P st.1 -> owns P st.2 ->
  kept P st (heap_list struct owner created seed userID m st).
Proof.
  intros Hk HP Ho. unfold heap_list. destruct (copies _ _ _ _ st.1) as [out h'] eqn:Ec.
  apply copies_extends in Ec as [HE Hout]; [|done..]. exists P. split_and!; [done|done|].
  unfold ret_locs. cbn [fst snd ret_ptr ret_ptrs option_locs]. intros l Hl. rewrite union_empty_l_L in Hl.
  apply elem_of_list_to_set in Hl. rewrite sort_newest_perm in Hl. by apply Hout.
Qed.

(** A summary in the making points to the caller's instants. *)
Lemma family_extends root order h family family' h' : private P h ->
  is_Some (time_at h (fo_LastRotatedAt family)) -> option_locs (fo_LastRotatedAt family) ## P ->
  foldl (heap_family_step root) (family, h) order = (family', h') ->
  extends P h P h' /\ is_Some (time_at h' (fo_LastRotatedAt family')) /\ option_locs (fo_LastRotatedAt family') ## P.
Proof.
  revert h family. induction order as [|l order IH]; intros h family HP Ht Hp; cbn [foldl].
  { intros [= <- <-]. split_and!; [by apply extends_refl|done..]. }
  destruct (heap_family_step root (family, h) l) as [family1 h1] eqn:E.
  assert (extends P h P h1 /\ is_Some (time_at h1 (fo_LastRotatedAt family1)) /\ option_locs (fo_LastRotatedAt family1) ## P)
    as (HE & Ht1 & Hp1).
  { unfold heap_family_step in E. pose proof (extends_refl P h HP) as Hrefl.
    destruct (h !! l ≫= token_cell) as [t|]; [|by injection E as <- <-].
    destruct (negb _ && negb _); [by injection E as <- <-|].
    destruct (default None (time_at h (to_RotatedAt t))) as [r|]; [|by injection E as <- <-].
    destruct (match default None _ with Some _ => _ | None => true end); [|by injection E as <- <-].
    destruct (alloc (CTime r) h) as [q h2] eqn:Ea. injection E as <- <-.
    pose proof (alloc_spec _ _ _ _ Ea) as (_ & Hq & _). apply (alloc_out P) in Ea as (HE & _ & HqP); [|done|done|set_solver].
    split; [done|]. cbn. rewrite Hq. split; [done|set_solver]. }
  intros Hf. apply IH in Hf as (HE2 & ? & ?); [|apply HE|done..]. split; [by eapply extends_trans|done].
Qed.

Lemma kept_GetRefreshFamily `{RangeOrder} seed root st : private P st.1 -> owns P st.2 ->
  kept P st (heap_GetRefreshFamily seed root st).
Proof.
  destruct st as [h s]. cbn [fst snd]. intros HP Ho. unfold heap_GetRefreshFamily. cbn [fst snd].
  destruct (foldl (heap_family_step root) _ _) as [family h1] eqn:Ef.
  apply family_extends in Ef as (HE & Ht & Hp); [|done|done|set_solver].
  apply (kept_trans P h s P h1); [done|]. apply kept_return_copy; [apply HE|done|by apply typed_family|done].
Qed.

(** The store with fewer access tokens. *)
Lemma owns_fewer_pats s m : m ⊆ r_pats s -> owns P s -> owns P (set_r_pats m s).
Proof.
  intros Hm [? ? ? Hp ? ? ?]. split; cbn; try done. intros k l Hk. by eapply Hp, lookup_weaken.
Qed.

Lemma limit_submap h userID at_ order acc : (foldl (heap_limit_step h userID at_) acc order).2 ⊆ acc.2.
Proof.
  revert acc. induction order as [|[k l] order IH]; intros acc; [done|]. cbn [foldl]. etransitivity; [apply IH|].
  unfold heap_limit_step. repeat case_match; cbn; try done. apply delete_subseteq.
Qed.

Lemma kept_SavePATLimited `{RangeOrder} seed p o limit at_ st : private P st.1 -> owns P st.2 -> p ∉ P ->
  st.1 !! p = Some (CPat o) -> kept P st (heap_SavePATLimited now seed p o limit at_ st).
Proof.
  intros HP Ho Hp Hc. unfold heap_SavePATLimited. destruct (heap_requireUser st.2 _); [by apply kept_refl|].
  pose proof (limit_submap st.1 (po_UserID o) at_ (range_order seed (map_to_list (r_pats st.2))) (0, r_pats st.2)) as Hm.
  destruct (foldl _ _ _) as [live m]. cbn in Hm. pose proof (owns_fewer_pats _ _ Hm Ho) as Ho'. destruct st as [h s]. cbn [fst snd] in *.
  destruct (limit <=? live); [by apply (kept_refl P (h, set_r_pats m s))|].
  by apply (kept_savePATLocked p o (h, set_r_pats m s)).
Qed.

Lemma kept_DeletePAT `{RangeOrder} seed userID id st : private P st.1 -> owns P st.2 -> kept P st (heap_DeletePAT seed userID id st).
Proof.
  intros HP Ho. unfold heap_DeletePAT. destruct (find _ _) as [[k l]|]; [|by apply kept_refl].
  apply (kept_refl P (st.1, _)); [done|]. cbn. apply owns_fewer_pats; [apply delete_subseteq|done].
Qed.

(** *** Structs without pointers *)

(** The caller's struct is stamped and a copy of it goes into the store. *)
Lemma kept_store h s p c0 c l h' : private P h -> p ∉ P -> h !! p = Some c0 -> same_kind c0 c = true ->
  typed h c -> pointers c = ∅ -> alloc c (<[p := c]> h) = (l, h') -> owns P s ->
  extends P h ({[l]} ∪ P) h' /\ owns ({[l]} ∪ P) s.
Proof.
  intros HP Hp Hc Hs Hty Hn Ha Ho.
  assert (extends P h P (<[p := c]> h)) as HE by (eapply write_extends; [done..|by left|set_solver]).
  apply (alloc_in P) in Ha as HE2; [|apply HE|by eapply pv_typed; [apply HE|apply lookup_insert_eq]|].
  - split; [by eapply extends_trans|]. apply (owns_more P); [set_solver|done].
  - destruct c; cbn in *; set_solver.
Qed.

Lemma kept_SaveOAuthIdentity p i st : private P st.1 -> owns P st.2 -> p ∉ P -> st.1 !! p = Some (COAuth i) ->
  kept P st (heap_SaveOAuthIdentity now p i st).
Proof.
  intros HP Ho Hp Hc. unfold heap_SaveOAuthIdentity. destruct (heap_requireUser st.2 _); [by apply kept_refl|].
  case_bool_decide; [by apply kept_refl|]. destruct (alloc _ _) as [l h'] eqn:Ea.
  eapply kept_store in Ea as [HE Ho']; [|done..]. exists ({[l]} ∪ P). split_and!; [done| |set_solver].
  destruct Ho' as [? ? ? ? ? ? ?]. split; cbn; try done. apply in_cells_insert; [set_solver|done].
Qed.

Lemma kept_SaveWalletIdentity p i st : private P st.1 -> owns P st.2 -> p ∉ P -> st.1 !! p = Some (CWallet i) ->
  kept P st (heap_SaveWalletIdentity now p i st).
Proof.
  intros HP Ho Hp Hc. unfold heap_SaveWalletIdentity. destruct (heap_requireUser st.2 _); [by apply kept_refl|].
  case_bool_decide; [by apply kept_refl|]. destruct (alloc _ _) as [l h'] eqn:Ea.
  eapply kept_store in Ea as [HE Ho']; [|done..]. exists ({[l]} ∪ P). split_and!; [done| |set_solver].
  destruct Ho' as [? ? ? ? ? ? ?]. split; cbn; try done. apply in_cells_insert; [set_solver|done].
Qed.

Lemma kept_SaveChallenge p c st : private P st.1 -> owns P st.2 -> p ∉ P -> st.1 !! p = Some (CChallenge c) ->
  kept P st (heap_SaveChallenge now p c st).
Proof.
  destruct st as [h s]. cbn [fst snd]. intros HP Ho Hp Hc. unfold heap_SaveChallenge. destruct (alloc _ _) as [l h'] eqn:Ea.
  eapply kept_store in Ea as [HE Ho']; [|done..]. exists ({[l]} ∪ P). split_and!; [done| |set_solver].
  destruct Ho' as [? ? ? ? ? ? Hch]. split; cbn; try done. apply in_cells_insert; [set_solver|].
  intros k x [Hk _]%map_lookup_filter_Some. by eapply Hch.
Qed.

Lemma kept_GetOAuthIdentity provider externalID st : private P st.1 -> owns P st.2 ->
  kept P st (heap_GetOAuthIdentity provider externalID st).
Proof.
  intros HP Ho. unfold heap_GetOAuthIdentity. destruct (stored_oauth st _); [|by apply kept_refl].
  apply kept_return_copy; [done|done|done|set_solver].
Qed.
Lemma kept_GetWalletIdentity chain address st : private P st.1 -> owns P st.2 ->
  kept P st (heap_GetWalletIdentity chain address st).
Proof.
  intros HP Ho. unfold heap_GetWalletIdentity. destruct (stored_wallet st _); [|by apply kept_refl].
  apply kept_return_copy; [done|done|done|set_solver].
Qed.

Lemma owns_fewer_challenges s n : owns P s -> owns P (set_r_challenges (delete n (r_challenges s)) s).
Proof. intros [? ? ? ? ? ? ?]. split; cbn; try done. by apply map_Forall_delete. Qed.

Lemma kept_GetChallenge nonce st : private P st.1 -> owns P st.2 -> kept P st (heap_GetChallenge now nonce st).
Proof.
  intros HP Ho. unfold heap_GetChallenge. destruct (stored_challenge st _); [|by apply kept_refl].
  destruct (Before _ _); [by apply (kept_refl P (st.1, _)); [|apply owns_fewer_challenges]|].
  apply kept_return_copy; [done|done|done|set_solver].
Qed.
Lemma kept_DeleteChallenge nonce st : private P st.1 -> owns P st.2 -> kept P st (heap_DeleteChallenge nonce st).
Proof.
  intros HP Ho. unfold heap_DeleteChallenge. case_bool_decide; [|by apply kept_refl].
  apply (kept_refl P (st.1, _)); [done|by apply owns_fewer_challenges].
Qed.

Lemma kept_SavePasswordHash userID hash st : private P st.1 -> owns P st.2 -> kept P st (heap_SavePasswordHash userID hash st).
Proof.
  intros HP Ho. unfold heap_SavePasswordHash. destruct (heap_requireUser st.2 _); [by apply kept_refl|].
  apply (kept_refl P (st.1, _)); [done|]. by destruct Ho.
Qed.
Lemma kept_GetPasswordHash userID st : private P st.1 -> owns P st.2 -> kept P st (heap_GetPasswordHash userID st).
Proof.
  intros HP Ho. unfold heap_GetPasswordHash. destruct (r_passwordHashes st.2 !! userID); [|by apply kept_refl].
  exists P. split_and!; [by apply extends_refl|done|set_solver].
Qed.

Lemma call_kept `{RangeOrder} seed c st rst : private P st.1 -> owns P st.2 -> args c ## P ->
  heap_call now seed c st = Some rst -> kept P st rst.
Proof.
  intros HP Ho Ha. destruct c; cbn [heap_call args] in *; try (intros [= <-]).
  - destruct (st.1 !! u) as [[]|] eqn:E; try done. intros [= <-]. apply kept_Create; set_solver.
  - by apply kept_GetByID.
  - by apply kept_GetByEmail.
  - by apply kept_Delete.
  - destruct (st.1 !! t) as [[]|] eqn:E; try done. intros [= <-]. apply kept_SaveRefreshToken; set_solver.
  - by apply kept_GetRefreshToken.
  - by apply kept_RotateRefreshToken.
  - by apply kept_RevokeTokens.
  - destruct (st.1 !! p) as [[]|] eqn:E; try done. intros [= <-]. apply kept_SavePAT; set_solver.
  - by apply kept_GetPAT.
  - by apply kept_TouchPAT.
  - by apply kept_GetRefreshFamily.
  - destruct (st.1 !! p) as [[]|] eqn:E; try done. intros [= <-]. apply kept_SavePATLimited; set_solver.
  - apply kept_list; [by intros []|done..].
  - by apply kept_DeletePAT.
  - destruct (st.1 !! p) as [[]|] eqn:E; try done. intros [= <-]. apply kept_SaveOAuthIdentity; set_solver.
  - by apply kept_GetOAuthIdentity.
  - apply kept_list; [by intros []|done..].
  - destruct (st.1 !! p) as [[]|] eqn:E; try done. intros [= <-]. apply kept_SaveWalletIdentity; set_solver.
  - by apply kept_GetWalletIdentity.
  - apply kept_list; [by intros []|done..].
  - destruct (st.1 !! p) as [[]|] eqn:E; try done. intros [= <-]. apply kept_SaveChallenge; set_solver.
  - by apply kept_GetChallenge.
  - by apply kept_DeleteChallenge.
  - by apply kept_SavePasswordHash.
  - by apply kept_GetPasswordHash.
Qed.
End kept.

(** ** The program around the store *)

(** The heap, the store, and the cells the rest of the program can reach. *)
Record world := mkWorld { w_mem : mem; w_known : gset loc }.

Definition New_refs : refs := mkRefs ∅ ∅ ∅ ∅ ∅ ∅ ∅ ∅.
Definition start : world := mkWorld (∅, New_refs) ∅.

(** What the code around the store may do: allocate, follow a pointer, write
    through one, call the store (whose mutex makes a call one step). *)
Inductive caller_step `{RangeOrder} : world -> world -> Prop :=
| caller_new h s C c l h' : alloc c h = (l, h') -> typed h c -> pointers c ⊆ C ->
    caller_step (mkWorld (h, s) C) (mkWorld (h', s) ({[l]} ∪ C))
| caller_reads h s C l c : l ∈ C -> h !! l = Some c ->
    caller_step (mkWorld (h, s) C) (mkWorld (h, s) (pointers c ∪ C))
| caller_writes h s C l c0 c : l ∈ C -> h !! l = Some c0 -> same_kind c0 c = true -> typed h c -> pointers c ⊆ C ->
    caller_step (mkWorld (h, s) C) (mkWorld (<[l := c]> h, s) C)
| store_call now seed st C c r st' : args c ⊆ C -> heap_call now seed c st = Some (r, st') ->
    caller_step (mkWorld st C) (mkWorld st' (ret_locs r ∪ C)).

(** The store has cells of its own, and the program knows none of them. *)
Definition owned (P : gset loc) (w : world) : Prop :=
  private P (w_mem w).1 /\ owns P (w_mem w).2 /\ w_known w ## P /\ w_known w ⊆ dom (w_mem w).1 /\ sound_store (w_mem w).

Lemma start_owned : owned ∅ start.
Proof.
  split_and!; [| |set_solver..|]; split; cbn; try (intros k l; by rewrite lookup_empty); done.
Qed.

(** Away from the cells of the store a write cannot reach its users, and keeps
    every struct of its maps. *)
Lemma sound_away `{Countable K} {O A} (struct : cell -> option O) (value : heap -> O -> option A) h h' (m : gmap K loc) P :
  in_cells P m -> sound struct value h m -> (forall l, l ∈ P -> h' !! l = h !! l) ->
  (forall l c, h' !! l = Some c -> typed h' c) -> (forall c o, struct c = Some o -> typed h' c -> is_Some (value h' o)) ->
  sound struct value h' m.
Proof.
  intros Hm Hs HP Hty Hv k l Hk. destruct (Hs k l Hk) as [a (c & o & Hc & Ho & _)%read_some].
  rewrite <- (HP l) in Hc by (by eapply Hm). destruct (Hv c o Ho (Hty _ _ Hc)) as [b Hb].
  exists b. apply read_some. eauto.
Qed.

Lemma view_users_away h h' (m : gmap string loc) P : private P h -> in_cells P m -> (forall l, l ∈ P -> h' !! l = h !! l) ->
  view_users h' m = view_users h m.
Proof.
  intros HPr Hm HP. apply map_eq. intros k. unfold view. rewrite !lookup_omap.
  destruct (m !! k) as [l|] eqn:E; [|done]. cbn. pose proof (Hm _ _ E) as Hl. cbn in Hl.
  unfold read. rewrite HP by done. destruct (h !! l) as [c|] eqn:Ec; [|done]. cbn.
  destruct (user_cell c) as [o|] eqn:Eo; [|done]. apply user_cell_some in Eo as ->. cbn.
  pose proof (pv_roles _ _ HPr l o Hl Ec) as Hr. unfold user_value. destruct (uo_Roles o) as [q|]; [|done]. cbn in Hr |- *.
  by rewrite HP by set_solver.
Qed.

Lemma store_away h h' s P : private P h -> owns P s -> (forall l, l ∈ P -> h' !! l = h !! l) ->
  (forall l c, h' !! l = Some c -> typed h' c) -> sound_store (h, s) -> sound_store (h', s).
Proof.
  intros HPr [? ? ? ? ? ? ?] HP Hty [? ? ? ? ? ? [? ? ?]]. cbn in *.
  split; cbn; try done; [..|split]; (eapply sound_away; [done|done|done|done|]).
  - by intros c o ->%user_cell_some.
  - by intros c o ->%user_cell_some.
  - by intros c o ->%token_cell_some.
  - by intros c o ->%pat_cell_some.
  - by eexists.
  - by eexists.
  - by eexists.
Qed.

(** A write of the program. *)
Lemma caller_write_owned P h s C l c0 c : owned P (mkWorld (h, s) C) -> l ∈ C -> h !! l = Some c0 ->
  same_kind c0 c = true -> typed h c -> pointers c ⊆ C ->
  (forall l', l' ∈ P -> <[l := c]> h !! l' = h !! l') /\ owned P (mkWorld (<[l := c]> h, s) C).
Proof.
  intros (HP & Ho & HC & Hd & Hst) Hl Hc Hs Hty Hp. cbn in *. assert (l ∉ P) as HlP by set_solver.
  assert (forall l', l' ∈ P -> <[l := c]> h !! l' = h !! l') as Haway
    by (intros l' Hl'; rewrite lookup_insert_ne; [done|set_solver]).
  assert (extends P h P (<[l := c]> h)) as HE by (eapply write_extends; [done..|by left|set_solver]).
  split; [done|]. split_and!; cbn; [apply HE|done|done|rewrite dom_insert_L; set_solver|].
  eapply store_away; eauto. apply HE.
Qed.

Lemma caller_step_owned `{RangeUniform} w w' P : owned P w -> caller_step w w' -> exists P', owned P' w'.
Proof.
  intros Hw Hstep. destruct Hstep as [h s C c l h' Ha Hty Hp|h s C l c Hl Hc|h s C l c0 c Hl Hc Hs Hty Hp|now seed st C c r st' Hargs Hcall].
  - destruct Hw as (HP & Ho & HC & Hd & Hst). cbn in *. pose proof (alloc_spec _ _ _ _ Ha) as (_ & _ & Hsub & Hdom & _).
    apply (alloc_out P) in Ha as (HE & ? & ?); [|done|done|set_solver]. exists P.
    split_and!; cbn; [apply HE|done|set_solver|rewrite Hdom; set_solver|]. by eapply store_grows.
  - exists P. destruct Hw as (HP & Ho & HC & Hd & Hst). cbn in *.
    assert (l ∉ P) as HlP by set_solver. pose proof (pv_apart _ _ HP l c Hc (or_introl HlP)) as Hpc.
    pose proof (typed_pointers h c (pv_typed _ _ HP _ _ Hc)). split_and!; cbn; [done|done|set_solver|set_solver|done].
  - exists P. by eapply caller_write_owned.
  - destruct Hw as (HP & Ho & HC & Hd & Hst). cbn in *.
    destruct (call_kept now P seed c st (r, st') HP Ho) as (P' & HE & Ho' & Hret); [set_solver|done|]. cbn in *.
    apply calls_exact in Hcall as [Hst' _]; [|done| |apply HP].
    2: { intros l Hl Hs. apply (owns_structs P) in Hs; [set_solver|done]. }
    destruct HE as [? ? ? ?]. exists P'. split_and!; cbn; [done|done|set_solver|set_solver|done].
Qed.

Lemma reachable_owned `{RangeUniform} w : rtc caller_step start w -> exists P, owned P w.
Proof.
  intros Hw. assert (exists P, owned P start) as Hs by (exists ∅; apply start_owned). induction Hw as [|w1 w2 w3 Hstep _ IH]; [done|].
  apply IH. destruct Hs as [P HP]. by eapply caller_step_owned.
Qed.

(** C32. However the rest of the program uses the pointers it gets from the store
    and hands to it, each call answers what Memory.v says of the values behind
    them, and leaves the store Memory.v says.  In between, what the program writes
    through its own pointers changes no user of the store and no struct its maps
    point to; a write to a struct changes nothing of the store at all. *)
Theorem memory_values_exact `{RangeUniform} h s C : rtc caller_step start (mkWorld (h, s) C) ->
  (forall now seed c r st', args c ⊆ C -> heap_call now seed c (h, s) = Some (r, st') -> exact_call now seed c (h, s) r st') /\
  (forall l c0 c, l ∈ C -> h !! l = Some c0 -> same_kind c0 c = true -> typed h c -> pointers c ⊆ C ->
     let before := as_store (h, s) in
     let after := as_store (<[l := c]> h, s) in
     users after = users before /\ usersByEmail after = usersByEmail before /\
     (forall l', structs s l' -> <[l := c]> h !! l' = h !! l') /\
     (~ is_leaf c0 -> after = before)).
Proof.
  intros [P HP]%reachable_owned. split.
  - intros now seed c r st' Hargs Hcall. destruct HP as (HP & Ho & HC & Hd & Hst). cbn in *.
    apply (calls_exact now seed) in Hcall as [_ ?]; [done|done| |apply HP].
    intros l Hl Hs. apply (owns_structs P) in Hs; [set_solver|done].
  - intros l c0 c Hl Hc Hs Hty Hp before after.
    destruct (caller_write_owned P h s C l c0 c HP Hl Hc Hs Hty Hp) as [Haway _].
    destruct HP as (HP & Ho & HC & Hd & Hst). cbn in *. split_and!.
    + eapply view_users_away; [done|apply Ho|done].
    + eapply view_users_away; [done|apply Ho|done].
    + intros l' Hl'. apply Haway. by eapply owns_structs.
    + intros Hleaf. eapply (store_caller_struct h s l c0 c); [|done..].
      intros Hs'. apply (owns_structs P) in Hs'; [set_solver|done].
Qed.

(** ** A run *)

Definition do_new (c : cell) (w : world) : world :=
  let '(l, h) := alloc c (w_mem w).1 in mkWorld (h, (w_mem w).2) ({[l]} ∪ w_known w).
Definition do_write (l : loc) (c : cell) (w : world) : world :=
  mkWorld (<[l := c]> (w_mem w).1, (w_mem w).2) (w_known w).
Definition do_call `{RangeOrder} (now : time) (c : hcall) (w : world) : world :=
  match heap_call now 0 c (w_mem w) with
  | Some (r, st) => mkWorld st (ret_locs r ∪ w_known w)
  | None => w
  end.

Lemma do_new_step `{RangeOrder} c w : typed (w_mem w).1 c -> pointers c ⊆ w_known w -> caller_step w (do_new c w).
Proof.
  destruct w as [[h s] C]. unfold do_new. cbn [w_mem w_known fst snd]. destruct (alloc c h) as [l h'] eqn:E. intros. by apply (caller_new h s C c l h').
Qed.
Lemma do_call_step `{RangeOrder} now c w : args c ⊆ w_known w -> is_Some (heap_call now 0 c (w_mem w)) ->
  caller_step w (do_call now c w).
Proof.
  destruct w as [st C]. unfold do_call. cbn. intros Ha [[r st'] Hc]. rewrite Hc. by eapply store_call.
Qed.

#[local] Existing Instance listed_order.
#[local] Instance listed_uniform : RangeUniform.
Proof. by intros A B f n l. Qed.

(** A user is created, then an access token of hers with one scope, and the
    token is read. *)
Definition ann : cell := CUser (mkUserObj "u1" "ann@example.com" (Some 1%positive) 5 5).
Definition ci : cell := CPat (mkPatObj "p1" "hash" "u1" "ci" (Some 5%positive) None None 6).
Definition after_ann : world := do_call 5 (HCreate 2) (do_new ann (do_new (CStrings ["user"]) start)).
Definition after_ci : world := do_call 6 (HSavePAT 6) (do_new ci (do_new (CStrings ["read"]) after_ann)).
Definition after_get : world := do_call 7 (HGetPAT "hash") after_ci.

Lemma after_get_reachable : rtc caller_step start after_get.
Proof.
  eapply rtc_r; [|apply do_call_step; [apply (bool_decide_unpack _); by vm_compute|by eexists; vm_compute]].
  eapply rtc_r; [|apply do_call_step; [apply (bool_decide_unpack _); by vm_compute|by eexists; vm_compute]].
  eapply rtc_r; [|apply do_new_step; [by eexists; vm_compute|apply (bool_decide_unpack _); by vm_compute]].
  eapply rtc_r; [|apply do_new_step; [exact I|apply (bool_decide_unpack _); by vm_compute]].
  eapply rtc_r; [|apply do_call_step; [apply (bool_decide_unpack _); by vm_compute|by eexists; vm_compute]].
  eapply rtc_r; [|apply do_new_step; [by eexists; vm_compute|apply (bool_decide_unpack _); by vm_compute]].
  eapply rtc_r; [|apply do_new_step; [exact I|apply (bool_decide_unpack _); by vm_compute]].
  done.
Qed.

(** GetPAT copies the struct alone: the scopes of the token it returns are
    the scopes that the store holds. *)
Lemma GetPAT_shares_scopes : exists l o q,
  heap_call 7 0 (HGetPAT "hash") (w_mem after_ci) = Some (mkReturned (Some l) None, w_mem after_get) /\
  (w_mem after_get).1 !! l = Some (CPat o) /\ po_Scopes o = Some q /\ q ∈ w_known after_get /\
  let written := do_write q (CStrings ["admin"]) after_get in
  pat_Scopes <$> pats (as_store (w_mem after_get)) !! "hash" = Some ["read"] /\
  pat_Scopes <$> pats (as_store (w_mem written)) !! "hash" = Some ["admin"].
Proof.
  eexists 8%positive, _, 5%positive. split; [by vm_compute|]. split; [by vm_compute|].
  split; [done|]. split; [apply (bool_decide_unpack _); by vm_compute|]. by vm_compute.
Qed.

(** The roles of the user that GetByID returns are the caller's own. *)
Lemma memory_values_exact_witness :
  rtc caller_step start after_get /\ args (HGetByID "u1") ⊆ w_known after_get /\
  exists r st', heap_call 8 0 (HGetByID "u1") (w_mem after_get) = Some (r, st') /\
    ret_ptr r <> None /\ exact_call 8 0 (HGetByID "u1") (w_mem after_get) r st'.
Proof.
  split; [exact after_get_reachable|]. split; [apply (bool_decide_unpack _); by vm_compute|].
  destruct (heap_call 8 0 (HGetByID "u1") (w_mem after_get)) as [[r st']|] eqn:E; [|by vm_compute in E].
  exists r, st'. split; [done|]. split; [by vm_compute in E; injection E as <- <-|].
  destruct (memory_values_exact (w_mem after_get).1 (w_mem after_get).2 (w_known after_get)) as [Hcall _].
  - exact after_get_reachable.
  - eapply Hcall; [apply (bool_decide_unpack _); by vm_compute|]. exact E.
Defined.
