(* ===== verification/StoreTheorems.v ===== *)
(** * Guarantees of the in-memory store

    The store implements the documented ports on every state it can reach, for
    every order in which Go may range over its maps; and the guarantees that
    span several calls. *)

From S2P Require Import Prelude GoTime Errors Entity Ports Contract ContractFacts Memory MemoryFacts Histories.

Section memory.
Context `{RangeOrder}.
#[local] Existing Instance memory_backend.

Lemma history_mem_inv s tr s' :
  history s tr s' -> mem_inv s -> ahistory (view s) tr (view s') /\ mem_inv s'.
Proof. exact (history_abstract s tr s'). Qed.

Lemma history_New tr s : history New tr s -> ahistory (view New) tr (view s) /\ mem_inv s.
Proof. intros Hh. apply history_mem_inv; [done|apply New_inv]. Qed.

(** C1. The in-memory store implements its ports: on every store reachable
    from an empty one, every method returns and changes exactly what
    auth/ports.go documents, whatever the order in which maps are ranged
    over, and never fails otherwise; the challenges that go when one is saved are
    those expired by the clock of that call. *)
Theorem memory_implements_ports {X} (c : storeE X) env tr s :
  history New tr s ->
  port_spec c env (view s) (memory_call c env s).1 (view (memory_call c env s).2).
Proof.
  intros [_ Hinv]%history_New. by destruct (memory_call_ok c env s _ _ Hinv (surjective_pairing _)).
Qed.

(** C40. Every reachable in-memory store is well-formed: rows are stored
    under their own keys, every owned row has its owner, non-empty emails are
    unique, and the email index lists exactly the users with an email. *)
Theorem memory_invariant tr s : history New tr s -> mem_inv s.
Proof. by intros [_ ?]%history_New. Qed.

(** A refresh token is rotated at most once: in any history of calls that
    does not store a new token under the same hash, at most one
    [RotateRefreshToken] of that hash succeeds, however many race. *)
Theorem memory_rotate_once h tr0 s tr s' :
  history New tr0 s -> history s tr s' -> Forall (no_save_token h) tr ->
  (count_events (rotated h) tr <= 1)%nat.
Proof.
  intros [_ Hinv]%history_New [Hh _]%history_mem_inv Hall; [|done].
  eapply rotate_once; [exact Hh|apply Hinv|done].
Qed.

(** C17. Ending a session is final: after [RevokeTokens root], and as long as
    no token is stored under the root's own hash, no call of any later history
    rotates a token of the family or saves one into it, and every token of the
    family stays revoked and ended. *)
Theorem memory_session_end_final root tr0 tr s :
  root <> "" -> history New (tr0 ++ Event (RevokeTokens root) (Ok tt) :: tr) s ->
  Forall (no_save_token root) tr ->
  Forall (fun ev => revives root ev = false) tr /\
  (forall h t, refreshTokens s !! h = Some t -> in_family root t = true ->
     rt_Revoked t = true /\ is_Some (rt_EndedAt t)).
Proof.
  intros Hroot [Hh _]%history_New Hall.
  apply ahistory_app in Hh as (a1 & H1 & H2).
  apply ahistory_inv_cons in H2 as (env & a2 & Hok2 & Hc & H3).
  apply ahistory_ok in H1; [|apply New_inv]. apply revoke_ends in Hc; [|done].
  destruct (ended_forever _ _ _ _ H3 Hroot Hok2 Hall Hc) as [? [_ ?]]. done.
Qed.

(** The cap on personal access tokens is never exceeded: if tokens are
    only saved by [SavePATLimited] with a limit of at most [limit], no user
    ever holds more than [limit] of them, whatever the calls and their order. *)
Theorem memory_pat_cap limit tr s :
  0 <= limit -> history New tr s -> Forall (limited_pats limit) tr ->
  forall userID, pat_count userID (pats s) <= limit.
Proof.
  intros Hl [Hh _]%history_New Hall.
  refine (proj1 (ahistory_inv (pats_capped limit) (limited_pats limit) _ _ _ _ Hh (mi_ok _ New_inv) Hall _)).
  - intros X c env x b b' _ _. apply pats_capped_kept.
  - intros uid. unfold pat_count. cbn. by rewrite map_filter_empty, map_size_empty.
Qed.

(** A challenge is consumed at most once: in any history that does not
    save a challenge under the same nonce again, at most one [DeleteChallenge]
    of it succeeds. *)
Theorem memory_challenge_once nonce tr0 s tr s' :
  history New tr0 s -> history s tr s' -> Forall (no_save_challenge nonce) tr ->
  (count_events (consumed nonce) tr <= 1)%nat.
Proof.
  intros [_ Hinv]%history_New [Hh _]%history_mem_inv Hall; [|done].
  eapply consume_once; [exact Hh|apply Hinv|done].
Qed.

(** Deleting an account erases it for good: after a successful [Delete],
    and until the same ID is created again, no later history leaves a user, an
    email-index entry, a token, a password hash or a linked identity of it. *)
Theorem memory_delete_erases id tr0 tr s :
  history New (tr0 ++ Event (Delete id) (Ok tt) :: tr) s -> Forall (no_create id) tr ->
  users s !! id = None /\
  (forall e u, usersByEmail s !! e = Some u -> user_ID u <> id) /\
  (forall h t, refreshTokens s !! h = Some t -> rt_UserID t <> id) /\
  (forall h p, pats s !! h = Some p -> pat_UserID p <> id) /\
  passwordHashes s !! id = None /\
  (forall k i, oauthIdentities s !! k = Some i -> oi_UserID i <> id) /\
  (forall k i, walletIdentities s !! k = Some i -> wi_UserID i <> id).
Proof.
  intros [Hh Hinv]%history_New Hall.
  apply ahistory_app in Hh as (a1 & H1 & H2).
  apply ahistory_inv_cons in H2 as (env & a2 & Hok2 & Hc & H3).
  assert (d_users a2 !! id = None) as Ha by (by eapply delete_removes).
  assert (users s !! id = None) as Hs.
  { refine (proj1 (ahistory_inv (fun b => d_users b !! id = None) (no_create id) _ _ _ _ H3 Hok2 Hall Ha)).
    intros X c env' x b b' _ _. apply user_absent_kept. }
  destruct (absent_owns_nothing (view s) id (mi_ok _ Hinv) Hs) as (? & ? & ? & ? & ?).
  split_and!; try done. intros e u Hl <-. apply (mi_index _ Hinv) in Hl as (_ & _ & Hu).
  cbn in Hu. congruence.
Qed.
End memory.

(** ** A session replayed *)

Module Example.
Definition at_ (t : time) : callenv := mkCallenv t 0.
Definition alice : User := mkUser "u1" "alice@example.com" [] 0 0.
Definition root : RefreshToken := mkRefreshToken "r" "u1" "" 1000 10 false None None.
Definition child : RefreshToken := mkRefreshToken "c" "u1" "r" 1000 20 false None None.
Definition pat (hash : string) : PersonalAccessToken :=
  mkPAT hash hash "u1" "ci" [] None None 30.
Definition challenge : Challenge := mkChallenge "n" "" "" "" "" "" "" 500 1.

(** Sign-in, two racing refreshes, the winner's successor. *)
Definition session : list step_call :=
  [ Call (Create alice) (at_ 5); Call (SaveRefreshToken root) (at_ 10) ].
Definition race : list step_call :=
  [ Call (RotateRefreshToken "r" 15) (at_ 15); Call (RotateRefreshToken "r" 16) (at_ 16);
    Call (SaveRefreshToken child) (at_ 20) ].
(** After logout: a late save, a late refresh. *)
Definition late : list step_call :=
  [ Call (SaveRefreshToken child) (at_ 40); Call (RotateRefreshToken "c" 41) (at_ 41) ].
Definition saves : list step_call :=
  [ Call (SavePATLimited (pat "p1") 2 30) (at_ 30); Call (SavePATLimited (pat "p2") 2 31) (at_ 31);
    Call (SavePATLimited (pat "p3") 2 32) (at_ 32) ].
Definition sign_in : list step_call :=
  [ Call (DeleteChallenge "n") (at_ 3); Call (DeleteChallenge "n") (at_ 4) ].

#[local] Existing Instance listed_order.
#[local] Existing Instance memory_backend.

Definition events (l : list step_call) : list event := (play l New).1.
Definition reached (l : list step_call) : Store := (play l New).2.

Ltac each_event := vm_compute; repeat constructor; intros; simplify_eq; try done.

Lemma memory_implements_ports_witness :
  let s := reached (session ++ race) in
  port_spec (RevokeTokens "r") (at_ 30) (view s) (Ok tt)
    (view (memory_call (RevokeTokens "r") (at_ 30) s).2).
Proof.
  exact (memory_implements_ports (RevokeTokens "r") (at_ 30) (events (session ++ race)) _
           (play_history (session ++ race) New)).
Defined.

Lemma memory_invariant_witness : mem_inv (reached (session ++ race)).
Proof. exact (memory_invariant _ _ (play_history (session ++ race) New)). Defined.

Lemma memory_rotate_once_witness :
  count_events (rotated "r") (play race (reached session)).1 = 1%nat /\
  (count_events (rotated "r") (play race (reached session)).1 <= 1)%nat.
Proof.
  split; [vm_compute; reflexivity|].
  apply (memory_rotate_once "r" (events session) (reached session) _ (play race (reached session)).2).
  - apply (play_history session New).
  - apply play_history.
  - each_event.
Defined.

Lemma memory_session_end_final_witness :
  Forall (fun ev => revives "r" ev = false) (play late (reached (session ++ race ++ [Call (RevokeTokens "r") (at_ 30)]))).1.
Proof.
  refine (proj1 (memory_session_end_final "r" (events (session ++ race)) _
    (reached (session ++ race ++ Call (RevokeTokens "r") (at_ 30) :: late)) _ _ _)).
  - done.
  - exact (play_history (session ++ race ++ Call (RevokeTokens "r") (at_ 30) :: late) New).
  - each_event.
Defined.

Lemma memory_pat_cap_witness :
  pat_count "u1" (pats (reached (session ++ saves))) = 2 /\
  pat_count "u1" (pats (reached (session ++ saves))) <= 2.
Proof.
  split; [vm_compute; reflexivity|].
  apply (memory_pat_cap 2 (events (session ++ saves)) (reached (session ++ saves))).
  - lia.
  - apply (play_history (session ++ saves) New).
  - repeat (apply Forall_cons_2; [intros p l Hp; cbn in Hp; simplify_eq; exists 2; by split|]).
    apply Forall_nil_2.
Defined.

Lemma memory_challenge_once_witness :
  let s := reached [Call (SaveChallenge challenge) (at_ 1)] in
  count_events (consumed "n") (play sign_in s).1 = 1%nat /\
  (count_events (consumed "n") (play sign_in s).1 <= 1)%nat.
Proof.
  split; [vm_compute; reflexivity|].
  apply (memory_challenge_once "n" (events [Call (SaveChallenge challenge) (at_ 1)])
    (reached [Call (SaveChallenge challenge) (at_ 1)]) _
    (play sign_in (reached [Call (SaveChallenge challenge) (at_ 1)])).2).
  - apply (play_history [Call (SaveChallenge challenge) (at_ 1)] New).
  - apply play_history.
  - each_event.
Defined.

Lemma memory_delete_erases_witness :
  let s := reached (session ++ Call (Delete "u1") (at_ 30) :: saves) in users s !! "u1" = None.
Proof.
  refine (proj1 (memory_delete_erases "u1" (events session) _
    (reached (session ++ Call (Delete "u1") (at_ 30) :: saves)) _ _)).
  - exact (play_history (session ++ Call (Delete "u1") (at_ 30) :: saves) New).
  - each_event.
Defined.
End Example.
