(* ===== verification/Sql.v ===== *)
(** * SQL as the PostgreSQL store uses it

    The tables of migrations/20261031173145_baseline_v0_6_0.sql with their
    constraints, the statements store/postgres/postgres.go sends, and programs
    of such statements.  A table is a set of rows under their primary key; a
    row is a record whose nullable columns are options.  [exec] is what one
    statement does to the tables as it sees them; [run_sql] runs a program of
    statements on one connection, in and out of a transaction.

    The server's input conversions are a parameter ([PgTypes]): a uuid is read
    in any spelling and kept in one, a text may be refused, an instant is kept
    to the microsecond.  So is the connection ([Driver]): a statement may fail at
    any moment, its effect applied or not; and the order in which the server
    returns rows ([ScanOrder]). *)

From S2P Require Import Prelude GoTime Errors Entity Ports Contract.

(** ** Column types *)

Class PgTypes := {
  uuid_in : string -> option string;                 (* uuid, in canonical text *)
  text_in : option nat -> string -> option string;   (* text, or varchar(n) *)
  timestamptz_in : time -> option time
}.

Class ScanOrder := {
  scan : forall {A : Type}, nat -> list A -> list A;
  scan_perm : forall {A : Type} (n : nat) (l : list A), scan n l ≡ₚ l
}.

(** What becomes of a statement: [None] is success; [Some (applied, text)] the
    error the driver reports, the statement executed or not. *)
Class Driver := driver : nat -> nat -> option (bool * string).

(** The server's clock during a call. *)
Class ServerClock := server_now : callenv -> time.

(** ** Tables *)

Inductive tname :=
| T_users | T_local_credentials | T_refresh_tokens | T_personal_access_tokens
| T_oauth_identities | T_wallet_identities | T_auth_challenges.

#[export] Instance tname_eq_dec : EqDecision tname.
Proof. solve_decision. Defined.
#[export, refine] Instance tname_countable : Countable tname :=
  inj_countable' (fun t => match t with
    | T_users => 0 | T_local_credentials => 1 | T_refresh_tokens => 2
    | T_personal_access_tokens => 3 | T_oauth_identities => 4
    | T_wallet_identities => 5 | T_auth_challenges => 6 end)%nat
  (fun n => match n with
    | 0 => T_users | 1 => T_local_credentials | 2 => T_refresh_tokens
    | 3 => T_personal_access_tokens | 4 => T_oauth_identities
    | 5 => T_wallet_identities | _ => T_auth_challenges end)%nat _.
Proof. by intros []. Defined.

Record users_row := mkUsersRow {
  u_id : string; u_email : option string; u_roles : list string;
  u_created_at : time; u_updated_at : time
}.
Record local_credentials_row := mkCredentialsRow {
  lc_user_id : string; lc_password_hash : string; lc_created_at : time; lc_updated_at : time
}.

(** The columns of the other tables are the fields of the entities. *)
Inductive row :=
| RUser (r : users_row)
| RCredentials (r : local_credentials_row)
| RToken (t : RefreshToken)
| RPat (p : PersonalAccessToken)
| ROAuth (i : OAuthIdentity)
| RWallet (i : WalletIdentity)
| RChallenge (c : Challenge).

Definition table_of (r : row) : tname :=
  match r with
  | RUser _ => T_users | RCredentials _ => T_local_credentials | RToken _ => T_refresh_tokens
  | RPat _ => T_personal_access_tokens | ROAuth _ => T_oauth_identities
  | RWallet _ => T_wallet_identities | RChallenge _ => T_auth_challenges
  end.

(** PRIMARY KEY *)
Definition primary_key (r : row) : string :=
  match r with
  | RUser u => u_id u
  | RCredentials c => lc_user_id c
  | RToken t => rt_Hash t
  | RPat p => pat_ID p
  | ROAuth i => oi_ID i
  | RWallet i => wi_ID i
  | RChallenge c => ch_Nonce c
  end.

(** The unique indexes besides: a NULL is equal to nothing. *)
Definition unique_index (r : row) : option (list string) :=
  match r with
  | RUser u => (fun e => [e]) <$> u_email u
  | RPat p => Some [pat_Hash p]
  | ROAuth i => Some [oi_Provider i; oi_ExternalID i]
  | RWallet i => Some [wi_Chain i; wi_Address i]
  | RCredentials _ | RToken _ | RChallenge _ => None
  end.

(** FOREIGN KEY (user_id) REFERENCES users (id) ON DELETE CASCADE *)
Definition references (r : row) : option string :=
  match r with
  | RUser _ | RChallenge _ => None
  | RCredentials c => Some (lc_user_id c)
  | RToken t => Some (rt_UserID t)
  | RPat p => Some (pat_UserID p)
  | ROAuth i => Some (oi_UserID i)
  | RWallet i => Some (wi_UserID i)
  end.

Abbreviation rowkey := (tname * string)%type (only parsing).
Definition key_of (r : row) : rowkey := (table_of r, primary_key r).

(** The rows of every table. *)
Abbreviation rowset := (gmap rowkey row) (only parsing).

(** Two rows that a primary key or a unique index keeps apart. *)
Definition conflicts (r r' : row) : bool :=
  bool_decide (key_of r = key_of r') ||
  bool_decide (table_of r = table_of r') &&
  match unique_index r with Some k => bool_decide (unique_index r' = Some k) | None => false end.

(** A row as the server keeps it, or [None] when it refuses a value: 22P02,
    22001, 22021 and the like. *)
Class Table (A : Type) := {
  inj : A -> row;
  prj : row -> option A;
  column_in : A -> option A
}.

Definition option_in {A} (f : A -> option A) (x : option A) : option (option A) :=
  match x with None => Some None | Some a => Some <$> f a end.

Section tables.
Context `{PgTypes}.

#[export] Instance users_table : Table users_row := {|
  inj := RUser;
  prj r := match r with RUser u => Some u | _ => None end;
  column_in u :=
    id ← uuid_in (u_id u);
    email ← option_in (text_in (Some 255%nat)) (u_email u);
    roles ← mapM (text_in None) (u_roles u);
    created ← timestamptz_in (u_created_at u);
    updated ← timestamptz_in (u_updated_at u);
    Some (mkUsersRow id email roles created updated)
|}.

#[export] Instance local_credentials_table : Table local_credentials_row := {|
  inj := RCredentials;
  prj r := match r with RCredentials c => Some c | _ => None end;
  column_in c :=
    id ← uuid_in (lc_user_id c);
    h ← text_in None (lc_password_hash c);
    Some (mkCredentialsRow id h (lc_created_at c) (lc_updated_at c))
|}.

#[export] Instance refresh_tokens_table : Table RefreshToken := {|
  inj := RToken;
  prj r := match r with RToken t => Some t | _ => None end;
  column_in t :=
    h ← text_in (Some 255%nat) (rt_Hash t);
    uid ← uuid_in (rt_UserID t);
    parent ← text_in (Some 255%nat) (rt_Parent t);
    expires ← timestamptz_in (rt_ExpiresAt t);
    created ← timestamptz_in (rt_CreatedAt t);
    rotated ← option_in timestamptz_in (rt_RotatedAt t);
    ended ← option_in timestamptz_in (rt_EndedAt t);
    Some (mkRefreshToken h uid parent expires created (rt_Revoked t) rotated ended)
|}.

#[export] Instance personal_access_tokens_table : Table PersonalAccessToken := {|
  inj := RPat;
  prj r := match r with RPat p => Some p | _ => None end;
  column_in p :=
    id ← uuid_in (pat_ID p);
    h ← text_in (Some 255%nat) (pat_Hash p);
    uid ← uuid_in (pat_UserID p);
    name ← text_in None (pat_Name p);
    scopes ← mapM (text_in None) (pat_Scopes p);
    expires ← option_in timestamptz_in (pat_ExpiresAt p);
    used ← option_in timestamptz_in (pat_LastUsedAt p);
    created ← timestamptz_in (pat_CreatedAt p);
    Some (mkPAT id h uid name scopes expires used created)
|}.

#[export] Instance oauth_identities_table : Table OAuthIdentity := {|
  inj := ROAuth;
  prj r := match r with ROAuth i => Some i | _ => None end;
  column_in i :=
    id ← uuid_in (oi_ID i);
    uid ← uuid_in (oi_UserID i);
    provider ← text_in (Some 50%nat) (oi_Provider i);
    external ← text_in (Some 255%nat) (oi_ExternalID i);
    email ← text_in (Some 255%nat) (oi_Email i);
    created ← timestamptz_in (oi_CreatedAt i);
    Some (mkOAuthIdentity id uid provider external email created)
|}.

#[export] Instance wallet_identities_table : Table WalletIdentity := {|
  inj := RWallet;
  prj r := match r with RWallet i => Some i | _ => None end;
  column_in i :=
    id ← uuid_in (wi_ID i);
    uid ← uuid_in (wi_UserID i);
    chain ← text_in (Some 50%nat) (wi_Chain i);
    addr ← text_in (Some 255%nat) (wi_Address i);
    created ← timestamptz_in (wi_CreatedAt i);
    Some (mkWalletIdentity id uid chain addr created)
|}.

#[export] Instance auth_challenges_table : Table Challenge := {|
  inj := RChallenge;
  prj r := match r with RChallenge c => Some c | _ => None end;
  column_in c :=
    nonce ← text_in (Some 255%nat) (ch_Nonce c);
    message ← text_in None (ch_Message c);
    chain ← text_in (Some 50%nat) (ch_Chain c);
    addr ← text_in (Some 255%nat) (ch_Address c);
    verifier ← text_in None (ch_CodeVerifier c);
    ononce ← text_in None (ch_OAuthNonce c);
    binding ← text_in (Some 64%nat) (ch_BindingHash c);
    expires ← timestamptz_in (ch_ExpiresAt c);
    created ← timestamptz_in (ch_CreatedAt c);
    Some (mkChallenge nonce message chain addr verifier ononce binding expires created)
|}.
End tables.

(** ** Statements *)

Inductive rowlock := FOR_SHARE | FOR_UPDATE | FOR_NO_KEY_UPDATE.

(** A statement and the rows it affects or returns.  [BIND] passes an
    argument the server has to read as a value of its column's type; a clause
    takes the server's [now()] cond it uses it. *)
Inductive query : Type -> Type :=
| BIND {B A} (arg : option B) (q : B -> query A) : query A
| INSERT {A} `{Table A} (a : A) : query A
| INSERT_UPDATING {A} `{Table A} (a : time -> A) (set : time -> A -> A -> A) : query A
    (* INSERT ... ON CONFLICT (<primary key>) DO UPDATE SET, from the proposed row *)
| INSERT_WHILE {A} `{Table A} (a : A) (cond : A -> bool) (limit : Z) : query A
    (* INSERT ... SELECT ... WHERE (SELECT count( * ) WHERE <cond>) < limit *)
| UPDATE {A} `{Table A} (cond : A -> bool) (set : time -> A -> A) : query A
| DELETE {A} `{Table A} (cond : time -> A -> bool) : query A
| SELECT {A} `{Table A} (cond : A -> bool) : query A
| SELECT_NEWEST {A} `{Table A} (cond : A -> bool) (created : A -> time) : query A
    (* ORDER BY created_at DESC *)
| SELECT_FOR {A} `{Table A} (l : rowlock) (cond : A -> bool) : query A
| AGGREGATE {A B} `{Table A} (cond : A -> bool) (agg : list A -> B) : query B.

(** What a statement reports when it fails. *)
Inductive dberr :=
| PgError (code : string)     (* *pgconn.PgError *)
| ErrNoRows                   (* pgx.ErrNoRows *)
| ConnError (text : string).  (* the connection, the driver *)

Inductive dbres (A : Type) : Type :=
| Good (a : A)
| Bad (e : dberr).
Arguments Good {A} a.
Arguments Bad {A} e.

(** https://www.postgresql.org/docs/current/errcodes-appendix.html *)
Definition invalid_value : string := "22000".
Definition unique_violation : string := "23505".
Definition foreign_key_violation : string := "23503".
Definition in_failed_transaction : string := "25P02".

Definition rows {A} `{Table A} (D : rowset) : list A := omap prj (map_to_list D).*2.

(** The rows a clause selects, in the order the server returns them. *)
Definition matching `{ScanOrder} {A} `{Table A} (cond : A -> bool) (seed : nat) (D : rowset) : list A :=
  filter (fun a => cond a = true) (scan seed (rows D)).

(** A typed clause, on the rows of every table. *)
Definition on_row {A} `{Table A} (f : A -> bool) (r : row) : bool :=
  match prj r with Some a => f a | None => false end.

Definition newest_first {A} (created : A -> time) (x y : A) : Prop := created y <= created x.
#[export] Instance newest_first_dec {A} (created : A -> time) x y : Decision (newest_first created x y).
Proof. unfold newest_first. apply _. Defined.

Definition insert_row {A} `{Table A} (a : A) (D : rowset) : dbres (list A) * rowset :=
  match column_in a with
  | None => (Bad (PgError invalid_value), D)
  | Some a =>
      let r := inj a in
      if existsb (conflicts r) (map_to_list D).*2 then (Bad (PgError unique_violation), D)
      else
        let inserted := (Good [a], <[key_of r := r]> D) in
        match references r with
        | None => inserted
        | Some uid =>
            match D !! (T_users, uid) with
            | Some _ => inserted
            | None => (Bad (PgError foreign_key_violation), D)
            end
        end
  end.

Definition update_rows {A} `{Table A} (cond : A -> bool) (set : A -> A) (D : rowset) : rowset :=
  (fun r => match prj r with Some a => if cond a then inj (set a) else r | None => r end) <$> D.

(** The rows go, and with a user the rows that reference it. *)
Definition delete_rows (cond : row -> bool) (D : rowset) : rowset :=
  filter (fun kv => negb (cond kv.2) &&
    match references kv.2 with
    | Some uid => match D !! (T_users, uid) with Some u => negb (cond u) | None => true end
    | None => true
    end = true) D.

#[global] Arguments column_in : simpl never.
#[global] Arguments matching : simpl never.
#[global] Arguments insert_row : simpl never.
#[global] Arguments update_rows : simpl never.
#[global] Arguments delete_rows : simpl never.

(** No statement of the store updates a key or a reference. *)
Fixpoint exec `{ScanOrder} {A} (now : time) (seed : nat) (q : query A) (D : rowset)
  : dbres (list A) * rowset :=
  match q in query A return dbres (list A) * rowset with
  | BIND None _ => (Bad (PgError invalid_value), D)
  | BIND (Some b) q => exec now seed (q b) D
  | INSERT a => insert_row a D
  | INSERT_UPDATING a set =>
      match column_in (a now) with
      | None => (Bad (PgError invalid_value), D)
      | Some a' =>
          match D !! key_of (inj a') with
          | Some _ =>
              (Good [a'],
               update_rows (fun x => bool_decide (key_of (inj x) = key_of (inj a'))) (set now a') D)
          | None => insert_row (a now) D
          end
      end
  | INSERT_WHILE a cond limit =>
      match column_in a with
      | None => (Bad (PgError invalid_value), D)
      | Some _ =>
          if Z.of_nat (length (filter (fun x => cond x = true) (rows D))) <? limit
          then insert_row a D else (Good [], D)
      end
  | UPDATE cond set =>
      (Good (set now <$> matching cond seed D),
       update_rows cond (set now) D)
  | DELETE cond =>
      (Good (matching (cond now) seed D),
       delete_rows (on_row (cond now)) D)
  | SELECT cond | SELECT_FOR _ cond =>
      (Good (matching cond seed D), D)
  | SELECT_NEWEST cond created =>
      (Good (merge_sort (newest_first created)
               (matching cond seed D)), D)
  | AGGREGATE cond agg =>
      (Good [agg (matching cond seed D)], D)
  end.

(** ** Programs of statements *)

Inductive sqlE : Type -> Type :=
| Query {A} (q : query A) : sqlE (dbres (list A))
| BeginTx : sqlE (dbres unit)
| CommitTx : sqlE (dbres unit)
| RollbackTx : sqlE unit
| ClientNow : sqlE time.    (* time.Now() *)

Inductive sqlprog (A : Type) : Type :=
| Done (a : A)
| Send {X : Type} (e : sqlE X) (k : X -> sqlprog A).
Arguments Done {A} a.
Arguments Send {A X} e k.

Fixpoint sql_bind {A B} (p : sqlprog A) (f : A -> sqlprog B) : sqlprog B :=
  match p with
  | Done a => f a
  | Send e k => Send e (fun x => sql_bind (k x) f)
  end.

Declare Scope sql_scope.
Delimit Scope sql_scope with sql.
Notation "'let!' x := p 'in' q" := (sql_bind p (fun x => q))
  (at level 200, x name, p at level 100, q at level 200, right associativity) : sql_scope.

Definition send {X} (e : sqlE X) : sqlprog X := Send e Done.

(** [pool.Exec], [tx.Exec]: the number of rows affected. *)
Definition Exec {A} (q : query A) : sqlprog (dbres Z) :=
  (let! r := send (Query q) in
   Done (match r with Good l => Good (Z.of_nat (length l)) | Bad e => Bad e end))%sql.

(** [QueryRow(...).Scan(...)]: the first row. *)
Definition QueryRow {A} (q : query A) : sqlprog (dbres A) :=
  (let! r := send (Query q) in
   Done (match r with Good (x :: _) => Good x | Good [] => Bad ErrNoRows | Bad e => Bad e end))%sql.

(** [pool.Query] with [rows.Next] to the end. *)
Definition QueryRows {A} (q : query A) : sqlprog (dbres (list A)) := send (Query q).

(** ** Running a program on a connection *)

Inductive txstate := Idle | InTx (own : rowset) | FailedTx.
Record conn := mkConn { committed : rowset; tx : txstate }.

Section run.
Context `{ScanOrder, Driver, ServerClock} (env : callenv).

(** Outside a transaction a statement commits by itself; inside, it sees and
    makes the transaction's own changes, and an error spoils the transaction. *)
Definition send_query {A} (n : nat) (q : query A) (c : conn) : dbres (list A) * conn :=
  let run D := exec (server_now env) (ce_seed env + n) q D in
  match driver (ce_seed env) n, tx c with
  | None, Idle => let '(x, D) := run (committed c) in (x, mkConn D Idle)
  | None, InTx own =>
      match run own with
      | (Good l, own) => (Good l, mkConn (committed c) (InTx own))
      | (Bad e, _) => (Bad e, mkConn (committed c) FailedTx)
      end
  | None, FailedTx => (Bad (PgError in_failed_transaction), c)
  | Some (applied, text), Idle =>
      (Bad (ConnError text),
       if applied : bool then mkConn (run (committed c)).2 Idle else c)
  | Some (_, text), _ => (Bad (ConnError text), mkConn (committed c) FailedTx)
  end.

Definition send_commit (n : nat) (c : conn) : dbres unit * conn :=
  match driver (ce_seed env) n, tx c with
  | None, InTx own => (Good tt, mkConn own Idle)
  | None, _ => (Bad (ConnError "commit unexpectedly resulted in rollback"), mkConn (committed c) Idle)
  | Some (true, text), InTx own => (Bad (ConnError text), mkConn own Idle)
  | Some (_, text), _ => (Bad (ConnError text), mkConn (committed c) Idle)
  end.

Definition send_begin (n : nat) (c : conn) : dbres unit * conn :=
  match driver (ce_seed env) n with
  | None => (Good tt, mkConn (committed c) (InTx (committed c)))
  | Some (_, text) => (Bad (ConnError text), c)
  end.

Definition step {X} (n : nat) (e : sqlE X) : conn -> X * conn :=
  match e in sqlE X return conn -> X * conn with
  | Query q => send_query n q
  | BeginTx => send_begin n
  | CommitTx => send_commit n
  | RollbackTx => fun c => (tt, mkConn (committed c) Idle)
  | ClientNow => fun c => (ce_now env, c)
  end.

Fixpoint run_sql {A} (p : sqlprog A) (n : nat) (c : conn) : A * conn :=
  match p with
  | Done a => (a, c)
  | Send e k => let '(x, c) := step n e c in run_sql (k x) (S n) c
  end.
End run.
