(* ===== verification/Postgres.v ===== *)
(** * The PostgreSQL store (store/postgres/postgres.go)

    A method is a program of the statements it sends, in the order it sends
    them, with its error handling; [pgx.BeginFunc] runs a function in a
    transaction.  As an implementation of the ports, a call runs its program
    on a connection of its own ([pg_call]). *)

From S2P Require Import Prelude GoTime Errors Entity Ports Contract Sql.

Local Open Scope sql_scope.

(** ** The store and its tables *)

Definition pqUniqueViolation : string := "23505".
Definition pqForeignKeyViolation : string := "23503".
Definition DefaultQueryTimeout : string := "5000".

Record Store := mkStore {
  tablePrefix : string;
  tableUsers : string;
  tableLocalCredentials : string;
  tableRefreshTokens : string;
  tablePATs : string;
  tableOAuthIdentities : string;
  tableWalletIdentities : string;
  tableChallenges : string
}.

Definition initTableNames (prefix : string) : Store :=
  mkStore prefix
    (prefix ++ "users") (prefix ++ "local_credentials") (prefix ++ "refresh_tokens")
    (prefix ++ "personal_access_tokens") (prefix ++ "oauth_identities")
    (prefix ++ "wallet_identities") (prefix ++ "auth_challenges").

(** An [Option] sets the prefix: the last one given counts. *)
Inductive Option := WithTablePrefix (prefix : string).

Definition New (opts : list Option) : Store :=
  initTableNames (foldl (fun _ opt => match opt with WithTablePrefix p => p end) ""%string opts).

(** The name under which the store addresses a table. *)
Definition table_name (s : Store) (t : tname) : string :=
  match t with
  | T_users => tableUsers s
  | T_local_credentials => tableLocalCredentials s
  | T_refresh_tokens => tableRefreshTokens s
  | T_personal_access_tokens => tablePATs s
  | T_oauth_identities => tableOAuthIdentities s
  | T_wallet_identities => tableWalletIdentities s
  | T_auth_challenges => tableChallenges s
  end.

(** pgx's pool: parsing a DSN, opening a pool, pinging it.  A configuration is
    its [RuntimeParams], a nil map being empty, and the rest of it. *)
Class Pgxpool := {
  pool : Type;
  pool_config : Type;
  ParseConfig : string -> res (gmap string string * pool_config);
  NewWithConfig : gmap string string * pool_config -> res pool;
  pool_Ping : pool -> option error
}.

Definition NewWithDSN `{Pgxpool} (dsn : string) (opts : list Option) : res (pool * Store) :=
  match ParseConfig dsn with
  | Err err => Err (wrap "parse dsn" err)
  | Ok (params, rest) =>
      let params := match params !! "statement_timeout"%string with
                    | Some _ => params
                    | None => <["statement_timeout"%string := DefaultQueryTimeout]> params
                    end in
      match NewWithConfig (params, rest) with
      | Err err => Err (wrap "create pool" err)
      | Ok p =>
          match pool_Ping p with
          | Some err => Err (wrap "ping" err)
          | None => Ok (p, New opts)
          end
      end
  end.

(** ** Errors *)

(** The driver's error as a Go error: none of the program's. *)
Definition pg_error (e : dberr) : error :=
  EForeign (match e with
            | PgError code => "SQLSTATE " ++ code
            | ErrNoRows => "no rows in result set"
            | ConnError text => text
            end).

Definition isDuplicateKeyError (e : dberr) : bool :=
  match e with PgError code => strEq code pqUniqueViolation | _ => false end.

Definition insertError (op userID : string) (e : dberr) : error :=
  match e with
  | PgError code =>
      if strEq code pqForeignKeyViolation then wrapS store.ErrUserNotFound userID
      else wrap op (pg_error e)
  | _ => wrap op (pg_error e)
  end.

(** [errors.Is(err, pgx.ErrNoRows)] *)
Definition isNoRows (e : dberr) : bool := match e with ErrNoRows => true | _ => false end.

(** [pgx.BeginFunc]: commit when the function succeeds, else roll back. *)
Definition BeginFunc (f : sqlprog (option error)) : sqlprog (option error) :=
  let! b := send BeginTx in
  match b with
  | Bad e => Done (Some (pg_error e))
  | Good _ =>
      let! r := f in
      match r with
      | Some err => let! _x := send RollbackTx in Done (Some err)
      | None =>
          let! c := send CommitTx in
          Done (match c with Good _ => None | Bad e => Some (pg_error e) end)
      end
  end.

Definition ok_unless {A} (a : A) (err : option error) : res A :=
  match err with None => Ok a | Some err => Err err end.

Section store.
Context `{PgTypes}.

(** ** UserStore *)

Definition pg_Create (user : User) : sqlprog (res User) :=
  let! now := send ClientNow in
  let user := mkUser (user_ID user) (user_Email user) (user_Roles user)
                (stamp (user_CreatedAt user) now) (stamp (user_UpdatedAt user) now) in
  let email := if negb (strEq (user_Email user) "") then Some (user_Email user) else None in
  let! r := Exec (INSERT (mkUsersRow (user_ID user) email (user_Roles user)
                            (user_CreatedAt user) (user_UpdatedAt user))) in
  Done (match r with
        | Bad err =>
            if isDuplicateKeyError err then Err (wrapS store.ErrUserExists (user_Email user))
            else Err (wrap "insert user" (pg_error err))
        | Good _ => Ok user
        end).

Definition scanUser (r : users_row) : User :=
  mkUser (u_id r) (match u_email r with Some email => email | None => "" end)
    (u_roles r) (u_created_at r) (u_updated_at r).

Definition pg_GetByID (id : string) : sqlprog (res User) :=
  let! r := QueryRow (BIND (uuid_in id) (fun id => SELECT (fun u => strEq (u_id u) id))) in
  Done (match r with
        | Bad err =>
            if isNoRows err then Err (wrapS store.ErrUserNotFound id)
            else Err (wrap "query user" (pg_error err))
        | Good r => Ok (scanUser r)
        end).

Definition pg_GetByEmail (email : string) : sqlprog (res User) :=
  if strEq email "" then Done (Err (EWrap [] store.ErrUserNotFound [Lit ": empty email"]))
  else
    let! r := QueryRow (BIND (text_in None email) (fun email =>
                SELECT (fun u => bool_decide (u_email u = Some email)))) in
    Done (match r with
          | Bad err =>
              if isNoRows err then Err (wrapS store.ErrUserNotFound email)
              else Err (wrap "query user" (pg_error err))
          | Good r => Ok (scanUser r)
          end).

Definition pg_Delete (id : string) : sqlprog (res unit) :=
  let! r := Exec (BIND (uuid_in id) (fun id => DELETE (fun _ u => strEq (u_id u) id))) in
  Done (match r with
        | Bad err => Err (wrap "delete user" (pg_error err))
        | Good n => if n =? 0 then Err (wrapS store.ErrUserNotFound id) else Ok tt
        end).

(** ** TokenStore *)

Definition pg_SaveRefreshToken (token : RefreshToken) : sqlprog (res RefreshToken) :=
  let! now := send ClientNow in
  let token := mkRefreshToken (rt_Hash token) (rt_UserID token) (rt_Parent token)
                 (rt_ExpiresAt token) (stamp (rt_CreatedAt token) now)
                 (rt_Revoked token) (rt_RotatedAt token) (rt_EndedAt token) in
  (* the columns rotated_at and ended_at are left to their default, NULL *)
  let insert := INSERT (mkRefreshToken (rt_Hash token) (rt_UserID token) (rt_Parent token)
                          (rt_ExpiresAt token) (rt_CreatedAt token) (rt_Revoked token) None None) in
  if strEq (rt_Parent token) "" then
    let! r := Exec insert in
    Done (match r with
          | Bad err => Err (insertError "insert refresh token" (rt_UserID token) err)
          | Good _ => Ok token
          end)
  else
    let! r := BeginFunc
      (let! root := QueryRow (BIND (text_in None (rt_Parent token)) (fun parent =>
                      SELECT_FOR FOR_SHARE (fun t => strEq (rt_Hash t) parent))) in
       match root with
       | Bad err =>
           if isNoRows err then Done (Some (EWrap [] store.ErrTokenRevoked [Lit ": family root missing"]))
           else Done (Some (wrap "lock refresh family root" (pg_error err)))
       | Good root =>
           match rt_EndedAt root with
           | Some _ => Done (Some (EWrap [] store.ErrTokenRevoked [Lit ": session ended"]))
           | None =>
               let! r := Exec insert in
               Done (match r with
                     | Bad err => Some (insertError "insert refresh token" (rt_UserID token) err)
                     | Good _ => None
                     end)
           end
       end) in
    Done (ok_unless token r).

Definition pg_GetRefreshToken (hash : string) : sqlprog (res RefreshToken) :=
  let! r := QueryRow (BIND (text_in None hash) (fun hash => SELECT (fun t => strEq (rt_Hash t) hash))) in
  Done (match r with
        | Bad err =>
            if isNoRows err then Err store.ErrTokenNotFound
            else Err (wrap "query refresh token" (pg_error err))
        | Good token => Ok token
        end).

Definition pg_RotateRefreshToken (hash : string) (now : time) : sqlprog rotation :=
  let! r := QueryRow (BIND (text_in None hash) (fun hash => BIND (timestamptz_in now) (fun now =>
    UPDATE (fun t => strEq (rt_Hash t) hash && negb (rt_Revoked t) && (now <? rt_ExpiresAt t))
      (fun _ t => mkRefreshToken (rt_Hash t) (rt_UserID t) (rt_Parent t) (rt_ExpiresAt t)
                    (rt_CreatedAt t) true (Some now) (rt_EndedAt t))))) in
  match r with
  | Good token => Done (Rotated token)
  | Bad err =>
      if negb (isNoRows err) then Done (RotateErr None (wrap "rotate refresh token" (pg_error err)))
      else
        let! r := pg_GetRefreshToken hash in
        Done (match r with
              | Err err => RotateErr None err
              | Ok token =>
                  if rt_Revoked token then RotateErr (Some token) store.ErrTokenRevoked
                  else RotateErr (Some token) store.ErrTokenExpired
              end)
  end.

(** [max(rotated_at)]: NULLs do not count. *)
Definition max_rotated_at : list RefreshToken -> option time :=
  foldr (fun t acc => match rt_RotatedAt t, acc with
                      | Some r, Some m => Some (Z.max r m)
                      | Some r, None => Some r
                      | None, _ => acc
                      end) None.

(** [COALESCE(bool_or(ended_at IS NOT NULL), false), max(rotated_at)] *)
Definition family_columns (l : list RefreshToken) : RefreshFamily :=
  mkRefreshFamily
    (existsb (fun t => match rt_EndedAt t with Some _ => true | None => false end) l)
    (max_rotated_at l).

Definition pg_GetRefreshFamily (root : string) : sqlprog (res RefreshFamily) :=
  let! r := QueryRow (BIND (text_in None root) (fun root =>
    AGGREGATE (fun t => strEq (rt_Hash t) root || strEq (rt_Parent t) root) family_columns)) in
  Done (match r with
        | Bad err => Err (wrap "query refresh family" (pg_error err))
        | Good family => Ok family
        end).

Definition pg_RevokeTokens (hash : string) : sqlprog (res unit) :=
  let lockRoot := BIND (text_in None hash) (fun hash =>
    SELECT_FOR FOR_UPDATE (fun t => strEq (rt_Hash t) hash)) in
  let revoke := BIND (text_in None hash) (fun hash =>
    UPDATE (fun t => strEq (rt_Hash t) hash || strEq (rt_Parent t) hash)
      (fun now t => mkRefreshToken (rt_Hash t) (rt_UserID t) (rt_Parent t) (rt_ExpiresAt t)
                      (rt_CreatedAt t) true (rt_RotatedAt t)
                      (match rt_EndedAt t with Some e => Some e | None => Some now end))) in
  let! r := BeginFunc
    (let! r := Exec lockRoot in
     match r with
     | Bad err => Done (Some (wrap "lock refresh family root" (pg_error err)))
     | Good _ =>
         let! r := Exec revoke in
         Done (match r with
               | Bad err => Some (wrap "revoke tokens" (pg_error err))
               | Good _ => None
               end)
     end) in
  Done (ok_unless tt r).

(** ** PATStore *)

Definition patSaveError (pat : PersonalAccessToken) (err : dberr) : error :=
  if isDuplicateKeyError err then wrapS store.ErrPATExists (pat_ID pat)
  else insertError "insert pat" (pat_UserID pat) err.

Definition pg_SavePAT (pat : PersonalAccessToken) : sqlprog (res PersonalAccessToken) :=
  let! now := send ClientNow in
  let pat := mkPAT (pat_ID pat) (pat_Hash pat) (pat_UserID pat) (pat_Name pat) (pat_Scopes pat)
               (pat_ExpiresAt pat) (pat_LastUsedAt pat) (stamp (pat_CreatedAt pat) now) in
  let! r := Exec (INSERT pat) in
  Done (match r with Bad err => Err (patSaveError pat err) | Good _ => Ok pat end).

Definition lockUser (userID : string) : sqlprog (option error) :=
  let! r := QueryRow (BIND (uuid_in userID) (fun id =>
              SELECT_FOR FOR_NO_KEY_UPDATE (fun u => strEq (u_id u) id))) in
  Done (match r with
        | Bad err =>
            if isNoRows err then Some (wrapS store.ErrUserNotFound userID)
            else Some (wrap "lock user" (pg_error err))
        | Good _ => None
        end).

(** The deferred rollback runs on every return once the transaction has begun. *)
Definition pg_SavePATLimited (pat : PersonalAccessToken) (limit : Z) (now : time)
  : sqlprog (res PersonalAccessToken) :=
  let! time_now := send ClientNow in
  let pat := mkPAT (pat_ID pat) (pat_Hash pat) (pat_UserID pat) (pat_Name pat) (pat_Scopes pat)
               (pat_ExpiresAt pat) (pat_LastUsedAt pat) (stamp (pat_CreatedAt pat) time_now) in
  let! b := send BeginTx in
  match b with
  | Bad err => Done (Err (wrap "begin" (pg_error err)))
  | Good _ =>
      let! result :=
        (let! l := lockUser (pat_UserID pat) in
         match l with
         | Some err => Done (Err err)
         | None =>
             let! r := Exec (BIND (uuid_in (pat_UserID pat)) (fun uid =>
               BIND (timestamptz_in now) (fun now =>
                 DELETE (fun _ p => strEq (pat_UserID p) uid &&
                           match pat_ExpiresAt p with Some e => e <? now | None => false end)))) in
             match r with
             | Bad err => Done (Err (wrap "prune expired pats" (pg_error err)))
             | Good _ =>
                 let! tag := Exec (BIND (uuid_in (pat_UserID pat)) (fun uid =>
                   INSERT_WHILE pat (fun p => strEq (pat_UserID p) uid) limit)) in
                 match tag with
                 | Bad err => Done (Err (patSaveError pat err))
                 | Good n =>
                     let! c := send CommitTx in
                     Done (match c with
                           | Bad err => Err (wrap "commit" (pg_error err))
                           | Good _ => if n =? 0 then Err store.ErrPATLimitReached else Ok pat
                           end)
                 end
             end
         end) in
      let! _x := send RollbackTx in
      Done result
  end.

Definition pg_GetPAT (hash : string) : sqlprog (res PersonalAccessToken) :=
  let! r := QueryRow (BIND (text_in None hash) (fun hash => SELECT (fun p => strEq (pat_Hash p) hash))) in
  Done (match r with
        | Bad err =>
            if isNoRows err then Err store.ErrTokenNotFound else Err (wrap "query pat" (pg_error err))
        | Good pat => Ok pat
        end).

Definition pg_ListPATs (userID : string) : sqlprog (res (list PersonalAccessToken)) :=
  let! r := QueryRows (BIND (uuid_in userID) (fun uid =>
              SELECT_NEWEST (fun p => strEq (pat_UserID p) uid) pat_CreatedAt)) in
  Done (match r with Bad err => Err (wrap "query pats" (pg_error err)) | Good out => Ok out end).

Definition pg_DeletePAT (userID id : string) : sqlprog (res unit) :=
  let! r := Exec (BIND (uuid_in id) (fun id => BIND (uuid_in userID) (fun uid =>
              DELETE (fun _ p => strEq (pat_ID p) id && strEq (pat_UserID p) uid)))) in
  Done (match r with
        | Bad err => Err (wrap "delete pat" (pg_error err))
        | Good n => if n =? 0 then Err store.ErrTokenNotFound else Ok tt
        end).

Definition pg_TouchPAT (hash : string) (t : time) : sqlprog (res unit) :=
  let! r := Exec (BIND (text_in None hash) (fun hash => BIND (timestamptz_in t) (fun t =>
    UPDATE (fun p => strEq (pat_Hash p) hash)
      (fun _ p => mkPAT (pat_ID p) (pat_Hash p) (pat_UserID p) (pat_Name p) (pat_Scopes p)
                    (pat_ExpiresAt p) (Some t) (pat_CreatedAt p))))) in
  Done (match r with Bad err => Err (wrap "touch pat" (pg_error err)) | Good _ => Ok tt end).

(** ** OAuthIdentityStore *)

Definition pg_SaveOAuthIdentity (identity : OAuthIdentity) : sqlprog (res OAuthIdentity) :=
  let! now := send ClientNow in
  let identity := mkOAuthIdentity (oi_ID identity) (oi_UserID identity) (oi_Provider identity)
                    (oi_ExternalID identity) (oi_Email identity) (stamp (oi_CreatedAt identity) now) in
  let! r := Exec (INSERT identity) in
  Done (match r with
        | Bad err =>
            if isDuplicateKeyError err then
              Err (EWrap [] store.ErrOAuthIdentityExists
                     [Lit ": "; ArgS (oi_Provider identity); Lit "/"; ArgS (oi_ExternalID identity)])
            else Err (insertError "insert oauth identity" (oi_UserID identity) err)
        | Good _ => Ok identity
        end).

Definition pg_GetOAuthIdentity (provider externalID : string) : sqlprog (res OAuthIdentity) :=
  let! r := QueryRow (BIND (text_in None provider) (fun p => BIND (text_in None externalID) (fun ext =>
              SELECT (fun i => strEq (oi_Provider i) p && strEq (oi_ExternalID i) ext)))) in
  Done (match r with
        | Bad err =>
            if isNoRows err then
              Err (EWrap [] store.ErrOAuthIdentityNotFound
                     [Lit ": "; ArgS provider; Lit "/"; ArgS externalID])
            else Err (wrap "query oauth identity" (pg_error err))
        | Good identity => Ok identity
        end).

Definition pg_ListOAuthIdentities (userID : string) : sqlprog (res (list OAuthIdentity)) :=
  let! r := QueryRows (BIND (uuid_in userID) (fun uid =>
              SELECT_NEWEST (fun i => strEq (oi_UserID i) uid) oi_CreatedAt)) in
  Done (match r with Bad err => Err (wrap "query oauth identities" (pg_error err)) | Good out => Ok out end).

(** ** WalletIdentityStore *)

Definition pg_SaveWalletIdentity (identity : WalletIdentity) : sqlprog (res WalletIdentity) :=
  let! now := send ClientNow in
  let identity := mkWalletIdentity (wi_ID identity) (wi_UserID identity) (wi_Chain identity)
                    (wi_Address identity) (stamp (wi_CreatedAt identity) now) in
  let! r := Exec (INSERT identity) in
  Done (match r with
        | Bad err =>
            if isDuplicateKeyError err then
              Err (EWrap [] store.ErrWalletIdentityExists
                     [Lit ": "; ArgS (wi_Chain identity); Lit "/"; ArgS (wi_Address identity)])
            else Err (insertError "insert wallet identity" (wi_UserID identity) err)
        | Good _ => Ok identity
        end).

Definition pg_GetWalletIdentity (chain address : string) : sqlprog (res WalletIdentity) :=
  let! r := QueryRow (BIND (text_in None chain) (fun c => BIND (text_in None address) (fun ad =>
              SELECT (fun i => strEq (wi_Chain i) c && strEq (wi_Address i) ad)))) in
  Done (match r with
        | Bad err =>
            if isNoRows err then
              Err (EWrap [] store.ErrWalletIdentityNotFound
                     [Lit ": "; ArgS chain; Lit "/"; ArgS address])
            else Err (wrap "query wallet identity" (pg_error err))
        | Good identity => Ok identity
        end).

Definition pg_ListWalletIdentities (userID : string) : sqlprog (res (list WalletIdentity)) :=
  let! r := QueryRows (BIND (uuid_in userID) (fun uid =>
              SELECT_NEWEST (fun i => strEq (wi_UserID i) uid) wi_CreatedAt)) in
  Done (match r with Bad err => Err (wrap "query wallet identities" (pg_error err)) | Good out => Ok out end).

(** ** ChallengeStore *)

Definition pg_SaveChallenge (challenge : Challenge) : sqlprog (res Challenge) :=
  let! now := send ClientNow in
  let challenge := mkChallenge (ch_Nonce challenge) (ch_Message challenge) (ch_Chain challenge)
                     (ch_Address challenge) (ch_CodeVerifier challenge) (ch_OAuthNonce challenge)
                     (ch_BindingHash challenge) (ch_ExpiresAt challenge)
                     (stamp (ch_CreatedAt challenge) now) in
  let! s := Exec (DELETE (fun now c => ch_ExpiresAt c <? now)) in
  match s with
  | Bad err => Done (Err (wrap "sweep expired challenges" (pg_error err)))
  | Good _ =>
      let! r := Exec (INSERT challenge) in
      Done (match r with
            | Bad err => Err (wrap "insert challenge" (pg_error err))
            | Good _ => Ok challenge
            end)
  end.

Definition pg_GetChallenge (nonce : string) : sqlprog (res Challenge) :=
  let! r := QueryRow (BIND (text_in None nonce) (fun nonce => SELECT (fun c => strEq (ch_Nonce c) nonce))) in
  match r with
  | Bad err =>
      Done (if isNoRows err then Err store.ErrChallengeNotFound
            else Err (wrap "query challenge" (pg_error err)))
  | Good challenge =>
      let! now := send ClientNow in
      Done (if Before (ch_ExpiresAt challenge) now then Err store.ErrChallengeExpired
            else Ok challenge)
  end.

Definition pg_DeleteChallenge (nonce : string) : sqlprog (res unit) :=
  let! r := Exec (BIND (text_in None nonce) (fun nonce => DELETE (fun _ c => strEq (ch_Nonce c) nonce))) in
  Done (match r with
        | Bad err => Err (wrap "delete challenge" (pg_error err))
        | Good n => if n =? 0 then Err store.ErrChallengeNotFound else Ok tt
        end).

(** ** CredentialStore *)

Definition pg_SavePasswordHash (userID hash : string) : sqlprog (res unit) :=
  let! r := Exec (INSERT_UPDATING (fun now => mkCredentialsRow userID hash now now)
    (fun now new c => mkCredentialsRow (lc_user_id c) (lc_password_hash new) (lc_created_at c) now)) in
  Done (match r with
        | Bad err => Err (insertError "save password hash" userID err)
        | Good _ => Ok tt
        end).

Definition pg_GetPasswordHash (userID : string) : sqlprog (res string) :=
  let! r := QueryRow (BIND (uuid_in userID) (fun uid => SELECT (fun c => strEq (lc_user_id c) uid))) in
  Done (match r with
        | Bad err =>
            if isNoRows err then Err (wrapS store.ErrCredentialNotFound userID)
            else Err (wrap "query password hash" (pg_error err))
        | Good c => Ok (lc_password_hash c)
        end).

(** ** The store as an implementation of the ports *)

Definition pg_program {X} (c : storeE X) : sqlprog X :=
  match c in storeE X return sqlprog X with
  | Create u => pg_Create u
  | GetByID id => pg_GetByID id
  | GetByEmail email => pg_GetByEmail email
  | Delete id => pg_Delete id
  | SaveRefreshToken t => pg_SaveRefreshToken t
  | GetRefreshToken h => pg_GetRefreshToken h
  | RevokeTokens h => pg_RevokeTokens h
  | RotateRefreshToken h now => pg_RotateRefreshToken h now
  | GetRefreshFamily root => pg_GetRefreshFamily root
  | SavePAT p => pg_SavePAT p
  | SavePATLimited p limit now => pg_SavePATLimited p limit now
  | GetPAT h => pg_GetPAT h
  | ListPATs uid => pg_ListPATs uid
  | DeletePAT uid id => pg_DeletePAT uid id
  | TouchPAT h t => pg_TouchPAT h t
  | SaveOAuthIdentity i => pg_SaveOAuthIdentity i
  | GetOAuthIdentity p ext => pg_GetOAuthIdentity p ext
  | ListOAuthIdentities uid => pg_ListOAuthIdentities uid
  | SaveWalletIdentity i => pg_SaveWalletIdentity i
  | GetWalletIdentity c ad => pg_GetWalletIdentity c ad
  | ListWalletIdentities uid => pg_ListWalletIdentities uid
  | SaveChallenge c => pg_SaveChallenge c
  | GetChallenge n => pg_GetChallenge n
  | DeleteChallenge n => pg_DeleteChallenge n
  | SavePasswordHash uid h => pg_SavePasswordHash uid h
  | GetPasswordHash uid => pg_GetPasswordHash uid
  end.

Context `{ScanOrder, Driver, ServerClock}.

Definition pg_call {X} (c : storeE X) (env : callenv) (D : rowset) : X * rowset :=
  let '(x, conn) := run_sql env (pg_program c) 0 (mkConn D Idle) in (x, committed conn).

#[export] Instance pg_impl : StoreImpl rowset := fun X c env D => pg_call c env D.
End store.
