(* ===== verification/PostgresFacts.v ===== *)
(** * The PostgreSQL store honours the contract

    The rows of the tables make up an abstract database; a statement on well-formed
    tables is characterised on it; then each method is shown to implement its
    port, or to fail as an outage when the connection fails it, the server
    refuses a value or a random key is already taken. *)

From S2P Require Import Prelude GoTime Errors Entity Ports Contract ContractFacts Sql Postgres.

(** ** Rows *)

Class TableLaws (A : Type) `{Table A} : Prop := {
  prj_inj : forall a : A, prj (inj a) = Some a;
  prj_Some : forall r (a : A), prj r = Some a -> r = inj a;
  prj_table : forall r (a : A), table_of r = table_of (inj a) -> is_Some (prj (A := A) r)
}.

Section laws.
Context `{PgTypes}.
#[export] Instance users_laws : TableLaws users_row.
Proof. split; [done|by intros [] ? [= ->]|intros []; cbn; done || eauto]. Qed.
#[export] Instance credentials_laws : TableLaws local_credentials_row.
Proof. split; [done|by intros [] ? [= ->]|intros []; cbn; done || eauto]. Qed.
#[export] Instance tokens_laws : TableLaws RefreshToken.
Proof. split; [done|by intros [] ? [= ->]|intros []; cbn; done || eauto]. Qed.
#[export] Instance pats_laws : TableLaws PersonalAccessToken.
Proof. split; [done|by intros [] ? [= ->]|intros []; cbn; done || eauto]. Qed.
#[export] Instance oauth_laws : TableLaws OAuthIdentity.
Proof. split; [done|by intros [] ? [= ->]|intros []; cbn; done || eauto]. Qed.
#[export] Instance wallet_laws : TableLaws WalletIdentity.
Proof. split; [done|by intros [] ? [= ->]|intros []; cbn; done || eauto]. Qed.
#[export] Instance challenges_laws : TableLaws Challenge.
Proof. split; [done|by intros [] ? [= ->]|intros []; cbn; done || eauto]. Qed.
End laws.

Lemma inj_inj `{TableLaws A} (a b : A) : inj a = inj b -> a = b.
Proof. intros Hab. apply (f_equal prj) in Hab. rewrite !prj_inj in Hab. by simplify_eq. Qed.

Lemma elem_of_rows `{TableLaws A} (D : rowset) (a : A) :
  a ∈ rows D <-> exists k, D !! k = Some (inj a).
Proof.
  unfold rows. rewrite list_elem_of_omap. split.
  - intros (r & Hr & ->%prj_Some). apply list_elem_of_fmap in Hr as ([k r] & -> & Hk).
    exists k. by apply elem_of_map_to_list.
  - intros [k Hk]. exists (inj a). split; [|apply prj_inj].
    apply list_elem_of_fmap. exists (k, inj a). by rewrite elem_of_map_to_list.
Qed.

Section matching.
Context `{ScanOrder} {A : Type} `{Table A} (f : A -> bool) (n : nat) (D : rowset).

Lemma matching_elem a : a ∈ matching f n D <-> a ∈ rows D /\ f a = true.
Proof. unfold matching. rewrite list_elem_of_filter, scan_perm. naive_solver. Qed.

Lemma matching_nil : matching f n D = [] <-> forall a, a ∈ rows D -> f a = false.
Proof.
  split.
  - intros Hnil a Ha. apply not_true_is_false. intros Hf.
    assert (a ∈ matching f n D) as Hin by (by apply matching_elem). rewrite Hnil in Hin.
    by apply elem_of_nil in Hin.
  - intros Hall. destruct (matching f n D) as [|a l] eqn:E; [done|].
    assert (a ∈ matching f n D) as [Hin Hf]%matching_elem by (rewrite E; left).
    specialize (Hall _ Hin). congruence.
Qed.

Lemma matching_head a l : matching f n D = a :: l -> a ∈ rows D /\ f a = true.
Proof. intros E. apply matching_elem. rewrite E. left. Qed.
End matching.

(** ** Well-formed tables *)

Record pg_inv (D : rowset) : Prop := mkPgInv {
  pi_keys : forall k r, D !! k = Some r -> key_of r = k;
  pi_unique : forall k k' r r', D !! k = Some r -> D !! k' = Some r' -> conflicts r r' = true -> k = k';
  pi_refs : forall k r uid, D !! k = Some r -> references r = Some uid -> is_Some (D !! (T_users, uid))
}.

Lemma pg_inv_empty : pg_inv ∅.
Proof. split; intros *; by rewrite lookup_empty. Qed.

Lemma conflicts_spec r r' :
  conflicts r r' = true <->
  key_of r = key_of r' \/
  table_of r = table_of r' /\ is_Some (unique_index r) /\ unique_index r' = unique_index r.
Proof.
  unfold conflicts. rewrite orb_true_iff, andb_true_iff, !bool_decide_eq_true.
  destruct (unique_index r) as [k|].
  - rewrite bool_decide_eq_true. assert (is_Some (Some k)) by done. tauto.
  - split; [intros [?|[_ ?]]; [by left|done]|]. intros [?|(_ & [? [=]] & _)]. by left.
Qed.

Lemma conflicts_sym r r' : conflicts r r' = true -> conflicts r' r = true.
Proof.
  rewrite !conflicts_spec. intros [?|(? & ? & Hu)]; [by left|]. right. by rewrite Hu.
Qed.

Lemma conflicts_key r r' : key_of r = key_of r' -> conflicts r r' = true.
Proof. intros Hk. apply conflicts_spec. by left. Qed.

Lemma conflicts_index r r' k :
  table_of r = table_of r' -> unique_index r = Some k -> unique_index r' = Some k -> conflicts r r' = true.
Proof. intros Ht Hr Hr'. apply conflicts_spec. right. by rewrite Hr, Hr'. Qed.

Section inv.
Context (D : rowset) (Hinv : pg_inv D).

Lemma rows_at `{TableLaws A} (a : A) : a ∈ rows D <-> D !! key_of (inj a) = Some (inj a).
Proof.
  rewrite elem_of_rows. split; [|eauto]. intros [k Hk]. by rewrite (pi_keys _ Hinv _ _ Hk).
Qed.

Lemma rows_conflict `{TableLaws A} (a b : A) :
  a ∈ rows D -> b ∈ rows D -> conflicts (inj a) (inj b) = true -> a = b.
Proof.
  rewrite !rows_at. intros Ha Hb Hc. apply inj_inj.
  pose proof (pi_unique _ Hinv _ _ _ _ Ha Hb Hc) as Hk. rewrite Hk in Ha. congruence.
Qed.

Lemma conflict_exists r :
  existsb (conflicts r) (map_to_list D).*2 = true <-> exists k r', D !! k = Some r' /\ conflicts r r' = true.
Proof.
  rewrite existsb_exists. setoid_rewrite <- list_elem_of_In. setoid_rewrite list_elem_of_fmap. split.
  - intros (r' & ([k r''] & -> & Hk) & Hc). exists k, r''. by rewrite <- elem_of_map_to_list.
  - intros (k & r' & Hk & Hc). exists r'. split; [|done]. exists (k, r'). by rewrite elem_of_map_to_list.
Qed.

Lemma insert_inv r :
  existsb (conflicts r) (map_to_list D).*2 = false ->
  (forall uid, references r = Some uid -> is_Some (D !! (T_users, uid))) ->
  D !! key_of r = None /\ pg_inv (<[key_of r := r]> D).
Proof.
  intros Hno Hrefs.
  assert (forall k r', D !! k = Some r' -> conflicts r r' = false) as Hc.
  { intros k r' Hk. apply not_true_is_false. intros Hc. apply not_true_iff_false in Hno. apply Hno.
    apply conflict_exists. eauto. }
  assert (D !! key_of r = None) as Hfree.
  { apply eq_None_not_Some. intros [r' Hr']. specialize (Hc _ _ Hr').
    rewrite conflicts_key in Hc; [done|]. by rewrite (pi_keys _ Hinv _ _ Hr'). }
  split; [done|]. split.
  - intros k r' [[<- <-]|[_ Hk]]%lookup_insert_Some; [done|]. by apply (pi_keys _ Hinv).
  - intros k k' r1 r2 [[<- <-]|[_ Hk]]%lookup_insert_Some [[<- <-]|[_ Hk']]%lookup_insert_Some Hcc; [done|..].
    + rewrite (Hc _ _ Hk') in Hcc. done.
    + apply conflicts_sym in Hcc. rewrite (Hc _ _ Hk) in Hcc. done.
    + by eapply (pi_unique _ Hinv).
  - intros k r' uid Hk Hr. apply lookup_insert_is_Some'.
    apply lookup_insert_Some in Hk as [[<- <-]|[_ Hk]]; right; [by apply Hrefs|by eapply (pi_refs _ Hinv)].
Qed.
End inv.

(** An assignment that leaves the keys and the references of a row alone. *)
Definition keeps_keys `{Table A} (set : A -> A) : Prop :=
  forall a, key_of (inj (set a)) = key_of (inj a) /\ unique_index (inj (set a)) = unique_index (inj a) /\
            references (inj (set a)) = references (inj a).

Section changes.
Context (D : rowset) (Hinv : pg_inv D).

Definition assigned `{Table A} (cond : A -> bool) (set : A -> A) (r : row) : row :=
  match prj r with Some a => if cond a then inj (set a) else r | None => r end.

Lemma assigned_keys `{TableLaws A} (cond : A -> bool) (set : A -> A) r :
  keeps_keys set ->
  key_of (assigned cond set r) = key_of r /\ unique_index (assigned cond set r) = unique_index r /\
  references (assigned cond set r) = references r.
Proof.
  intros Hk. unfold assigned. destruct (prj r) as [a|] eqn:E; [|done].
  destruct (cond a); [|done]. apply prj_Some in E as ->. apply Hk.
Qed.

Lemma update_inv `{TableLaws A} (cond : A -> bool) (set : A -> A) :
  keeps_keys set -> pg_inv (update_rows cond set D).
Proof.
  intros Hk. unfold update_rows. fold (assigned cond set).
  assert (forall k r, (assigned cond set <$> D) !! k = Some r ->
    exists r0, D !! k = Some r0 /\ r = assigned cond set r0) as Hl.
  { intros k r. rewrite lookup_fmap. intros (r0 & ? & ->)%fmap_Some. eauto. }
  split.
  - intros k r (r0 & Hr & ->)%Hl. rewrite (proj1 (assigned_keys cond set r0 Hk)). by apply (pi_keys _ Hinv).
  - intros k k' r r' (r0 & Hr & ->)%Hl (r0' & Hr' & ->)%Hl Hc.
    eapply (pi_unique _ Hinv); [exact Hr|exact Hr'|].
    destruct (assigned_keys cond set r0 Hk) as (K1 & K2 & _), (assigned_keys cond set r0' Hk) as (K1' & K2' & _).
    rewrite conflicts_spec in Hc |- *. rewrite K1, K1', K2, K2' in Hc.
    destruct Hc as [?|[Ht ?]]; [by left|]. right. split; [|done].
    by apply (f_equal fst) in K1, K1'; cbn in K1, K1'; congruence.
  - intros k r uid (r0 & Hr & ->)%Hl Href. rewrite (proj2 (proj2 (assigned_keys cond set r0 Hk))) in Href.
    rewrite lookup_fmap, fmap_is_Some. by eapply (pi_refs _ Hinv).
Qed.

Lemma update_rows_elem `{TableLaws A} (cond : A -> bool) (set : A -> A) (a : A) :
  a ∈ rows (update_rows cond set D) <->
  exists a0, a0 ∈ rows D /\ a = if cond a0 then set a0 else a0.
Proof.
  rewrite elem_of_rows. setoid_rewrite elem_of_rows. unfold update_rows. setoid_rewrite lookup_fmap. split.
  - intros [k (r & Hr & Ha)%fmap_Some]. destruct (prj r) as [a0|] eqn:E.
    + apply prj_Some in E as ->. exists a0. split; [eauto|].
      destruct (cond a0); apply inj_inj; by rewrite <- Ha.
    + rewrite <- Ha, prj_inj in E. done.
  - intros (a0 & [k Hk] & ->). exists k. rewrite Hk. cbn. rewrite prj_inj. by destruct (cond a0).
Qed.

(** The rows of another table stay. *)
Lemma update_rows_other `{TableLaws A, TableLaws B} (cond : A -> bool) (set : A -> A) (b : B) :
  (forall a : A, forall b : B, inj a <> inj b) -> b ∈ rows (update_rows cond set D) <-> b ∈ rows D.
Proof.
  intros Hd. rewrite !elem_of_rows. unfold update_rows. setoid_rewrite lookup_fmap. split.
  - intros [k (r & Hr & Hb)%fmap_Some]. exists k. rewrite Hr, Hb.
    destruct (prj r) as [a|] eqn:E; [|done]. apply prj_Some in E as ->.
    destruct (cond a); [|done]. by destruct (Hd (set a) b).
  - intros [k Hk]. exists k. rewrite Hk. cbn. destruct (prj (inj b)) as [a|] eqn:E; [|done].
    apply prj_Some in E. by destruct (Hd a b).
Qed.

Lemma delete_lookup (cond : row -> bool) k r :
  delete_rows cond D !! k = Some r <->
  D !! k = Some r /\ cond r = false /\
  (forall uid u, references r = Some uid -> D !! (T_users, uid) = Some u -> cond u = false).
Proof.
  unfold delete_rows. rewrite map_lookup_filter_Some. cbn. split.
  - intros [Hk Hc]. split; [done|]. apply andb_prop in Hc as [Hc1%negb_true_iff Hc2].
    split; [done|]. intros uid u Hr Hu. rewrite Hr, Hu in Hc2. by apply negb_true_iff.
  - intros (Hk & Hc & Hr). split; [done|]. rewrite Hc. cbn. destruct (references r) as [uid|]; [|done].
    destruct (D !! (T_users, uid)) as [u|] eqn:Hu; [|done]. by rewrite (Hr uid u).
Qed.

Lemma delete_inv (cond : row -> bool) : pg_inv (delete_rows cond D).
Proof.
  split.
  - intros k r [Hk _]%delete_lookup. by apply (pi_keys _ Hinv).
  - intros k k' r r' [Hk _]%delete_lookup [Hk' _]%delete_lookup. by eapply (pi_unique _ Hinv).
  - intros k r uid (Hk & Hc & Hd)%delete_lookup Hr.
    destruct (pi_refs _ Hinv _ _ _ Hk Hr) as [u Hu]. exists u. apply delete_lookup.
    split; [done|]. split; [by eapply Hd|]. intros uid' u' Hr'. 
    pose proof (pi_keys _ Hinv _ _ Hu) as Hku. destruct u; try done.
Qed.
End changes.

(** ** The abstract database *)

Definition table_map `{Table A} `{Countable K} {B} (key : A -> K) (val : A -> B) (D : rowset) : gmap K B :=
  list_to_map ((fun a => (key a, val a)) <$> rows D).

Definition pg_view `{PgTypes} (D : rowset) : db :=
  mkDb (table_map u_id scanUser D) (table_map rt_Hash (@id RefreshToken) D)
    (table_map pat_Hash (@id PersonalAccessToken) D) (table_map lc_user_id lc_password_hash D)
    (table_map (fun i => (oi_Provider i, oi_ExternalID i)) (@id OAuthIdentity) D)
    (table_map (fun i => (wi_Chain i, wi_Address i)) (@id WalletIdentity) D)
    (table_map ch_Nonce (@id Challenge) D).

(** A key that tells the rows of a table apart. *)
Class Keyed `{Table A} {K} (key : A -> K) : Prop :=
  keyed : forall a b : A, key a = key b -> conflicts (inj a) (inj b) = true.

Section keyed.
Context `{PgTypes}.
#[export] Instance users_keyed : Keyed u_id.
Proof. intros a b Hk. apply conflicts_key. unfold key_of. cbn. by rewrite Hk. Qed.
#[export] Instance tokens_keyed : Keyed rt_Hash.
Proof. intros a b Hk. apply conflicts_key. unfold key_of. cbn. by rewrite Hk. Qed.
#[export] Instance pats_keyed : Keyed pat_Hash.
Proof. intros a b Hk. apply (conflicts_index _ _ [pat_Hash a]); cbn; by rewrite ?Hk. Qed.
#[export] Instance pats_keyed_id : Keyed pat_ID.
Proof. intros a b Hk. apply conflicts_key. unfold key_of. cbn. by rewrite Hk. Qed.
#[export] Instance credentials_keyed : Keyed lc_user_id.
Proof. intros a b Hk. apply conflicts_key. unfold key_of. cbn. by rewrite Hk. Qed.
#[export] Instance oauth_keyed : Keyed (fun i => (oi_Provider i, oi_ExternalID i)).
Proof.
  intros a b [= H1' H2']. apply (conflicts_index _ _ [oi_Provider a; oi_ExternalID a]); cbn; by rewrite ?H1', ?H2'.
Qed.
#[export] Instance wallet_keyed : Keyed (fun i => (wi_Chain i, wi_Address i)).
Proof.
  intros a b [= H1' H2']. apply (conflicts_index _ _ [wi_Chain a; wi_Address a]); cbn; by rewrite ?H1', ?H2'.
Qed.
#[export] Instance challenges_keyed : Keyed ch_Nonce.
Proof. intros a b Hk. apply conflicts_key. unfold key_of. cbn. by rewrite Hk. Qed.
End keyed.

Lemma lookup_table_map `{TableLaws A} `{Countable K} {B} (key : A -> K) `{!Keyed key} (val : A -> B) D k b :
  pg_inv D ->
  table_map key val D !! k = Some b <-> exists a, a ∈ rows D /\ key a = k /\ val a = b.
Proof.
  intros Hinv. unfold table_map. split.
  - intros Hl%elem_of_list_to_map_2. apply list_elem_of_fmap in Hl as (a & [= -> ->] & Ha). eauto.
  - intros (a & Ha & <- & <-). apply elem_of_list_to_map_1'.
    + intros y Hy. apply list_elem_of_fmap in Hy as (a' & [= Hk ->] & Ha').
      f_equal. apply (rows_conflict D Hinv); [done..|]. by apply keyed.
    + apply list_elem_of_fmap. eauto.
Qed.

Lemma table_map_ext `{TableLaws A} `{Countable K} {B} (key : A -> K) `{!Keyed key} (val : A -> B) D D' :
  pg_inv D -> pg_inv D' -> (forall a : A, a ∈ rows D <-> a ∈ rows D') ->
  table_map key val D = table_map key val D'.
Proof.
  intros Hi Hi' He. apply map_eq. intros k. apply option_eq. intros b.
  rewrite !lookup_table_map by done. by setoid_rewrite He.
Qed.

(** ** Changes on the abstract database *)

Section view.
Context `{PgTypes} (D : rowset) (Hinv : pg_inv D).

Lemma rows_insert `{TableLaws B} r (b : B) :
  D !! key_of r = None -> b ∈ rows (<[key_of r := r]> D) <-> inj b = r \/ b ∈ rows D.
Proof.
  intros Hf. rewrite !elem_of_rows. setoid_rewrite lookup_insert_Some. split.
  - intros (k & [[_ ?]|[_ Hk]]); eauto.
  - intros [Hr|[k Hk]]; [exists (key_of r); by left|]. exists k. right. split; [congruence|done].
Qed.

Lemma table_map_insert `{TableLaws A} `{Countable K} {B} (key : A -> K) `{!Keyed key} (val : A -> B) a :
  D !! key_of (inj a) = None -> pg_inv (<[key_of (inj a) := inj a]> D) ->
  table_map key val (<[key_of (inj a) := inj a]> D) = <[key a := val a]> (table_map key val D).
Proof.
  intros Hf Hi. apply map_eq. intros k. apply option_eq. intros b.
  rewrite lookup_insert_Some, !lookup_table_map by done.
  setoid_rewrite (fun a' : A => rows_insert (inj a) a' Hf). split.
  - intros (a' & [->%inj_inj|Ha] & <- & <-); [by left|].
    right. split; [|eauto]. intros Hk. assert (a = a') as ->; [|].
    + eapply (rows_conflict _ Hi); [| |by apply keyed]; apply rows_insert; auto.
    + rewrite (rows_at _ Hinv) in Ha. congruence.
  - intros [[<- <-]|(_ & a' & Ha & <- & <-)]; eauto 10.
Qed.

Lemma table_map_insert_other `{TableLaws A} `{Countable K} {B} (key : A -> K) `{!Keyed key} (val : A -> B) r :
  D !! key_of r = None -> pg_inv (<[key_of r := r]> D) -> (forall a : A, inj a <> r) ->
  table_map key val (<[key_of r := r]> D) = table_map key val D.
Proof.
  intros Hf Hi Hd. apply (table_map_ext key val); [done..|]. intros a. rewrite rows_insert by done.
  split; [|by right]. intros [Ha|?]; [by destruct (Hd a)|done].
Qed.

Lemma table_map_update `{TableLaws A} `{Countable K} (key : A -> K) `{!Keyed key} (cond : A -> bool) (set : A -> A) :
  keeps_keys set -> (forall a, key (set a) = key a) ->
  table_map key (@id A) (update_rows cond set D) =
  (fun a => if cond a then set a else a) <$> table_map key (@id A) D.
Proof.
  intros Hk Hkey. apply map_eq. intros k. apply option_eq. intros b.
  rewrite lookup_fmap, fmap_Some.
  rewrite (lookup_table_map key (@id A) (update_rows cond set D) k b (update_inv D Hinv cond set Hk)).
  assert (forall b, table_map key (@id A) D !! k = Some b <-> exists a, a ∈ rows D /\ key a = k /\ a = b)
    as HD by (intros b'; by apply lookup_table_map).
  setoid_rewrite HD. setoid_rewrite (update_rows_elem D cond set). split.
  - intros (a & (a0 & Ha0 & ->) & <- & <-). exists a0. split; [|done].
    exists a0. split_and!; [done| |done]. destruct (cond a0); by rewrite ?Hkey.
  - intros (a & (a0 & Ha0 & <- & <-) & ->). exists (if cond a0 then set a0 else a0).
    split_and!; [eauto| |done]. destruct (cond a0); by rewrite ?Hkey.
Qed.

Lemma table_map_update_other `{TableLaws A, TableLaws B} `{Countable K} {C} (key : B -> K) `{!Keyed key}
    (val : B -> C) (cond : A -> bool) (set : A -> A) :
  keeps_keys set -> (forall (a : A) (b : B), inj a <> inj b) ->
  table_map key val (update_rows cond set D) = table_map key val D.
Proof.
  intros Hk Hd. apply (table_map_ext key val); [by apply update_inv|done|]. intros b. by apply update_rows_other.
Qed.

Lemma rows_delete `{TableLaws A} (cond : row -> bool) (a : A) :
  a ∈ rows (delete_rows cond D) <->
  a ∈ rows D /\ cond (inj a) = false /\
  (forall uid u, references (inj a) = Some uid -> D !! (T_users, uid) = Some u -> cond u = false).
Proof.
  rewrite !elem_of_rows. setoid_rewrite delete_lookup. naive_solver.
Qed.

(** A table whose rows go when they satisfy [c]. *)
Lemma table_map_delete `{TableLaws A} `{Countable K} (key : A -> K) `{!Keyed key} (cond : row -> bool) (c : A -> bool) :
  (forall a : A, a ∈ rows D ->
     (cond (inj a) = false /\
      (forall uid u, references (inj a) = Some uid -> D !! (T_users, uid) = Some u -> cond u = false))
     <-> c a = false) ->
  table_map key (@id A) (delete_rows cond D) = DeleteFunc c (table_map key (@id A) D).
Proof.
  intros Hc. apply map_eq. intros k. apply option_eq. intros b.
  rewrite lookup_DeleteFunc, (lookup_table_map key (@id A) D k b Hinv).
  rewrite (lookup_table_map key (@id A) (delete_rows cond D) k b (delete_inv D Hinv cond)).
  setoid_rewrite (rows_delete cond). split.
  - intros (a & (Ha & Hd) & <- & <-). split; [eauto|]. by apply Hc.
  - intros [(a & Ha & <- & <-) Hcb]. exists a. split_and!; [done|by apply Hc..|done|done].
Qed.

Lemma table_map_delete_none `{TableLaws A} `{Countable K} {C} (key : A -> K) `{!Keyed key} (val : A -> C)
    (cond : row -> bool) :
  (forall a : A, cond (inj a) = false) -> (forall u, cond (RUser u) = false) ->
  table_map key val (delete_rows cond D) = table_map key val D.
Proof.
  intros Ha Hu. apply (table_map_ext key val); [by apply delete_inv|done|]. intros a. rewrite rows_delete.
  split; [tauto|]. intros Hin. split_and!; [done|done|]. intros uid u _ Hl.
  pose proof (pi_keys _ Hinv _ _ Hl). destruct u; done.
Qed.
End view.

(** Looking up a row of the abstract database. *)
Section lookups.
Context `{PgTypes} (D : rowset) (Hinv : pg_inv D).

Lemma view_users id u :
  d_users (pg_view D) !! id = Some u <-> exists r, r ∈ rows D /\ u_id r = id /\ scanUser r = u.
Proof. exact (lookup_table_map u_id scanUser D id u Hinv). Qed.
Lemma view_passwords id h :
  d_passwords (pg_view D) !! id = Some h <-> exists r, r ∈ rows D /\ lc_user_id r = id /\ lc_password_hash r = h.
Proof. exact (lookup_table_map lc_user_id lc_password_hash D id h Hinv). Qed.
Lemma view_tokens h t :
  d_tokens (pg_view D) !! h = Some t <-> t ∈ rows D /\ rt_Hash t = h.
Proof. cbn. rewrite (lookup_table_map rt_Hash _ D h t Hinv). naive_solver. Qed.
Lemma view_pats h p :
  d_pats (pg_view D) !! h = Some p <-> p ∈ rows D /\ pat_Hash p = h.
Proof. cbn. rewrite (lookup_table_map pat_Hash _ D h p Hinv). naive_solver. Qed.
Lemma view_oauth k i :
  d_oauth (pg_view D) !! k = Some i <-> i ∈ rows D /\ (oi_Provider i, oi_ExternalID i) = k.
Proof. cbn. rewrite (lookup_table_map (fun i => (oi_Provider i, oi_ExternalID i)) _ D k i Hinv). naive_solver. Qed.
Lemma view_wallets k i :
  d_wallets (pg_view D) !! k = Some i <-> i ∈ rows D /\ (wi_Chain i, wi_Address i) = k.
Proof. cbn. rewrite (lookup_table_map (fun i => (wi_Chain i, wi_Address i)) _ D k i Hinv). naive_solver. Qed.
Lemma view_challenges n c :
  d_challenges (pg_view D) !! n = Some c <-> c ∈ rows D /\ ch_Nonce c = n.
Proof. cbn. rewrite (lookup_table_map ch_Nonce _ D n c Hinv). naive_solver. Qed.

(** The abstract database is well-formed. *)

Lemma user_ref uid : is_Some (D !! (T_users, uid)) <-> is_Some (d_users (pg_view D) !! uid).
Proof.
  split.
  - intros [r Hr]. pose proof (pi_keys _ Hinv _ _ Hr) as Hk. destruct r as [u| | | | | |]; try done.
    injection Hk as Hk. exists (scanUser u). apply view_users.
    exists u. split_and!; [|done|done]. apply elem_of_rows. eauto.
  - intros [u (r & Hr & <- & <-)%view_users]. apply (rows_at _ Hinv) in Hr. eauto.
Qed.

Lemma row_owner `{TableLaws A} (a : A) uid :
  a ∈ rows D -> references (inj a) = Some uid -> is_Some (d_users (pg_view D) !! uid).
Proof.
  intros Ha Hr. apply user_ref. apply elem_of_rows in Ha as [k Hk]. by eapply (pi_refs _ Hinv).
Qed.

Lemma view_has_email e u :
  has_email (pg_view D) e u <->
  exists r, r ∈ rows D /\ u = scanUser r /\ u_email r = Some e /\ e <> "".
Proof.
  split.
  - intros (He & Hu & (r & Hr & _ & <-)%view_users).
    exists r. split_and!; [done|done| |done]. cbn in Hu. destruct (u_email r); congruence.
  - intros (r & Hr & -> & Her & He). split_and!; [done|cbn; by rewrite Her|].
    apply view_users. eauto.
Qed.

Lemma pg_view_ok : db_ok (pg_view D).
Proof.
  split.
  - by intros id u (r & _ & <- & <-)%view_users.
  - intros e u v (r & Hr & -> & Her & _)%view_has_email (r' & Hr' & -> & Her' & _)%view_has_email.
    f_equal. apply (rows_conflict _ Hinv); [done..|].
    apply (conflicts_index _ _ [e]); cbn; by rewrite ?Her, ?Her'.
  - intros k x [Hx <-]%view_tokens. split; [done|]. by apply (row_owner x).
  - intros k x [Hx <-]%view_pats. split; [done|]. by apply (row_owner x).
  - intros id h (r & Hr & <- & _)%view_passwords. by apply (row_owner r).
  - intros k x [Hx <-]%view_oauth. split; [done|]. by apply (row_owner x).
  - intros k x [Hx <-]%view_wallets. split; [done|]. by apply (row_owner x).
  - by intros n c [_ <-]%view_challenges.
Qed.
End lookups.

(** ** Rows as lists *)

Lemma NoDup_omap {A B} (f : A -> option B) (l : list A) :
  NoDup l -> (forall x y b, x ∈ l -> y ∈ l -> f x = Some b -> f y = Some b -> x = y) -> NoDup (omap f l).
Proof.
  induction 1 as [|x l Hx Hl IH]; intros Hf; cbn; [constructor|].
  assert (NoDup (omap f l)) as Ho by (apply IH; intros ? ? ? ? ?; apply Hf; by right).
  destruct (f x) as [b|] eqn:E; [|done]. constructor; [|done].
  intros (y & Hy & Hfy)%list_elem_of_omap. apply Hx. by rewrite (Hf x y b) by (done || by constructor).
Qed.

Lemma rows_NoDup `{TableLaws A} D : pg_inv D -> NoDup (rows (A := A) D).
Proof.
  intros Hinv. unfold rows. apply NoDup_omap.
  - apply NoDup_fmap_2_strong; [|apply NoDup_map_to_list].
    intros [k r] [k' r'] Hk%elem_of_map_to_list Hk'%elem_of_map_to_list Heq. cbn in Heq. subst r'. f_equal.
    by rewrite <- (pi_keys _ Hinv _ _ Hk), <- (pi_keys _ Hinv _ _ Hk').
  - by intros r r' a _ _ ->%prj_Some ->%prj_Some.
Qed.

Lemma table_map_rows `{TableLaws A} `{Countable K} (key : A -> K) `{!Keyed key} D :
  pg_inv D -> (map_to_list (table_map key (@id A) D)).*2 ≡ₚ rows D.
Proof.
  intros Hinv.
  assert (forall k a, table_map key (@id A) D !! k = Some a <-> a ∈ rows D /\ key a = k) as Hl.
  { intros k a. rewrite (lookup_table_map key _ D k a Hinv). naive_solver. }
  apply NoDup_Permutation.
  - apply NoDup_fmap_2_strong; [|apply NoDup_map_to_list].
    intros [k a] [k' a'] Hk%elem_of_map_to_list Hk'%elem_of_map_to_list Heq. cbn in Heq. subst a'. f_equal.
    apply Hl in Hk as [_ <-], Hk' as [_ <-]. done.
  - by apply rows_NoDup.
  - intros a. rewrite list_elem_of_fmap. split.
    + intros ([k a'] & -> & Hk%elem_of_map_to_list). by apply Hl in Hk as [? _].
    + intros Ha. exists (key a, a). split; [done|]. apply elem_of_map_to_list. by apply Hl.
Qed.

Lemma matching_rows `{ScanOrder} {A} `{Table A} (f : A -> bool) n D :
  matching f n D ≡ₚ filter (fun a => f a = true) (rows D).
Proof. unfold matching. by rewrite scan_perm. Qed.

#[export] Instance newest_first_total {A} (created : A -> time) : Total (newest_first created).
Proof. intros x y. unfold newest_first. lia. Qed.

(** [ORDER BY created_at DESC] lists a user's rows. *)
Lemma newest_listing `{ScanOrder} `{TableLaws A} `{Countable K} (key : A -> K) `{!Keyed key}
    (owner : A -> string) (created : A -> time) uid n D :
  pg_inv D ->
  listing owner created uid (table_map key (@id A) D)
    (merge_sort (newest_first created) (matching (fun x => strEq (owner x) uid) n D)).
Proof.
  intros Hinv. split.
  - rewrite merge_sort_Permutation, matching_rows. f_equiv. by rewrite table_map_rows.
  - apply (Sorted_merge_sort (newest_first created)).
Qed.

(** The count of a user's tokens. *)
Lemma pat_count_rows `{PgTypes} uid D :
  pg_inv D ->
  pat_count uid (d_pats (pg_view D)) =
  Z.of_nat (length (filter (fun p => strEq (pat_UserID p) uid = true) (rows D))).
Proof.
  intros Hinv. unfold pat_count. rewrite size_filter, <- (table_map_rows pat_Hash D Hinv).
  by rewrite length_filter_fmap.
Qed.

(** The summary of a family, from its rows. *)
Lemma max_rotated_at_spec (l : list RefreshToken) :
  match max_rotated_at l with
  | None => forall t, t ∈ l -> rt_RotatedAt t = None
  | Some r => (exists t, t ∈ l /\ rt_RotatedAt t = Some r) /\
              forall t r', t ∈ l -> rt_RotatedAt t = Some r' -> r' <= r
  end.
Proof.
  induction l as [|t l IH]; [by intros t ?%elem_of_nil|]. cbn. fold (max_rotated_at l).
  assert (t ∈ t :: l) as Ht by left. assert (forall t', t' ∈ l -> t' ∈ t :: l) as Hl by (by right).
  destruct (rt_RotatedAt t) as [r|] eqn:Er; destruct (max_rotated_at l) as [m|].
  - destruct IH as [(t' & Ht' & Hr') Hmax]. split.
    + destruct (Z.max_spec r m) as [[_ ->]|[_ ->]]; eauto.
    + intros t0 r0 [->|Ht0]%elem_of_cons Hr0; [simplify_eq; lia|]. specialize (Hmax _ _ Ht0 Hr0). lia.
  - split; [eauto|]. intros t0 r0 [->|Ht0]%elem_of_cons Hr0; [simplify_eq; lia|]. by rewrite (IH _ Ht0) in Hr0.
  - destruct IH as [(t' & Ht' & Hr') Hmax]. split; [eauto|].
    intros t0 r0 [->|Ht0]%elem_of_cons Hr0; [congruence|eauto].
  - intros t0 [->|Ht0]%elem_of_cons; eauto.
Qed.

Lemma family_columns_summary `{PgTypes, ScanOrder} root n D :
  pg_inv D ->
  family_summary root (d_tokens (pg_view D))
    (family_columns (matching (fun t => strEq (rt_Hash t) root || strEq (rt_Parent t) root) n D)).
Proof.
  intros Hinv. set (f := fun t => _). set (l := matching f n D).
  assert (forall t, t ∈ l <-> exists h, d_tokens (pg_view D) !! h = Some t /\ in_family root t = true) as Hl.
  { intros t. unfold l. rewrite matching_elem. setoid_rewrite view_tokens; [|done]. naive_solver. }
  clearbody l. set (m := d_tokens (pg_view D)) in *. clearbody m. clear Hinv. split; cbn.
  - rewrite existsb_exists. setoid_rewrite <- list_elem_of_In. setoid_rewrite Hl. split.
    + intros (t & (h & Ht & Hf) & He). exists h, t. split_and!; [done..|]. by destruct (rt_EndedAt t).
    + intros (h & t & Ht & Hf & [e He]). exists t. rewrite He. eauto.
  - pose proof (max_rotated_at_spec l) as He. destruct (max_rotated_at l) as [r|].
    + destruct He as [(t & Ht & Hr) Hmax]. destruct (proj1 (Hl t) Ht) as (h & ? & ?).
      split; [by exists h, t|]. intros h' t' r' Ht' Hf'. apply Hmax, Hl. eauto.
    + intros h t ? ?. apply He, Hl. eauto.
Qed.
