(* ===== verification/PostgresRefinement.v ===== *)
(** * Each method of the PostgreSQL store implements its port

    On values the server keeps as they are given, with the connection up and no
    random key taken twice, a call does what the ports document; otherwise it
    may fail, as an outage. *)

From S2P Require Import Prelude GoTime Errors Entity Ports Contract ContractFacts Sql Postgres PostgresFacts.

Section refinement.
Context `{PgTypes, ScanOrder, Driver, ServerClock}.
Implicit Types (D : rowset) (env : callenv).

(** ** The values a call sends *)

Definition user_row (now : time) (u : User) : users_row :=
  mkUsersRow (user_ID u) (if negb (strEq (user_Email u) "") then Some (user_Email u) else None)
    (user_Roles u) (stamp (user_CreatedAt u) now) (stamp (user_UpdatedAt u) now).

(** [P] holds of every value of the call and the conversion the server reads
    it with. *)
Definition inputs (P : forall A, (A -> option A) -> A -> Prop) env {X} (c : storeE X) : Prop :=
  let now := ce_now env in
  let text := P _ (text_in None) in
  match c with
  | Create u => P _ column_in (user_row now u)
  | GetByID id | Delete id | ListPATs id | ListOAuthIdentities id | ListWalletIdentities id
  | GetPasswordHash id => P _ uuid_in id
  | GetByEmail s | GetRefreshToken s | RevokeTokens s | GetRefreshFamily s | GetPAT s
  | GetChallenge s | DeleteChallenge s => text s
  | SaveRefreshToken t => P _ column_in (as_issued (stamp_token now t)) /\ text (rt_Parent t)
  | RotateRefreshToken h t | TouchPAT h t => text h /\ P _ timestamptz_in t
  | SavePAT p => P _ column_in (stamp_pat now p)
  | SavePATLimited p _ t =>
      P _ uuid_in (pat_UserID p) /\ P _ timestamptz_in t /\ P _ column_in (stamp_pat now p)
  | DeletePAT uid id => P _ uuid_in id /\ P _ uuid_in uid
  | SaveOAuthIdentity i => P _ column_in (stamp_oauth now i)
  | SaveWalletIdentity i => P _ column_in (stamp_wallet now i)
  | GetOAuthIdentity s t | GetWalletIdentity s t => text s /\ text t
  | SaveChallenge ch => P _ column_in (stamp_challenge now ch)
  | SavePasswordHash uid h => P _ column_in (mkCredentialsRow uid h (server_now env) (server_now env))
  end.

(** The server keeps the value as it is or refuses it: a uuid in canonical
    text, an instant in whole microseconds. *)
Definition kept A (f : A -> option A) (a : A) : Prop := f a = Some a \/ f a = None.
Definition taken_as_is A (f : A -> option A) (a : A) : Prop := f a = Some a.

Definition representable env {X} (c : storeE X) : Prop := inputs kept env c.
Definition accepted env {X} (c : storeE X) : Prop := inputs taken_as_is env c.

(** A random key that is already in the table. *)
Definition collision {X} (c : storeE X) (a : db) : Prop :=
  match c with
  | SaveRefreshToken t => is_Some (d_tokens a !! rt_Hash t)
  | SaveChallenge ch => is_Some (d_challenges a !! ch_Nonce ch)
  | _ => False
  end.

(** Why a call may fail although the ports say it should not. *)
Definition mishap env {X} (c : storeE X) (a : db) : Prop :=
  (exists n failure, driver (ce_seed env) n = Some failure) \/ ~ accepted env c \/ collision c a.

(** A database can be unavailable, and goes by the clock of its server. *)
Definition pg_backend : Backend := {| outages := true; store_now := server_now |}.
#[local] Existing Instance pg_backend.

Definition outcome {X} (c : storeE X) env D (x : X) D' : Prop :=
  pg_inv D' /\
  (port_spec c env (pg_view D) x (pg_view D') \/
   mishap env c (pg_view D) /\ outage c x /\ outage_effect c env (pg_view D) (pg_view D')).

(** ** Methods of one statement *)

(** What a statement has to do for the method that ends with it. *)
Definition answers {X A} (c : storeE X) env D (f : dbres (list A) -> X) (r : dbres (list A)) D' : Prop :=
  pg_inv D' /\
  (port_spec c env (pg_view D) (f r) (pg_view D') \/
   mishap env c (pg_view D) /\ outage c (f r) /\ D' = D).

Lemma driver_mishap {X} (c : storeE X) env a n failure :
  driver (ce_seed env) n = Some failure -> mishap env c a.
Proof. intros Hd. left. eauto. Qed.

Lemma single_statement {X A} (c : storeE X) env D n (q : query A) (f : dbres (list A) -> X) :
  (let '(r, D') := exec (server_now env) (ce_seed env + n) q D in answers c env D f r D') ->
  (forall text, outage c (f (Bad (ConnError text)))) -> pg_inv D ->
  let '(x, conn) := run_sql env (Send (Query q) (fun r => Done (f r))) n (mkConn D Idle) in
  outcome c env D x (committed conn).
Proof.
  intros Hq Hout Hinv. cbn. unfold send_query. destruct (driver _ _) as [[applied text]|] eqn:Ed; cbn.
  - destruct applied; cbn.
    + destruct (exec _ _ _ _) as [r D']. destruct Hq as [Hi Hq]. split; [done|]. right.
      split; [by eapply driver_mishap|]. split; [apply Hout|].
      destruct Hq as [Hp|(_ & _ & ->)]; [right; left; eauto|by left].
    + split; [done|]. right. split; [by eapply driver_mishap|]. split; [apply Hout|by left].
  - destruct (exec _ _ _ _) as [r D']. cbn. destruct Hq as [Hi [Hp|(? & ? & ->)]]; (split; [done|]); [by left|].
    right. split_and!; [done..|by left].
Qed.

Lemma answers_read {X A} (c : storeE X) env D (f : dbres (list A) -> X) r :
  pg_inv D -> port_spec c env (pg_view D) (f r) (pg_view D) -> answers c env D f r D.
Proof. intros ? ?. split; [done|by left]. Qed.

Lemma answers_refused {X A} (c : storeE X) env D (f : dbres (list A) -> X) r :
  pg_inv D -> ~ accepted env c -> outage c (f r) -> answers c env D f r D.
Proof. intros ? ? ?. split; [done|]. right. split_and!; [by right; left|done|done]. Qed.

Lemma pg_error_infrastructure op e : infrastructure (wrap op (pg_error e)) = true.
Proof. done. Qed.

Lemma outage_wrap op e A : exists e', @Err A (wrap op (pg_error e)) = Err e' /\ infrastructure e' = true.
Proof. by eexists. Qed.
End refinement.

#[export] Hint Extern 1 (exists e, Err _ = Err e /\ infrastructure e = true) => (eexists; split; reflexivity) : dbok.

(** The conversions of the arguments, one by one. *)
Ltac refused_value :=
  apply answers_refused; [assumption|unfold accepted, taken_as_is; cbn; intuition congruence|by eexists].
Ltac read_value H := destruct H as [H|H]; rewrite H; [|refused_value].

Section implementation.
Context `{PgTypes, ScanOrder, Driver, ServerClock}.
#[local] Existing Instance pg_backend.
Implicit Types (D : rowset) (env : callenv).

Definition implements {X} (c : storeE X) : Prop :=
  forall env D, pg_inv D -> representable env c ->
  let '(x, D') := pg_call c env D in outcome c env D x D'.

Lemma implements_by {X} (c : storeE X) :
  (forall env D, pg_inv D -> representable env c ->
   let '(x, conn) := run_sql env (pg_program c) 0 (mkConn D Idle) in outcome c env D x (committed conn)) ->
  implements c.
Proof.
  intros Hc env D Hinv Hr. unfold pg_call. specialize (Hc env D Hinv Hr).
  destruct (run_sql _ _ _ _) as [x conn]. done.
Qed.

End implementation.

Ltac single := intros; apply implements_by; intros env D Hinv Hrep; cbn;
  apply (single_statement); [|by eexists|done]; cbn.

(** The first row of a selection by key, or its absence. *)
Ltac selected E :=
  match goal with |- context [matching ?f ?n ?D] =>
    destruct (matching f n D) as [|?r ?l] eqn:E;
    [rewrite matching_nil in E|apply matching_head in E]
  end.

(** A selection by key of rows that are those of the abstract database. *)
Lemma selected_row `{ScanOrder} {A} `{Table A} (D : rowset) (f : A -> bool) seed (o : option A) :
  (forall a, o = Some a <-> a ∈ rows D /\ f a = true) ->
  match matching f seed D with
  | [] => o = None
  | a :: _ => o = Some a
  end.
Proof.
  intros Ho. destruct (matching f seed D) as [|a l] eqn:E.
  - rewrite matching_nil in E. apply eq_None_not_Some. intros [a [Ha Hf]%Ho].
    specialize (E _ Ha). congruence.
  - apply matching_head in E. by apply Ho.
Qed.

Ltac select_by o :=
  match goal with |- context [matching ?f ?n ?D] =>
    let E := fresh "E" in
    assert (match matching f n D with [] => o = None | a :: _ => o = Some a end) as E;
    [apply selected_row|destruct (matching f n D); rewrite E]
  end.

Section reads.
Context `{PgTypes, ScanOrder, Driver, ServerClock}.
#[local] Existing Instance pg_backend.
Implicit Types (D : rowset) (env : callenv).

Lemma pg_GetByID_ok id : implements (GetByID id).
Proof.
  single. read_value Hrep. apply answers_read; [done|]. split; [done|].
  destruct (d_users (pg_view D) !! id) as [u|] eqn:Eu; selected E; cbn; [|f_equal|by eauto with dbok|].
  - apply (view_users D Hinv) in Eu as (r & Hr & <- & _). specialize (E _ Hr). cbn in E. by rewrite strEq_refl in E.
  - destruct E as [Hr Hid%strEq_true].
    assert (d_users (pg_view D) !! id = Some (scanUser r)) by (apply view_users; eauto). congruence.
  - destruct E as [Hr Hid%strEq_true].
    assert (d_users (pg_view D) !! id = Some (scanUser r)) by (apply view_users; eauto). congruence.
Qed.

Lemma pg_GetRefreshToken_ok h : implements (GetRefreshToken h).
Proof.
  single. read_value Hrep. apply answers_read; [done|]. split; [done|].
  select_by (d_tokens (pg_view D) !! h); [|cbn; by eauto with dbok..].
  intros t. rewrite view_tokens, strEq_true by done. done.
Qed.

Lemma pg_GetPAT_ok h : implements (GetPAT h).
Proof.
  single. read_value Hrep. apply answers_read; [done|]. split; [done|].
  select_by (d_pats (pg_view D) !! h); [|cbn; by eauto with dbok..].
  intros t. rewrite view_pats, strEq_true by done. done.
Qed.

Lemma pg_GetOAuthIdentity_ok p ext : implements (GetOAuthIdentity p ext).
Proof.
  single. destruct Hrep as [Hp He]. read_value Hp. read_value He.
  apply answers_read; [done|]. split; [done|].
  select_by (d_oauth (pg_view D) !! (p, ext)); [|cbn; by eauto with dbok..].
  intros i. rewrite view_oauth, andb_true_iff, !strEq_true by done. naive_solver.
Qed.

Lemma pg_GetWalletIdentity_ok c ad : implements (GetWalletIdentity c ad).
Proof.
  single. destruct Hrep as [Hp He]. read_value Hp. read_value He.
  apply answers_read; [done|]. split; [done|].
  select_by (d_wallets (pg_view D) !! (c, ad)); [|cbn; by eauto with dbok..].
  intros i. rewrite view_wallets, andb_true_iff, !strEq_true by done. naive_solver.
Qed.

Lemma pg_GetPasswordHash_ok uid : implements (GetPasswordHash uid).
Proof.
  single. read_value Hrep. apply answers_read; [done|]. split; [done|].
  destruct (d_passwords (pg_view D) !! uid) as [h|] eqn:Eu; selected E; cbn; [|f_equal|by eauto with dbok|].
  - apply (view_passwords D Hinv) in Eu as (r & Hr & <- & _). specialize (E _ Hr). cbn in E. by rewrite strEq_refl in E.
  - destruct E as [Hr Hid%strEq_true].
    assert (d_passwords (pg_view D) !! uid = Some (lc_password_hash r)) by (apply view_passwords; eauto). congruence.
  - destruct E as [Hr Hid%strEq_true].
    assert (d_passwords (pg_view D) !! uid = Some (lc_password_hash r)) by (apply view_passwords; eauto). congruence.
Qed.

Lemma pg_GetByEmail_ok email : implements (GetByEmail email).
Proof.
  intros. apply implements_by. intros env D Hinv Hrep. cbn. unfold pg_GetByEmail.
  destruct (strEq email "") eqn:E0.
  - apply strEq_true in E0 as ->. cbn. split; [done|]. left. split; [done|]. right.
    split; [by intros u [? _]|by eauto with dbok].
  - apply strEq_false in E0. apply single_statement; [|by eexists|done]. cbn. read_value Hrep.
    apply answers_read; [done|]. split; [done|]. selected E; cbn; [right|left].
    + split; [|eauto with dbok]. intros u (r & Hr & -> & He & _)%view_has_email; [|done].
      specialize (E _ Hr). cbn in E. by rewrite bool_decide_eq_true_2 in E.
    + destruct E as [Hr He%bool_decide_eq_true]. exists (scanUser r). split; [|done].
      apply view_has_email; eauto.
Qed.

Lemma pg_GetRefreshFamily_ok root : implements (GetRefreshFamily root).
Proof.
  single. read_value Hrep. apply answers_read; [done|]. split; [done|].
  eexists. split; [done|]. by apply family_columns_summary.
Qed.

Lemma pg_ListPATs_ok uid : implements (ListPATs uid).
Proof.
  single. read_value Hrep. apply answers_read; [done|]. split; [done|].
  eexists. split; [done|]. by apply (newest_listing pat_Hash).
Qed.

Lemma pg_ListOAuthIdentities_ok uid : implements (ListOAuthIdentities uid).
Proof.
  single. read_value Hrep. apply answers_read; [done|]. split; [done|].
  eexists. split; [done|]. by apply (newest_listing (fun i => (oi_Provider i, oi_ExternalID i))).
Qed.

Lemma pg_ListWalletIdentities_ok uid : implements (ListWalletIdentities uid).
Proof.
  single. read_value Hrep. apply answers_read; [done|]. split; [done|].
  eexists. split; [done|]. by apply (newest_listing (fun i => (wi_Chain i, wi_Address i))).
Qed.
End reads.

(** ** Insertions *)

Section inserts.
Context `{PgTypes, ScanOrder, Driver, ServerClock}.
#[local] Existing Instance pg_backend.
Implicit Types (D : rowset) (env : callenv).

(** A row in conflict with those of its own table. *)
Lemma conflict_row `{TableLaws A} D (a : A) :
  pg_inv D ->
  (exists k r, D !! k = Some r /\ conflicts (inj a) r = true) <->
  exists b : A, b ∈ rows D /\ conflicts (inj a) (inj b) = true.
Proof.
  intros Hinv. split.
  - intros (k & r & Hk & Hc). destruct (prj_table r a) as [b ->%prj_Some].
    { apply conflicts_spec in Hc as [Hc|(Hc & _)]; [|done]. by injection Hc. }
    exists b. split; [|done]. apply elem_of_rows. eauto.
  - intros (b & [k Hk]%elem_of_rows & Hc). eauto.
Qed.

(** What an INSERT does to well-formed tables. *)
Lemma insert_cases `{TableLaws A} (a : A) D :
  pg_inv D -> column_in a = Some a ->
  (insert_row a D = (Bad (PgError unique_violation), D) /\
     exists b : A, b ∈ rows D /\ conflicts (inj a) (inj b) = true) \/
  (insert_row a D = (Bad (PgError foreign_key_violation), D) /\
     (forall b : A, b ∈ rows D -> conflicts (inj a) (inj b) = false) /\
     exists uid, references (inj a) = Some uid /\ d_users (pg_view D) !! uid = None) \/
  (insert_row a D = (Good [a], <[key_of (inj a) := inj a]> D) /\
     (forall b : A, b ∈ rows D -> conflicts (inj a) (inj b) = false) /\
     (forall uid, references (inj a) = Some uid -> is_Some (d_users (pg_view D) !! uid)) /\
     D !! key_of (inj a) = None /\ pg_inv (<[key_of (inj a) := inj a]> D)).
Proof.
  intros Hinv Ha. unfold insert_row. rewrite Ha.
  destruct (existsb _ _) eqn:Ec; [left; split; [done|]; by apply (conflict_row D a Hinv), conflict_exists|]. right.
  assert (forall b : A, b ∈ rows D -> conflicts (inj a) (inj b) = false) as Hno.
  { intros b Hb. apply not_true_is_false. intros Hc. apply not_true_iff_false in Ec. apply Ec.
    apply conflict_exists, (conflict_row D a Hinv). eauto. }
  destruct (references (inj a)) as [uid|] eqn:Er.
  - destruct (D !! (T_users, uid)) as [u|] eqn:Eu.
    + right. assert (forall uid', references (inj a) = Some uid' -> is_Some (D !! (T_users, uid'))) as Hr.
      { intros uid' Hr. rewrite Er in Hr. simplify_eq. by rewrite Eu. }
      destruct (insert_inv D Hinv (inj a) Ec Hr) as [Hf Hi]. split_and!; [done..| |done|done].
      intros uid' Hu. rewrite <- user_ref by done. simplify_eq. by rewrite Eu.
    + left. split_and!; [done..|]. exists uid. split; [done|]. apply eq_None_not_Some. rewrite <- user_ref by done.
      rewrite Eu. by intros [].
  - right. destruct (insert_inv D Hinv (inj a) Ec) as [Hf Hi]; [by rewrite Er|].
    split_and!; done.
Qed.

Section view_insert.
Context (D : rowset) (Hinv : pg_inv D).

Let fresh {A} `{Table A} (a : A) : Prop :=
  D !! key_of (inj a) = None /\ pg_inv (<[key_of (inj a) := inj a]> D).

Ltac solve_view L :=
  intros [Hf Hi]; unfold pg_view at 1; rewrite L by assumption;
  rewrite !table_map_insert_other by (assumption || apply _ || (intros ?; discriminate)); reflexivity.

Lemma view_insert_user (r : users_row) : fresh r ->
  pg_view (<[key_of (inj r) := inj r]> D) = with_users (pg_view D) (<[u_id r := scanUser r]> (d_users (pg_view D))).
Proof. solve_view (table_map_insert D Hinv u_id scanUser). Qed.
Lemma view_insert_token (t : RefreshToken) : fresh t ->
  pg_view (<[key_of (inj t) := inj t]> D) = with_tokens (pg_view D) (<[rt_Hash t := t]> (d_tokens (pg_view D))).
Proof. solve_view (table_map_insert D Hinv rt_Hash (@id RefreshToken)). Qed.
Lemma view_insert_pat (p : PersonalAccessToken) : fresh p ->
  pg_view (<[key_of (inj p) := inj p]> D) = with_pats (pg_view D) (<[pat_Hash p := p]> (d_pats (pg_view D))).
Proof. solve_view (table_map_insert D Hinv pat_Hash (@id PersonalAccessToken)). Qed.
Lemma view_insert_credentials (c : local_credentials_row) : fresh c ->
  pg_view (<[key_of (inj c) := inj c]> D) =
  with_passwords (pg_view D) (<[lc_user_id c := lc_password_hash c]> (d_passwords (pg_view D))).
Proof. solve_view (table_map_insert D Hinv lc_user_id lc_password_hash). Qed.
Lemma view_insert_oauth (i : OAuthIdentity) : fresh i ->
  pg_view (<[key_of (inj i) := inj i]> D) =
  with_oauth (pg_view D) (<[(oi_Provider i, oi_ExternalID i) := i]> (d_oauth (pg_view D))).
Proof. solve_view (table_map_insert D Hinv (fun i => (oi_Provider i, oi_ExternalID i)) (@id OAuthIdentity)). Qed.
Lemma view_insert_wallet (i : WalletIdentity) : fresh i ->
  pg_view (<[key_of (inj i) := inj i]> D) =
  with_wallets (pg_view D) (<[(wi_Chain i, wi_Address i) := i]> (d_wallets (pg_view D))).
Proof. solve_view (table_map_insert D Hinv (fun i => (wi_Chain i, wi_Address i)) (@id WalletIdentity)). Qed.
Lemma view_insert_challenge (c : Challenge) : fresh c ->
  pg_view (<[key_of (inj c) := inj c]> D) =
  with_challenges (pg_view D) (<[ch_Nonce c := c]> (d_challenges (pg_view D))).
Proof. solve_view (table_map_insert D Hinv ch_Nonce (@id Challenge)). Qed.
End view_insert.

Ltac inserted_by Hrep := destruct Hrep as [Hrep|Hrep]; [|unfold insert_row; rewrite Hrep; refused_value].

(** A statement that changes nothing and answers what the port says. *)
Lemma answers_port {X A} (c : storeE X) env D (f : dbres (list A) -> X) r D' :
  pg_inv D' -> port_spec c env (pg_view D) (f r) (pg_view D') -> answers c env D f r D'.
Proof. intros ? ?. split; [done|by left]. Qed.

Lemma user_conflict (a b : users_row) :
  conflicts (inj a) (inj b) = true <-> u_id a = u_id b \/ exists e, u_email a = Some e /\ u_email b = Some e.
Proof.
  rewrite conflicts_spec. unfold key_of. cbn. split.
  - intros [[= ?]|(_ & [l Hl] & He)]; [by left|]. right.
    apply fmap_Some in Hl as (e & Ha & ->). rewrite Ha in He. apply fmap_Some in He as (e' & Hb & [= ->]). eauto.
  - intros [->|(e & -> & ->)]; [by left|]. right. split_and!; eauto.
Qed.

Lemma pg_Create_ok u : implements (Create u).
Proof.
  single. change (mkUsersRow _ _ _ _ _) with (user_row (ce_now env) u). cbn in Hrep. inserted_by Hrep.
  assert (forall b : users_row, b ∈ rows D -> conflicts (inj (user_row (ce_now env) u)) (inj b) = true ->
    is_Some (d_users (pg_view D) !! user_ID u) \/ exists v, has_email (pg_view D) (user_Email u) v) as Hc.
  { intros b Hb [Hid|(e & He & He')]%user_conflict.
    - left. cbn in Hid. exists (scanUser b). apply view_users; eauto.

    - right. exists (scanUser b). cbn in He. apply view_has_email; [done|]. exists b.
      destruct (strEq (user_Email u) "") eqn:E; [done|]. apply strEq_false in E. by simplify_eq/=. }
  destruct (insert_cases (user_row (ce_now env) u) D Hinv Hrep)
    as [(-> & b & Hb & Hcb)|[(-> & _ & uid & [=] & _)|(-> & Hno & _ & Hf & Hi)]].
  - apply answers_port; [done|]. left. split_and!; [by eapply Hc|apply refused_wrap|done].
  - apply answers_port; [done|]. right. split; [|split; [done|]].
    + intros [[v Hv]|[v Hv]].
      * apply (view_users D Hinv) in Hv as (b & Hb & Hid & _).
        specialize (Hno b Hb). rewrite (proj2 (user_conflict _ b)) in Hno; [done|by left].
      * apply (view_has_email D Hinv) in Hv as (b & Hb & _ & He & Hn).
        specialize (Hno b Hb). rewrite (proj2 (user_conflict _ b)) in Hno; [done|right].
        exists (user_Email u). cbn. by rewrite (proj2 (strEq_false _ _) Hn).
    + rewrite view_insert_user by done. do 2 f_equal. unfold scanUser, stamp_user. cbn.
      destruct (strEq (user_Email u) "") eqn:E; [|done]. by apply strEq_true in E as ->.
Qed.

Lemma pat_conflict (a b : PersonalAccessToken) :
  conflicts (inj a) (inj b) = true <-> pat_ID a = pat_ID b \/ pat_Hash a = pat_Hash b.
Proof.
  rewrite conflicts_spec. unfold key_of. cbn. split.
  - intros [[= ?]|(_ & _ & [= ?])]; auto.
  - intros [->| ->]; [by left|]. right. split_and!; eauto.
Qed.
Lemma oauth_conflict (a b : OAuthIdentity) :
  conflicts (inj a) (inj b) = true <->
  oi_ID a = oi_ID b \/ (oi_Provider a, oi_ExternalID a) = (oi_Provider b, oi_ExternalID b).
Proof.
  rewrite conflicts_spec. unfold key_of. cbn. split.
  - intros [[= ?]|(_ & _ & [= -> ->])]; auto.
  - intros [->|[= -> ->]]; [by left|]. right. split_and!; eauto.
Qed.
Lemma wallet_conflict (a b : WalletIdentity) :
  conflicts (inj a) (inj b) = true <->
  wi_ID a = wi_ID b \/ (wi_Chain a, wi_Address a) = (wi_Chain b, wi_Address b).
Proof.
  rewrite conflicts_spec. unfold key_of. cbn. split.
  - intros [[= ?]|(_ & _ & [= -> ->])]; auto.
  - intros [->|[= -> ->]]; [by left|]. right. split_and!; eauto.
Qed.
Lemma token_conflict (a b : RefreshToken) :
  conflicts (inj a) (inj b) = true <-> rt_Hash a = rt_Hash b.
Proof.
  rewrite conflicts_spec. unfold key_of. cbn. split; [|by intros ->; left].
  intros [[= ?]|(_ & [? [=]] & _)]; auto.
Qed.
Lemma challenge_conflict (a b : Challenge) :
  conflicts (inj a) (inj b) = true <-> ch_Nonce a = ch_Nonce b.
Proof.
  rewrite conflicts_spec. unfold key_of. cbn. split; [|by intros ->; left].
  intros [[= ?]|(_ & [? [=]] & _)]; auto.
Qed.

Lemma pg_SavePAT_ok p : implements (SavePAT p).
Proof.
  single. change (mkPAT _ _ _ _ _ _ _ _) with (stamp_pat (ce_now env) p). cbn in Hrep. inserted_by Hrep.
  destruct (insert_cases (stamp_pat (ce_now env) p) D Hinv Hrep)
    as [(-> & b & Hb & Hcb)|[(-> & Hno & uid & [= <-] & Hu)|(-> & Hno & Hrefs & Hf & Hi)]];
    (apply answers_port; [done|]); cbn [port_spec].
  - apply pat_conflict in Hcb. cbn in Hcb.
    assert (@refused PersonalAccessToken (Err (patSaveError (stamp_pat (ce_now env) p) (PgError unique_violation)))
      store.ErrPATExists) as Hr by apply refused_wrap.
    assert (is_Some (d_pats (pg_view D) !! pat_Hash p) \/ id_taken pat_ID (pat_ID p) (d_pats (pg_view D))) as Ht.
    { destruct Hcb as [Hid|Hh]; [right; exists (pat_Hash b), b|left; exists b]; [split; [by apply view_pats|done]|].
      apply view_pats; auto. }
    destruct (d_users _ !! _); [|split; [by right|done]].
    destruct (d_pats _ !! _) eqn:Ep; [done|]. right. split_and!; [|done|done]. by destruct Ht as [[]|].
  - cbn [pat_UserID stamp_pat] in Hu. rewrite Hu. split; [|done]. left. apply refused_wrap.
  - destruct (Hrefs _ eq_refl) as [v Hv]. cbn [pat_UserID stamp_pat] in Hv. rewrite Hv.
    destruct (d_pats (pg_view D) !! pat_Hash p) as [b|] eqn:Ep.
    + apply (view_pats D Hinv) in Ep as [Hb Hh]. specialize (Hno b Hb).
      by rewrite (proj2 (pat_conflict _ b)) in Hno by (by right).
    + left. split; [done|]. by rewrite view_insert_pat.
Qed.

Lemma pg_SaveOAuthIdentity_ok i : implements (SaveOAuthIdentity i).
Proof.
  single. change (mkOAuthIdentity _ _ _ _ _ _) with (stamp_oauth (ce_now env) i). cbn in Hrep. inserted_by Hrep.
  destruct (insert_cases (stamp_oauth (ce_now env) i) D Hinv Hrep)
    as [(-> & b & Hb & Hcb)|[(-> & Hno & uid & [= <-] & Hu)|(-> & Hno & Hrefs & Hf & Hi)]];
    (apply answers_port; [done|]); cbn [port_spec].
  - apply oauth_conflict in Hcb.
    match goal with |- context [refused ?x store.ErrOAuthIdentityExists] =>
      assert (refused x store.ErrOAuthIdentityExists) as Hr by apply refused_wrap end.
    assert (is_Some (d_oauth (pg_view D) !! (oi_Provider i, oi_ExternalID i)) \/ id_taken oi_ID (oi_ID i) (d_oauth (pg_view D))) as Ht.
    { destruct Hcb as [Hid|Hh]; [right; exists (oi_Provider b, oi_ExternalID b), b|left; exists b]; [split; [by apply view_oauth|done]|].
      cbn in Hh. rewrite Hh. by apply view_oauth. }
    destruct (d_users _ !! _); [|split; [by right|done]].
    destruct (d_oauth _ !! _) eqn:Ep; [done|]. right. split_and!; [|done|done]. by destruct Ht as [[]|].
  - cbn [oi_UserID stamp_oauth] in Hu. rewrite Hu. split; [|done]. left. apply refused_wrap.
  - destruct (Hrefs _ eq_refl) as [v Hv]. cbn [oi_UserID stamp_oauth] in Hv. rewrite Hv.
    destruct (d_oauth (pg_view D) !! _) as [b|] eqn:Ep.
    + apply (view_oauth D Hinv) in Ep as [Hb Hh]. specialize (Hno b Hb).
      by rewrite (proj2 (oauth_conflict _ b)) in Hno by (by right).
    + left. split; [done|]. by rewrite view_insert_oauth.
Qed.

Lemma pg_SaveWalletIdentity_ok i : implements (SaveWalletIdentity i).
Proof.
  single. change (mkWalletIdentity _ _ _ _ _) with (stamp_wallet (ce_now env) i). cbn in Hrep. inserted_by Hrep.
  destruct (insert_cases (stamp_wallet (ce_now env) i) D Hinv Hrep)
    as [(-> & b & Hb & Hcb)|[(-> & Hno & uid & [= <-] & Hu)|(-> & Hno & Hrefs & Hf & Hi)]];
    (apply answers_port; [done|]); cbn [port_spec].
  - apply wallet_conflict in Hcb.
    match goal with |- context [refused ?x store.ErrWalletIdentityExists] =>
      assert (refused x store.ErrWalletIdentityExists) as Hr by apply refused_wrap end.
    assert (is_Some (d_wallets (pg_view D) !! (wi_Chain i, wi_Address i)) \/ id_taken wi_ID (wi_ID i) (d_wallets (pg_view D))) as Ht.
    { destruct Hcb as [Hid|Hh]; [right; exists (wi_Chain b, wi_Address b), b|left; exists b]; [split; [by apply view_wallets|done]|].
      cbn in Hh. rewrite Hh. by apply view_wallets. }
    destruct (d_users _ !! _); [|split; [by right|done]].
    destruct (d_wallets _ !! _) eqn:Ep; [done|]. right. split_and!; [|done|done]. by destruct Ht as [[]|].
  - cbn [wi_UserID stamp_wallet] in Hu. rewrite Hu. split; [|done]. left. apply refused_wrap.
  - destruct (Hrefs _ eq_refl) as [v Hv]. cbn [wi_UserID stamp_wallet] in Hv. rewrite Hv.
    destruct (d_wallets (pg_view D) !! _) as [b|] eqn:Ep.
    + apply (view_wallets D Hinv) in Ep as [Hb Hh]. specialize (Hno b Hb).
      by rewrite (proj2 (wallet_conflict _ b)) in Hno by (by right).
    + left. split; [done|]. by rewrite view_insert_wallet.
Qed.
End inserts.

(** ** Updates and deletions *)

Section changes.
Context `{PgTypes, ScanOrder, Driver, ServerClock}.
#[local] Existing Instance pg_backend.
Implicit Types (D : rowset) (env : callenv).

Ltac other_table := (assumption || apply _ || (intros; discriminate)).

Lemma view_update_token D (cond : RefreshToken -> bool) set :
  pg_inv D -> keeps_keys set -> (forall t, rt_Hash (set t) = rt_Hash t) ->
  pg_view (update_rows cond set D) =
  with_tokens (pg_view D) ((fun t => if cond t then set t else t) <$> d_tokens (pg_view D)).
Proof.
  intros Hinv Hk Hh. unfold pg_view at 1. rewrite (table_map_update D Hinv rt_Hash cond set) by assumption.
  rewrite !(table_map_update_other D Hinv) by other_table. reflexivity.
Qed.

Lemma view_update_pat D (cond : PersonalAccessToken -> bool) set :
  pg_inv D -> keeps_keys set -> (forall t, pat_Hash (set t) = pat_Hash t) ->
  pg_view (update_rows cond set D) =
  with_pats (pg_view D) ((fun t => if cond t then set t else t) <$> d_pats (pg_view D)).
Proof.
  intros Hinv Hk Hh. unfold pg_view at 1. rewrite (table_map_update D Hinv pat_Hash cond set) by assumption.
  rewrite !(table_map_update_other D Hinv) by other_table. reflexivity.
Qed.

Lemma view_delete_pat D (c : PersonalAccessToken -> bool) :
  pg_inv D ->
  pg_view (delete_rows (on_row c) D) = with_pats (pg_view D) (DeleteFunc c (d_pats (pg_view D))).
Proof.
  intros Hinv. unfold pg_view at 1. rewrite (table_map_delete D Hinv pat_Hash (on_row c) c).
  - rewrite !(table_map_delete_none D Hinv) by (assumption || apply _ || done). reflexivity.
  - intros p Hp. unfold on_row. cbn. split; [tauto|]. intros Hc. split; [done|]. intros uid u _ Hu.
    pose proof (pi_keys _ Hinv _ _ Hu). destruct u; done.
Qed.

Lemma view_delete_challenge D (c : Challenge -> bool) :
  pg_inv D ->
  pg_view (delete_rows (on_row c) D) = with_challenges (pg_view D) (DeleteFunc c (d_challenges (pg_view D))).
Proof.
  intros Hinv. unfold pg_view at 1. rewrite (table_map_delete D Hinv ch_Nonce (on_row c) c).
  - rewrite !(table_map_delete_none D Hinv) by (assumption || apply _ || done). reflexivity.
  - intros p Hp. unfold on_row. cbn. split; [tauto|]. intros Hc. split; [done|]. done.
Qed.

(** Deleting the one row of a map that a clause on it selects. *)
Lemma DeleteFunc_one `{Countable K} {A} (f : A -> bool) (m : gmap K A) k x :
  m !! k = Some x -> f x = true -> (forall k' x', m !! k' = Some x' -> f x' = true -> k' = k) ->
  DeleteFunc f m = delete k m.
Proof.
  intros Hk Hf Hu. apply map_eq. intros i. apply option_eq. intros y.
  rewrite lookup_DeleteFunc, lookup_delete_Some. split.
  - intros [Hi Hy]. split; [|done]. intros ->. congruence.
  - intros [Hne Hi]. split; [done|]. apply not_true_is_false. intros Hy. by rewrite (Hu _ _ Hi Hy) in Hne.
Qed.

Lemma DeleteFunc_none `{Countable K} {A} (f : A -> bool) (m : gmap K A) :
  (forall k x, m !! k = Some x -> f x = false) -> DeleteFunc f m = m.
Proof.
  intros Hf. apply map_eq. intros i. apply option_eq. intros y. rewrite lookup_DeleteFunc. naive_solver.
Qed.

(** Changing the one row of a map under its key. *)
Lemma fmap_one `{Countable K} {A} (f : A -> bool) (g : A -> A) (m : gmap K A) k x :
  m !! k = Some x -> f x = true -> (forall k' x', m !! k' = Some x' -> f x' = true -> k' = k) ->
  (fun a => if f a then g a else a) <$> m = <[k := g x]> m.
Proof.
  intros Hk Hf Hu. apply map_eq. intros i. rewrite lookup_fmap. destruct (decide (i = k)) as [->|Hne].
  - by rewrite Hk, lookup_insert_eq; cbn; rewrite Hf.
  - rewrite lookup_insert_ne by done. destruct (m !! i) as [y|] eqn:Hi; [|done]. cbn.
    destruct (f y) eqn:Hy; [|done]. by destruct Hne; eapply Hu.
Qed.

Lemma fmap_none `{Countable K} {A} (f : A -> bool) (g : A -> A) (m : gmap K A) :
  (forall k x, m !! k = Some x -> f x = false) -> (fun a => if f a then g a else a) <$> m = m.
Proof.
  intros Hf. apply map_eq. intros i. rewrite lookup_fmap. destruct (m !! i) as [y|] eqn:Hi; [|done]. cbn.
  by rewrite (Hf _ _ Hi).
Qed.

(** The number of rows affected. *)
Lemma matching_count {A} `{Table A} (f : A -> bool) n D :
  (Z.of_nat (length (matching f n D)) =? 0) = true <-> forall a, a ∈ rows D -> f a = false.
Proof.
  rewrite <- (matching_nil f n). rewrite Z.eqb_eq. destruct (matching f n D); cbn; [done|]. split; [lia|done].
Qed.

Lemma pg_TouchPAT_ok h t : implements (TouchPAT h t).
Proof.
  single. destruct Hrep as [Hh Ht]. read_value Hh. read_value Ht.
  assert (keeps_keys (touch t)) as Hk by done.
  apply answers_port; [by apply (update_inv D Hinv _ (touch t))|].
  split; [done|]. rewrite (view_update_pat D _ (touch t) Hinv Hk) by done. f_equal.
  destruct (d_pats (pg_view D) !! h) as [p|] eqn:Ep.
  - pose proof (proj1 (view_pats D Hinv _ _) Ep) as [_ Hp].
    rewrite (fmap_one _ (touch t) _ h p Ep).
    + apply map_eq. intros i. destruct (decide (i = h)) as [->|?].
      * by rewrite lookup_insert_eq, lookup_alter_eq, Ep.
      * by rewrite lookup_insert_ne, lookup_alter_ne.
    + by apply strEq_true.
    + by intros k' p' [_ <-]%(view_pats D Hinv) ->%strEq_true.
  - rewrite fmap_none; [symmetry; apply alter_id; intros ? ?; congruence|].
    intros k' p' Hl. apply strEq_false. intros Hp. apply (view_pats D Hinv) in Hl as Hl'. destruct Hl' as [_ <-].
    congruence.
Qed.

Lemma pg_DeletePAT_ok uid id : implements (DeletePAT uid id).
Proof.
  single. destruct Hrep as [Hid Huid]. read_value Hid. read_value Huid.
  set (c := fun p => strEq (pat_ID p) id && strEq (pat_UserID p) uid).
  apply answers_port; [by apply delete_inv|]. cbn [port_spec].
  rewrite (view_delete_pat D c Hinv).
  destruct (matching c (ce_seed env + 0) D) as [|p l] eqn:E; cbn.
  - rewrite matching_nil in E. right. split_and!; [|by apply refused_sentinel|].
    + intros h p [Hp _]%(view_pats D Hinv) [<- <-]. specialize (E _ Hp). unfold c in E. by rewrite !strEq_refl in E.
    + rewrite DeleteFunc_none; [done|].
      intros k p [Hp _]%(view_pats D Hinv). by apply E.
  - apply matching_head in E as [Hp Hc]. left.
    assert (d_pats (pg_view D) !! pat_Hash p = Some p) as Hl by by apply view_pats.
    pose proof Hc as [Hi%strEq_true Hu%strEq_true]%andb_prop.
    exists (pat_Hash p), p. split_and!; [done..| |].
    + done.
    + f_equal. apply (DeleteFunc_one c _ _ p); [done..|].
      intros k p' [Hp' <-]%(view_pats D Hinv) [Hi'%strEq_true _]%andb_prop. f_equal.
      apply (rows_conflict D Hinv); [done..|]. apply conflicts_key. unfold key_of. cbn. congruence.
Qed.

Lemma pg_DeleteChallenge_ok n : implements (DeleteChallenge n).
Proof.
  single. read_value Hrep. set (c := fun ch => strEq (ch_Nonce ch) n).
  apply answers_port; [by apply delete_inv|]. cbn [port_spec].
  change (delete_rows _ D) with (delete_rows (on_row c) D). rewrite (view_delete_challenge D c Hinv).
  change (fun ch : Challenge => strEq (ch_Nonce ch) n) with c.
  destruct (d_challenges (pg_view D) !! n) as [ch|] eqn:En.
  - pose proof (proj1 (view_challenges D Hinv _ _) En) as [Hch Hn].
    assert (c ch = true) as Hc by by apply strEq_true.
    destruct (Z.of_nat (length _) =? 0) eqn:E0.
    { pose proof (proj1 (matching_count c _ D) E0 _ Hch). congruence. }
    split; [done|]. f_equal. apply (DeleteFunc_one c _ _ ch); [done..|].
    by intros k ch' [_ <-]%(view_challenges D Hinv) ->%strEq_true.
  - assert (forall k ch, d_challenges (pg_view D) !! k = Some ch -> c ch = false) as Hno.
    { intros k ch Hk. pose proof (proj1 (view_challenges D Hinv _ _) Hk) as [_ <-].
      apply strEq_false. congruence. }
    rewrite (proj2 (matching_count c _ D)).
    + split; [apply refused_sentinel|]. by rewrite (DeleteFunc_none c).
    + intros ch Hch. by apply (Hno (ch_Nonce ch)), view_challenges.
Qed.

(** A user row and all that reference it. *)
Lemma owner_deleted D id uid (cond := fun u : users_row => strEq (u_id u) id) :
  pg_inv D -> is_Some (D !! (T_users, uid)) ->
  (forall u, D !! (T_users, uid) = Some u -> on_row cond u = false) <-> strEq uid id = false.
Proof.
  intros Hinv [u Hu]. pose proof (pi_keys _ Hinv _ _ Hu) as Hk.
  destruct u as [r| | | | | |]; try done. injection Hk as Hk. split.
  - intros Hc. specialize (Hc _ Hu). unfold on_row, cond in Hc. cbn in Hc. by rewrite Hk in Hc.
  - intros Hid u Hu'. simplify_eq. done.
Qed.

Lemma owned_rows_deleted `{TableLaws A} `{Countable K} (key : A -> K) `{!Keyed key} (owner : A -> string) D uid :
  pg_inv D -> (forall a : A, references (inj a) = Some (owner a)) ->
  (forall a : A, prj (A := users_row) (inj a) = None) ->
  table_map key (@id A) (delete_rows (on_row (fun u : users_row => strEq (u_id u) uid)) D) =
  DeleteFunc (fun a => strEq (owner a) uid) (table_map key (@id A) D).
Proof.
  intros Hinv Hr Hp. apply (table_map_delete D Hinv key). intros a Ha.
  assert (is_Some (D !! (T_users, owner a))) as Ho.
  { apply elem_of_rows in Ha as [k Hk]. by apply (pi_refs _ Hinv _ _ _ Hk). }
  rewrite <- (owner_deleted D uid (owner a) Hinv Ho). split.
  - intros [_ Hd] u. by apply Hd.
  - intros Hd. split; [unfold on_row; by rewrite Hp|].
    intros uid' u Hu. rewrite Hr in Hu. simplify_eq. apply Hd.
Qed.

Lemma view_delete_user D id :
  pg_inv D ->
  pg_view (delete_rows (on_row (fun u : users_row => strEq (u_id u) id)) D) = cascade id (pg_view D).
Proof.
  intros Hinv. set (cond := on_row _). pose proof (delete_inv D Hinv cond) as Hinv'.
  unfold pg_view at 1, cascade. f_equal.
  - apply map_eq. intros i. apply option_eq. intros u. rewrite lookup_delete_Some, (view_users D Hinv).
    rewrite (lookup_table_map u_id scanUser (delete_rows cond D) i u Hinv'). setoid_rewrite (rows_delete D cond). split.
    + intros (r & (Hr & Hc & _) & <- & <-). split; [|eauto]. unfold on_row in Hc. cbn in Hc.
      apply strEq_false in Hc. congruence.
    + intros (Hne & r & Hr & <- & <-). exists r. split_and!; [done| |done..].
      unfold on_row. cbn. apply strEq_false. congruence.
  - by apply (owned_rows_deleted rt_Hash rt_UserID).
  - by apply (owned_rows_deleted pat_Hash pat_UserID).
  - apply map_eq. intros i. apply option_eq. intros h. rewrite lookup_delete_Some, (view_passwords D Hinv).
    rewrite (lookup_table_map lc_user_id lc_password_hash (delete_rows cond D) i h Hinv'). setoid_rewrite (rows_delete D cond).
    assert (forall r : local_credentials_row, r ∈ rows D -> is_Some (D !! (T_users, lc_user_id r))) as Ho.
    { intros r [k Hk]%elem_of_rows. by apply (pi_refs _ Hinv _ _ _ Hk). }
    split.
    + intros (r & (Hr & _ & Hd) & <- & <-). split; [|eauto]. intros ->.
      assert (strEq (lc_user_id r) (lc_user_id r) = false) as Hf; [|by rewrite strEq_refl in Hf].
      apply (owner_deleted D _ _ Hinv (Ho _ Hr)). intros u. by apply Hd.
    + intros (Hne & r & Hr & <- & <-). exists r. split_and!; [done|done| |done|done].
      intros uid u [= <-]. apply (owner_deleted D id _ Hinv (Ho _ Hr)). apply strEq_false. congruence.
  - by apply (owned_rows_deleted (fun i => (oi_Provider i, oi_ExternalID i)) oi_UserID).
  - by apply (owned_rows_deleted (fun i => (wi_Chain i, wi_Address i)) wi_UserID).
  - apply (table_map_ext ch_Nonce); [done..|]. intros c. rewrite (rows_delete D cond).
    split; [tauto|]. intros Hc. by split_and!.
Qed.

Lemma pg_Delete_ok uid : implements (Delete uid).
Proof.
  single. read_value Hrep. apply answers_port; [by apply delete_inv|]. cbn [port_spec].
  destruct (d_users (pg_view D) !! uid) as [u|] eqn:Eu.
  - apply (view_users D Hinv) in Eu as (r & Hr & Hid & _).
    destruct (Z.of_nat (length _) =? 0) eqn:E0.
    { pose proof (proj1 (matching_count _ _ D) E0 _ Hr) as Hc. cbn in Hc. by rewrite Hid, strEq_refl in Hc. }
    split; [done|]. by apply view_delete_user.
  - assert (forall r : users_row, r ∈ rows D -> strEq (u_id r) uid = false) as Hno.
    { intros r Hr. apply strEq_false. intros Hid.
      assert (d_users (pg_view D) !! uid = Some (scanUser r)) by (apply view_users; eauto). congruence. }
    rewrite (proj2 (matching_count _ _ D)) by done. split; [apply refused_wrap|].
    f_equal. apply map_eq. intros k. apply option_eq. intros r. rewrite delete_lookup.
    split; [tauto|]. intros Hk. split_and!; [done| |].
    + unfold on_row. destruct (prj r) as [u|] eqn:Er; [|done]. apply prj_Some in Er as ->.
      apply Hno, elem_of_rows. eauto.
    + intros id u _ Hu. unfold on_row. destruct (prj u) as [v|] eqn:Ev; [|done]. apply prj_Some in Ev as ->.
      apply Hno, elem_of_rows. eauto.
Qed.

Lemma pg_GetChallenge_ok n : implements (GetChallenge n).
Proof.
  intros. apply implements_by. intros env D Hinv Hrep. cbn. unfold send_query.
  destruct (driver _ 0) as [[applied text]|] eqn:Ed; cbn.
  { assert ((if applied then mkConn (exec (server_now env) (ce_seed env + 0) (BIND (text_in None n) (fun nonce => SELECT (fun c => strEq (ch_Nonce c) nonce))) D).2 Idle else mkConn D Idle) = mkConn D Idle) as Hs.
    { destruct applied; [|done]. cbn. by destruct (text_in None n). }
    cbn in Hs. rewrite Hs. split; [done|]. right. split_and!; [by eapply driver_mishap|by eexists|by left]. }
  destruct Hrep as [Hn|Hn]; rewrite Hn.
  2: { split; [done|]. right. split_and!; [right; left; unfold accepted, taken_as_is; cbn; congruence|by eexists|by left]. }
  assert (match matching (fun c => strEq (ch_Nonce c) n) (ce_seed env + 0) D with
          | [] => d_challenges (pg_view D) !! n = None
          | c :: _ => d_challenges (pg_view D) !! n = Some c end) as E.
  { apply selected_row. intros c. rewrite view_challenges, strEq_true by done. done. }
  cbn. destruct (matching _ _ D) as [|c l]; cbn.
  - split; [done|]. left. cbn [port_spec]. rewrite E. split; [apply refused_sentinel|done].
  - split; [done|]. left. cbn [port_spec]. rewrite E. destruct (Before _ _).
    + split; [apply refused_sentinel|by left].
    + done.
Qed.
End changes.

(** ** Methods of several statements *)

Section transactions.
Context `{PgTypes, ScanOrder, Driver, ServerClock}.
#[local] Existing Instance pg_backend.
Implicit Types (D : rowset) (env : callenv).

(** A failure that leaves the tables as they were. *)
Lemma outcome_unchanged {X} (c : storeE X) env D x :
  pg_inv D -> mishap env c (pg_view D) -> outage c x -> outcome c env D x D.
Proof. intros ? ? ?. split; [done|]. right. split_and!; [done..|by left]. Qed.

Lemma outcome_port {X} (c : storeE X) env D x D' :
  pg_inv D' -> port_spec c env (pg_view D) x (pg_view D') -> outcome c env D x D'.
Proof. intros ? ?. split; [done|by left]. Qed.

(** A failure after which the effect may have got through. *)
Lemma outcome_lost {X} (c : storeE X) env D x y D' :
  pg_inv D' -> mishap env c (pg_view D) -> outage c x ->
  port_spec c env (pg_view D) y (pg_view D') -> outcome c env D x D'.
Proof. intros ? ? ? ?. split; [done|]. right. split_and!; [done..|]. right. left. eauto. Qed.

Ltac driver_failed Ed := apply outcome_unchanged; [assumption|by eapply driver_mishap|by eexists].
Ltac value_refused := apply outcome_unchanged; [assumption|
  right; left; unfold accepted, taken_as_is; cbn; intuition congruence|by eexists].

(** *** Rotation *)

Definition live_at (h : string) (now : time) (t : RefreshToken) : bool :=
  strEq (rt_Hash t) h && negb (rt_Revoked t) && (now <? rt_ExpiresAt t).

Lemma rotate_keeps now : keeps_keys (rotate now).
Proof. done. Qed.

(** The conditional UPDATE: it rotates a live token or touches nothing. *)
Lemma rotate_update h now n D (f := live_at h now) :
  pg_inv D ->
  match matching f n D with
  | [] => (forall t, d_tokens (pg_view D) !! h = Some t -> rt_Revoked t = true \/ rt_ExpiresAt t <= now) /\
          pg_view (update_rows f (rotate now) D) = pg_view D
  | t :: _ => d_tokens (pg_view D) !! h = Some t /\ rt_Revoked t = false /\ now < rt_ExpiresAt t /\
          pg_view (update_rows f (rotate now) D) =
          with_tokens (pg_view D) (<[h := rotate now t]> (d_tokens (pg_view D)))
  end.
Proof.
  intros Hinv. rewrite (view_update_token D f (rotate now) Hinv (rotate_keeps now)) by done.
  destruct (matching f n D) as [|t l] eqn:E.
  - rewrite matching_nil in E. split.
    + intros t [Ht Hh]%(view_tokens D Hinv). specialize (E _ Ht). unfold f, live_at in E.
      rewrite Hh, strEq_refl in E. destruct (rt_Revoked t); [by left|]. cbn in E. right. lia.
    + rewrite fmap_none; [done|]. intros k t [Ht _]%(view_tokens D Hinv). by apply E.
  - apply matching_head in E as [Ht Hf]. unfold f, live_at in Hf. rewrite !andb_true_iff, strEq_true, negb_true_iff in Hf.
    destruct Hf as [[Hh Hr] He]. assert (d_tokens (pg_view D) !! h = Some t) as Hl by by apply view_tokens.
    split_and!; [done|done|lia|]. f_equal. apply (fmap_one f (rotate now) _ h t); [done| |].
    + unfold f, live_at. by rewrite Hh, strEq_refl, Hr, He.
    + intros k t' [_ <-]%(view_tokens D Hinv) Hf'. unfold f, live_at in Hf'.
      rewrite !andb_true_iff, strEq_true in Hf'. tauto.
Qed.

Lemma pg_RotateRefreshToken_ok h now : implements (RotateRefreshToken h now).
Proof.
  intros. apply implements_by. intros env D Hinv [Hh Hn].
  unfold pg_program, pg_RotateRefreshToken, QueryRow. cbn [sql_bind send run_sql step]. unfold send_query at 1.
  assert (pg_inv (update_rows (live_at h now) (rotate now) D)) as Hinv' by (apply (update_inv D Hinv), rotate_keeps).
  destruct Hh as [Hh|Hh].
  2: { destruct (driver _ 0) as [[[] text]|] eqn:Ed; cbn; rewrite ?Hh; cbn; value_refused || driver_failed Ed. }
  destruct Hn as [Hn|Hn].
  2: { destruct (driver _ 0) as [[[] text]|] eqn:Ed; cbn; rewrite ?Hh, ?Hn; cbn; value_refused || driver_failed Ed. }
  cbn [exec tx committed]. rewrite Hh, Hn. cbn [exec].
  change (update_rows _ _ D) with (update_rows (live_at h now) (rotate now) D).
  change (matching _ (ce_seed env + 0) D) with (matching (live_at h now) (ce_seed env + 0) D).
  pose proof (rotate_update h now (ce_seed env + 0) D Hinv) as Hu. cbv zeta in Hu.
  set (D' := update_rows _ _ D) in *. clearbody D'. destruct (matching _ _ D) as [|t l].
  - destruct Hu as [Hno Hview].
    assert (forall x, mishap env (RotateRefreshToken h now) (pg_view D) -> outage (RotateRefreshToken h now) x ->
      outcome (RotateRefreshToken h now) env D x D') as Hlost.
    { intros x ? ?. split; [done|]. right. rewrite Hview. split_and!; [done..|by left]. }
    destruct (driver _ 0) as [[[] text]|] eqn:Ed; cbn.
    + apply Hlost; [by eapply driver_mishap|by eexists].
    + driver_failed Ed.
    + unfold send_query. cbn. rewrite Hh. cbn. destruct (driver _ 1) as [[[] text]|] eqn:Ed1; cbn;
        try (apply Hlost; [by eapply driver_mishap|by eexists]).
      assert (match matching (fun t => strEq (rt_Hash t) h) (ce_seed env + 1) D' with
          | [] => d_tokens (pg_view D') !! h = None
          | c :: _ => d_tokens (pg_view D') !! h = Some c end) as E.
      { apply selected_row. intros t. rewrite view_tokens, strEq_true by done. done. }
      rewrite Hview in E. destruct (matching _ _ D') as [|t l]; cbn; apply outcome_port; try done; cbn [port_spec]; rewrite E, Hview.
      * split; [done|]. eexists. split; [done|]. apply exactly_sentinel.
      * destruct (Hno _ E) as [Hr|He]; [rewrite Hr|].
        -- split; [done|]. eexists. split; [done|]. apply exactly_sentinel.
        -- destruct (rt_Revoked t); [split; [done|]; eexists; split; [done|]; apply exactly_sentinel|].
           rewrite (proj2 (Z.leb_le _ _) He). split; [done|]. eexists. split; [done|]. apply exactly_sentinel.
  - destruct Hu as (Hl & Hr & He & Hview).
    assert (port_spec (RotateRefreshToken h now) env (pg_view D) (Rotated (rotate now t)) (pg_view D')) as Hp.
    { cbn [port_spec]. rewrite Hl, Hr, (proj2 (Z.leb_gt _ _) He). done. }
    destruct (driver _ 0) as [[[] text]|] eqn:Ed; cbn.
    + eapply outcome_lost; [done|by eapply driver_mishap|by eexists|exact Hp].
    + driver_failed Ed.
    + by apply outcome_port.
Qed.

(** *** The end of a session *)

Lemma revoke_update h now D :
  pg_inv D ->
  pg_inv (update_rows (in_family h) (revoke now) D) /\
  pg_view (update_rows (in_family h) (revoke now) D) =
  with_tokens (pg_view D) (end_family now h (d_tokens (pg_view D))).
Proof.
  intros Hinv. assert (keeps_keys (revoke now)) as Hk by done. split; [by apply (update_inv D Hinv)|].
  rewrite (view_update_token D (in_family h) (revoke now) Hinv Hk); done.
Qed.

Lemma pg_RevokeTokens_ok h : implements (RevokeTokens h).
Proof.
  intros. apply implements_by. intros env D Hinv Hh.
  unfold pg_program, pg_RevokeTokens, BeginFunc, Exec. cbn [sql_bind send run_sql step]. unfold send_begin.
  destruct (driver _ 0) as [[? text]|] eqn:E0; cbn; [driver_failed E0|]. unfold send_query at 1.
  destruct (driver _ 1) as [[? text]|] eqn:E1; cbn; [driver_failed E1|].
  destruct Hh as [Hh|Hh]; rewrite Hh; cbn; [|value_refused]. unfold send_query at 1.
  destruct (driver _ 2) as [[? text]|] eqn:E2; cbn; [driver_failed E2|].
  unfold send_commit.
  change (update_rows _ _ D) with (update_rows (in_family h) (revoke (server_now env)) D).
  destruct (revoke_update h (server_now env) D Hinv) as [Hi Hv].
  assert (port_spec (RevokeTokens h) env (pg_view D) (Ok tt)
    (pg_view (update_rows (in_family h) (revoke (server_now env)) D))) as Hp by (rewrite Hv; done).
  destruct (driver _ 3) as [[[] text]|] eqn:E3; cbn.
  - eapply outcome_lost; [done|by eapply driver_mishap|by eexists|exact Hp].
  - driver_failed E3.
  - by apply outcome_port.
Qed.

(** *** Saving a refresh token *)

(** The row of a token, once its family admits it. *)
Lemma insert_token_port env D t (row := as_issued (stamp_token (ce_now env) t)) :
  pg_inv D -> taken_as_is _ column_in row -> ~ root_unusable (rt_Parent t) (d_tokens (pg_view D)) ->
  match insert_row row D with
  | (Good _, D') => pg_inv D' /\ port_spec (SaveRefreshToken t) env (pg_view D) (Ok (stamp_token (ce_now env) t)) (pg_view D')
  | (Bad e, D') => D' = D /\ let x := Err (insertError "insert refresh token" (rt_UserID t) e) in
      port_spec (SaveRefreshToken t) env (pg_view D) x (pg_view D) \/
      collision (SaveRefreshToken t) (pg_view D) /\ outage (SaveRefreshToken t) x
  end.
Proof.
  intros Hinv Hrow Hroot.
  destruct (insert_cases row D Hinv Hrow)
    as [(-> & b & Hb & Hcb)|[(-> & _ & uid & [= <-] & Hu)|(-> & Hno & Hrefs & Hf & Hi)]].
  - split; [done|]. right. split; [|by eexists]. apply token_conflict in Hcb.
    exists b. by apply view_tokens.
  - split; [done|]. left. right. split; [done|]. cbn [rt_UserID row as_issued stamp_token] in Hu.
    rewrite Hu. split; [apply refused_wrap|done].
  - split; [done|]. right. split; [done|]. destruct (Hrefs _ eq_refl) as [u Hu].
    cbn [rt_UserID row as_issued stamp_token] in Hu. rewrite Hu.
    exists row. split; [by right|]. split; [done|]. by rewrite view_insert_token.
Qed.

(** The family a token joins: its root row, locked. *)
Lemma root_row n D p :
  pg_inv D -> p <> "" ->
  match matching (fun t => strEq (rt_Hash t) p) n D with
  | [] => root_unusable p (d_tokens (pg_view D))
  | t :: _ => match rt_EndedAt t with
              | Some _ => root_unusable p (d_tokens (pg_view D))
              | None => ~ root_unusable p (d_tokens (pg_view D))
              end
  end.
Proof.
  intros Hinv Hp. unfold root_unusable.
  assert (match matching (fun t => strEq (rt_Hash t) p) n D with
          | [] => d_tokens (pg_view D) !! p = None
          | c :: _ => d_tokens (pg_view D) !! p = Some c end) as E.
  { apply selected_row. intros t. rewrite view_tokens, strEq_true by done. done. }
  destruct (matching _ _ D) as [|t l]; rewrite E; [done|].
  destruct (rt_EndedAt t) eqn:Et; [done|]. intros [_ [? [=]]].
Qed.

Lemma pg_SaveRefreshToken_ok t : implements (SaveRefreshToken t).
Proof.
  intros. apply implements_by. intros env D Hinv [Hrow Hpar].
  unfold pg_program, pg_SaveRefreshToken. cbn [sql_bind send run_sql step]. cbn [rt_Parent rt_Hash rt_UserID rt_ExpiresAt rt_CreatedAt rt_Revoked rt_RotatedAt rt_EndedAt].
  change (mkRefreshToken (rt_Hash t) _ _ _ _ _ None None) with (as_issued (stamp_token (ce_now env) t)).
  change (mkRefreshToken (rt_Hash t) _ _ _ _ _ _ _) with (stamp_token (ce_now env) t).
  set (row := as_issued _) in *. destruct (strEq (rt_Parent t) "") eqn:Ep.
  - apply strEq_true in Ep. apply single_statement; [|by eexists|done]. cbn [exec].
    destruct Hrow as [Hrow|Hrow].
    2: { unfold insert_row. rewrite Hrow. apply answers_refused; [done| |by eexists].
         intros [Ha _]. change (column_in row = Some row) in Ha. congruence. }
    pose proof (insert_token_port env D t Hinv Hrow) as Hi. rewrite Ep in Hi.
    specialize (Hi (fun H => proj1 H eq_refl)). fold row in Hi.
    destruct (insert_row row D) as [[l|e] D']; [destruct Hi; by apply answers_port|].
    destruct Hi as (-> & [Hp|[Hc Ho]]); [by apply answers_port|]. split; [done|]. right.
    split_and!; [by right; right|done|done].
  - apply strEq_false in Ep. unfold BeginFunc, QueryRow, Exec. cbn [sql_bind send run_sql step]. unfold send_begin.
    destruct (driver _ 1) as [[? text]|] eqn:E1; cbn; [driver_failed E1|]. unfold send_query at 1.
    destruct (driver _ 2) as [[? text]|] eqn:E2; cbn; [driver_failed E2|].
    destruct Hpar as [Hpar|Hpar]; rewrite Hpar; cbn.
    2: { apply outcome_unchanged; [done| |by eexists]. right. left. intros [_ Ha].
         change (text_in None (rt_Parent t) = Some (rt_Parent t)) in Ha. congruence. }
    pose proof (root_row (ce_seed env + 2) D (rt_Parent t) Hinv Ep) as Hroot.
    destruct (matching _ _ D) as [|root l]; cbn; [|destruct (rt_EndedAt root); cbn];
      try (apply outcome_port; [done|left; split_and!; [done|apply refused_wrap|done]]).
    unfold send_query at 1. destruct (driver _ 3) as [[? text]|] eqn:E3; cbn; [driver_failed E3|].
    destruct Hrow as [Hrow|Hrow].
    2: { unfold insert_row. rewrite Hrow. cbn. apply outcome_unchanged; [done| |by eexists].
         right. left. intros [Ha _]. change (column_in row = Some row) in Ha. congruence. }
    pose proof (insert_token_port env D t Hinv Hrow Hroot) as Hi. fold row in Hi.
    destruct (insert_row row D) as [[l'|e] D']; cbn.
    + destruct Hi as [Hinv' Hp]. unfold send_commit. destruct (driver _ 4) as [[[] text]|] eqn:E4; cbn.
      * eapply outcome_lost; [done|by eapply driver_mishap|by eexists|exact Hp].
      * driver_failed E4.
      * by apply outcome_port.
    + destruct Hi as (-> & [Hp|[Hc Ho]]); [by apply outcome_port|].
      apply outcome_unchanged; [done|by right; right|done].
Qed.

(** *** Saving a token under the user's cap *)

Definition expired_of (uid : string) (now : time) (p : PersonalAccessToken) : bool :=
  strEq (pat_UserID p) uid && match pat_ExpiresAt p with Some e => e <? now | None => false end.

(** The insertion that follows the pruning, counting what it left. *)
Lemma limited_insert_port env D p limit now snow n
    (row := stamp_pat (ce_now env) p) (D1 := delete_rows (on_row (expired_of (pat_UserID p) now)) D) :
  pg_inv D -> taken_as_is _ column_in row -> is_Some (d_users (pg_view D) !! pat_UserID p) ->
  match exec snow n (INSERT_WHILE row (fun q => strEq (pat_UserID q) (pat_UserID p)) limit) D1 with
  | (Good l, D2) => pg_inv D2 /\
      port_spec (SavePATLimited p limit now) env (pg_view D)
        (if Z.of_nat (length l) =? 0 then Err store.ErrPATLimitReached else Ok row) (pg_view D2)
  | (Bad e, _) =>
      port_spec (SavePATLimited p limit now) env (pg_view D) (Err (patSaveError row e)) (pg_view D)
  end.
Proof.
  intros Hinv Hrow [u Hu]. pose proof (delete_inv D Hinv (on_row (expired_of (pat_UserID p) now))) as Hinv1.
  pose proof (view_delete_pat D (expired_of (pat_UserID p) now) Hinv) as Hv. fold D1 in Hinv1, Hv.
  change (DeleteFunc _ _) with (prune_pats (pat_UserID p) now (d_pats (pg_view D))) in Hv.
  cbn [exec port_spec]. rewrite Hu, Hrow.
  pose proof (pat_count_rows (pat_UserID p) D1 Hinv1) as Hc. rewrite Hv in Hc. cbn [d_pats with_pats] in Hc.
  rewrite <- Hc. destruct (_ <? limit) eqn:El.
  2: { cbn [length Z.of_nat Z.eqb]. split; [done|]. assert ((limit <=? pat_count (pat_UserID p) (prune_pats (pat_UserID p) now (d_pats (pg_view D)))) = true) as -> by lia.
       split; [apply refused_sentinel|done]. }
  assert ((limit <=? pat_count (pat_UserID p) (prune_pats (pat_UserID p) now (d_pats (pg_view D)))) = false) as -> by lia.
  assert (refused (X := PersonalAccessToken) (Err (patSaveError row (PgError unique_violation))) store.ErrPATExists)
    as Hx by apply refused_wrap.
  destruct (insert_cases row D1 Hinv1 Hrow)
    as [(-> & b & Hb & Hcb)|[(-> & _ & uid & [= <-] & Hn)|(-> & Hno & _ & Hf & Hi)]].
  - apply pat_conflict in Hcb.
    assert (d_pats (pg_view D1) !! pat_Hash b = Some b) as Hl by by apply view_pats.
    rewrite Hv in Hl. cbn [d_pats with_pats] in Hl.
    destruct (prune_pats _ _ _ !! pat_Hash p) eqn:Ep; [by auto|]. right. split_and!; [|done|by left].
    destruct Hcb as [Hid|Hh]; [by exists (pat_Hash b), b|]. cbn in Hh. congruence.
  - rewrite Hv in Hn. cbn [d_users with_pats] in Hn. cbn in Hn, Hu. congruence.
  - cbn [length]. split; [done|]. rewrite view_insert_pat by done. rewrite Hv. cbn [d_pats with_pats].
    destruct (prune_pats _ _ _ !! pat_Hash p) as [b|] eqn:Ep.
    + assert (d_pats (pg_view D1) !! pat_Hash p = Some b) as [Hb Hh]%(view_pats D1 Hinv1) by by rewrite Hv.
      specialize (Hno b Hb). by rewrite (proj2 (pat_conflict _ b)) in Hno by (by right).
    + by left.
Qed.

Lemma pg_SavePATLimited_ok p limit now : implements (SavePATLimited p limit now).
Proof.
  intros. apply implements_by. intros env D Hinv (Huid & Hnow & Hrow).
  unfold pg_program, pg_SavePATLimited, lockUser, QueryRow, Exec. cbn [sql_bind send run_sql step].
  change (mkPAT _ _ _ _ _ _ _ _) with (stamp_pat (ce_now env) p).
  cbn [pat_UserID stamp_pat]. fold (stamp_pat (ce_now env) p). unfold send_begin.
  destruct (driver _ 1) as [[? text]|] eqn:E1; cbn; [driver_failed E1|]. unfold send_query at 1.
  destruct (driver _ 2) as [[? text]|] eqn:E2; cbn; [driver_failed E2|].
  destruct Huid as [Huid|Huid]; rewrite Huid; cbn; [|value_refused].
  destruct (matching (fun u => strEq (u_id u) (pat_UserID p)) _ D) as [|u us] eqn:Eu; cbn.
  { apply outcome_port; [done|]. cbn [port_spec]. rewrite matching_nil in Eu.
    destruct (d_users (pg_view D) !! pat_UserID p) as [u|] eqn:Hu; [|split; [apply refused_wrap|done]].
    apply (view_users D Hinv) in Hu as (r & Hr & Hid & _). specialize (Eu _ Hr). cbn in Eu.
    by rewrite Hid, strEq_refl in Eu. }
  assert (is_Some (d_users (pg_view D) !! pat_UserID p)) as Hu.
  { apply matching_head in Eu as [Hr Hid%strEq_true]. exists (scanUser u). apply view_users; eauto. }
  unfold send_query at 1. destruct (driver _ 3) as [[? text]|] eqn:E3; cbn; [driver_failed E3|].
  rewrite ?Huid; cbn. destruct Hnow as [Hnow|Hnow]; rewrite Hnow; cbn; [|value_refused].
  unfold send_query at 1. destruct (driver _ 4) as [[? text]|] eqn:E4; [cbn; driver_failed E4|].
  cbn [tx committed]. change (exec ?a ?b (BIND (Some ?x) ?q)) with (exec a b (q x)). cbv beta.
  destruct Hrow as [Hrow|Hrow].
  2: { cbn [exec]. rewrite Hrow. cbn. value_refused. }
  change (on_row _) with (on_row (expired_of (pat_UserID p) now)).
  pose proof (limited_insert_port env D p limit now (server_now env) (ce_seed env + 4) Hinv Hrow Hu) as Hi.
  destruct (exec _ _ (INSERT_WHILE _ _ _) _) as [[l|e] D2]; cbn.
  - destruct Hi as [Hinv2 Hp]. unfold send_commit. destruct (driver _ 5) as [[[] text]|] eqn:E5; cbn.
    + eapply outcome_lost; [done|by eapply driver_mishap|by eexists|exact Hp].
    + driver_failed E5.
    + by apply outcome_port.
  - by apply outcome_port.
Qed.

(** *** Saving a challenge *)

Lemma sweep_view D now :
  pg_inv D ->
  pg_view (delete_rows (on_row (fun c : Challenge => ch_ExpiresAt c <? now)) D) =
  with_challenges (pg_view D) (sweep now (d_challenges (pg_view D))).
Proof. intros Hinv. exact (view_delete_challenge D (fun c => ch_ExpiresAt c <? now) Hinv). Qed.

(** The sweep has gone through by itself when the insertion fails. *)
Lemma outcome_swept ch env D x D' :
  pg_inv D' -> mishap env (SaveChallenge ch) (pg_view D) -> outage (SaveChallenge ch) x ->
  pg_view D' = with_challenges (pg_view D) (sweep (server_now env) (d_challenges (pg_view D))) ->
  outcome (SaveChallenge ch) env D x D'.
Proof. intros ? ? ? ?. split; [done|]. right. split_and!; [done..|]. do 2 right. eauto. Qed.

Lemma insert_challenge_port env D ch (now := server_now env) (row := stamp_challenge (ce_now env) ch)
    (D1 := delete_rows (on_row (fun c : Challenge => ch_ExpiresAt c <? now)) D) :
  pg_inv D -> taken_as_is _ column_in row ->
  match insert_row row D1 with
  | (Good _, D2) => pg_inv D2 /\ port_spec (SaveChallenge ch) env (pg_view D) (Ok row) (pg_view D2)
  | (Bad _, D2) => D2 = D1 /\ collision (SaveChallenge ch) (pg_view D)
  end.
Proof.
  intros Hinv Hrow. pose proof (delete_inv D Hinv (on_row (fun c : Challenge => ch_ExpiresAt c <? now))) as Hinv1.
  pose proof (sweep_view D now Hinv) as Hv. fold D1 in Hinv1, Hv.
  destruct (insert_cases row D1 Hinv1 Hrow) as [(-> & b & Hb & Hcb)|[(-> & _ & uid & [=] & _)|(-> & Hno & _ & Hf & Hi)]].
  - split; [done|]. apply challenge_conflict in Hcb.
    assert (d_challenges (pg_view D1) !! ch_Nonce b = Some b) as Hl by by apply view_challenges.
    rewrite Hv in Hl. cbn in Hl. apply lookup_DeleteFunc in Hl as [Hl _].
    cbn in Hcb. cbn [collision]. rewrite Hcb. by exists b.
  - split; [done|]. split; [done|]. by rewrite view_insert_challenge, Hv by done.
Qed.

Lemma pg_SaveChallenge_ok ch : implements (SaveChallenge ch).
Proof.
  intros. apply implements_by. intros env D Hinv Hrow.
  unfold pg_program, pg_SaveChallenge, Exec. cbn [sql_bind send run_sql step].
  change (mkChallenge _ _ _ _ _ _ _ _ _) with (stamp_challenge (ce_now env) ch).
  set (now := server_now env).
  pose proof (delete_inv D Hinv (on_row (fun c : Challenge => ch_ExpiresAt c <? now))) as Hinv1.
  pose proof (sweep_view D now Hinv) as Hv. unfold send_query at 1.
  destruct (driver _ 1) as [[[] text]|] eqn:E1; cbn.
  - eapply outcome_swept; [done|by eapply driver_mishap|by eexists|exact Hv].
  - driver_failed E1.
  - unfold send_query. cbn [exec tx committed]. destruct Hrow as [Hrow|Hrow].
    + pose proof (insert_challenge_port env D ch Hinv Hrow) as Hi.
      destruct (insert_row _ _) as [[l|e] D2]; destruct Hi as [Hi Hp];
        (destruct (driver _ 2) as [[[] text]|] eqn:E2; cbn;
         [..|try (by apply outcome_port)]); try subst D2;
        first [by eapply outcome_lost; [done|by eapply driver_mishap|by eexists|exact Hp]
              |eapply outcome_swept; [done| |by eexists|exact Hv]];
        by ((by eapply driver_mishap) || (right; right)).
    + unfold insert_row. rewrite Hrow.
      assert (mishap env (SaveChallenge ch) (pg_view D)) as Hm.
      { right. left. unfold accepted, taken_as_is. cbn. congruence. }
      destruct (driver _ 2) as [[[] text]|] eqn:E2; cbn; (eapply outcome_swept; [done|done|by eexists|exact Hv]).
Qed.

(** *** Saving a password hash *)

Lemma view_update_credentials D uid h now old :
  pg_inv D -> mkCredentialsRow uid h now now = old -> is_Some (D !! key_of (inj old)) ->
  let set c := mkCredentialsRow (lc_user_id c) h (lc_created_at c) now in
  let cond x := bool_decide (key_of (inj x) = key_of (inj old)) in
  pg_inv (update_rows cond set D) /\
  pg_view (update_rows cond set D) = with_passwords (pg_view D) (<[uid := h]> (d_passwords (pg_view D))).
Proof.
  intros Hinv <- [r Hr] set cond. assert (keeps_keys set) as Hk by done.
  pose proof (update_inv D Hinv cond set Hk) as Hi. split; [done|].
  unfold pg_view at 1, with_passwords.
  f_equal; try (apply (table_map_update_other D Hinv); apply _ || done).
  apply map_eq. intros k. apply option_eq. intros b.
  rewrite lookup_insert_Some, (lookup_table_map lc_user_id lc_password_hash _ k b Hi), (view_passwords D Hinv k b).
  setoid_rewrite (update_rows_elem D cond set).
  assert (forall c, cond c = true <-> lc_user_id c = uid) as Hc.
  { intros c. unfold cond. rewrite bool_decide_eq_true. unfold key_of. cbn. split; [by intros [= ?]|by intros ->]. }
  assert (exists c, r = RCredentials c /\ lc_user_id c = uid) as (c & -> & Hid).
  { pose proof (pi_keys _ Hinv _ _ Hr) as Hkr. destruct r; try done. injection Hkr as Hkr. eauto. }
  assert (c ∈ rows D) as Hin by (apply elem_of_rows; eauto). split.
  - intros (c' & (c0 & Hc0 & ->) & <- & <-). destruct (cond c0) eqn:Ec; cbn.
    + left. by apply Hc in Ec.
    + right. split; [|eauto]. intros He. symmetry in He. apply Hc in He. congruence.
  - intros [[<- <-]|(Hne & c0 & Hc0 & <- & <-)].
    + exists (set c). split; [|by rewrite <- Hid]. exists c. split; [done|]. by rewrite (proj2 (Hc c) Hid).
    + exists c0. split; [|done]. exists c0. split; [done|]. destruct (cond c0) eqn:Ec; [|done]. by apply Hc in Ec.
Qed.

Lemma credentials_conflict (a b : local_credentials_row) :
  conflicts (inj a) (inj b) = true <-> lc_user_id a = lc_user_id b.
Proof.
  rewrite conflicts_spec. unfold key_of. cbn. split; [|by intros ->; left].
  intros [[= ?]|(_ & [? [=]] & _)]; auto.
Qed.

Lemma pg_SavePasswordHash_ok uid h : implements (SavePasswordHash uid h).
Proof.
  single. cbn in Hrep. set (now := server_now env) in *. set (row := mkCredentialsRow uid h now now) in *.
  destruct Hrep as [Hrep|Hrep]; rewrite Hrep.
  2: { apply answers_refused; [done| |by eexists]. intros Ha. change (column_in row = Some row) in Ha. congruence. }
  change (RCredentials row) with (inj row). destruct (D !! key_of (inj row)) as [r|] eqn:Er.
  - destruct (view_update_credentials D uid h now row Hinv eq_refl (mk_is_Some _ _ Er)) as [Hi Hv].
    apply answers_port; [exact Hi|]. cbn [port_spec].
    replace (pg_view (update_rows _ _ D)) with (with_passwords (pg_view D) (<[uid := h]> (d_passwords (pg_view D))))
      by (symmetry; exact Hv).
    assert (is_Some (d_users (pg_view D) !! uid)) as [u Hu].
    { apply user_ref; [done|]. pose proof (pi_keys _ Hinv _ _ Er) as Hk. apply (pi_refs _ Hinv _ _ _ Er).
      destruct r; try done. cbn. by injection Hk as ->. }
    rewrite Hu. done.
  - destruct (insert_cases row D Hinv Hrep)
      as [(-> & b & Hb & Hcb)|[(-> & _ & uid' & [= <-] & Hu)|(-> & Hno & Hrefs & Hf & Hi)]].
    + apply credentials_conflict in Hcb. apply (rows_at D Hinv) in Hb. unfold key_of in Er, Hb.
      cbn in Er, Hb. cbn in Hcb. rewrite Hcb, Hb in Er. done.
    + apply answers_port; [done|]. cbn [port_spec]. cbn in Hu. cbn in Hu |- *. rewrite Hu. split; [apply refused_wrap|done].
    + apply answers_port; [done|]. cbn [port_spec]. destruct (Hrefs _ eq_refl) as [u Hu]. cbn [lc_user_id row] in Hu.
      rewrite Hu. split; [done|]. by rewrite view_insert_credentials.
Qed.

(** ** The store *)

Theorem postgres_refines {X} (c : storeE X) : implements c.
Proof.
  destruct c.
  - apply pg_Create_ok.
  - apply pg_GetByID_ok.
  - apply pg_GetByEmail_ok.
  - apply pg_Delete_ok.
  - apply pg_SaveRefreshToken_ok.
  - apply pg_GetRefreshToken_ok.
  - apply pg_RevokeTokens_ok.
  - apply pg_RotateRefreshToken_ok.
  - apply pg_GetRefreshFamily_ok.
  - apply pg_SavePAT_ok.
  - apply pg_SavePATLimited_ok.
  - apply pg_GetPAT_ok.
  - apply pg_ListPATs_ok.
  - apply pg_DeletePAT_ok.
  - apply pg_TouchPAT_ok.
  - apply pg_SaveOAuthIdentity_ok.
  - apply pg_GetOAuthIdentity_ok.
  - apply pg_ListOAuthIdentities_ok.
  - apply pg_SaveWalletIdentity_ok.
  - apply pg_GetWalletIdentity_ok.
  - apply pg_ListWalletIdentities_ok.
  - apply pg_SaveChallenge_ok.
  - apply pg_GetChallenge_ok.
  - apply pg_DeleteChallenge_ok.
  - apply pg_SavePasswordHash_ok.
  - apply pg_GetPasswordHash_ok.
Qed.
End transactions.
