(* ===== verification/PostgresTheorems.v ===== *)
(** * Guarantees of the PostgreSQL store

    The store implements the documented ports on every set of well-formed
    tables; as an implementation of the contract, on a server that keeps every
    value as it is given, it stands wherever the in-memory store does.  At the
    end, a server whose connection may break is run. *)

From S2P Require Import Prelude GoTime Errors Entity Ports Contract ContractFacts Histories Sql Postgres PostgresFacts PostgresRefinement.

Section theorems.
Context `{PgTypes, ScanOrder, Driver, ServerClock}.
#[local] Existing Instance pg_backend.

(** C2. The PostgreSQL store implements its ports: a call with values the
    server keeps as they are or refuses, on tables that satisfy their
    constraints, leaves such tables and does what auth/ports.go documents; or
    else it reports an infrastructure failure, for a reason - a statement failed,
    a value was refused, a random key was taken - and its effect is none, the
    documented one, or the sweep that precedes saving a challenge.  The challenges
    that go when one is saved are those expired by the server's clock. *)
Theorem postgres_implements_ports {X} (c : storeE X) env D x D' :
  pg_inv D -> representable env c -> pg_call c env D = (x, D') ->
  pg_inv D' /\
  (port_spec c env (pg_view D) x (pg_view D') \/
   mishap env c (pg_view D) /\ outage c x /\ outage_effect c env (pg_view D) (pg_view D')).
Proof.
  intros Hinv Hr Hc. pose proof (postgres_refines c env D Hinv Hr) as Ho. rewrite Hc in Ho. exact Ho.
Qed.

(** With the connection up, values the server accepts and a fresh random
    key, the PostgreSQL store never fails for a reason of its own: it does
    exactly what the ports document. *)
Theorem postgres_healthy {X} (c : storeE X) env D x D' :
  pg_inv D -> accepted env c -> (forall n, driver (ce_seed env) n = None) -> ~ collision c (pg_view D) ->
  pg_call c env D = (x, D') ->
  pg_inv D' /\ port_spec c env (pg_view D) x (pg_view D').
Proof.
  intros Hinv Ha Hd Hn Hc.
  assert (representable env c) as Hr by (destruct c; cbn in *; unfold kept, taken_as_is in *; tauto).
  pose proof (postgres_refines c env D Hinv Hr) as Ho. rewrite Hc in Ho.
  destruct Ho as [Hi [Hp|([(n & f & Hf)|[?|?]] & _)]]; [done| |done..]. by rewrite Hd in Hf.
Qed.
End theorems.

(** ** The contract *)

(** The server keeps every value as it is given or refuses it. *)
Class Lossless `{PgTypes} : Prop := {
  uuid_kept : forall s, kept _ uuid_in s;
  text_kept : forall n s, kept _ (text_in n) s;
  timestamptz_kept : forall t, kept _ timestamptz_in t
}.

Section contract.
Context `{PgTypes, !Lossless}.

Lemma option_kept {A} (f : A -> option A) (x : option A) :
  (forall a, kept _ f a) -> option_in f x = Some x \/ option_in f x = None.
Proof. intros Hf. destruct x as [a|]; [|by left]. cbn. by destruct (Hf a) as [-> | ->]; [left|right]. Qed.

Lemma list_kept {A} (f : A -> option A) (l : list A) :
  (forall a, kept _ f a) -> mapM f l = Some l \/ mapM f l = None.
Proof.
  intros Hf. induction l as [|a l IH]; [by left|]. cbn.
  destruct (Hf a) as [-> | ->]; [|by right]. cbn. by destruct IH as [-> | ->]; [left|right].
Qed.

(** One column after the other. *)
Ltac kept_columns :=
  repeat match goal with
  | |- context [uuid_in ?s] => destruct (uuid_kept s) as [-> | ->]; [|by right]; cbn
  | |- context [text_in ?n ?s] => destruct (text_kept n s) as [-> | ->]; [|by right]; cbn
  | |- context [timestamptz_in ?t] => destruct (timestamptz_kept t) as [-> | ->]; [|by right]; cbn
  | |- context [option_in (text_in ?n) ?x] =>
      destruct (option_kept (text_in n) x (text_kept n)) as [-> | ->]; [|by right]; cbn
  | |- context [option_in timestamptz_in ?x] =>
      destruct (option_kept timestamptz_in x timestamptz_kept) as [-> | ->]; [|by right]; cbn
  | |- context [mapM (text_in ?n) ?l] =>
      destruct (list_kept (text_in n) l (text_kept n)) as [-> | ->]; [|by right]; cbn
  end.
Ltac kept_row a := destruct a; unfold kept, column_in; cbn; kept_columns; by left.

Lemma users_kept (a : users_row) : kept _ column_in a.
Proof. kept_row a. Qed.
Lemma credentials_kept (a : local_credentials_row) : kept _ column_in a.
Proof. kept_row a. Qed.
Lemma tokens_kept (a : RefreshToken) : kept _ column_in a.
Proof. kept_row a. Qed.
Lemma pats_kept (a : PersonalAccessToken) : kept _ column_in a.
Proof. kept_row a. Qed.
Lemma oauth_kept (a : OAuthIdentity) : kept _ column_in a.
Proof. kept_row a. Qed.
Lemma wallets_kept (a : WalletIdentity) : kept _ column_in a.
Proof. kept_row a. Qed.
Lemma challenges_kept (a : Challenge) : kept _ column_in a.
Proof. kept_row a. Qed.

Context `{ScanOrder, Driver, ServerClock}.

Lemma lossless_representable {X} (c : storeE X) env : representable env c.
Proof.
  destruct c; cbn; split_and?;
    auto using uuid_kept, text_kept, timestamptz_kept, users_kept, credentials_kept, tokens_kept,
      pats_kept, oauth_kept, wallets_kept, challenges_kept.
Qed.

Lemma pg_contract_ok {X} (c : storeE X) env D :
  pg_inv D ->
  let '(x, D') := pg_call c env D in
  pg_inv D' /\ contract (H := pg_backend) c env (pg_view D) x (pg_view D').
Proof.
  intros Hinv. pose proof (postgres_refines c env D Hinv (lossless_representable c env)) as Ho.
  destruct (pg_call c env D) as [x D']. destruct Ho as [Hi [Hp|(_ & Ho & He)]]; (split; [done|]); [by left|by right].
Qed.

#[export] Instance pg_contract : StoreContract rowset := {|
  sc_backend := pg_backend; sc_view := pg_view; sc_inv := pg_inv;
  sc_ok := pg_view_ok; sc_call := fun X c env D => pg_contract_ok c env D
|}.
End contract.

(** ** A server at work *)

Module PlainServer.
(** Texts of any length but the column's, no empty uuid, any instant; rows are
    returned in the order of their keys. *)
#[export] Instance plain_types : PgTypes := {|
  uuid_in s := if strEq s "" then None else Some s;
  text_in n s := match n with
                 | Some n => if (String.length s <=? n)%nat then Some s else None
                 | None => Some s
                 end;
  timestamptz_in t := Some t
|}.

#[export] Instance plain_lossless : Lossless.
Proof.
  split; unfold kept; intros; cbn; [|destruct n; [|by left]|by left]; case_match; auto.
Qed.

#[export, refine] Instance key_order : ScanOrder := {| scan A n l := l |}.
Proof. done. Defined.

(** A connection that is lost at the 5th statement of the call numbered 7, the
    statement having gone through. *)
#[export] Instance flaky : Driver := fun seed n =>
  if ((seed =? 7) && (n =? 5))%nat then Some (true, "connection reset by peer") else None.
#[export] Instance clock : ServerClock := ce_now.
End PlainServer.

Module Example.
Import PlainServer.

Definition at_ (t : time) (seed : nat) : callenv := mkCallenv t seed.
Definition alice : User := mkUser "u1" "alice@example.com" ["admin"] 0 0.
Definition root : RefreshToken := mkRefreshToken "r" "u1" "" 1000 10 false None None.
Definition pat (hash : string) : PersonalAccessToken := mkPAT hash hash "u1" "ci" ["read"] None None 30.

Definition do_ {X} (c : storeE X) (env : callenv) (D : rowset) : rowset := (pg_call c env D).2.

Definition signed_up : rowset := do_ (SaveRefreshToken root) (at_ 10 1) (do_ (Create alice) (at_ 5 0) ∅).

Lemma do_inv {X} (c : storeE X) env D : pg_inv D -> pg_inv (do_ c env D).
Proof.
  intros Hinv. unfold do_. pose proof (pg_contract_ok c env D Hinv) as Hc.
  by destruct (pg_call c env D) as [x D'], Hc.
Qed.

Lemma tables_signed_up_inv : pg_inv signed_up.
Proof. apply do_inv, do_inv, pg_inv_empty. Qed.

(** The commit of a new access token goes through, its answer does not. *)
Definition saving : storeE (res PersonalAccessToken) := SavePATLimited (pat "p1") 2 30.

Lemma postgres_implements_ports_witness :
  let D' := do_ saving (at_ 30 7) signed_up in
  d_pats (pg_view D') !! "p1" = Some (pat "p1") /\
  (pg_inv D' /\
   (port_spec saving (at_ 30 7) (pg_view signed_up)
      (Err (wrap "commit" (pg_error (ConnError "connection reset by peer")))) (pg_view D') \/
    mishap (at_ 30 7) saving (pg_view signed_up) /\
    outage saving (Err (wrap "commit" (pg_error (ConnError "connection reset by peer")))) /\
    outage_effect saving (at_ 30 7) (pg_view signed_up) (pg_view D'))).
Proof.
  split; [vm_compute; reflexivity|].
  apply (postgres_implements_ports saving (at_ 30 7) signed_up _ _ tables_signed_up_inv).
  - apply lossless_representable.
  - vm_compute. reflexivity.
Defined.

Lemma postgres_healthy_witness :
  let D' := do_ (RevokeTokens "r") (at_ 40 3) signed_up in
  (rt_EndedAt <$> d_tokens (pg_view D') !! "r") = Some (Some 40) /\
  (pg_inv D' /\
   port_spec (RevokeTokens "r") (at_ 40 3) (pg_view signed_up) (Ok tt) (pg_view D')).
Proof.
  split; [vm_compute; reflexivity|].
  apply (postgres_healthy (RevokeTokens "r") (at_ 40 3) signed_up _ _ tables_signed_up_inv).
  - vm_compute. reflexivity.
  - done.
  - exact (fun H => H).
  - vm_compute. reflexivity.
Defined.
End Example.
