(* ===== verification/ReadCommitted.v ===== *)
(** * Transactions side by side, as READ COMMITTED has them

    Sessions of the database running programs of statements at the same time.
    A transaction sees what is committed and its own changes; each statement
    takes its snapshot when it begins, waits for the locks it needs, and then
    goes by the rows as they are: a row that was updated meanwhile is tested
    again, a row that is new is missed (https://www.postgresql.org/docs/current/
    transaction-iso.html).  Waiting is having no step.  Locks are those of
    explicit-locking.html: of SELECT ... FOR, of the foreign-key check, and of the
    rows written.  A statement, a transaction or its commit may fail at any
    moment, of a deadlock, a timeout or the connection. *)

From S2P Require Import Prelude GoTime Errors Entity Ports Contract Sql Postgres PostgresFacts.

#[export] Instance users_row_eq_dec : EqDecision users_row.
Proof. solve_decision. Defined.
#[export] Instance local_credentials_row_eq_dec : EqDecision local_credentials_row.
Proof. solve_decision. Defined.
#[export] Instance row_eq_dec : EqDecision row.
Proof. solve_decision. Defined.

(** ** Changes of a transaction *)

(** The rows written and, deleted, those without one. *)
Abbreviation changes := (gmap rowkey (option row)) (only parsing).

Definition overlay (w : changes) (D : rowset) : rowset := omap (M := gmap rowkey) id (w ∪ (Some <$> D)).

Lemma lookup_overlay w D k : overlay w D !! k = match w !! k with Some v => v | None => D !! k end.
Proof.
  unfold overlay. rewrite lookup_omap, lookup_union, lookup_fmap.
  destruct (w !! k) as [v|], (D !! k); done.
Qed.

Definition changed (V V' : rowset) : changes :=
  merge (fun x y => if decide (x = y) then None else Some y) V V'.

Lemma lookup_changed V V' k : changed V V' !! k = if decide (V !! k = V' !! k) then None else Some (V' !! k).
Proof. unfold changed. rewrite lookup_merge. by destruct (V !! k), (V' !! k). Qed.

Lemma overlay_empty D : overlay ∅ D = D.
Proof. apply map_eq. intros k. by rewrite lookup_overlay, lookup_empty. Qed.

(** The changes made on a view are added to those it was made of. *)
Lemma overlay_changed w D V' : overlay (changed (overlay w D) V' ∪ w) D = V'.
Proof.
  apply map_eq. intros k. rewrite lookup_overlay, lookup_union, lookup_changed.
  destruct (decide (overlay w D !! k = V' !! k)) as [E|E].
  - rewrite <- E, lookup_overlay. by destruct (w !! k).
  - by destruct (w !! k).
Qed.

(** ** Locks *)

Inductive lockmode := KeyShare | Share | NoKeyUpdate | Update.

Definition conflicting (m m' : lockmode) : bool :=
  match m, m' with
  | KeyShare, Update | Update, KeyShare => true
  | KeyShare, _ | _, KeyShare => false
  | Share, Share => false
  | _, _ => true
  end.

Definition mode_of (l : rowlock) : lockmode :=
  match l with FOR_SHARE => Share | FOR_UPDATE => Update | FOR_NO_KEY_UPDATE => NoKeyUpdate end.

(** A written row is locked, against all when it is deleted. *)
Definition write_lock (w : changes) (k : rowkey) (m : lockmode) : Prop :=
  match w !! k with
  | Some (Some _) => m = NoKeyUpdate
  | Some None => m = Update
  | None => False
  end.

Record txn := mkTxn { t_changes : changes; t_locks : list (rowkey * lockmode) }.

Definition holds (t : txn) (k : rowkey) (m : lockmode) : Prop := (k, m) ∈ t_locks t \/ write_lock (t_changes t) k m.

(** ** A statement, with the snapshot it took and the rows it finds *)

Section statements.
Context `{PgTypes, ScanOrder}.

(** The row met the condition in the snapshot as it does now. *)
Definition both {A} `{Table A} (V0 : rowset) (cond : A -> bool) (a : A) : bool :=
  cond a && match V0 !! key_of (inj a) with Some r => on_row cond r | None => false end.

Fixpoint statement {A} (now : time) (seed : nat) (q : query A) (V0 V : rowset) : dbres (list A) * rowset :=
  match q in query A return dbres (list A) * rowset with
  | BIND None _ => (Bad (PgError invalid_value), V)
  | BIND (Some b) q => statement now seed (q b) V0 V
  | INSERT a => exec now seed (INSERT a) V
  | INSERT_UPDATING a set => exec now seed (INSERT_UPDATING a set) V
  | INSERT_WHILE a cond limit =>
      match column_in a with
      | None => (Bad (PgError invalid_value), V)
      | Some _ =>
          if Z.of_nat (length (filter (fun x => cond x = true) (rows V0))) <? limit
          then insert_row a V else (Good [], V)
      end
  | UPDATE cond set => exec now seed (UPDATE (both V0 cond) set) V
  | DELETE cond => exec now seed (DELETE (fun now => both V0 (cond now))) V
  | SELECT_FOR l cond => exec now seed (SELECT_FOR l (both V0 cond)) V
  | SELECT cond => ((exec now seed (SELECT cond) V0).1, V)
  | SELECT_NEWEST cond created => ((exec now seed (SELECT_NEWEST cond created) V0).1, V)
  | AGGREGATE cond agg => ((exec now seed (AGGREGATE cond agg) V0).1, V)
  end.

(** The rows a statement locks besides those it writes. *)
Fixpoint row_locks {A} (q : query A) (V0 V : rowset) : list (rowkey * lockmode) :=
  match q with
  | BIND None _ => []
  | BIND (Some b) q => row_locks (q b) V0 V
  | SELECT_FOR l cond => (fun a => (key_of (inj a), mode_of l)) <$> matching (both V0 cond) 0 V
  | _ => []
  end.

(** The user a new row refers to is locked against deletion. *)
Definition reference_locks (V V' : rowset) : list (rowkey * lockmode) :=
  omap (fun kv => match V !! kv.1, references kv.2 with
                  | None, Some uid => Some ((T_users, uid), KeyShare)
                  | _, _ => None
                  end) (map_to_list V').

Definition wants {A} (q : query A) (V0 V V' : rowset) (k : rowkey) (m : lockmode) : Prop :=
  (k, m) ∈ row_locks q V0 V \/ (k, m) ∈ reference_locks V V' \/ write_lock (changed V V') k m.

(** No other transaction is in the way: none holds a lock against it, none is
    about to insert a row that a unique index keeps apart from a new one. *)
Definition admitted {A} (others : txn -> Prop) (q : query A) (V0 V V' : rowset) : Prop := forall t, others t ->
  (forall k m m', wants q V0 V V' k m -> holds t k m' -> conflicting m m' = false) /\
  (forall k r k' r', V !! k = None -> V' !! k = Some r -> t_changes t !! k' = Some (Some r') -> conflicts r r' = false).

(** ** Sessions *)

(** Outside a transaction, in one, in one that has failed. *)
Inductive sstate := Auto | In (t : txn) | Broken.

Definition view_of (st : sstate) (D : rowset) : rowset :=
  match st with In t => overlay (t_changes t) D | _ => D end.
Definition broken (st : sstate) : sstate := match st with Auto => Auto | _ => Broken end.

Section machine.
Context {X : Type}.

(** A program on its connection; the snapshot, while a statement is under way. *)
Record session := mkSession { s_prog : sqlprog X; s_state : sstate; s_snapshot : option rowset }.

Inductive moves (others : txn -> Prop) (D : rowset) : session -> rowset -> session -> Prop :=
| mv_snapshot {A} (q : query A) k st :
    moves others D (mkSession (Send (Query q) k) st None) D (mkSession (Send (Query q) k) st (Some (view_of st D)))
| mv_auto {A} (q : query A) k now seed V0 x D' :
    statement now seed q V0 D = (x, D') -> admitted others q V0 D D' ->
    moves others D (mkSession (Send (Query q) k) Auto (Some V0)) D' (mkSession (k x) Auto None)
| mv_auto_lost {A} (q : query A) k now seed V0 x D' e :   (* the effect, not the answer *)
    statement now seed q V0 D = (x, D') -> admitted others q V0 D D' ->
    moves others D (mkSession (Send (Query q) k) Auto (Some V0)) D' (mkSession (k (Bad e)) Auto None)
| mv_in {A} (q : query A) k now seed V0 t l V' (V := overlay (t_changes t) D) :
    statement now seed q V0 V = (Good l, V') -> admitted others q V0 V V' ->
    moves others D (mkSession (Send (Query q) k) (In t) (Some V0)) D
      (mkSession (k (Good l))
         (In (mkTxn (changed V V' ∪ t_changes t) (row_locks q V0 V ++ reference_locks V V' ++ t_locks t))) None)
| mv_fail {A} (q : query A) k st V0 e :
    moves others D (mkSession (Send (Query q) k) st V0) D (mkSession (k (Bad e)) (broken st) None)
| mv_begin k :
    moves others D (mkSession (Send BeginTx k) Auto None) D (mkSession (k (Good tt)) (In (mkTxn ∅ [])) None)
| mv_begin_fail k e :
    moves others D (mkSession (Send BeginTx k) Auto None) D (mkSession (k (Bad e)) Auto None)
| mv_commit k t :
    moves others D (mkSession (Send CommitTx k) (In t) None) (overlay (t_changes t) D) (mkSession (k (Good tt)) Auto None)
| mv_commit_lost k t e :
    moves others D (mkSession (Send CommitTx k) (In t) None) (overlay (t_changes t) D) (mkSession (k (Bad e)) Auto None)
| mv_commit_fail k st e :
    moves others D (mkSession (Send CommitTx k) st None) D (mkSession (k (Bad e)) Auto None)
| mv_rollback k st :
    moves others D (mkSession (Send RollbackTx k) st None) D (mkSession (k tt) Auto None)
| mv_now k st t :
    moves others D (mkSession (Send ClientNow k) st None) D (mkSession (k t) st None).

Record machine := mkMachine { m_tables : rowset; m_sessions : list session }.

Definition others (l : list session) (i : nat) (t : txn) : Prop :=
  exists j s, j <> i /\ l !! j = Some s /\ s_state s = In t.

Inductive mstep (M : machine) : machine -> Prop :=
| ms i s D' s' :
    m_sessions M !! i = Some s -> moves (others (m_sessions M) i) (m_tables M) s D' s' ->
    mstep M (mkMachine D' (<[i := s']> (m_sessions M))).

(** Programs that have not begun, and all that may come of them. *)
Definition start (D : rowset) (ps : list (sqlprog X)) : machine :=
  mkMachine D ((fun p => mkSession p Auto None) <$> ps).
Definition reachable (D : rowset) (ps : list (sqlprog X)) : machine -> Prop := rtc mstep (start D ps).
End machine.
#[global] Arguments session X : clear implicits.
#[global] Arguments machine X : clear implicits.

(** ** What locks keep *)

Lemma conflicting_sym m m' : conflicting m m' = conflicting m' m.
Proof. by destruct m, m'. Qed.

(** Two transactions hold nothing against each other. *)
Definition compatible (t t' : txn) : Prop := forall k m m', holds t k m -> holds t' k m' -> conflicting m m' = false.

(** What is committed does not touch what a transaction holds. *)
Definition clear_of (t : txn) (D D' : rowset) : Prop :=
  forall k m m', write_lock (changed D D') k m -> holds t k m' -> conflicting m m' = false.

Lemma write_locked_changed D D' k : D !! k <> D' !! k -> exists m, write_lock (changed D D') k m /\ (m = NoKeyUpdate \/ m = Update).
Proof. intros Hk. unfold write_lock. rewrite lookup_changed, decide_False by done. destruct (D' !! k); eauto. Qed.

(** A row that is locked for more than its key stays as it is. *)
Lemma clear_stays t D D' k m : clear_of t D D' -> holds t k m -> m <> KeyShare -> D' !! k = D !! k.
Proof.
  intros Hc Hh Hm. destruct (decide (D !! k = D' !! k)) as [|Hne]; [done|].
  destruct (write_locked_changed D D' k Hne) as (m' & Hw & [-> | ->]);
    specialize (Hc _ _ _ Hw Hh); by destruct m.
Qed.

Lemma holds_changed t k v : t_changes t !! k = Some v -> exists m, holds t k m /\ (m = NoKeyUpdate \/ m = Update).
Proof. intros E. destruct v as [r|]; eexists; (split; [right; unfold write_lock; by rewrite E|]); auto. Qed.

Lemma clear_changes t D D' k v : clear_of t D D' -> t_changes t !! k = Some v -> D' !! k = D !! k.
Proof. intros Hc E. destruct (holds_changed t k v E) as (m & Hh & Hm). eapply clear_stays; [done..|]. by destruct Hm as [-> | ->]. Qed.

Lemma admitted_clear {A} oth (q : query A) V0 V V' t : admitted oth q V0 V V' -> oth t -> clear_of t V V'.
Proof. intros Ha Ht k m m' Hw. by apply (proj1 (Ha t Ht)); right; right. Qed.

(** What a transaction commits it has locked. *)
Lemma write_lock_committed w D k m : write_lock (changed D (overlay w D)) k m -> write_lock w k m.
Proof.
  unfold write_lock. rewrite lookup_changed, lookup_overlay. destruct (decide _) as [|Hne]; [done|].
  destruct (w !! k) as [v|]; [done|]. by destruct Hne.
Qed.
Lemma compatible_clear t t' D : compatible t t' -> clear_of t' D (overlay (t_changes t) D).
Proof. intros Hc k m m' Hw. apply Hc. right. by apply write_lock_committed in Hw. Qed.

(** The locks of a transaction after a statement. *)
Definition after {A} (q : query A) (V0 V V' : rowset) (t : txn) : txn :=
  mkTxn (changed V V' ∪ t_changes t) (row_locks q V0 V ++ reference_locks V V' ++ t_locks t).

Lemma holds_after {A} (q : query A) V0 V V' t k m : holds (after q V0 V V' t) k m -> wants q V0 V V' k m \/ holds t k m.
Proof.
  intros [Hl|Hw]; cbn in *.
  - rewrite !elem_of_app in Hl. unfold wants, holds. tauto.
  - unfold write_lock in Hw. rewrite lookup_union in Hw. destruct (changed V V' !! k) as [v|] eqn:E.
    + left. right. right. unfold write_lock. rewrite E. by destruct (t_changes t !! k).
    + right. right. unfold write_lock. by destruct (t_changes t !! k).
Qed.
Lemma after_compatible {A} oth (q : query A) V0 V V' t t' :
  admitted oth q V0 V V' -> oth t' -> compatible t t' -> compatible (after q V0 V V' t) t'.
Proof. intros Ha Ht' Hc k m m' [Hw|Hh]%holds_after Hh'; [by eapply (proj1 (Ha t' Ht'))|by eapply Hc]. Qed.
Lemma after_keeps {A} (q : query A) V0 V V' t k m : (k, m) ∈ t_locks t -> (k, m) ∈ t_locks (after q V0 V V' t).
Proof. cbn. rewrite !elem_of_app. auto. Qed.

(** ** Programs that stick to a discipline *)

(** What a statement lets a transaction know: a row as it was when it was
    locked, and how; that no row to lock met a condition; that the rows that met
    one were updated. *)
Inductive fact := Locked (r : row) (m : lockmode) | Absent (cond : row -> bool) | Updated (cond : row -> bool).

(** What is still known after the commit. *)
Definition lasting (held : list fact) : list fact :=
  List.filter (fun f => match f with Updated _ => true | _ => false end) held.

Fixpoint gained {A} (q : query A) : dbres (list A) -> list fact :=
  match q with
  | BIND (Some b) q => gained (q b)
  | SELECT_FOR l cond => fun x =>
      match x with
      | Good [] => [Absent (on_row cond)]
      | Good rows => (fun a => Locked (inj a) (mode_of l)) <$> rows
      | Bad _ => []
      end
  | UPDATE cond set => fun x => match x with Good _ => [Updated (on_row cond)] | Bad _ => [] end
  | _ => fun _ => []
  end.
(** Rows that are selected meet the condition; a value that does not fit its
    column is an error. *)
Fixpoint plausible {A} (q : query A) : dbres (list A) -> Prop :=
  match q with
  | BIND (Some b) q => plausible (q b)
  | BIND None _ => fun x => match x with Good _ => False | Bad _ => True end
  | SELECT_FOR l cond => fun x => match x with Good rows => Forall (fun a => cond a = true) rows | Bad _ => True end
  | _ => fun _ => True
  end.

Lemma statement_plausible {A} now seed (q : query A) V0 V x V' : statement now seed q V0 V = (x, V') -> plausible q x.
Proof.
  induction q as [B A [b|] q IH| | | | | | | | |]; cbn; try done; [by apply IH|by intros [= <- <-]|].
  intros [= <- <-]. apply Forall_forall. intros y Hy. unfold matching in Hy.
  apply list_elem_of_filter in Hy as [Hy _]. by apply andb_true_iff in Hy as [? _].
Qed.

Lemma gained_locked {A} now seed (q : query A) V0 V x V' r m :
  statement now seed q V0 V = (x, V') -> Locked r m ∈ gained q x -> (key_of r, m) ∈ row_locks q V0 V.
Proof.
  induction q as [B A [b|] q IH| | | | | | | | |]; cbn; try by intros _ ?%not_elem_of_nil.
  - apply IH.
  - intros _. destruct x as [y|e]; [by intros ?%list_elem_of_singleton|by intros ?%not_elem_of_nil].
  - intros [= <- <-] Hl. assert (Locked r m ∈ (fun a => Locked (inj a) (mode_of l)) <$> matching (both V0 cond) seed V) as Hin.
    { destruct (matching (both V0 cond) seed V); [by apply list_elem_of_singleton in Hl|exact Hl]. }
    apply list_elem_of_fmap in Hin as (y & [= -> ->] & Hy). apply list_elem_of_fmap. exists y. split; [done|].
    unfold matching in Hy |- *. rewrite list_elem_of_filter in Hy |- *. by rewrite scan_perm in Hy |- *.
Qed.

Lemma plausible_bad {A} (q : query A) e : plausible q (Bad e).
Proof. induction q as [B A [b|] q IH| | | | | | | | |]; cbn; done || apply IH. Qed.
Lemma gained_bad {A} (q : query A) e : gained q (Bad e) = [].
Proof. induction q as [B A [b|] q IH| | | | | | | | |]; cbn; done || apply IH. Qed.

Section discipline.
(** The statements allowed, outside and inside a transaction with what it has
    locked so far. *)
Context (allowed : forall A, bool -> list fact -> query A -> Prop).
Arguments allowed {A} _ _ _.

Fixpoint guarded {X} (finish : list fact -> X -> Prop) (intx : bool) (held : list fact) (p : sqlprog X) : Prop :=
  match p with
  | Done a => intx = false /\ finish held a
  | Send e k =>
      match e in sqlE Y return (Y -> bool -> list fact -> Prop) -> Prop with
      | Query q => fun rest => allowed intx (if intx then held else []) q /\
          forall x, plausible q x -> rest x intx (if intx then gained q x ++ held else held)
      | BeginTx => fun rest => intx = false /\ rest (Good tt) true [] /\ forall e, rest (Bad e) false held
      | CommitTx => fun rest => rest (Good tt) false (lasting held) /\ forall e, rest (Bad e) false []
      | RollbackTx => fun rest => rest tt false (if intx then [] else held)
      | ClientNow => fun rest => forall t, rest t intx held
      end (fun x b h => guarded finish b h (k x))
  end.

(** A property of what is committed, and one of what is known for good of it;
    one of a transaction under way: its changes on the tables, what it has
    locked, its snapshot. *)
Context (Inv : rowset -> Prop) (Known : rowset -> list fact -> Prop).
Context (OkTx : rowset -> list fact -> txn -> option rowset -> Prop).

Record rule : Prop := {
  r_auto : forall A (q : query A) now seed V0 D x D', Inv D -> allowed false [] q ->
    statement now seed q V0 D = (x, D') -> Inv D';
  r_begin : forall D, Inv D -> OkTx D [] (mkTxn ∅ []) None;
  r_snapshot : forall D held t, OkTx D held t None -> OkTx D held t (Some (overlay (t_changes t) D));
  r_statement : forall A (q : query A) now seed V0 D held t l V' (V := overlay (t_changes t) D),
    Inv D -> OkTx D held t (Some V0) -> allowed true held q -> statement now seed q V0 V = (Good l, V') ->
    (forall r m, Locked r m ∈ gained q (Good l) -> (key_of r, m) ∈ t_locks (after q V0 V V' t)) ->
    OkTx D (gained q (Good l) ++ held) (after q V0 V V' t) None;
  r_commit : forall D held t, Inv D -> OkTx D held t None -> Inv (overlay (t_changes t) D);
  r_other_auto : forall A (q : query A) now seed V0 D x D' held t sn, Inv D -> allowed false [] q ->
    statement now seed q V0 D = (x, D') -> clear_of t D D' -> OkTx D held t sn -> OkTx D' held t sn;
  r_other_commit : forall D held t sn held' t', Inv D -> OkTx D held t sn -> OkTx D held' t' None ->
    compatible t t' -> OkTx (overlay (t_changes t') D) held t sn;
  r_known_nothing : forall D, Inv D -> Known D [];
  r_known_after : forall D held t, Inv D -> OkTx D held t None -> Known (overlay (t_changes t) D) (lasting held);
  r_known_auto : forall A (q : query A) now seed V0 D x D' known, Inv D -> allowed false [] q ->
    statement now seed q V0 D = (x, D') -> Known D known -> Known D' known;
  r_known_commit : forall D held t known, Inv D -> OkTx D held t None -> Known D known ->
    Known (overlay (t_changes t) D) known
}.

(** *** The rule *)

Context {X : Type} (finish : list fact -> X -> Prop).

Definition tracked (D : rowset) (s : session X) : Prop := exists b held,
  guarded finish b held (s_prog s) /\
  match s_state s with
  | Auto => b = false /\ Known D held
  | In t => b = true /\ OkTx D held t (s_snapshot s)
  | Broken => b = true
  end.

Record governed (M : machine X) : Prop := {
  gv_inv : Inv (m_tables M);
  gv_tracked : forall i s, m_sessions M !! i = Some s -> tracked (m_tables M) s;
  gv_apart : forall i j s s' t t', m_sessions M !! i = Some s -> m_sessions M !! j = Some s' -> i <> j ->
    s_state s = In t -> s_state s' = In t' -> compatible t t'
}.

Lemma start_governed D ps : rule -> Inv D -> Forall (guarded finish false []) ps -> governed (start D ps).
Proof.
  intros Hr HD Hps. split; [done|..]; cbn.
  - intros i s. rewrite list_lookup_fmap_Some. intros (p & -> & Hp). exists false, [].
    split; [by eapply Forall_lookup in Hp|]. split; [done|]. by apply (r_known_nothing Hr).
  - intros i j s s' t t'. rewrite list_lookup_fmap_Some. by intros (p & -> & _).
Qed.

Lemma others_unmoved D D' s :
  (forall t held sn, s_state s = In t -> OkTx D held t sn -> OkTx D' held t sn) ->
  (forall known, Known D known -> Known D' known) -> tracked D s -> tracked D' s.
Proof.
  intros Hok Hkn (b & held & Hg & Hst). exists b, held. split; [done|]. destruct (s_state s) eqn:E; [| |done].
  - destruct Hst as [-> Hst]. split; [done|]. by apply Hkn.
  - destruct Hst as [-> Hst]. split; [done|]. by eapply Hok.
Qed.

(** What a session's move means for it and for the others. *)
Record move_ok (oth : txn -> Prop) (D D' : rowset) (s' : session X) : Prop := {
  mo_inv : Inv D';
  mo_tracked : tracked D' s';
  mo_others : forall s2, (forall t2, s_state s2 = In t2 -> oth t2) -> tracked D s2 -> tracked D' s2;
  mo_apart : forall t t', s_state s' = In t -> oth t' -> compatible t t'
}.

Lemma unmoved oth D s' : Inv D -> tracked D s' -> (forall t t', s_state s' = In t -> oth t' -> compatible t t') ->
  move_ok oth D D s'.
Proof. by split. Qed.

(** A statement outside a transaction, its answer lost or not. *)
Lemma auto_ok oth {A} (q : query A) now seed V0 D x D' held p :
  rule -> Inv D -> allowed false [] q -> Known D held -> statement now seed q V0 D = (x, D') ->
  admitted oth q V0 D D' -> guarded finish false held p -> move_ok oth D D' (mkSession p Auto None).
Proof.
  intros Hr HD Ha Hkn Hs Hadm Hg.
  assert (forall known, Known D known -> Known D' known) as Hk by (intros known; by eapply (r_known_auto Hr)).
  split; [by eapply (r_auto Hr)| | |done].
  - exists false, held. cbn. auto.
  - intros s2 Ht2. apply others_unmoved; [|done]. intros t h sn E.
    eapply (r_other_auto Hr); [exact HD|exact Ha|eassumption|eapply admitted_clear; [eassumption|by apply Ht2]].
Qed.
(** A commit, its answer lost or not. *)
Lemma commit_ok (oth : txn -> Prop) D held t known p :
  rule -> Inv D -> OkTx D held t None -> (forall t', oth t' -> compatible t t') ->
  guarded finish false known p -> Known (overlay (t_changes t) D) known ->
  move_ok oth D (overlay (t_changes t) D) (mkSession p Auto None).
Proof.
  intros Hr HD Hok Hc Hg Hk. split; [by eapply (r_commit Hr)| | |done].
  - exists false, known. cbn. auto.
  - intros s2 Ht2. apply others_unmoved; [|intros kn; by eapply (r_known_commit Hr)]. intros t1 h sn E Hok'.
    eapply (r_other_commit Hr); [done..|]. intros k0 m m' Hh Hh'. rewrite conflicting_sym. eapply Hc; [by apply Ht2|done..].
Qed.

Lemma move_tracked oth D s D' s' :
  rule -> Inv D -> tracked D s -> moves oth D s D' s' ->
  (forall t t', s_state s = In t -> oth t' -> compatible t t') -> move_ok oth D D' s'.
Proof.
  intros Hr HD (b & held & Hg & Hst) Hm Hc. destruct Hm; cbn in *.
  - apply unmoved; [done| |done]. exists b, held. split; [done|]. cbn. destruct st as [|t|]; [done| |done].
    destruct Hst as [-> Hst]. split; [done|]. by apply (r_snapshot Hr).
  - destruct Hst as [-> Hk], Hg as [Ha Hg]. eapply auto_ok; [done..|]. apply Hg. by eapply statement_plausible.
  - destruct Hst as [-> Hk], Hg as [Ha Hg]. eapply auto_ok; [done..|]. apply Hg. by apply plausible_bad.
  - destruct Hst as [-> Hok], Hg as [Ha Hg]. apply unmoved; [done| |].
    + eexists true, _. split; [apply Hg; eapply statement_plausible; eassumption|]. split; [done|].
      eapply (r_statement Hr); [done..|]. intros r m Hrm. cbn. apply elem_of_app. left.
      eapply gained_locked; eassumption.
    + intros t1 t' [= <-] Ht'. by eapply after_compatible, Hc.
  - destruct Hg as [Ha Hg]. apply unmoved; [done| |by destruct st]. eexists b, _.
    split; [by apply Hg, plausible_bad|]. by destruct st as [|t|]; cbn in *; [destruct Hst as [-> ?]|destruct Hst as [-> ?]|].
  - destruct Hst as [-> Hk], Hg as (_ & Hg & _). apply unmoved; [done| |].
    + exists true, []. split; [done|]. split; [done|]. by apply (r_begin Hr).
    + intros t t' [= <-] Ht'. intros k0 m m' [Hl|Hw]; [by apply not_elem_of_nil in Hl|]. unfold write_lock in Hw. cbn in Hw.
      by rewrite lookup_empty in Hw.
  - destruct Hst as [-> Hk], Hg as (_ & _ & Hg). apply unmoved; [done| |done]. exists false, held. split; [apply Hg|done].
  - destruct Hst as [-> Hok], Hg as [Hg _]. eapply commit_ok; [done..|intros t2; by apply Hc|exact Hg|by apply (r_known_after Hr)].
  - destruct Hst as [-> Hok], Hg as [_ Hg].
    eapply commit_ok; [done..|intros t2; by apply Hc|apply Hg|by apply (r_known_nothing Hr), (r_commit Hr D held)].
  - apply unmoved; [done| |done]. exists false, []. split; [apply Hg|]. split; [done|]. by apply (r_known_nothing Hr).
  - apply unmoved; [done| |done]. eexists false, _. split; [apply Hg|]. split; [done|].
    destruct st as [|t|]; [by destruct Hst as [-> ?]|destruct Hst as [-> _]|subst b]; by apply (r_known_nothing Hr).
  - apply unmoved; [done| |done]. exists b, held. split; [apply Hg|done].
Qed.

Lemma step_governed M M' : rule -> governed M -> mstep M M' -> governed M'.
Proof.
  intros Hr [HD Ht Ha] [i s D' s' Hi Hm].
  destruct (move_tracked (others (m_sessions M) i) (m_tables M) s D' s' Hr HD (Ht i s Hi) Hm) as [HD' Hs' Hoth Hc].
  { intros t t' E (j & s2 & Hj & Hl & E'). exact (Ha i j s s2 t t' Hi Hl (not_eq_sym Hj) E E'). }
  assert (forall j s2 t2, m_sessions M !! j = Some s2 -> s_state s2 = In t2 -> j <> i -> others (m_sessions M) i t2) as Hin.
  { intros j s2 t2 Hl E Hj. by exists j, s2. }
  split; cbn; [done|..].
  - intros j s2 [(<- & <- & _)|[Hj Hl]]%list_lookup_insert_Some; [done|].
    apply Hoth; [|by eapply Ht]. intros t2 E. by eapply Hin.
  - intros j1 j2 s1 s2 t1 t2 H1 H2 Hne E1 E2.
    apply list_lookup_insert_Some in H1 as [(<- & <- & _)|[Hj1 H1]], H2 as [(<- & <- & _)|[Hj2 H2]]; [done|..].
    + eapply Hc; [done|by eapply Hin].
    + intros k m m' Hh Hh'. rewrite conflicting_sym. eapply (Hc t2 t1); [done|by eapply Hin|done|done].
    + exact (Ha j1 j2 s1 s2 t1 t2 H1 H2 Hne E1 E2).
Qed.

Theorem reachable_governed D ps M :
  rule -> Inv D -> Forall (guarded finish false []) ps -> reachable D ps M -> governed M.
Proof.
  intros Hr HD Hps. pose proof (start_governed D ps Hr HD Hps) as Hg. unfold reachable.
  generalize (start D ps) Hg. clear Hg. intros M0 Hg Hm. induction Hm as [|M0 M1 M2 Hs _ IH]; [done|].
  by eapply IH, step_governed.
Qed.

(** What a program that is done answers holds. *)
Lemma governed_finish M i s a : governed M -> m_sessions M !! i = Some s -> s_prog s = Done a ->
  exists known, finish known a /\ Known (m_tables M) known.
Proof.
  intros Hg Hi Ha. destruct (gv_tracked _ Hg _ _ Hi) as (b & held & Hgd & Hst). rewrite Ha in Hgd. destruct Hgd as [-> Hf].
  exists held. split; [done|]. destruct (s_state s); [apply Hst|by destruct Hst|done].
Qed.
End discipline.
End statements.
