(* ===== verification/Isolation.v ===== *)
(** * Calls of the PostgreSQL store that run at the same time

    What the comments of store/postgres/postgres.go claim of concurrent calls,
    proved of the statements they send under READ COMMITTED: the limit on
    personal access tokens holds (the user row is locked first), and a rotation
    has one winner (the conditional UPDATE decides).  The sessions that make
    calls are those of SessionEnd.v and Schedules.v as well. *)

From S2P Require Import Prelude GoTime Errors Entity Ports Contract ContractFacts Sql Postgres PostgresFacts ReadCommitted.

(** ** Sessions that make calls *)

Record store_call := mkCall { c_type : Type; c_call : storeE c_type }.
(** A call and its answer. *)
Inductive answer : Type :=
| Answer {A : Type} (c : storeE A) (x : A).

Fixpoint sql_map {A B} (f : A -> B) (p : sqlprog A) : sqlprog B :=
  match p with
  | Done a => Done (f a)
  | Send e k => Send e (fun x => sql_map f (k x))
  end.

(** Step by step through a program. *)
Ltac program :=
  repeat first [progress cbn | progress intros | split | case_match]; try done.

Section isolation.
Context `{PgTypes, ScanOrder}.

Definition session_of (c : store_call) : sqlprog answer := sql_map (Answer (c_call c)) (pg_program (c_call c)).

Lemma guarded_map allowed {A B} (f : A -> B) finish b held (p : sqlprog A) :
  guarded allowed (fun known a => finish known (f a)) b held p -> guarded allowed finish b held (sql_map f p).
Proof.
  revert b held. induction p as [a|Y e k IH]; intros b held; [done|]. cbn.
  destruct e; cbn; naive_solver.
Qed.

(** Where neither what is known after a commit nor the answers matter. *)
Definition no_knowledge (D : rowset) (known : list fact) : Prop := True.
Definition any_answer {A} (known : list fact) (a : A) : Prop := True.

(** ** The limit on personal access tokens *)

Section cap.
Context (L : Z).

Definition owner_of (r : row) : option string := match r with RPat p => Some (pat_UserID p) | _ => None end.
Definition pats_of (uid : string) (V : rowset) : gset rowkey :=
  dom (filter (fun kv => owner_of kv.2 = Some uid) V).

Lemma elem_of_pats_of uid V k : k ∈ pats_of uid V <-> exists r, V !! k = Some r /\ owner_of r = Some uid.
Proof.
  unfold pats_of. rewrite elem_of_dom. split.
  - intros [r Hr]. apply map_lookup_filter_Some in Hr. eauto.
  - intros (r & Hr & Ho). exists r. by apply map_lookup_filter_Some.
Qed.

(** Access tokens keep their owner and are inserted only under the limit, with
    the owner's row locked. *)
Fixpoint capped {A} (intx : bool) (held : list fact) (q : query A) : Prop :=
  match q with
  | BIND None _ => True
  | BIND (Some b) q => capped intx held (q b)
  | INSERT a => forall a', column_in a = Some a' -> owner_of (inj a') = None
  | INSERT_UPDATING a set => forall now a', column_in (a now) = Some a' -> owner_of (inj a') = None /\
      forall r y, prj r = Some y -> owner_of (inj (set now a' y)) = owner_of r
  | INSERT_WHILE a cond limit => limit <= L /\ intx = true /\ exists uid,
      (forall a', column_in a = Some a' -> owner_of (inj a') = Some uid) /\
      (forall r, on_row cond r = bool_decide (owner_of r = Some uid)) /\
      exists r, Locked r NoKeyUpdate ∈ held /\ key_of r = (T_users, uid)
  | UPDATE cond set => forall now r y, prj r = Some y -> owner_of (inj (set now y)) = owner_of r
  | _ => True
  end.

Lemma insert_row_cases {A} `{Table A} (a : A) V x V' : insert_row a V = (x, V') ->
  V' = V \/ exists a', column_in a = Some a' /\ V' = <[key_of (inj a') := inj a']> V.
Proof.
  unfold insert_row. destruct (column_in a) as [a'|]; [|intros [= _ <-]; by left].
  destruct (existsb _ _); [intros [= _ <-]; by left|].
  destruct (references (inj a')) as [uid|]; [destruct (V !! (T_users, uid))|]; intros [= _ <-]; eauto.
Qed.

Lemma insert_pats {A} `{Table A} (a : A) V x V' uid : insert_row a V = (x, V') ->
  (forall a', column_in a = Some a' -> owner_of (inj a') <> Some uid) -> pats_of uid V' ⊆ pats_of uid V.
Proof.
  intros [->|(a' & Ha & ->)]%insert_row_cases Ho; [done|]. intros k. rewrite !elem_of_pats_of.
  intros (r & [[<- <-]|[_ Hr]]%lookup_insert_Some & E); [by destruct (Ho a' Ha)|eauto].
Qed.

Lemma update_pats {A} `{Table A} (cond : A -> bool) set V uid :
  (forall r y, prj r = Some y -> owner_of (inj (set y)) = owner_of r) ->
  pats_of uid (update_rows cond set V) ⊆ pats_of uid V.
Proof.
  intros Ho k. rewrite !elem_of_pats_of. unfold update_rows. intros (r' & Hr' & E).
  apply lookup_fmap_Some in Hr' as (r & <- & Hr). exists r. split; [done|].
  destruct (prj r) as [y|] eqn:Ep; [|done]. destruct (cond y); [|done]. by rewrite <- E, (Ho r y).
Qed.

Lemma delete_pats (cond : row -> bool) V uid : pats_of uid (delete_rows cond V) ⊆ pats_of uid V.
Proof.
  intros k. rewrite !elem_of_pats_of. unfold delete_rows. intros (r & [Hr _]%map_lookup_filter_Some & E). eauto.
Qed.

(** What the limit counts are the tokens of the user. *)
Lemma count_pats {A} `{Table A} (cond : A -> bool) uid V :
  (forall r, on_row cond r = bool_decide (owner_of r = Some uid)) ->
  length (filter (fun x => cond x = true) (rows V)) = size (pats_of uid V).
Proof.
  intros Hc. unfold pats_of, rows. rewrite size_dom, size_filter.
  induction (map_to_list V) as [|[k r] l IH]; [done|]. rewrite fmap_cons, filter_cons. cbn [snd].
  specialize (Hc r). unfold on_row in Hc. cbn [omap list_omap]. destruct (prj r) as [y|].
  - rewrite filter_cons. destruct (decide (cond y = true)) as [E|E], (decide (owner_of r = Some uid)) as [E'|E']; cbn; [lia|..|done].
    + by rewrite E, bool_decide_eq_false_2 in Hc.
    + by rewrite bool_decide_eq_true_2 in Hc.
  - destruct (decide (owner_of r = Some uid)) as [E'|E']; [by rewrite bool_decide_eq_true_2 in Hc|done].
Qed.

(** One statement: the tokens of a user do not grow, but by one under the limit. *)
Lemma statement_pats {A} now seed (q : query A) V0 V x V' intx held uid :
  capped intx held q -> statement now seed q V0 V = (x, V') ->
  pats_of uid V' ⊆ pats_of uid V \/
  (exists k, pats_of uid V' ⊆ {[k]} ∪ pats_of uid V) /\ intx = true /\ Z.of_nat (size (pats_of uid V0)) < L /\
  exists r, Locked r NoKeyUpdate ∈ held /\ key_of r = (T_users, uid).
Proof.
  revert x V'. induction q as [B A [b|] q IH|A T a|A T a set|A T a cond limit|A T cond set|A T cond|A T cond|A T cond cr|A T l cond|A B T cond agg];
    intros x V' Hq Hs; cbn in Hq, Hs.
  - by eapply IH.
  - injection Hs as _ <-. by left.
  - left. eapply insert_pats; [exact Hs|]. intros a' Ha. by rewrite (Hq a' Ha).
  - left. destruct (column_in (a now)) as [a'|] eqn:Ha; [|by injection Hs as _ <-].
    destruct (Hq now a' Ha) as [Ho Hset]. destruct (V !! key_of (inj a')).
    + injection Hs as _ <-. by apply update_pats.
    + eapply insert_pats; [exact Hs|]. intros a2 Ha2. simplify_eq. by rewrite Ho.
  - destruct Hq as (Hl & -> & uid' & Ho & Hc & r & Hr & Hk).
    destruct (column_in a) as [a'|] eqn:Ha; [|injection Hs as _ <-; by left].
    destruct (_ <? limit) eqn:El; [|injection Hs as _ <-; by left].
    destruct (decide (uid' = uid)) as [->|Hne].
    + right. rewrite (count_pats cond uid V0 Hc) in El. split_and!; [|done|lia|by exists r].
      apply insert_row_cases in Hs as [->|(a2 & Ha2 & ->)]; [exists (T_users, ""); set_solver|].
      exists (key_of (inj a2)). intros k. rewrite elem_of_union, elem_of_singleton, !elem_of_pats_of.
      intros (r' & [[<- _]|[_ Hr']]%lookup_insert_Some & E); eauto.
    + left. eapply insert_pats; [exact Hs|]. intros a2 Ha2. rewrite Ha in Ha2. rewrite (Ho a2 Ha2). by intros [= ?].
  - injection Hs as _ <-. left. apply update_pats, Hq.
  - injection Hs as _ <-. left. apply delete_pats.
  - injection Hs as _ <-. by left.
  - injection Hs as _ <-. by left.
  - injection Hs as _ <-. by left.
  - injection Hs as _ <-. by left.
Qed.
Definition under_cap (D : rowset) : Prop := forall uid, Z.of_nat (size (pats_of uid D)) <= L.

(** A transaction: new tokens only for users it has locked, never too many, and
    none that its snapshot has missed. *)
Record capped_tx (D : rowset) (held : list fact) (t : txn) (sn : option rowset) : Prop := {
  cp_held : forall r m, Locked r m ∈ held -> (key_of r, m) ∈ t_locks t;
  cp_new : forall uid, pats_of uid (overlay (t_changes t) D) ⊆ pats_of uid D \/ ((T_users, uid), NoKeyUpdate) ∈ t_locks t;
  cp_count : under_cap (overlay (t_changes t) D);
  cp_snap : forall V0 uid, sn = Some V0 -> ((T_users, uid), NoKeyUpdate) ∈ t_locks t ->
    pats_of uid (overlay (t_changes t) D) ⊆ pats_of uid V0
}.

Lemma under_cap_subset D D' : (forall uid, pats_of uid D' ⊆ pats_of uid D) -> under_cap D -> under_cap D'.
Proof. intros Hs HD uid. pose proof (subseteq_size _ _ (Hs uid)). specialize (HD uid). lia. Qed.

(** Others commit: tokens of a user it has locked they cannot add. *)
Lemma capped_others D D' held t sn :
  capped_tx D held t sn -> clear_of t D D' -> under_cap D' ->
  (forall uid, pats_of uid D' ⊆ pats_of uid D \/ ((T_users, uid), NoKeyUpdate) ∉ t_locks t) ->
  capped_tx D' held t sn.
Proof.
  intros [Hh Hn Hc Hs] Hclear HD' Hp. set (w := t_changes t) in *.
  (* what the transaction wrote is as it was *)
  assert (forall uid k, k ∈ pats_of uid (overlay w D') ->
    k ∈ pats_of uid D' /\ w !! k = None \/ k ∈ pats_of uid (overlay w D) /\ D' !! k = D !! k) as Hk.
  { intros uid k. rewrite !elem_of_pats_of, !lookup_overlay. intros (r & Hr & E).
    destruct (w !! k) as [v|] eqn:Ew; [right|left; eauto]. split; [by exists r|]. by eapply clear_changes. }
  assert (forall uid, pats_of uid D' ⊆ pats_of uid D -> pats_of uid (overlay w D') ⊆ pats_of uid (overlay w D)) as Hsub.
  { intros uid Hd k Hin. destruct (Hk uid k Hin) as [[Hin' Ew]|[? _]]; [|done]. apply Hd in Hin'.
    rewrite elem_of_pats_of in Hin' |- *. by rewrite lookup_overlay, Ew. }
  assert (forall uid, pats_of uid (overlay w D) ⊆ pats_of uid D -> pats_of uid (overlay w D') ⊆ pats_of uid D') as Hin.
  { intros uid Hv k Hin. destruct (Hk uid k Hin) as [[? _]|[Hin' E]]; [done|]. apply Hv in Hin'.
    rewrite elem_of_pats_of in Hin' |- *. by rewrite E. }
  split; fold w; [done|..].
  - intros uid. destruct (Hn uid) as [Hv|]; [left; by apply Hin|by right].
  - intros uid. destruct (Hp uid) as [Hd|Hl].
    + pose proof (subseteq_size _ _ (Hsub uid Hd)). specialize (Hc uid). lia.
    + destruct (Hn uid) as [Hv|]; [|done]. pose proof (subseteq_size _ _ (Hin uid Hv)). specialize (HD' uid). lia.
  - intros V0 uid E Hl. destruct (Hp uid) as [Hd|]; [|done]. etransitivity; [by apply Hsub|by eapply Hs].
Qed.

Lemma cap_rule : rule (fun A => @capped A) under_cap no_knowledge capped_tx.
Proof.
  split.
  - intros A q now seed V0 D x D' HD Hq Hs. eapply under_cap_subset; [|exact HD]. intros uid.
    destruct (statement_pats _ _ _ _ _ _ _ _ _ uid Hq Hs) as [|(_ & [=] & _)]; done.
  - intros D HD. split; cbn [t_changes t_locks]; rewrite ?overlay_empty; [by intros ? ? ?%not_elem_of_nil|intros uid; left; reflexivity|done|done].
  - intros D held t [Hh Hn Hc _]. split; [done..|]. by intros V0 uid [= <-].
  - intros A q now seed V0 D held t l V' V HD [Hh Hn Hc Hsn] Hq Hs Hlocks.
    assert (forall k, k ∈ t_locks t -> k ∈ t_locks (after q V0 V V' t)) as Hkeep.
    { intros [k m]. apply after_keeps. }
    assert (overlay (t_changes (after q V0 V V' t)) D = V') as EV by apply overlay_changed.
    split; rewrite ?EV.
    + intros r m [Hr|Hr]%elem_of_app; [by apply Hlocks|by apply Hkeep, Hh].
    + intros uid. destruct (statement_pats _ _ _ _ _ _ _ _ _ uid Hq Hs) as [Hsub|(_ & _ & _ & r & Hr & Er)].
      * destruct (Hn uid); [left; by etransitivity|right; by apply Hkeep].
      * right. rewrite <- Er. by apply Hkeep, Hh.
    + intros uid. specialize (Hc uid). fold V in Hc.
      destruct (statement_pats _ _ _ _ _ _ _ _ _ uid Hq Hs) as [Hsub%subseteq_size|((k & Hsub) & _ & Hlt & r & Hr & Er)]; [lia|].
      assert (pats_of uid V ⊆ pats_of uid V0) as Hvs%subseteq_size by (apply Hsn; [done|]; rewrite <- Er; by apply Hh).
      apply subseteq_size in Hsub. rewrite size_union_alt, size_singleton in Hsub.
      assert (pats_of uid V ∖ {[k]} ⊆ pats_of uid V) as Hd%subseteq_size by set_solver. lia.
    + done.
  - intros D held t HD [_ _ Hc _]. exact Hc.
  - intros A q now seed V0 D x D' held t sn HD Hq Hs Hclear Ht.
    assert (forall uid, pats_of uid D' ⊆ pats_of uid D) as Hsub.
    { intros uid. destruct (statement_pats _ _ _ _ _ _ _ _ _ uid Hq Hs) as [|(_ & [=] & _)]; done. }
    eapply capped_others; [done..| |intros uid; left; apply Hsub]. by eapply under_cap_subset.
  - intros D held t sn held' t' HD Ht [_ Hn' Hc' _] Hcompat.
    eapply capped_others; [exact Ht| |exact Hc'|].
    + apply compatible_clear. intros k m m' Hh Hh'. rewrite conflicting_sym. by eapply Hcompat.
    + intros uid. destruct (Hn' uid) as [|Hl]; [by left|right]. intros Hl'.
      by specialize (Hcompat _ _ _ (or_introl Hl') (or_introl Hl)).
  - done.
  - done.
  - done.
  - done.
Qed.

(** *** The store's programs *)

Definition within_limit (c : store_call) : Prop :=
  match c_call c with SavePAT _ => False | SavePATLimited _ limit _ => limit <= L | _ => True end.

Lemma pat_column_owner p p' : column_in p = Some p' -> uuid_in (pat_UserID p) = Some (pat_UserID p').
Proof. unfold column_in. cbn. intros E. by repeat (apply bind_Some in E as (? & ? & E)); simplify_eq/=. Qed.

Lemma owner_condition uid r :
  on_row (fun p : PersonalAccessToken => strEq (pat_UserID p) uid) r = bool_decide (owner_of r = Some uid).
Proof.
  destruct r; unfold on_row; cbn; try done. apply eq_bool_prop_intro. rewrite Is_true_true, Is_true_true, bool_decide_eq_true.
  by rewrite strEq_true; split; [intros ->|intros [= ->]].
Qed.

Lemma programs_capped c : within_limit c -> guarded (fun A => @capped A) any_answer false [] (session_of c).
Proof.
  intros Hc. apply guarded_map. destruct c as [A c]. cbn in *.
  destruct c; try done; try (unfold pg_program, pg_GetByEmail; destruct (strEq email "")); program; [|congruence].
  all: match goal with H : Forall _ (?u :: _), E : uuid_in _ = Some ?s |- _ =>
    exists s; split_and!;
    [intros p' Hp%pat_column_owner; cbn in Hp; congruence|apply owner_condition|
     exists (RUser u); split; [left|]; apply Forall_cons in H as [H%strEq_true _]; unfold key_of; cbn; by rewrite H] end.
Qed.

(** The access tokens of a user. *)
Definition tokens_of (uid : string) (D : rowset) : list PersonalAccessToken :=
  filter (fun p => strEq (pat_UserID p) uid = true) (rows D).

(** C9. However calls of the store run at the same time, as long as tokens are
    saved only under a limit no user ever has more of them: creations count and
    insert in statements of their own, but hold the user's row from before the
    count to the commit. *)
Theorem pat_cap_concurrent D cs M uid :
  (forall v, Z.of_nat (length (tokens_of v D)) <= L) -> Forall within_limit cs ->
  reachable D (session_of <$> cs) M -> Z.of_nat (length (tokens_of uid (m_tables M))) <= L.
Proof.
  assert (forall D v, length (tokens_of v D) = size (pats_of v D)) as Hsize.
  { intros D' v. apply count_pats, owner_condition. }
  intros HD Hcs HM. rewrite Hsize. assert (under_cap D) as HD' by (intros v; by rewrite <- Hsize).
  revert uid. change (under_cap (m_tables M)). eapply gv_inv, reachable_governed; [apply cap_rule|exact HD'| |exact HM].
  apply Forall_fmap. eapply Forall_impl; [exact Hcs|]. apply programs_capped.
Qed.
End cap.

(** ** Rotations of one token *)

Section rotation.
Context (h : string).

Definition token_key : rowkey := (T_refresh_tokens, h).
(** The token can be rotated. *)
Definition spendable (V : rowset) : Prop := exists t, V !! token_key = Some (RToken t) /\ rt_Revoked t = false.
Definition keyed (V : rowset) : Prop := forall k t, V !! k = Some (RToken t) -> k = (T_refresh_tokens, rt_Hash t).

(** A token keeps its hash and its parent, stays revoked and ended. *)
Definition worn (r r' : row) : Prop := forall t', r' = RToken t' ->
  exists t, r = RToken t /\ rt_Hash t' = rt_Hash t /\ rt_Parent t' = rt_Parent t /\
    (rt_Revoked t = true -> rt_Revoked t' = true) /\ (rt_EndedAt t' = None -> rt_EndedAt t = None).

(** Tokens wear, and none of this hash is inserted. *)
Fixpoint wearing {A} (q : query A) : Prop :=
  match q with
  | BIND None _ => True
  | BIND (Some b) q => wearing (q b)
  | INSERT a => forall a', column_in a = Some a' -> key_of (inj a') <> token_key
  | INSERT_UPDATING a set => forall now a', column_in (a now) = Some a' -> key_of (inj a') <> token_key /\
      forall r y, prj r = Some y -> worn r (inj (set now a' y))
  | INSERT_WHILE a cond limit => forall a', column_in a = Some a' -> key_of (inj a') <> token_key
  | UPDATE cond set => forall now r y, prj r = Some y -> worn r (inj (set now y))
  | _ => True
  end.

Lemma insert_wears {A} `{Table A} (a : A) V x V' : insert_row a V = (x, V') ->
  (forall a', column_in a = Some a' -> key_of (inj a') <> token_key) ->
  (keyed V -> keyed V') /\ (spendable V' -> spendable V).
Proof.
  intros [->|(a' & Ha & ->)]%insert_row_cases Hk; [done|]. specialize (Hk a' Ha). split.
  - intros HV k t [[<- E]|[_ Hl]]%lookup_insert_Some; [by rewrite E|by apply HV].
  - intros (t & Ht & Hr). rewrite lookup_insert_ne in Ht by done. by exists t.
Qed.
Lemma update_back {A} `{Table A} (cond : A -> bool) set V k t' :
  (forall r y, prj r = Some y -> worn r (inj (set y))) -> update_rows cond set V !! k = Some (RToken t') ->
  exists t, V !! k = Some (RToken t) /\ rt_Hash t' = rt_Hash t /\ rt_Parent t' = rt_Parent t /\
    (rt_Revoked t = true -> rt_Revoked t' = true) /\ (rt_EndedAt t' = None -> rt_EndedAt t = None).
Proof.
  intros Hw. unfold update_rows. intros (r & E & Hr)%lookup_fmap_Some. destruct (prj r) as [y|] eqn:Ep; [|subst; eauto 6].
  destruct (cond y); [|subst; eauto 6]. destruct (Hw r y Ep t' E) as (t & -> & Ht). eauto.
Qed.
Lemma update_wears {A} `{Table A} (cond : A -> bool) set V :
  (forall r y, prj r = Some y -> worn r (inj (set y))) ->
  (keyed V -> keyed (update_rows cond set V)) /\ (spendable (update_rows cond set V) -> spendable V).
Proof.
  intros Hw. split.
  - intros HV k t' (t & Ht & -> & _)%update_back; [|done]. by apply HV.
  - intros (t' & (t & Ht & _ & _ & Hr & _)%update_back & Hf); [|done]. exists t. split; [done|].
    destruct (rt_Revoked t); [by rewrite Hr in Hf|done].
Qed.
Lemma delete_wears (cond : row -> bool) V :
  (keyed V -> keyed (delete_rows cond V)) /\ (spendable (delete_rows cond V) -> spendable V).
Proof.
  unfold delete_rows. split.
  - intros HV k t [Hl _]%map_lookup_filter_Some. by apply HV.
  - intros (t & [Hl _]%map_lookup_filter_Some & Hr). by exists t.
Qed.

Lemma statement_wears {A} now seed (q : query A) V0 V x V' :
  wearing q -> statement now seed q V0 V = (x, V') -> (keyed V -> keyed V') /\ (spendable V' -> spendable V).
Proof.
  revert x V'. induction q as [B A [b|] q IH|A T a|A T a set|A T a cond limit|A T cond set|A T cond|A T cond|A T cond cr|A T l cond|A B T cond agg];
    intros x V' Hq Hs; cbn in Hq, Hs.
  - by eapply IH.
  - by injection Hs as _ <-.
  - by eapply insert_wears.
  - destruct (column_in (a now)) as [a'|] eqn:Ha; [|by injection Hs as _ <-].
    destruct (Hq now a' Ha) as [Hk Hset]. destruct (V !! key_of (inj a')).
    + injection Hs as _ <-. by apply update_wears.
    + eapply insert_wears; [exact Hs|]. intros a2 Ha2. by simplify_eq.
  - destruct (column_in a) as [a'|] eqn:Ha; [|by injection Hs as _ <-].
    destruct (_ <? limit); [|by injection Hs as _ <-]. eapply insert_wears; [exact Hs|]. by rewrite Ha.
  - injection Hs as _ <-. apply update_wears, Hq.
  - injection Hs as _ <-. apply delete_wears.
  - by injection Hs as _ <-.
  - by injection Hs as _ <-.
  - by injection Hs as _ <-.
  - by injection Hs as _ <-.
Qed.

(** A transaction does not bring the token back. *)
Definition worn_tx (D : rowset) (held : list fact) (t : txn) (sn : option rowset) : Prop :=
  keyed (overlay (t_changes t) D) /\ (spendable (overlay (t_changes t) D) -> spendable D).

Lemma worn_others D D' held t sn :
  clear_of t D D' -> keyed D' -> worn_tx D held t sn -> worn_tx D' held t sn.
Proof.
  intros Hc HD' [Hk Hs]. split.
  - intros k r. rewrite lookup_overlay. destruct (t_changes t !! k) as [v|] eqn:E; [|apply HD'].
    intros ->. apply Hk. by rewrite lookup_overlay, E.
  - intros (r & Hr & Hl). rewrite lookup_overlay in Hr. destruct (t_changes t !! token_key) as [v|] eqn:E; [|by exists r].
    subst v. destruct Hs as (r' & Hr' & Hl'); [exists r; by rewrite lookup_overlay, E|].
    exists r'. split; [|done]. by rewrite (clear_changes t D D' _ _ Hc E).
Qed.

Lemma wear_rule : rule (fun A _ _ => @wearing A) keyed no_knowledge worn_tx.
Proof.
  split.
  - intros A q now seed V0 D x D' HD Hq Hs. by eapply statement_wears.
  - intros D HD. unfold worn_tx. cbn [t_changes]. by rewrite overlay_empty.
  - done.
  - intros A q now seed V0 D held t l V' V HD [Hk Hsp] Hq Hs _. unfold worn_tx.
    replace (overlay _ D) with V' by (symmetry; apply overlay_changed).
    destruct (statement_wears _ _ _ _ _ _ _ Hq Hs) as [Hk' Hsp']. auto.
  - by intros D held t HD [Hk _].
  - intros A q now seed V0 D x D' held t sn HD Hq Hs Hc. apply worn_others; [done|]. by eapply statement_wears.
  - intros D held t sn held' t' HD Ht [Hk _] Hc. eapply worn_others; [|exact Hk|exact Ht].
    apply compatible_clear. intros k m m' Hh Hh'. rewrite conflicting_sym. by eapply Hc.
  - done.
  - done.
  - done.
  - done.
Qed.
(** The call does not save a token of this hash. *)
Definition saves_another (c : store_call) : Prop :=
  match c_call c with SaveRefreshToken t => text_in (Some 255%nat) (rt_Hash t) <> Some h | _ => True end.

Lemma token_column_hash t t' : column_in t = Some t' -> text_in (Some 255%nat) (rt_Hash t) = Some (rt_Hash t').
Proof. unfold column_in. cbn. intros E. by repeat (apply bind_Some in E as (? & ? & E)); simplify_eq/=. Qed.

Lemma programs_wear c : saves_another c -> guarded (fun A _ _ => @wearing A) any_answer false [] (session_of c).
Proof.
  intros Hc. apply guarded_map. destruct c as [A c]. cbn in *.
  destruct c; try (unfold pg_program, pg_GetByEmail; destruct (strEq email ""));
    unfold pg_program, pg_SaveRefreshToken; try destruct (strEq (rt_Parent t) ""); program.
  all: first [match goal with E : Some _ = Some _ |- _ => injection E as -> end; intros t' [= <-]; eexists; by split_and!|
    match goal with E : column_in _ = Some _ |- _ => apply token_column_hash in E; cbn in E end;
    intros E'; injection E' as E'; unfold saves_another in Hc; cbn in Hc; congruence].
Qed.

(** *** The winner *)

Definition wins (a : answer) : bool :=
  match a with
  | Answer c x =>
      match c in storeE A return A -> bool with
      | RotateRefreshToken g _ => fun r =>
          match r with Rotated _ => bool_decide (text_in None g = Some h) | RotateErr _ _ => false end
      | _ => fun _ => false
      end x
  end.
Definition won (s : session answer) : bool := match s_prog s with Done a => wins a | Send _ _ => false end.
Definition winners (l : list (session answer)) : nat := length (List.filter won l).

Fixpoint never_wins (p : sqlprog answer) : Prop :=
  match p with
  | Done a => wins a = false
  | Send e k => forall x, never_wins (k x)
  end.

(** A statement that returns a row when it spends the token, and a program that
    wins by it. *)
Definition claims {A} (q : query A) : Prop := forall now seed V0 V x l V',
  keyed V -> statement now seed q V0 V = (Good (x :: l), V') -> spendable V /\ ~ spendable V'.
Definition claiming (p : sqlprog answer) : Prop :=
  match p with
  | Send e k =>
      match e in sqlE Y return (Y -> sqlprog answer) -> Prop with
      | Query q => fun k => claims q /\
          forall x, match x with Good (_ :: _) => exists a, k x = Done a | _ => never_wins (k x) end
      | _ => fun _ => False
      end k
  | Done _ => False
  end.

(** Where a session may be on its way. *)
Definition sober (s : session answer) : Prop :=
  never_wins (s_prog s) \/ s_state s = Auto /\ claiming (s_prog s) \/ exists a, s_prog s = Done a.

Lemma never_wins_map {A} (c : storeE A) (p : sqlprog A) :
  (forall x, wins (Answer c x) = false) -> never_wins (sql_map (Answer c) p).
Proof. intros Hc. induction p as [a|Y e k IH]; [exact (Hc a)|]. intros x. by apply IH. Qed.

Lemma session_begins c : never_wins (session_of c) \/ claiming (session_of c).
Proof.
  destruct c as [A c]. unfold session_of. cbn [c_call].
  destruct c; try (left; by apply never_wins_map).
  destruct (text_in None hash) as [g|] eqn:Eg.
  2: { left. apply never_wins_map. intros [t|t e]; [|done]. cbn. by rewrite Eg, bool_decide_eq_false_2. }
  destruct (decide (g = h)) as [->|Hne].
  2: { left. apply never_wins_map. intros [t|t e]; [|done]. cbn. rewrite Eg. by rewrite bool_decide_eq_false_2 by congruence. }
  right. cbn [pg_program]. unfold pg_RotateRefreshToken. rewrite Eg.
  split.
  - intros n seed V0 V x l V' HV Hs. cbn in Hs.
    destruct (timestamptz_in now) as [z|]; [|done]. cbn in Hs. injection Hs as Hl <-.
    match type of Hl with _ <$> matching ?c _ _ = _ => set (cond := c) in * end.
    destruct (matching cond seed V) as [|a l'] eqn:Em; [done|]. clear Hl.
    apply matching_head in Em as [[k Hk]%elem_of_rows Hcond].
    pose proof Hcond as Hc. unfold cond, both in Hc. rewrite !andb_true_iff, negb_true_iff, strEq_true in Hc.
    destruct Hc as [[[Hhash Hlive] _] _].
    assert (k = token_key) as -> by (rewrite (HV k a Hk); unfold token_key; by rewrite Hhash).
    split; [by exists a|]. unfold update_rows. intros (t & Ht & Hf). rewrite lookup_fmap, Hk in Ht.
    cbn in Ht. rewrite Hcond in Ht. by injection Ht as <-.
  - intros [[|t l]|e]; cbn; [|by eexists|].
    + intros x. by repeat case_match.
    + destruct (isNoRows e); cbn; [|done]. intros x. by repeat case_match.
Qed.

Lemma session_sober c : sober (mkSession (session_of c) Auto None) /\ won (mkSession (session_of c) Auto None) = false.
Proof.
  unfold sober, won. cbn. destruct (session_begins c) as [Hc|Hc]; split; auto; destruct (session_of c); done.
Qed.

Lemma move_spends oth D (s : session answer) D' s' :
  keyed D -> tracked (fun A _ _ => @wearing A) no_knowledge worn_tx any_answer D s -> moves oth D s D' s' -> spendable D' -> spendable D.
Proof.
  intros HD (b & held & Hg & Hst) Hm. destruct Hm; cbn in *; try done.
  - destruct Hg as [Hq _]. by eapply statement_wears.
  - destruct Hg as [Hq _]. by eapply statement_wears.
  - by destruct Hst as [_ [_ Hs]].
  - by destruct Hst as [_ [_ Hs]].
Qed.

(** Who wins has spent the token. *)
Lemma move_claims oth D (s : session answer) D' s' :
  keyed D -> sober s -> moves oth D s D' s' ->
  sober s' /\ won s = false /\ (won s' = true -> spendable D /\ ~ spendable D').
Proof.
  intros HD Hs Hm. assert (forall p st sn, never_wins p -> sober (mkSession p st sn) /\
    (won (mkSession p st sn) = true -> spendable D /\ ~ spendable D')) as Hnever.
  { intros p st sn Hp. split; [by left|]. unfold won. cbn. destruct p as [a|]; [|done]. cbn in Hp. by rewrite Hp. }
  destruct Hm; cbn in *.
  all: destruct Hs as [Hs|[[Hauto Hc]|[a Ha]]]; cbn in *; try done.
  all: try (split; [|split; [done|]]; apply Hnever; (exact Hs || apply Hs)).
  - split; [by left|done].
  - split; [by right; left|done].
  - destruct Hc as [Hc Hk]. specialize (Hk x). destruct x as [[|y l]|e]; [by destruct (Hnever _ Auto None Hk)| |by destruct (Hnever _ Auto None Hk)].
    destruct Hk as [a Ek]. split; [right; right; by exists a|]. split; [done|]. intros _. by eapply Hc.
  - destruct Hc as [_ Hk]. by destruct (Hnever _ Auto None (Hk (Bad e))).
  - destruct Hc as [_ Hk]. by destruct (Hnever _ (broken st) None (Hk (Bad e))).
Qed.

Lemma winners_insert l i (s s' : session answer) : l !! i = Some s -> won s = false ->
  winners (<[i := s']> l) = (winners l + if won s' then 1 else 0)%nat.
Proof.
  unfold winners. revert i. induction l as [|s2 l IH]; intros [|i] Hi Hs; [done..| |].
  - injection Hi as ->. cbn. rewrite Hs. destruct (won s'); cbn; lia.
  - change (<[S i := s']> (s2 :: l)) with (s2 :: <[i := s']> l). cbn. specialize (IH i Hi Hs). destruct (won s2); cbn; lia.
Qed.

(** One winner at most, and none while the token can be spent. *)
Record fair_race (M : machine answer) : Prop := {
  fr_governed : governed (fun A _ _ => @wearing A) keyed no_knowledge worn_tx any_answer M;
  fr_sober : Forall sober (m_sessions M);
  fr_one : (winners (m_sessions M) <= 1)%nat;
  fr_none : spendable (m_tables M) -> winners (m_sessions M) = 0%nat
}.

Lemma step_fair M M' : fair_race M -> mstep M M' -> fair_race M'.
Proof.
  intros [Hg Hs H1 H0'] Hstep. pose proof (step_governed _ _ _ _ _ _ _ wear_rule Hg Hstep) as Hg'.
  destruct Hstep as [i s D' s' Hi Hm].
  pose proof (gv_tracked _ _ _ _ _ _ Hg _ _ Hi) as Ht. pose proof (gv_inv _ _ _ _ _ _ Hg) as HD.
  destruct (move_claims _ _ _ _ _ HD (proj1 (Forall_lookup _ _) Hs _ _ Hi) Hm) as (Hs' & Hw & Hw').
  split; cbn [m_sessions m_tables]; [done|by apply Forall_insert|..]; rewrite (winners_insert _ _ s) by done.
  - destruct (won s'); [|lia]. destruct Hw' as [Hsp _]; [done|]. rewrite H0'; [lia|done].
  - intros Hsp. pose proof (move_spends _ _ _ _ _ HD Ht Hm Hsp) as HspD. rewrite H0' by done.
    destruct (won s'); [|done]. by destruct Hw' as [_ Hn].
Qed.

(** C10. However calls of the store run at the same time, at most one rotation of
    a token answers with it: the UPDATE that rotates looks again at a row that was
    written meanwhile, and finds the token revoked.  A token is not saved twice
    under one hash meanwhile. *)
Theorem rotation_one_winner D cs M :
  pg_inv D -> Forall saves_another cs -> reachable D (session_of <$> cs) M -> (winners (m_sessions M) <= 1)%nat.
Proof.
  intros HD Hcs HM. apply fr_one.
  assert (winners (m_sessions (start D (session_of <$> cs))) = 0%nat) as Hzero.
  { unfold winners. cbn. clear Hcs HM. induction cs as [|c cs IH]; [done|]. cbn -[won]. by rewrite (proj2 (session_sober c)). }
  assert (fair_race (start D (session_of <$> cs))) as Hstart.
  { split.
    - apply start_governed; [apply wear_rule| |apply Forall_fmap; eapply Forall_impl; [exact Hcs|apply programs_wear]].
      intros k t Hk. by rewrite <- (pi_keys _ HD _ _ Hk).
    - cbn. apply Forall_fmap, Forall_fmap, Forall_true. intros c. apply session_sober.
    - rewrite Hzero. lia.
    - done. }
  revert Hstart HM. unfold reachable. generalize (start D (session_of <$> cs)).
  intros M0 H0' HM. induction HM as [|M0 M1 M2 Hs _ IH]; [done|]. by eapply IH, step_fair.
Qed.
End rotation.
End isolation.
