(* ===== verification/SessionEnd.v ===== *)
(** * Revoking a session while it is refreshed

    A successor joins its family in a transaction that holds the family's root
    in share mode; a revocation locks the root for itself, in a statement before
    the one that revokes, so that the snapshot of that one misses no successor.
    In every state of the tables that READ COMMITTED allows, a family whose root
    has ended has no live token. *)

From S2P Require Import Prelude GoTime Errors Entity Ports Contract ContractFacts Sql Postgres PostgresFacts PostgresTheorems ReadCommitted Isolation.

Section session_end.
Context `{PgTypes, !Lossless, ScanOrder}.
Context (h : string).
Abbreviation root := (token_key h) (only parsing).

(** ** The family in the tables *)

Definition ended (V : rowset) : Prop := exists t, V !! root = Some (RToken t) /\ is_Some (rt_EndedAt t).
Definition present (V : rowset) : Prop := exists t, V !! root = Some (RToken t).
Definition open (V : rowset) : Prop := exists t, V !! root = Some (RToken t) /\ rt_EndedAt t = None.
Definition child (V : rowset) (k : rowkey) : Prop := exists c, V !! k = Some (RToken c) /\ rt_Parent c = h.
Definition live (V : rowset) (k : rowkey) : Prop := exists c, V !! k = Some (RToken c) /\ rt_Parent c = h /\ rt_Revoked c = false.

(** No token of the family can be used. *)
Definition dead (V : rowset) : Prop := ~ spendable h V /\ forall k, ~ live V k.
Definition well_rooted (V : rowset) : Prop := keyed V /\ forall t, V !! root = Some (RToken t) -> rt_Parent t = "".

(** The session is over: its root ended or gone. *)
Definition over (V : rowset) : Prop := dead V /\ ~ open V.

(** What depends on one row only. *)
Definition about (k : rowkey) (P : rowset -> Prop) : Prop := forall V V', V !! k = V' !! k -> P V -> P V'.

Lemma about_ended : about root ended.
Proof. intros V V' E (t & Ht). exists t. by rewrite <- E. Qed.
Lemma about_present : about root present.
Proof. intros V V' E (t & Ht). exists t. by rewrite <- E. Qed.
Lemma about_open : about root open.
Proof. intros V V' E (t & Ht). exists t. by rewrite <- E. Qed.
Lemma about_spendable : about root (spendable h).
Proof. intros V V' E (t & Ht). exists t. by rewrite <- E. Qed.
Lemma about_child k : about k (fun V => child V k).
Proof. intros V V' E (t & Ht). exists t. by rewrite <- E. Qed.
Lemma about_live k : about k (fun V => live V k).
Proof. intros V V' E (t & Ht). exists t. by rewrite <- E. Qed.
Hint Resolve about_ended about_present about_open about_spendable about_child about_live : core.

Record settled (V : rowset) : Prop := {
  se_rooted : well_rooted V;
  se_dead : ended V -> dead V
}.

(** ** The discipline *)

Definition shares (held : list fact) : Prop := exists r, Locked (RToken r) Share ∈ held /\ rt_Hash r = h /\ rt_EndedAt r = None.
Definition no_share (held : list fact) : Prop := forall r, Locked r Share ∉ held.
(** The root is locked for a change, or gone. *)
Definition secured (held : list fact) : Prop :=
  (exists r, Locked (RToken r) Update ∈ held /\ rt_Hash r = h) \/
  (exists f, Absent f ∈ held /\ forall t, rt_Hash t = h -> f (RToken t) = true).

Definition of_family (c : RefreshToken) : Prop := rt_Hash c = h \/ rt_Parent c = h.
(** An update that leaves the end of the root as it is, and some token out. *)
Definition keeps_end {A} `{Table A} (cond : A -> bool) (set : time -> A -> A) : Prop :=
  (exists c, of_family c /\ on_row cond (RToken c) = false) /\
  forall now r y t', prj r = Some y -> cond y = true -> inj (set now y) = RToken t' -> rt_Hash t' = h -> rt_Parent t' = "" ->
  exists t, r = RToken t /\ rt_EndedAt t' = rt_EndedAt t.
(** An update that revokes the family. *)
Definition revokes_all {A} `{Table A} (cond : A -> bool) (set : time -> A -> A) : Prop :=
  (forall c, of_family c -> on_row cond (RToken c) = true) /\
  (forall now r y t', prj r = Some y -> inj (set now y) = RToken t' -> rt_Revoked t' = true /\ rt_EndedAt t' <> None) /\
  (forall r y, prj (A := A) r = Some y -> r = inj y).

Fixpoint orderly {A} (intx : bool) (held : list fact) (q : query A) : Prop :=
  match q with
  | BIND None _ => True
  | BIND (Some b) q => orderly intx held (q b)
  | INSERT a => (intx = true -> held <> []) /\
      forall a', column_in a = Some a' -> key_of (inj a') <> root /\
        forall c, inj a' = RToken c -> rt_Parent c = h -> intx = true /\ shares held
  | INSERT_UPDATING a set => intx = false /\
      forall now a', column_in (a now) = Some a' ->
        (forall c, inj a' <> RToken c) /\ key_of (inj a') <> root /\ forall r y c, prj r = Some y -> inj (set now a' y) <> RToken c
  | INSERT_WHILE a cond limit => (intx = true -> held <> []) /\
      forall a', column_in a = Some a' -> key_of (inj a') <> root /\ forall c, inj a' <> RToken c
  | UPDATE cond set => (intx = true -> held <> [] /\ no_share held) /\
      (forall now r y, prj r = Some y -> worn r (inj (set now y))) /\
      (keeps_end cond set \/ intx = true /\ secured held /\ revokes_all cond set)
  | DELETE cond => intx = true -> held <> [] /\ no_share held
  | @SELECT_FOR A' _ l cond => (intx = true -> held = []) /\ forall r y, prj (A := A') r = Some y -> r = inj y
  | _ => True
  end.

(** ** One statement *)

(** What the tables may become. *)
Record orderly_change (joins : Prop) (V V' : rowset) : Prop := {
  oc_rooted : well_rooted V -> well_rooted V';
  oc_present : present V' -> present V;
  oc_spendable : spendable h V' -> spendable h V;
  oc_open : open V' -> open V;
  oc_child : forall k, child V' k -> child V k \/ joins /\ V' !! root = V !! root;
  oc_live : forall k, live V' k -> live V k \/ joins /\ V' !! root = V !! root
}.

Lemma unchanged joins V : orderly_change joins V V.
Proof. split; auto. Qed.

Lemma insert_orderly (joins : Prop) {A} `{Table A} (a : A) V x V' : insert_row a V = (x, V') ->
  (forall a', column_in a = Some a' -> key_of (inj a') <> root /\ forall c, inj a' = RToken c -> rt_Parent c = h -> joins) ->
  orderly_change joins V V' /\ V' !! root = V !! root.
Proof.
  intros [->|(a' & Ha & ->)]%insert_row_cases Hk; [by split; [apply unchanged|]|]. destruct (Hk a' Ha) as [Hne Hc].
  assert (<[key_of (inj a') := inj a']> V !! root = V !! root) as E by by rewrite lookup_insert_ne.
  split; [|done]. split; unfold present, spendable, open, child, live; rewrite ?E; [|done..| |].
  - intros [HV Hp]. split; [|by rewrite E]. intros k t [[<- E']|[_ Hl]]%lookup_insert_Some; [by rewrite E'|by apply HV].
  - intros k (c & [[<- E']|[_ Hl]]%lookup_insert_Some & Hp); [right; eauto|left; eauto].
  - intros k (c & [[<- E']|[_ Hl]]%lookup_insert_Some & Hp & Hr); [right; eauto|left; eauto].
Qed.

Lemma update_orderly joins {A} `{Table A} (cond : A -> bool) set V :
  (forall r y, prj r = Some y -> worn r (inj (set y))) -> orderly_change joins V (update_rows cond set V).
Proof.
  intros Hw. split.
  - intros [HV Hp]. split.
    + intros k t' (t & Ht & -> & _)%update_back; [|done]. by apply HV.
    + intros t' (t & Ht & _ & -> & _)%update_back; [|done]. by apply Hp.
  - intros (t' & (t & Ht & _)%update_back); [|done]. by exists t.
  - intros (t' & (t & Ht & _ & _ & Hr & _)%update_back & Hf); [|done]. exists t. split; [done|].
    destruct (rt_Revoked t); [by rewrite Hr in Hf|done].
  - intros (t' & (t & Ht & _ & _ & _ & He)%update_back & Hf); [|done]. exists t. auto.
  - intros k (t' & (t & Ht & _ & E & _)%update_back & Hp); [|done]. left. exists t. split; [done|congruence].
  - intros k (t' & (t & Ht & _ & E & Hr & _)%update_back & Hp & Hf); [|done]. left. exists t. split_and!; [done|congruence|].
    destruct (rt_Revoked t); [by rewrite Hr in Hf|done].
Qed.

Lemma delete_orderly joins (cond : row -> bool) V : orderly_change joins V (delete_rows cond V).
Proof.
  assert (forall k r, delete_rows cond V !! k = Some r -> V !! k = Some r) as Hsub.
  { unfold delete_rows. by intros k r [Hr _]%map_lookup_filter_Some. }
  split.
  - intros [HV Hp]. split; [intros k t Ht; by apply HV, Hsub|intros t Ht; by apply Hp, Hsub].
  - intros (t & Ht). exists t. by apply Hsub.
  - intros (t & Ht & ?). exists t. split; [by apply Hsub|done].
  - intros (t & Ht & ?). exists t. split; [by apply Hsub|done].
  - intros k (t & Ht & ?). left. exists t. split; [by apply Hsub|done].
  - intros k (t & Ht & ?). left. exists t. split; [by apply Hsub|done].
Qed.

Lemma statement_orderly {A} now seed (q : query A) V0 V x V' intx held :
  orderly intx held q -> statement now seed q V0 V = (x, V') -> orderly_change (intx = true /\ shares held) V V'.
Proof.
  revert x V'. induction q as [B A [b|] q IH|A T a|A T a set|A T a cond limit|A T cond set|A T cond|A T cond|A T cond cr|A T l cond|A B T cond agg];
    intros x V' Hq Hs; cbn in Hq, Hs; try (injection Hs as _ <-; apply unchanged).
  - by eapply IH.
  - eapply insert_orderly; [exact Hs|]. apply Hq.
  - destruct Hq as [_ Hq]. destruct (column_in (a now)) as [a'|] eqn:Ha; [|injection Hs as _ <-; apply unchanged].
    destruct (Hq now a' Ha) as (Hno & Hk & Hset). destruct (V !! key_of (inj a')).
    + injection Hs as _ <-. apply update_orderly. intros r0 y Hy t' E. by destruct (Hset r0 y t' Hy).
    + eapply insert_orderly; [exact Hs|]. intros a2 Ha2. simplify_eq. split; [done|]. intros c E. by destruct (Hno c).
  - destruct Hq as [_ Hq]. destruct (column_in a) as [a'|] eqn:Ha; [|injection Hs as _ <-; apply unchanged].
    destruct (_ <? limit); [|injection Hs as _ <-; apply unchanged].
    eapply insert_orderly; [exact Hs|]. intros a2 Ha2. rewrite Ha in Ha2. destruct (Hq a2 Ha2) as [Hk Hno].
    split; [done|]. intros c E. by destruct (Hno c).
  - injection Hs as _ <-. apply update_orderly. apply Hq.
  - injection Hs as _ <-. apply delete_orderly.
Qed.

(** What a transaction with these facts knows of the root and the children. *)
Record informed (held : list fact) (V0 V : rowset) : Prop := {
  in_root : secured held -> present V -> exists t, V0 !! root = Some (RToken t) /\ rt_Hash t = h;
  in_child : secured held -> forall k, child V k -> child V0 k;
  in_absent : forall f, Absent f ∈ held -> (forall t, rt_Hash t = h -> f (RToken t) = true) -> ~ present V
}.

(** A revocation leaves nothing alive. *)
Lemma revoked_all {A} `{Table A} (cond : A -> bool) set now V0 V held :
  well_rooted V -> secured held -> informed held V0 V ->
  (forall r y, prj r = Some y -> worn r (inj (set now y))) -> revokes_all cond set ->
  over (update_rows (both V0 cond) (set now) V).
Proof.
  intros [HV _] Hsec Hin Hw (Hc & Hrev & Hinj).
  (* a token of the family that the snapshot has seen *)
  assert (forall k c c0 c', V !! k = Some (RToken c) -> V0 !! k = Some (RToken c0) -> of_family c -> of_family c0 ->
    update_rows (both V0 cond) (set now) V !! k = Some (RToken c') -> rt_Revoked c' = true /\ rt_EndedAt c' <> None) as Hall.
  { intros k c c0 c' Hk Hk0 Hf Hf0. unfold update_rows. rewrite lookup_fmap, Hk. cbn.
    pose proof (Hc c Hf) as Hon. unfold on_row in Hon. destruct (prj (RToken c)) as [y|] eqn:Ep; [|done].
    unfold both. rewrite Hon, <- (Hinj _ _ Ep), <- (HV _ _ Hk : k = key_of (RToken c)), Hk0, (Hc c0 Hf0).
    cbn. intros [= E]. by eapply Hrev. }
  assert (forall c', update_rows (both V0 cond) (set now) V !! root = Some (RToken c') ->
    rt_Revoked c' = true /\ rt_EndedAt c' <> None) as Hroot.
  { intros c' Hc'. destruct (update_back _ _ _ _ _ Hw Hc') as (c & Hk & _).
    destruct (in_root _ _ _ Hin Hsec) as (c0 & Hk0 & Hh0); [by exists c|].
    eapply Hall; [exact Hk|exact Hk0|left; by injection (HV _ _ Hk)|by left|done]. }
  split; [split|].
  - intros (c' & Hc' & Hf). by rewrite (proj1 (Hroot c' Hc')) in Hf.
  - intros k (c' & Hc' & Hp & Hf). destruct (update_back _ _ _ _ _ Hw Hc') as (c & Hk & _ & E & _).
    assert (rt_Parent c = h) as Hpc by congruence. destruct (in_child _ _ _ Hin Hsec k) as (c0 & Hk0 & Hp0); [by exists c|].
    by rewrite (proj1 (Hall _ _ _ _ Hk Hk0 (or_intror Hpc) (or_intror Hp0) Hc')) in Hf.
  - intros (c' & Hc' & He). by apply (Hroot c' Hc').
Qed.

(** A statement ends the root only as a revocation of the family. *)
Lemma statement_end {A} now seed (q : query A) V0 V x V' intx held :
  orderly intx held q -> statement now seed q V0 V = (x, V') -> well_rooted V -> informed held V0 V ->
  ended V' -> ended V \/ dead V'.
Proof.
  revert x V'. induction q as [B A [b|] q IH|A T a|A T a set|A T a cond limit|A T cond set|A T cond|A T cond|A T cond cr|A T l cond|A B T cond agg];
    intros x V' Hq Hs HV Hin He; cbn in Hq, Hs; try (injection Hs as _ <-; by left).
  - by eapply IH.
  - left. destruct (insert_orderly True a V x V' Hs) as [_ E]; [intros a' Ha; destruct Hq as [_ Hq]; by destruct (Hq a' Ha)|].
    unfold ended in *. by rewrite <- E.
  - destruct Hq as [_ Hq]. destruct (column_in (a now)) as [a'|] eqn:Ha; [|injection Hs as _ <-; by left].
    destruct (Hq now a' Ha) as (Hno & Hk & Hset). left. destruct (V !! key_of (inj a')).
    + injection Hs as _ <-. destruct He as (t & Ht & Hend). exists t. split; [|done]. unfold update_rows in Ht.
      apply lookup_fmap_Some in Ht as (r1 & E & Hr). destruct (prj r1) as [y|] eqn:Ep; [|by subst].
      case_match; [by destruct (Hset r1 y t Ep)|by subst].
    + destruct (insert_orderly True (a now) V x V' Hs) as [_ E]; [intros a2 Ha2; by simplify_eq|].
      unfold ended in *. by rewrite <- E.
  - destruct Hq as [_ Hq]. destruct (column_in a) as [a'|] eqn:Ha; [|injection Hs as _ <-; by left].
    destruct (_ <? limit); [|injection Hs as _ <-; by left]. left.
    destruct (insert_orderly True a V x V' Hs) as [_ E]; [intros a2 Ha2; rewrite Ha in Ha2; by destruct (Hq a2 Ha2)|].
    unfold ended in *. by rewrite <- E.
  - injection Hs as _ <-. destruct Hq as (_ & Hw & [[_ Hkeep]|(_ & Hsec & Hrev)]).
    + left. destruct He as (t & Ht & Hend).
      destruct (update_back _ _ _ _ _ (Hw now) Ht) as (t0 & Ht0 & Ehash & Epar & _).
      destruct HV as [HV Hp]. unfold update_rows in Ht. rewrite lookup_fmap, Ht0 in Ht. cbn in Ht.
      destruct (prj (RToken t0)) as [y|] eqn:Ep; [|injection Ht as <-; by exists t0].
      destruct (both V0 cond y) eqn:Eb; [|injection Ht as <-; by exists t0]. injection Ht as Ht.
      unfold both in Eb. apply andb_true_iff in Eb as [Ec _].
      destruct (Hkeep now _ y t Ep Ec Ht) as (t1 & [= <-] & Ee).
      * rewrite Ehash. by injection (HV _ _ Ht0).
      * rewrite Epar. by apply Hp.
      * exists t0. by rewrite <- Ee.
    + right. exact (proj1 (revoked_all _ _ _ _ _ _ HV Hsec Hin (Hw now) Hrev)).
  - injection Hs as _ <-. left. destruct He as (t & Ht & Hend). exists t. split; [|done].
    unfold delete_rows in Ht. by apply map_lookup_filter_Some in Ht as [? _].
Qed.

(** The family was updated. *)
Definition sure (held : list fact) : Prop := exists f, Updated f ∈ held /\ forall c, of_family c -> f (RToken c) = true.

Lemma sure_app l l' : sure (l ++ l') <-> sure l \/ sure l'.
Proof.
  split.
  - intros (f & [Hf|Hf]%elem_of_app & Hc); [left|right]; by exists f.
  - intros [(f & Hf & Hc)|(f & Hf & Hc)]; exists f; rewrite elem_of_app; auto.
Qed.
Lemma sure_lasting held : sure (lasting held) -> sure held.
Proof.
  intros (f & Hf & Hc). exists f. split; [|done]. apply list_elem_of_In, filter_In in Hf as [Hf _].
  by apply list_elem_of_In.
Qed.

(** A statement that updates the family revokes it. *)
Lemma statement_over {A} now seed (q : query A) V0 V l V' intx held :
  orderly intx held q -> statement now seed q V0 V = (Good l, V') -> well_rooted V -> informed held V0 V ->
  sure (gained q (Good l)) -> over V'.
Proof.
  revert l V'. induction q as [B A [b|] q IH|A T a|A T a set|A T a cond limit|A T cond set|A T cond|A T cond|A T cond cr|A T lk cond|A B T cond agg];
    intros l V' Hq Hs HV Hin Hsu; cbn in Hq, Hs, Hsu; try (by destruct Hsu as (f & ?%not_elem_of_nil & _)).
  - by eapply IH.
  - destruct Hsu as (f & [= ->]%list_elem_of_singleton & Hf). injection Hs as _ <-.
    destruct Hq as (_ & Hw & [[(c & Hc & Hn) _]|(_ & Hsec & Hrev)]); [by rewrite Hf in Hn|].
    exact (revoked_all _ _ _ _ _ _ HV Hsec Hin (Hw now) Hrev).
  - destruct Hsu as (f & Hf & _). destruct l; [by apply list_elem_of_singleton in Hf|by apply list_elem_of_fmap in Hf as (? & [=] & _)].
Qed.

Lemma over_stays joins V V' : orderly_change joins V V' -> (joins -> open V) -> over V -> over V'.
Proof.
  intros Hc Hj [[Hs Hl] Ho]. split; [split|].
  - intros Hs'. by apply Hs, (oc_spendable _ _ _ Hc).
  - intros k Hk. destruct (oc_live _ _ _ Hc k Hk) as [Hk'|[Hj' _]]; [by apply (Hl k)|by apply Ho, Hj].
  - intros Ho'. by apply Ho, (oc_open _ _ _ Hc).
Qed.

(** ** A transaction under way *)

Lemma token_row_key c : rt_Hash c = h -> key_of (RToken c) = root.
Proof. unfold key_of, token_key. cbn. by intros ->. Qed.

(** It has saved a successor: it holds the root, which has not ended, in share
    mode and does not write it. *)
Definition joining (held : list fact) (t : txn) (D : rowset) : Prop :=
  (exists c, Locked (RToken c) Share ∈ held /\ rt_Hash c = h) /\ t_changes t !! root = None /\ open D.

Record orderly_tx (D : rowset) (held : list fact) (t : txn) (sn : option rowset) : Prop := {
  ot_settled : settled (overlay (t_changes t) D);
  ot_present : present (overlay (t_changes t) D) -> present D;
  ot_spendable : spendable h (overlay (t_changes t) D) -> spendable h D;
  ot_open : open (overlay (t_changes t) D) -> open D;
  ot_child : forall k, child (overlay (t_changes t) D) k -> child D k \/ joining held t D;
  ot_live : forall k, live (overlay (t_changes t) D) k -> live D k \/ joining held t D;
  ot_locked : forall r m, Locked r m ∈ held -> (key_of r, m) ∈ t_locks t /\ m <> KeyShare;
  ot_fact : forall c m, Locked (RToken c) m ∈ held -> t_changes t !! key_of (RToken c) = None ->
    D !! key_of (RToken c) = Some (RToken c);
  ot_share : forall c, Locked (RToken c) Share ∈ held -> rt_Hash c = h -> t_changes t !! root = None;
  ot_absent : forall f, Absent f ∈ held -> (forall t, rt_Hash t = h -> f (RToken t) = true) ->
    ~ present (overlay (t_changes t) D);
  ot_snap : forall V0, sn = Some V0 ->
    (present (overlay (t_changes t) D) -> exists t0, V0 !! root = Some (RToken t0) /\ rt_Hash t0 = h) /\
    (secured held -> forall k, child (overlay (t_changes t) D) k -> child V0 k);
  ot_over : sure held -> over (overlay (t_changes t) D);
  ot_begun : held = [] -> t_changes t = ∅
}.

(** What another commits, as seen by a transaction under way. *)
Definition joined_clear (t : txn) (D D' : rowset) : Prop :=
  open D /\ D' !! root = D !! root /\ forall m, holds t root m -> conflicting Share m = false.
Record orderly_commit (t : txn) (D D' : rowset) : Prop := {
  om_settled : settled D';
  om_present : present D' -> present D;
  om_spendable : spendable h D' -> spendable h D;
  om_open : open D' -> open D;
  om_child : forall k, child D' k -> child D k \/ joined_clear t D D';
  om_live : forall k, live D' k -> live D k \/ joined_clear t D D'
}.

Section others.
Context (D D' : rowset) (held : list fact) (t : txn) (sn : option rowset).
Context (Ht : orderly_tx D held t sn) (Hc : clear_of t D D') (Hm : orderly_commit t D D').
Let w := t_changes t.

(** A row of the new view is the transaction's own, as before, or committed. *)
Lemma view_of_row k : overlay w D' !! k = overlay w D !! k /\ D' !! k = D !! k /\ is_Some (w !! k) \/
  w !! k = None /\ overlay w D' !! k = D' !! k /\ overlay w D !! k = D !! k.
Proof.
  rewrite !lookup_overlay. destruct (w !! k) as [v|] eqn:E; [left|by right]. split_and!; [done| |done].
  by eapply clear_changes.
Qed.

(** So what is said of it the old view, or what is committed, says of its own. *)
Lemma view_cases k P : about k P -> P (overlay w D') ->
  is_Some (w !! k) /\ P (overlay w D) /\ D' !! k = D !! k \/ w !! k = None /\ P D'.
Proof.
  intros Ha HP. destruct (view_of_row k) as [(E & ED & Hw)|(Hw & E & _)]; [left|right].
  - split_and!; [done| |done]. by eapply Ha, HP.
  - split; [done|]. by eapply Ha, HP.
Qed.
Lemma view_back k P : about k P -> (P D' -> P D) -> P (overlay w D') -> P (overlay w D).
Proof.
  intros Ha HD HP. destruct (view_cases k P Ha HP) as [(_ & ? & _)|[Hw HP']]; [done|].
  apply (Ha D); [|by apply HD]. by rewrite lookup_overlay, Hw.
Qed.
Lemma committed_back k P : about k P -> (P (overlay w D) -> P D) -> P (overlay w D') -> P D'.
Proof.
  intros Ha HD HP. destruct (view_cases k P Ha HP) as [(_ & HP' & E)|[Hw HP']]; [|done].
  apply (Ha D); [by rewrite E|by apply HD].
Qed.
Lemma own_or_committed k P : about k P -> w !! k = None -> P D -> P (overlay w D).
Proof. intros Ha Hw. apply Ha. by rewrite lookup_overlay, Hw. Qed.

(** Who writes the root, or has it to itself, lets nobody join. *)
Lemma no_joining m : holds t root m -> m = NoKeyUpdate \/ m = Update -> ~ joined_clear t D D'.
Proof. intros Hh Hm' (_ & _ & Hj). specialize (Hj m Hh). by destruct Hm' as [-> | ->]. Qed.

Lemma joining_stays : joining held t D -> joining held t D'.
Proof.
  intros ((c & Hl & Hh) & Hw & r & Hr & He). split_and!; [by exists c|done|]. exists r. split; [|done].
  destruct (ot_locked _ _ _ _ Ht _ _ Hl) as [Hk _]. rewrite (token_row_key c Hh) in Hk.
  by rewrite (clear_stays t D D' root Share Hc (or_introl Hk)).
Qed.

Lemma joined_open : joined_clear t D D' -> open (overlay w D).
Proof.
  intros (Ho & _ & Hj). apply (own_or_committed root); [done| |done]. destruct (w !! root) as [v|] eqn:E; [|done].
  destruct (holds_changed t root v E) as (m & Hh & Hm'). specialize (Hj m Hh). by destruct Hm' as [-> | ->].
Qed.

Lemma others_rooted : well_rooted (overlay w D').
Proof.
  destruct (se_rooted _ (ot_settled _ _ _ _ Ht)) as [HV HpV]. destruct (se_rooted _ (om_settled _ _ _ Hm)) as [HD' HpD']. split.
  - intros k c. destruct (view_of_row k) as [(-> & _)|(_ & -> & _)]; [apply HV|apply HD'].
  - intros c. destruct (view_of_row root) as [(-> & _)|(_ & -> & _)]; [apply HpV|apply HpD'].
Qed.

Lemma others_live k : ~ joined_clear t D D' -> live (overlay w D') k -> live (overlay w D) k.
Proof. intros Hj. apply (view_back k (fun V => live V k)); [done|]. intros Hk. by destruct (om_live _ _ _ Hm k Hk). Qed.

Lemma others_dead : ended (overlay w D') -> dead (overlay w D').
Proof.
  intros He. destruct (view_cases root ended) as [([v Hw] & HeV & ED)|[Hw HeD]]; [done..| |].
  - (* the transaction has ended it *)
    destruct (se_dead _ (ot_settled _ _ _ _ Ht) HeV) as [Hs Hl]. split.
    + intros Hs'. apply Hs. by apply (about_spendable (overlay w D')); [rewrite !lookup_overlay, ED|].
    + intros k Hk. apply (Hl k), others_live; [|done].
      destruct (holds_changed t root _ Hw) as (m & Hh & Hm'). by eapply no_joining.
  - (* it is committed *)
    destruct (se_dead _ (om_settled _ _ _ Hm) HeD) as [Hs Hl]. split.
    + intros Hs'. apply Hs. by apply (about_spendable (overlay w D')); [rewrite lookup_overlay, Hw|].
    + intros k Hk. destruct (view_cases k (fun V => live V k)) as [(_ & Hk' & EDk)|[_ Hk']]; [done..| |by apply (Hl k)].
      destruct (ot_live _ _ _ _ Ht k Hk') as [HkD|Hj]; [apply (Hl k); by apply (about_live k D)|].
      apply joining_stays in Hj as (_ & _ & r' & Hr' & He'). destruct HeD as (r & Hr & He0).
      rewrite Hr' in Hr. injection Hr as <-. rewrite He' in He0. by destruct He0.
Qed.

Lemma others_over : over (overlay w D) -> over (overlay w D').
Proof.
  intros [[Hs Hl] Ho]. split; [split|].
  - intros Hs'. apply Hs. by apply (view_back root (spendable h)); [|apply (om_spendable _ _ _ Hm)|].
  - intros k Hk. apply (Hl k), others_live; [|done]. by intros Hj%joined_open.
  - intros Ho'. apply Ho. by apply (view_back root open); [|apply (om_open _ _ _ Hm)|].
Qed.

Lemma others_orderly : orderly_tx D' held t sn.
Proof.
  split; fold w.
  - split; [apply others_rooted|apply others_dead].
  - apply (committed_back root present); [done|apply (ot_present _ _ _ _ Ht)].
  - apply (committed_back root (spendable h)); [done|apply (ot_spendable _ _ _ _ Ht)].
  - apply (committed_back root open); [done|apply (ot_open _ _ _ _ Ht)].
  - intros k Hk. destruct (view_cases k (fun V => child V k)) as [(_ & Hk' & E)|[_ Hk']]; [done..| |by left].
    destruct (ot_child _ _ _ _ Ht k Hk') as [HkD|Hj]; [left; by apply (about_child k D)|right; by apply joining_stays].
  - intros k Hk. destruct (view_cases k (fun V => live V k)) as [(_ & Hk' & E)|[_ Hk']]; [done..| |by left].
    destruct (ot_live _ _ _ _ Ht k Hk') as [HkD|Hj]; [left; by apply (about_live k D)|right; by apply joining_stays].
  - apply (ot_locked _ _ _ _ Ht).
  - intros c m Hl Hwk. destruct (ot_locked _ _ _ _ Ht _ _ Hl) as [Hh Hne].
    rewrite (clear_stays t D D' _ m Hc (or_introl Hh) Hne). by eapply (ot_fact _ _ _ _ Ht).
  - apply (ot_share _ _ _ _ Ht).
  - intros f Hf Hff Hp. apply (ot_absent _ _ _ _ Ht f Hf Hff).
    by apply (view_back root present); [|apply (om_present _ _ _ Hm)|].
  - intros V0 E. destruct (ot_snap _ _ _ _ Ht V0 E) as [Hp Hch]. split.
    + intros Hp'. apply Hp. by apply (view_back root present); [|apply (om_present _ _ _ Hm)|].
    + intros Hsec k Hk. apply (Hch Hsec). revert Hk. apply (view_back k (fun V => child V k)); [done|]. intros Hk.
      destruct (om_child _ _ _ Hm k Hk) as [|Hj]; [done|]. exfalso. destruct Hsec as [(c & Hl & Hh)|(f & Hf & Hff)].
      * destruct (ot_locked _ _ _ _ Ht _ _ Hl) as [Hlk _]. rewrite (token_row_key c Hh) in Hlk.
        eapply (no_joining Update); [by left|by right|exact Hj].
      * apply (ot_absent _ _ _ _ Ht f Hf Hff). destruct (joined_open Hj) as (r1 & Hr1 & _). by exists r1.
  - intros Hsu. by apply others_over, (ot_over _ _ _ _ Ht).
  - apply (ot_begun _ _ _ _ Ht).
Qed.
End others.

(** *** Statements of a transaction *)

(** Nothing is written before a row is locked, nor the root once it is shared. *)
Lemma statement_writes {A} now seed (q : query A) V0 V l V' held :
  orderly true held q -> statement now seed q V0 V = (Good l, V') ->
  (held = [] -> V' = V) /\ (~ no_share held -> V' !! root = V !! root) /\ 
  (forall f, f ∈ gained q (Good l) -> (forall c, f <> Updated c) -> held = [] /\ V' = V).
Proof.
  revert l V'. induction q as [B A [b|] q IH|A T a|A T a set|A T a cond limit|A T cond set|A T cond|A T cond|A T cond cr|A T lk cond|A B T cond agg];
    intros l V' Hq Hs; cbn in Hq, Hs; try (injection Hs as _ <-; split_and!; [done|done|by intros f ?%not_elem_of_nil]).
  - by eapply IH.
  - destruct Hq as [Hne Hq]. split_and!; [by intros ->; destruct Hne|intros _|by intros f ?%not_elem_of_nil].
    destruct (insert_orderly True a V _ V' Hs) as [_ E]; [intros a' Ha; by destruct (Hq a' Ha)|done].
  - by destruct Hq.
  - destruct Hq as [Hne Hq]. split_and!; [by intros ->; destruct Hne|intros _|by intros f ?%not_elem_of_nil].
    destruct (column_in a) as [a'|] eqn:Ha; [|done]. destruct (_ <? limit); [|by injection Hs as _ <-].
    destruct (insert_orderly True a V _ V' Hs) as [_ E]; [intros a2 Ha2; rewrite Ha in Ha2; by destruct (Hq a2 Ha2)|done].
  - destruct Hq as [Hne _], (Hne eq_refl) as [Hne' Hsh]. split_and!; [by intros ->|by intros ?|].
    intros f ->%list_elem_of_singleton Hf. by destruct (Hf (on_row cond)).
  - destruct (Hq eq_refl) as [Hne' Hsh]. split_and!; [by intros ->|by intros ?|by intros f ?%not_elem_of_nil].
  - destruct Hq as [Hheld _]. injection Hs as _ <-. split_and!; [done|done|split; [by apply Hheld|done]].
Qed.

Lemma elem_of_matching {A} `{Table A} (cond : A -> bool) seed V y :
  y ∈ matching cond seed V <-> cond y = true /\ exists k r, V !! k = Some r /\ prj r = Some y.
Proof.
  rewrite matching_elem, (and_comm (cond y = true)). unfold rows. rewrite list_elem_of_omap.
  apply and_iff_compat_r. split.
  - intros (r & [[k r'] [-> Hr]]%list_elem_of_fmap & Hy). apply elem_of_map_to_list in Hr. eauto.
  - intros (k & r & Hr & Hy). exists r. split; [|done]. apply list_elem_of_fmap. exists (k, r).
    by rewrite elem_of_map_to_list.
Qed.

(** What it locks is there, as it says; what it misses is not. *)
Lemma gained_token {A} now seed (q : query A) V0 V l V' held c m :
  orderly true held q -> statement now seed q V0 V = (Good l, V') -> keyed V ->
  Locked (RToken c) m ∈ gained q (Good l) -> V !! key_of (RToken c) = Some (RToken c).
Proof.
  revert l V'. induction q as [B A [b|] q IH|A T a|A T a set|A T a cond limit|A T cond set|A T cond|A T cond|A T cond cr|A T lk cond|A B T cond agg];
    intros l V' Hq Hs HV Hl; cbn in Hq, Hs, Hl; try (by apply not_elem_of_nil in Hl); try (by apply list_elem_of_singleton in Hl).
  - by eapply IH.
  - injection Hs as Hs _. assert (Locked (RToken c) m ∈ (fun a => Locked (inj a) (mode_of lk)) <$> l) as Hin.
    { destruct l; [by apply list_elem_of_singleton in Hl|exact Hl]. }
    apply list_elem_of_fmap in Hin as (y & [= E ->] & Hy). subst l.
    apply elem_of_matching in Hy as (_ & k & r0 & Hk & Hy). destruct Hq as [_ Hinj].
    rewrite (Hinj _ _ Hy), <- E in Hk. by rewrite <- (HV _ _ Hk : k = key_of (RToken c)).
Qed.
Lemma gained_mode {A} (q : query A) x r m : Locked r m ∈ gained q x -> m <> KeyShare.
Proof.
  induction q as [B A [b|] q IH| | | | | | | |A T lk cond|]; cbn; try by intros ?%not_elem_of_nil.
  - apply IH.
  - by destruct x; [intros ?%list_elem_of_singleton|intros ?%not_elem_of_nil].
  - destruct x as [[|y l]|e]; [by intros ?%list_elem_of_singleton| |by intros ?%not_elem_of_nil].
    intros (z & [= _ ->] & _)%list_elem_of_fmap. by destruct lk.
Qed.
Lemma gained_absent {A} now seed (q : query A) V0 V l V' held f :
  orderly true held q -> statement now seed q V0 V = (Good l, V') -> keyed V ->
  (present V -> exists t0, V0 !! root = Some (RToken t0) /\ rt_Hash t0 = h) ->
  Absent f ∈ gained q (Good l) -> (forall t, rt_Hash t = h -> f (RToken t) = true) -> ~ present V.
Proof.
  revert l V'. induction q as [B A [b|] q IH|A T a|A T a set|A T a cond limit|A T cond set|A T cond|A T cond|A T cond cr|A T lk cond|A B T cond agg];
    intros l V' Hq Hs HV Hsn Hl Hf Hp; cbn in Hq, Hs, Hl; try (by apply not_elem_of_nil in Hl); try (by apply list_elem_of_singleton in Hl).
  - by eapply IH.
  - destruct l as [|y l]; [apply list_elem_of_singleton in Hl as [= ->]|by apply list_elem_of_fmap in Hl as (? & [=] & _)].
    destruct (Hsn Hp) as (t0 & Ht0 & Hh0), Hp as (t & Ht), Hq as [_ Hinj].
    assert (rt_Hash t = h) as Hh by (by injection (HV _ _ Ht)).
    pose proof (Hf t Hh) as Hc. unfold on_row in Hc. destruct (prj (RToken t)) as [y|] eqn:Ep; [|done].
    injection Hs as Hs _. assert (y ∈ []) as []%not_elem_of_nil. rewrite <- Hs. apply elem_of_matching. split; [|eauto].
    unfold both. by rewrite Hc, <- (Hinj _ _ Ep), (token_row_key _ Hh), Ht0, (Hf t0 Hh0).
Qed.

Lemma informed_tx D held t V0 : orderly_tx D held t (Some V0) -> informed held V0 (overlay (t_changes t) D).
Proof. intros Ht. destruct (ot_snap _ _ _ _ Ht V0 eq_refl) as [Hp Hc]. split; [done..|apply (ot_absent _ _ _ _ Ht)]. Qed.

Section step.
Context {A : Type} (now : time) (seed : nat) (q : query A) (V0 D : rowset) (held : list fact) (t : txn).
Context (l : list A) (V' : rowset).
Let V := overlay (t_changes t) D.
Let t' := after q V0 V V' t.
Context (Ht : orderly_tx D held t (Some V0)) (Hq : orderly true held q) (Hs : statement now seed q V0 V = (Good l, V')).

Lemma step_writes k : t_changes t' !! k = None <-> t_changes t !! k = None /\ V' !! k = V !! k.
Proof.
  unfold t'. cbn. rewrite lookup_union_None, lookup_changed. fold V.
  destruct (decide _) as [E|E]; split; intros [? ?]; done || congruence.
Qed.
Lemma step_first f : f ∈ gained q (Good l) -> (forall c, f <> Updated c) -> held = [] /\ V' = V /\ V = D /\ t_changes t' = ∅.
Proof.
  intros Hf Hg. destruct (statement_writes _ _ _ _ _ _ _ _ Hq Hs) as (_ & _ & Hw). destruct (Hw f Hf Hg) as [Hh HV].
  split_and!; [done|done|unfold V; by rewrite (ot_begun _ _ _ _ Ht Hh), overlay_empty|].
  apply map_eq. intros k. rewrite lookup_empty. apply step_writes. by rewrite HV, (ot_begun _ _ _ _ Ht Hh).
Qed.

(** Who shares an open root is joining. *)
Lemma sharing_joins : (exists c, Locked (RToken c) Share ∈ held /\ rt_Hash c = h) -> open D -> joining (gained q (Good l) ++ held) t' D.
Proof.
  intros (c & Hc & Hh) Ho. split_and!; [exists c; split; [apply elem_of_app; by right|done]| |done].
  apply step_writes. split; [by eapply (ot_share _ _ _ _ Ht)|].
  apply (statement_writes _ _ _ _ _ _ _ _ Hq Hs). intros Hno. by apply (Hno (RToken c)).
Qed.
Lemma shares_open : shares held -> open D /\ open V /\ exists c, Locked (RToken c) Share ∈ held /\ rt_Hash c = h.
Proof.
  intros (c & Hc & Hh & He). pose proof (ot_share _ _ _ _ Ht c Hc Hh) as Hw.
  assert (D !! root = Some (RToken c)) as HD.
  { rewrite <- (token_row_key c Hh) in Hw |- *. by eapply (ot_fact _ _ _ _ Ht). }
  split_and!; [by exists c|exists c; split; [unfold V; by rewrite lookup_overlay, Hw|done]|by exists c].
Qed.

Lemma step_settled : settled V'.
Proof.
  destruct (ot_settled _ _ _ _ Ht) as [Hr Hd]. fold V in Hr, Hd.
  pose proof (statement_orderly _ _ _ _ _ _ _ _ _ Hq Hs) as Hoc. split; [by apply (oc_rooted _ _ _ Hoc)|].
  intros He. destruct (statement_end _ _ _ _ _ _ _ _ _ Hq Hs Hr (informed_tx _ _ _ _ Ht) He) as [HeV|]; [|done].
  destruct (Hd HeV) as [Hsp Hl]. split; [intros Hsp'; by apply Hsp, (oc_spendable _ _ _ Hoc)|].
  intros k Hk. destruct (oc_live _ _ _ Hoc k Hk) as [Hk'|[[_ Hsh] _]]; [by apply (Hl k)|].
  destruct (shares_open Hsh) as (_ & (c & Hc & Hn) & _), HeV as (c' & Hc' & [z Hz]).
  rewrite Hc in Hc'. injection Hc' as <-. by rewrite Hn in Hz.
Qed.

Lemma step_joins (P P' : rowset -> rowkey -> Prop) k :
  (P' V k -> P D k \/ joining held t D) -> (P' V' k -> P' V k \/ (true = true /\ shares held) /\ V' !! root = V !! root) ->
  P' V' k -> P D k \/ joining (gained q (Good l) ++ held) t' D.
Proof.
  intros Hold Hnew Hk. destruct (Hnew Hk) as [Hk'|[[_ Hsh] _]].
  - destruct (Hold Hk') as [|(Hsh & _ & Ho)]; [by left|right]. by apply sharing_joins.
  - destruct (shares_open Hsh) as (Ho & _ & Hc). right. by apply sharing_joins.
Qed.

Lemma step_orderly :
  (forall r m, Locked r m ∈ gained q (Good l) -> (key_of r, m) ∈ t_locks t') ->
  orderly_tx D (gained q (Good l) ++ held) t' None.
Proof.
  intros Hlocks. pose proof (statement_orderly _ _ _ _ _ _ _ _ _ Hq Hs) as Hoc.
  pose proof (se_rooted _ (ot_settled _ _ _ _ Ht)) as [HV _]. fold V in HV.
  assert (overlay (t_changes t') D = V') as EV by apply overlay_changed.
  split; rewrite ?EV.
  - apply step_settled.
  - intros Hp. by apply (ot_present _ _ _ _ Ht), (oc_present _ _ _ Hoc).
  - intros Hp. by apply (ot_spendable _ _ _ _ Ht), (oc_spendable _ _ _ Hoc).
  - intros Hp. by apply (ot_open _ _ _ _ Ht), (oc_open _ _ _ Hoc).
  - intros k. apply (step_joins child child); [apply (ot_child _ _ _ _ Ht)|apply (oc_child _ _ _ Hoc)].
  - intros k. apply (step_joins live live); [apply (ot_live _ _ _ _ Ht)|apply (oc_live _ _ _ Hoc)].
  - intros r0 m [Hl|Hl]%elem_of_app; [split; [by apply Hlocks|by eapply gained_mode]|].
    destruct (ot_locked _ _ _ _ Ht _ _ Hl) as [Hk Hm]. split; [by apply after_keeps|done].
  - intros c m [Hl|Hl]%elem_of_app Hw.
    + destruct (step_first _ Hl) as (_ & _ & E & _); [done|]. rewrite <- E. exact (gained_token _ _ _ _ _ _ _ _ _ _ Hq Hs HV Hl).
    + apply step_writes in Hw as [Hw _]. by eapply (ot_fact _ _ _ _ Ht).
  - intros c [Hl|Hl]%elem_of_app Hh.
    + destruct (step_first _ Hl) as (_ & _ & _ & ->); [done|]. apply lookup_empty.
    + apply step_writes. split; [by eapply (ot_share _ _ _ _ Ht)|].
      apply (statement_writes _ _ _ _ _ _ _ _ Hq Hs). intros Hno. by apply (Hno (RToken c)).
  - intros f [Hl|Hl]%elem_of_app Hf.
    + destruct (step_first _ Hl) as (_ & E & _); [done|]. rewrite E. eapply gained_absent; [eassumption..| |exact Hl|done].
      by apply (ot_snap _ _ _ _ Ht).
    + intros Hp. apply (ot_absent _ _ _ _ Ht f Hl Hf). by apply (oc_present _ _ _ Hoc).
  - done.
  - intros [Hsu|Hsu]%sure_app.
    + by eapply (statement_over _ _ _ _ _ _ _ _ _ Hq Hs (se_rooted _ (ot_settled _ _ _ _ Ht)) (informed_tx _ _ _ _ Ht)).
    + apply (over_stays _ _ _ Hoc); [|by apply (ot_over _ _ _ _ Ht)]. intros [_ Hsh]. by apply shares_open.
  - intros [Hg Hh]%app_nil. apply map_eq. intros k. rewrite lookup_empty. apply step_writes.
    rewrite (ot_begun _ _ _ _ Ht Hh). split; [done|]. by rewrite (proj1 (statement_writes _ _ _ _ _ _ _ _ Hq Hs) Hh).
Qed.
End step.

Lemma informed_nil V0 V : informed [] V0 V.
Proof.
  assert (~ secured []) as Hn by (intros [(? & ?%not_elem_of_nil & _)|(? & ?%not_elem_of_nil & _)]; done).
  by split; [intros ?|intros ?|intros ? ?%not_elem_of_nil].
Qed.

Lemma auto_settled {A} now seed (q : query A) V0 D x D' :
  settled D -> orderly false [] q -> statement now seed q V0 D = (x, D') -> settled D'.
Proof.
  intros [Hr Hd] Hq Hs. pose proof (statement_orderly _ _ _ _ _ _ _ _ _ Hq Hs) as Hoc.
  split; [by apply (oc_rooted _ _ _ Hoc)|]. intros He.
  destruct (statement_end _ _ _ _ _ _ _ _ _ Hq Hs Hr (informed_nil _ _) He) as [HeV|]; [|done].
  destruct (Hd HeV) as [Hsp Hl]. split; [intros Hsp'; by apply Hsp, (oc_spendable _ _ _ Hoc)|].
  intros k Hk. destruct (oc_live _ _ _ Hoc k Hk) as [Hk'|[[[=] _] _]]. by apply (Hl k).
Qed.

(** A commit as the others see it. *)
Lemma commit_orderly D held t t0 : settled D -> orderly_tx D held t None -> compatible t0 t ->
  orderly_commit t0 D (overlay (t_changes t) D).
Proof.
  intros HD Ht Hcompat.
  assert (joining held t D -> joined_clear t0 D (overlay (t_changes t) D)) as Hj.
  { intros ((c & Hl & Hh) & Hw & Ho). split_and!; [done|by rewrite lookup_overlay, Hw|].
    intros m Hm. rewrite conflicting_sym. apply (Hcompat _ _ _ Hm). left. rewrite <- (token_row_key c Hh).
    by apply (ot_locked _ _ _ _ Ht). }
  split; try apply Ht; intros k Hk.
  - destruct (ot_child _ _ _ _ Ht k Hk); auto.
  - destruct (ot_live _ _ _ _ Ht k Hk); auto.
Qed.
Lemma auto_orderly {A} now seed (q : query A) V0 D x D' t :
  settled D -> orderly false [] q -> statement now seed q V0 D = (x, D') -> orderly_commit t D D'.
Proof.
  intros HD Hq Hs. pose proof (statement_orderly _ _ _ _ _ _ _ _ _ Hq Hs) as Hoc.
  split; [by eapply auto_settled|apply Hoc..| |]; intros k Hk.
  - destruct (oc_child _ _ _ Hoc k Hk) as [|[[[=] _] _]]. by left.
  - destruct (oc_live _ _ _ Hoc k Hk) as [|[[[=] _] _]]. by left.
Qed.

(** What is known for good: a family that was updated is over. *)
Definition known_over (D : rowset) (known : list fact) : Prop := sure known -> over D.

Lemma session_end_rule : rule (fun A => @orderly A) settled known_over orderly_tx.
Proof.
  split.
  - intros A q now seed V0 D x D'. apply auto_settled.
  - intros D HD. split; cbn [t_changes t_locks]; rewrite ?overlay_empty; auto; try (by intros ? ? ?%not_elem_of_nil);
      [by intros ? ?%not_elem_of_nil|done|by intros (? & ?%not_elem_of_nil & _)].
  - intros D held t [Hset Hpr Hsp Hop Hch Hli Hlo Hfa Hsh Hab _ Hov Hbe]. split; [done..| |done|done]. intros V0 [= <-].
    split; [|auto]. intros (c & Hc). exists c. split; [done|]. by injection (proj1 (se_rooted _ Hset) _ _ Hc).
  - intros A q now seed V0 D held t l V' V HD Ht Hq Hs. by eapply step_orderly.
  - intros D held t HD Ht. apply (ot_settled _ _ _ _ Ht).
  - intros A q now seed V0 D x D' held t sn HD Hq Hs Hc Ht. eapply others_orderly; [exact Ht|exact Hc|by eapply auto_orderly].
  - intros D held t sn held' t' HD Ht Ht' Hcompat. eapply others_orderly; [exact Ht| |by eapply commit_orderly].
    apply compatible_clear. intros k m m' Hh Hh'. rewrite conflicting_sym. by eapply Hcompat.
  - by intros D HD (? & ?%not_elem_of_nil & _).
  - intros D held t HD Ht Hsu%sure_lasting. by apply (ot_over _ _ _ _ Ht).
  - intros A q now seed V0 D x D' known HD Hq Hs Hk Hsu.
    apply (over_stays _ _ _ (statement_orderly _ _ _ _ _ _ _ _ _ Hq Hs)); [by intros [[=] _]|by apply Hk].
  - intros D held t known HD Ht Hk Hsu. destruct (Hk Hsu) as [[Hs Hl] Ho]. split; [split|].
    + intros Hs'. by apply Hs, (ot_spendable _ _ _ _ Ht).
    + intros k Hk'. destruct (ot_live _ _ _ _ Ht k Hk') as [|(_ & _ & Ho')]; [by apply (Hl k)|done].
    + intros Ho'. by apply Ho, (ot_open _ _ _ _ Ht).
Qed.

(** ** The store's programs *)

(** Tokens saved have another hash, and a family has a name. *)
Definition fits (c : store_call) : Prop :=
  saves_another h c /\ match c_call c with RevokeTokens g => g <> "" | _ => True end.

Lemma token_column t t' : column_in t = Some t' -> rt_Hash t' = rt_Hash t /\ rt_Parent t' = rt_Parent t.
Proof.
  unfold column_in. cbn. intros E. repeat (apply bind_Some in E as (? & ? & E)); simplify_eq/=.
  by split; match goal with |- ?x = ?y => match goal with E : text_in _ y = Some x |- _ => destruct (text_kept (Some 255%nat) y) as [E'|E']; rewrite E' in E; by simplify_eq end end.
Qed.
Lemma text_same n s s' : text_in n s = Some s' -> s' = s.
Proof. destruct (text_kept n s) as [-> | ->]; by intros [= ->]. Qed.

Lemma no_share_locked {A} `{Table A} m (l : list A) : m <> Share -> no_share (((fun a => Locked (inj a) m) <$> l) ++ []).
Proof. intros Hm r Hr. rewrite app_nil_r in Hr. by apply list_elem_of_fmap in Hr as (? & [= _ <-] & _). Qed.

(** A token that is saved: of another hash, and of the family only when its root
    is held. *)
Lemma saved_orderly token created a' (intx : bool) held :
  saves_another h (mkCall _ (SaveRefreshToken token)) ->
  column_in (mkRefreshToken (rt_Hash token) (rt_UserID token) (rt_Parent token) (rt_ExpiresAt token) created
               (rt_Revoked token) None None) = Some a' ->
  (rt_Parent token = h -> intx = true /\ shares held) ->
  key_of (inj a') <> root /\ forall c, inj a' = RToken c -> rt_Parent c = h -> intx = true /\ shares held.
Proof.
  intros Hs Ha Hp. pose proof (token_column_hash _ _ Ha) as Hh. apply token_column in Ha as [_ Epar]. cbn in *. split.
  - unfold saves_another in Hs. cbn in Hs. unfold key_of, token_key. cbn. intros [= E]. congruence.
  - intros c [= <-] E. apply Hp. congruence.
Qed.

Lemma SaveRefreshToken_orderly token : h <> "" -> saves_another h (mkCall _ (SaveRefreshToken token)) ->
  guarded (fun A => @orderly A) any_answer false [] (pg_SaveRefreshToken token).
Proof.
  intros Hne Hs. unfold pg_SaveRefreshToken. cbn. intros now. destruct (strEq (rt_Parent token) "") eqn:Epar; cbn.
  - split; [|done]. split; [done|]. intros a' Ha. eapply saved_orderly; [exact Hs|exact Ha|].
    apply strEq_true in Epar. by intros E; destruct Hne; rewrite <- E.
  - split; [done|]. split; [|done]. destruct (text_in None (rt_Parent token)) as [p|] eqn:Ep; cbn.
    + apply text_same in Ep as ->. split; [by split; [|intros [] ? [= ->]]|].
      intros [[|c l]|e] Hpl; cbn; [done| |by case_match]. destruct (rt_EndedAt c) as [z|] eqn:Ec; cbn; [done|].
      split; [|by intros [n|e] _; cbn]. split; [done|]. intros a' Ha. eapply saved_orderly; [exact Hs|exact Ha|].
      intros E. split; [done|]. exists c. apply Forall_cons in Hpl as [Hc%strEq_true _]. cbn. split_and!; [by left|congruence|done].
    + split; [done|]. intros [l|e] Hpl; cbn; [done|by case_match].
Qed.

Definition promised (known : list fact) (a : answer) : Prop :=
  match a with
  | Answer c x =>
      match c in storeE A return A -> Prop with
      | RevokeTokens g => fun x => match x with Ok _ => g = h -> sure known | Err _ => True end
      | _ => fun _ => True
      end x
  end.

Lemma family_condition c : of_family c -> strEq (rt_Hash c) h || strEq (rt_Parent c) h = true.
Proof. intros [Hc|Hc]; by rewrite Hc, strEq_refl, ?orb_true_r. Qed.

(** A token of the family: the root as it is saved, revoked. *)
Definition a_root : RefreshToken := mkRefreshToken h "" "" 0 0 true None None.

Lemma RevokeTokens_orderly g : g <> "" ->
  guarded (fun A => @orderly A) (fun known x => promised known (Answer (RevokeTokens g) x)) false [] (pg_RevokeTokens g).
Proof.
  intros Hne. unfold pg_RevokeTokens. cbn. split; [done|]. split; [|done].
  destruct (text_in None g) as [g'|] eqn:Eg; cbn.
  2: by split; [done|]; intros [l|e] Hpl; cbn.
  apply text_same in Eg as ->. split; [by split; [|intros [] ? [= ->]]|]. intros [l|e] Hpl; cbn; [|done]. split; [split_and!|].
  - intros _. split; [by destruct l|]. destruct l as [|c l]; [by intros ? ?%list_elem_of_singleton|].
    exact (no_share_locked (A := RefreshToken) Update (c :: l) ltac:(done)).
  - intros now [] y [= ->]. cbn. intros t' [= <-]. eexists. split_and!; try done. cbn. by case_match.
  - destruct (decide (g = h)) as [->|Hgh]; [right|left; split].
    + split_and!; [done| |split_and!].
      * destruct l as [|c l]; [right|left].
        -- eexists. split; [by left|]. intros t <-. unfold on_row. cbn. apply strEq_refl.
        -- exists c. apply Forall_cons in Hpl as [Hc%strEq_true _]. split; [by left|done].
      * apply family_condition.
      * intros now [] y t' [= ->] [= <-]. cbn. by case_match.
      * by intros [] y [= ->].
    + exists a_root. split; [by left|]. unfold on_row. cbn. by rewrite orb_false_iff, !strEq_false.
    + intros now [] y t' [= ->] Hc [= <-] Hh Hp. cbn in *. apply orb_true_iff in Hc as [Hc|Hc]; apply strEq_true in Hc; congruence.
  - intros [n|e] _; cbn; [|done]. split; [|done]. split; [done|]. intros ->. eexists. split; [by left|].
    apply family_condition.
Qed.

Lemma programs_orderly c : h <> "" -> fits c -> guarded (fun A => @orderly A) promised false [] (session_of c).
Proof.
  intros Hne [Hs Hg]. apply guarded_map. destruct c as [A c]. cbn in *.
  destruct c; try (by apply SaveRefreshToken_orderly); try (by apply RevokeTokens_orderly); clear Hs Hg;
    try (unfold pg_program, pg_GetByEmail; destruct (strEq email "")); program.
  - match goal with E : Some _ = Some _ |- _ => injection E as -> end. intros t' [= <-]. eexists. by split_and!.
  - left. split; [exists a_root; split; [by left|]; unfold on_row; cbn; by rewrite andb_false_r|].
    intros n [] y t' [= ->] _ [= <-] _ _. by eexists.
  - match goal with E : Some _ = Some _ |- _ => by injection E as -> end.
  - match goal with |- no_share (_ :: (_ <$> ?l) ++ []) =>
      match goal with |- context [RUser ?u] => exact (no_share_locked (A := users_row) NoKeyUpdate (u :: l) ltac:(done)) end end.
  - left. split; [exists a_root; split; [by left|done]|]. by intros n [] y t' [= ->] _ [=].
Qed.

(** ** The session *)

(** The tokens of the session that began with this one. *)
Definition family (D : rowset) : list RefreshToken :=
  filter (fun t => strEq (rt_Hash t) h || strEq (rt_Parent t) h = true) (rows D).
Definition is_root (t : RefreshToken) : Prop := rt_Hash t = h.

(** The root, if it is there, has no parent. *)
Definition rooted (D : rowset) : Prop := Forall (fun t => is_root t -> rt_Parent t = "") (family D).
(** When the root has ended, all are revoked. *)
Definition ended_revoked (l : list RefreshToken) : Prop :=
  Exists (fun t => is_root t /\ rt_EndedAt t <> None) l -> Forall (fun t => rt_Revoked t = true) l.

Lemma elem_of_family D t : t ∈ family D <-> of_family t /\ exists k, D !! k = Some (RToken t).
Proof.
  unfold family. rewrite list_elem_of_filter, (elem_of_rows D t). apply and_iff_compat_r.
  unfold of_family. by rewrite orb_true_iff, !strEq_true.
Qed.

Lemma family_dead D : keyed D -> dead D <-> Forall (fun t => rt_Revoked t = true) (family D).
Proof.
  intros HD. rewrite Forall_forall. split.
  - intros [Hs Hl] t [[Hh|Hp] [k Hk]]%elem_of_family; apply not_false_is_true; intros Hr.
    + apply Hs. exists t. split; [|done]. unfold token_key. rewrite <- Hh. by rewrite <- (HD _ _ Hk).
    + apply (Hl k). by exists t.
  - intros Hall. split.
    + intros (t & Ht & Hr). rewrite Hall in Hr; [done|]. apply elem_of_family. split; [left; by injection (HD _ _ Ht)|eauto].
    + intros k (t & Ht & Hp & Hr). rewrite Hall in Hr; [done|]. apply elem_of_family. split; [by right|eauto].
Qed.
Lemma family_root D t : keyed D -> D !! root = Some (RToken t) <-> t ∈ family D /\ is_root t.
Proof.
  intros HD. rewrite elem_of_family. split.
  - intros Ht. assert (rt_Hash t = h) by (by injection (HD _ _ Ht)). split; [|done]. split; [by left|eauto].
  - intros [[_ [k Hk]] Hr]. unfold token_key. rewrite <- Hr. by rewrite <- (HD _ _ Hk).
Qed.
Lemma family_ended D : keyed D -> ended D <-> Exists (fun t => is_root t /\ rt_EndedAt t <> None) (family D).
Proof.
  intros HD. rewrite Exists_exists. unfold ended. split.
  - intros (t & Ht%family_root & He); [|done]. exists t. rewrite <- not_eq_None_Some in He. tauto.
  - intros (t & Ht & Hr & He). exists t. rewrite family_root by done. by rewrite <- not_eq_None_Some.
Qed.

Lemma family_settled D : settled D -> ended_revoked (family D).
Proof. intros [[HD _] Hd]. unfold ended_revoked. rewrite <- family_ended, <- family_dead by done. done. Qed.

Lemma sessions_governed D cs M :
  h <> "" -> pg_inv D -> rooted D -> ended_revoked (family D) -> Forall fits cs -> reachable D (session_of <$> cs) M ->
  governed (fun A => @orderly A) settled known_over orderly_tx promised M.
Proof.
  intros Hne HD Hroot Hend Hcs HM. assert (keyed D) as Hk by (intros k t Hk; by rewrite <- (pi_keys _ HD _ _ Hk)).
  eapply reachable_governed; [apply session_end_rule| | |exact HM].
  - split.
    + split; [done|]. intros t [Ht Hr]%family_root; [|done].
      exact (proj1 (Forall_forall _ _) Hroot t Ht Hr).
    + rewrite family_ended, family_dead by done. exact Hend.
  - apply Forall_fmap. eapply Forall_impl; [exact Hcs|]. intros c. by apply programs_orderly.
Qed.

(** C5. However calls of the store run at the same time, once the root of a
    session has ended no token of the session is live, in any state that is
    committed: a successor is saved with the root locked against its end, and a
    revocation looks for successors after it has locked the root. *)
Theorem ended_session_concurrent D cs M :
  h <> "" -> pg_inv D -> rooted D -> ended_revoked (family D) -> Forall fits cs -> reachable D (session_of <$> cs) M ->
  ended_revoked (family (m_tables M)).
Proof.
  intros Hne HD Hroot Hend Hcs HM. apply family_settled.
  exact (gv_inv _ _ _ _ _ _ (sessions_governed D cs M Hne HD Hroot Hend Hcs HM)).
Qed.

(** C4. When a revocation of a session has answered without error, then and ever
    after every token of the session is revoked and its root, if it is there, has
    ended, whatever other calls ran with it or run on: rotations, successors
    saved, failures of statements and commits. *)
Theorem revocation_concurrent D cs M i s :
  h <> "" -> pg_inv D -> rooted D -> ended_revoked (family D) -> Forall fits cs -> reachable D (session_of <$> cs) M ->
  m_sessions M !! i = Some s -> s_prog s = Done (Answer (RevokeTokens h) (Ok tt)) ->
  Forall (fun t => rt_Revoked t = true /\ (is_root t -> rt_EndedAt t <> None)) (family (m_tables M)).
Proof.
  intros Hne HD Hroot Hend Hcs HM Hs Ha. pose proof (sessions_governed D cs M Hne HD Hroot Hend Hcs HM) as Hg.
  destruct (governed_finish _ _ _ _ _ _ _ _ _ Hg Hs Ha) as (known & Hp & Hk). destruct (Hk (Hp eq_refl)) as [Hd Ho].
  pose proof (proj1 (se_rooted _ (gv_inv _ _ _ _ _ _ Hg))) as HK. apply family_dead in Hd; [|done].
  rewrite Forall_forall in Hd |- *. intros t Ht. split; [by apply Hd|]. intros Hr He. apply Ho. exists t.
  by rewrite family_root.
Qed.
End session_end.
