(* ===== verification/Schedules.v ===== *)
(** * Schedules: runs of the concurrent machine that evaluate

    A scheduler for the machine of ReadCommitted.v: it gives a turn to one session
    after the other, and a session that has to wait for a lock stays where it is.
    Every schedule is a run of the machine; with it the theorems on concurrent
    calls are seen at work where calls overlap. *)

From S2P Require Import Prelude GoTime Errors Entity Ports Contract Sql Postgres PostgresFacts PostgresTheorems.
From S2P Require Import ReadCommitted Isolation SessionEnd.

Section scheduler.
Context `{PgTypes, ScanOrder}.

(** ** Locks, listed *)

Definition write_locks (w : gmap rowkey (option row)) : list (rowkey * lockmode) :=
  (fun kv => (kv.1, match kv.2 with Some _ => NoKeyUpdate | None => Update end)) <$> map_to_list w.
Definition all_locks (t : txn) : list (rowkey * lockmode) := t_locks t ++ write_locks (t_changes t).
Definition wanted {A} (q : query A) (V0 V V' : rowset) : list (rowkey * lockmode) :=
  row_locks q V0 V ++ reference_locks V V' ++ write_locks (changed V V').

Lemma elem_of_write_locks w k m : write_lock w k m <-> (k, m) ∈ write_locks w.
Proof.
  unfold write_lock, write_locks. rewrite list_elem_of_fmap. split.
  - intros Hw. destruct (w !! k) as [v|] eqn:E; [|done]. exists (k, v). rewrite elem_of_map_to_list.
    by destruct v; rewrite Hw.
  - intros ([k' v] & [= -> ->] & E%elem_of_map_to_list). rewrite E. by destruct v.
Qed.

Lemma elem_of_all_locks t k m : holds t k m <-> (k, m) ∈ all_locks t.
Proof. unfold holds, all_locks. by rewrite elem_of_app, elem_of_write_locks. Qed.
Lemma elem_of_wanted {A} (q : query A) V0 V V' k m : wants q V0 V V' k m <-> (k, m) ∈ wanted q V0 V V'.
Proof. unfold wants, wanted. by rewrite !elem_of_app, elem_of_write_locks. Qed.

(** The rows about to be inserted. *)
Definition new_rows (V V' : rowset) : list row :=
  omap (fun kv => match V !! kv.1 with Some _ => None | None => Some kv.2 end) (map_to_list V').
Definition written_rows (t : txn) : list row := omap snd (map_to_list (t_changes t)).

Definition lets_through {A} (q : query A) (V0 V V' : rowset) (t : txn) : bool :=
  forallb (fun l => forallb (fun l' => negb (bool_decide (l.1 = l'.1) && conflicting l.2 l'.2)) (all_locks t))
    (wanted q V0 V V') &&
  forallb (fun r => forallb (fun r' => negb (conflicts r r')) (written_rows t)) (new_rows V V').

Lemma forallb_elem {A} (f : A -> bool) l x : forallb f l = true -> x ∈ l -> f x = true.
Proof. rewrite forallb_forall. intros Hf Hx. by apply Hf, list_elem_of_In. Qed.

Lemma lets_through_admitted {A} (q : query A) V0 V V' ts (oth : txn -> Prop) :
  (forall t, oth t -> t ∈ ts) -> forallb (lets_through q V0 V V') ts = true -> admitted oth q V0 V V'.
Proof.
  intros Hts Hall t Ht%Hts. apply (forallb_elem _ _ _ Hall) in Ht. unfold lets_through in Ht.
  apply andb_true_iff in Ht as [Hl Hr]. split.
  - intros k m m' Hw%elem_of_wanted Hh%elem_of_all_locks.
    pose proof (forallb_elem _ _ _ (forallb_elem _ _ _ Hl Hw) Hh) as Hc. cbn in Hc.
    rewrite bool_decide_eq_true_2 in Hc by done. by apply negb_true_iff in Hc.
  - intros k r k' r' Hk Hk' Ht. apply negb_true_iff.
    assert (r ∈ new_rows V V') as Hin.
    { unfold new_rows. apply list_elem_of_omap. exists (k, r). rewrite elem_of_map_to_list. cbn. by rewrite Hk. }
    assert (r' ∈ written_rows t) as Hin'.
    { unfold written_rows. apply list_elem_of_omap. exists (k', Some r'). by rewrite elem_of_map_to_list. }
    exact (forallb_elem _ _ _ (forallb_elem _ _ _ Hr Hin) Hin').
Qed.

(** ** A turn *)

Context {X : Type} (now : time) (seed : nat).

(** The next move of a session that no failure meets; none while it waits. *)
Definition query_turn {A : Type} (ts : list txn) (D : rowset) (q : query A) (k : dbres (list A) -> sqlprog X) (st : sstate)
    (sn : option rowset) : option (rowset * session X) :=
  match sn, st with
  | None, _ => Some (D, mkSession (Send (Query q) k) st (Some (view_of st D)))
  | Some V0, Auto =>
      let '(x, D') := statement now seed q V0 D in
      if forallb (lets_through q V0 D D') ts then Some (D', mkSession (k x) Auto None) else None
  | Some V0, In t =>
      let V := overlay (t_changes t) D in
      match statement now seed q V0 V with
      | (Good l, V') =>
          if forallb (lets_through q V0 V V') ts
          then Some (D, mkSession (k (Good l)) (In (after q V0 V V' t)) None) else None
      | (Bad e, _) => Some (D, mkSession (k (Bad e)) Broken None)
      end
  | Some _, Broken => Some (D, mkSession (k (Bad (PgError in_failed_transaction))) Broken None)
  end.

Definition turn (ts : list txn) (D : rowset) (s : session X) : option (rowset * session X) :=
  match s_prog s, s_state s, s_snapshot s with
  | Done _, _, _ => None
  | Send e k, st, sn =>
      match e in sqlE Y return (Y -> sqlprog X) -> option (rowset * session X) with
      | Query q => fun k => query_turn ts D q k st sn
      | BeginTx => fun k =>
          match st, sn with Auto, None => Some (D, mkSession (k (Good tt)) (In (mkTxn ∅ [])) None) | _, _ => None end
      | CommitTx => fun k =>
          match st, sn with
          | In t, None => Some (overlay (t_changes t) D, mkSession (k (Good tt)) Auto None)
          | _, None => Some (D, mkSession (k (Bad (ConnError "commit unexpectedly resulted in rollback"))) Auto None)
          | _, Some _ => None
          end
      | RollbackTx => fun k => match sn with None => Some (D, mkSession (k tt) Auto None) | Some _ => None end
      | ClientNow => fun k => match sn with None => Some (D, mkSession (k now) st None) | Some _ => None end
      end k
  end.

Lemma turn_moves ts D s D' s' (oth : txn -> Prop) :
  (forall t, oth t -> t ∈ ts) -> turn ts D s = Some (D', s') -> moves oth D s D' s'.
Proof.
  intros Hts. destruct s as [[a|Y e k] st sn]; [done|]. unfold turn. cbn. destruct e as [A q| | | |].
  - unfold query_turn. destruct sn as [V0|]; [|intros [= <- <-]; constructor]. destruct st as [|t|].
    + destruct (statement now seed q V0 D) as [x D2] eqn:Es. destruct (forallb _ ts) eqn:Ea; [|done]. intros [= <- <-].
      econstructor; [exact Es|by eapply lets_through_admitted].
    + destruct (statement now seed q V0 (overlay (t_changes t) D)) as [[l|e] V'] eqn:Es.
      * destruct (forallb _ ts) eqn:Ea; [|done]. intros [= <- <-].
        econstructor; [exact Es|by eapply lets_through_admitted].
      * intros [= <- <-]. apply (mv_fail _ _ q k (In t)).
    + intros [= <- <-]. apply (mv_fail _ _ q k Broken).
  - destruct st, sn; try done. intros [= <- <-]. constructor.
  - destruct st, sn; try done; intros [= <- <-]; constructor.
  - destruct sn; [done|]. intros [= <- <-]. constructor.
  - destruct sn; [done|]. intros [= <- <-]. constructor.
Qed.

(** ** A schedule *)

Definition transactions (l : list (session X)) (i : nat) : list txn :=
  omap (fun js => if (js.1 =? i)%nat then None else match s_state js.2 with In t => Some t | _ => None end)
    (imap pair l).

Definition play_turn (i : nat) (M : machine X) : machine X :=
  match m_sessions M !! i with
  | Some s =>
      match turn (transactions (m_sessions M) i) (m_tables M) s with
      | Some (D, s) => mkMachine D (<[i := s]> (m_sessions M))
      | None => M
      end
  | None => M
  end.
Definition play (turns : list nat) (M : machine X) : machine X := foldl (fun M i => play_turn i M) M turns.

Lemma others_transactions l i t : others l i t -> t ∈ transactions l i.
Proof.
  intros (j & s & Hj & Hl & E). unfold transactions. apply list_elem_of_omap. exists (j, s). split.
  - apply list_elem_of_lookup. exists j. by rewrite list_lookup_imap, Hl.
  - cbn. by rewrite (proj2 (Nat.eqb_neq j i) Hj), E.
Qed.

Lemma play_turn_steps i M : rtc mstep M (play_turn i M).
Proof.
  unfold play_turn. destruct (m_sessions M !! i) as [s|] eqn:Hi; [|done].
  destruct (turn _ _ s) as [[D s']|] eqn:Ht; [|done]. apply rtc_once. eapply ms; [done|].
  eapply turn_moves; [apply others_transactions|exact Ht].
Qed.

Lemma play_reachable turns D ps : reachable D ps (play turns (start D ps)).
Proof.
  unfold reachable, play. generalize (start D ps). induction turns as [|i turns IH]; intros M; [apply rtc_refl|]. cbn.
  etransitivity; [apply play_turn_steps|apply IH].
Qed.
End scheduler.

(** ** One call after the other *)

Section serial.
Context `{PgTypes, ScanOrder, Driver, ServerClock}.

Implicit Types (k : rowkey) (r : row).

Definition consistent (V : rowset) : Prop := forall k r, V !! k = Some r -> key_of r = k.

(** Statements that read rows as their table has them, and leave keys as they are. *)
Fixpoint lawful {A} (q : query A) : Prop :=
  match q with
  | BIND None _ => True
  | BIND (Some b) q => lawful (q b)
  | INSERT_UPDATING a set => forall now a' r y, prj r = Some y -> key_of (inj (set now a' y)) = key_of r
  | @UPDATE A' _ cond set => (forall r y, prj (A := A') r = Some y -> r = inj y) /\
      forall now r y, prj r = Some y -> key_of (inj (set now y)) = key_of r
  | @DELETE A' _ cond => forall r y, prj (A := A') r = Some y -> r = inj y
  | @SELECT_FOR A' _ l cond => forall r y, prj (A := A') r = Some y -> r = inj y
  | _ => True
  end.

(** A snapshot taken when the statement runs changes nothing. *)
Lemma both_here {A} `{Table A} (cond : A -> bool) V k r y :
  (forall r y, prj (A := A) r = Some y -> r = inj y) -> consistent V -> V !! k = Some r -> prj r = Some y ->
  both V cond y = cond y.
Proof.
  intros Hp HV Hr Hy. unfold both. rewrite <- (Hp r y Hy), (HV k r Hr), Hr. unfold on_row. rewrite Hy. by destruct (cond y).
Qed.
Lemma on_row_here {A} `{Table A} (cond : A -> bool) V k r :
  (forall r y, prj (A := A) r = Some y -> r = inj y) -> consistent V -> V !! k = Some r ->
  on_row (both V cond) r = on_row cond r.
Proof.
  intros Hp HV Hr. unfold on_row. destruct (prj r) as [y|] eqn:Ey; [|done]. by apply (both_here cond V k r y).
Qed.
Lemma filter_ext_elem {A} (f g : A -> bool) (l : list A) : (forall x, x ∈ l -> f x = g x) ->
  filter (fun x => f x = true) l = filter (fun x => g x = true) l.
Proof.
  induction l as [|x l IH]; intros Hfg; [done|]. rewrite !filter_cons, (Hfg x) by (by left).
  rewrite IH; [done|]. intros y Hy. apply Hfg. by right.
Qed.
Lemma matching_here {A} `{Table A} (cond : A -> bool) seed V :
  (forall r y, prj (A := A) r = Some y -> r = inj y) -> consistent V -> matching (both V cond) seed V = matching cond seed V.
Proof.
  intros Hp HV. unfold matching. apply filter_ext_elem. intros y Hy. rewrite scan_perm in Hy.
  unfold rows in Hy. apply list_elem_of_omap in Hy as (r & Hr & Hy). apply list_elem_of_fmap in Hr as ([k r'] & -> & Hk).
  apply elem_of_map_to_list in Hk. by rewrite (both_here cond V k r' y).
Qed.

Lemma statement_here {A} now seed (q : query A) V : lawful q -> consistent V -> statement now seed q V V = exec now seed q V.
Proof.
  intros Hq HV. induction q as [B A [b|] q IH|A T a|A T a set|A T a cond limit|A T cond set|A T cond|A T cond|A T cond cr|A T l cond|A B T cond agg];
    cbn in *; try done.
  - by apply IH.
  - destruct Hq as [Hp _]. rewrite matching_here by done. f_equal. unfold update_rows. apply map_fmap_ext. intros k r Hr.
    destruct (prj r) as [y|] eqn:Ey; [|done]. by rewrite (both_here cond V k r y).
  - rewrite matching_here by done. f_equal. unfold delete_rows. apply map_filter_ext. intros k r Hr. cbn.
    rewrite (on_row_here (cond now) V k r) by done. destruct (references r) as [uid|]; [|done].
    destruct (V !! (T_users, uid)) as [u|] eqn:Eu; [|done]. by rewrite (on_row_here (cond now) V _ u Hq HV Eu).
  - by rewrite matching_here.
Qed.

Lemma insert_consistent {A} `{Table A} (a : A) V x V' : insert_row a V = (x, V') -> consistent V -> consistent V'.
Proof.
  intros [->|(a' & Ha & ->)]%insert_row_cases HV; [done|]. intros k r [[<- <-]|[_ Hl]]%lookup_insert_Some; [done|by apply HV].
Qed.
Lemma update_consistent {A} `{Table A} (cond : A -> bool) set V :
  (forall r y, prj r = Some y -> key_of (inj (set y)) = key_of r) -> consistent V -> consistent (update_rows cond set V).
Proof.
  intros Hk HV k r'. unfold update_rows. intros (r & <- & Hr)%lookup_fmap_Some.
  destruct (prj r) as [y|] eqn:Ey; [|by apply HV]. destruct (cond y); [|by apply HV]. rewrite (Hk r y Ey). by apply HV.
Qed.

Lemma exec_consistent {A} now seed (q : query A) V : lawful q -> consistent V -> consistent (exec now seed q V).2.
Proof.
  intros Hq HV. induction q as [B A [b|] q IH|A T a|A T a set|A T a cond limit|A T cond set|A T cond|A T cond|A T cond cr|A T l cond|A B T cond agg];
    cbn in *; try done.
  - by apply IH.
  - destruct (insert_row a V) eqn:E. by eapply insert_consistent.
  - destruct (column_in (a now)) as [a'|]; [|done]. destruct (V !! _); cbn; [apply update_consistent; [apply Hq|done]|].
    destruct (insert_row (a now) V) eqn:E. by eapply insert_consistent.
  - destruct (column_in a); [|done]. destruct (_ <? limit); [|done]. destruct (insert_row a V) eqn:E. by eapply insert_consistent.
  - apply update_consistent; [|done]. apply Hq.
  - intros k r. unfold delete_rows. intros [Hr _]%map_lookup_filter_Some. by apply HV.
Qed.

Lemma programs_lawful c : guarded (fun A _ _ => @lawful A) any_answer false [] (pg_program (c_call c)).
Proof.
  destruct c as [A c]. destruct c; try (unfold pg_program, pg_GetByEmail; destruct (strEq email ""));
    unfold pg_program, pg_SaveRefreshToken; try destruct (strEq (rt_Parent t) ""); program.
  all: match goal with E : Some _ = Some _ |- _ => by injection E as -> end.
Qed.

(** *** A session by itself *)

Section alone.
Context {X : Type}.

Definition solo (x y : rowset * session X) : Prop := moves (fun _ => False) x.1 x.2 y.1 y.2.
Lemma admitted_solo {A} (q : query A) V0 V V' : admitted (fun _ => False) q V0 V V'.
Proof. by intros t []. Qed.

(** The connection of Sql.v and the state of a session. *)
Definition same_state (b : bool) (c : conn) (st : sstate) : Prop :=
  match tx c, st with
  | Idle, Auto => b = false
  | InTx own, In t => b = true /\ overlay (t_changes t) (committed c) = own /\ consistent own
  | FailedTx, Broken => b = true
  | _, _ => False
  end.

Lemma solo_snapshot {A} (q : query A) (k : dbres (list A) -> sqlprog X) st D y :
  rtc solo (D, mkSession (Send (Query q) k) st (Some (view_of st D))) y ->
  rtc solo (D, mkSession (Send (Query q) k) st None) y.
Proof. intros Hr. eapply rtc_l; [|exact Hr]. constructor. Qed.

(** One statement, whatever the driver makes of it. *)
Lemma query_alone env n {A} (q : query A) (k : dbres (list A) -> sqlprog X) b c st :
  lawful q -> same_state b c st -> consistent (committed c) ->
  let '(x, c') := send_query env n q c in
  exists st', plausible q x /\ same_state b c' st' /\ consistent (committed c') /\
    rtc solo (committed c, mkSession (Send (Query q) k) st None) (committed c', mkSession (k x) st' None).
Proof.
  intros Hq Hst Hc. destruct c as [D [|own|]], st as [|t|]; cbn in Hst, Hc; try done.
  - (* outside a transaction *)
    pose proof (statement_here (server_now env) (ce_seed env + n) q D Hq Hc) as Hs.
    pose proof (exec_consistent (server_now env) (ce_seed env + n) q D Hq Hc) as Hc'.
    unfold send_query. cbn. destruct (exec _ _ q D) as [x D'] eqn:E. pose proof (statement_plausible _ _ _ _ _ _ _ Hs) as Hp.
    destruct (driver (ce_seed env) n) as [[[|] text]|]; cbn; exists Auto; (split_and!; [|done|done|]);
      try apply plausible_bad; try done; apply solo_snapshot, rtc_once.
    + eapply mv_auto_lost; [exact Hs|apply admitted_solo].
    + apply (mv_fail _ _ q k Auto).
    + eapply mv_auto; [exact Hs|apply admitted_solo].
  - (* in one *)
    destruct Hst as (-> & Eown & Ho). set (V := overlay (t_changes t) D) in *. subst own.
    pose proof (statement_here (server_now env) (ce_seed env + n) q V Hq Ho) as Hs.
    pose proof (exec_consistent (server_now env) (ce_seed env + n) q V Hq Ho) as Hc'.
    unfold send_query. cbn. destruct (exec _ _ q V) as [x V'] eqn:E. pose proof (statement_plausible _ _ _ _ _ _ _ Hs) as Hp.
    assert (forall e, rtc solo (D, mkSession (Send (Query q) k) (In t) None) (D, mkSession (k (Bad e)) Broken None)) as Hfail.
    { intros e. apply solo_snapshot, rtc_once, (mv_fail _ _ q k (In t)). }
    destruct (driver (ce_seed env) n) as [[applied text]|]; [|destruct x as [rows|e]]; cbn.
    + exists Broken. split_and!; [apply plausible_bad|done|done|apply Hfail].
    + exists (In (after q V V V' t)). split; [done|].
      split; [split; [done|split; [apply overlay_changed|done]]|]. split; [done|].
      apply solo_snapshot, rtc_once. eapply mv_in; [exact Hs|apply admitted_solo].
    + exists Broken. split_and!; [apply plausible_bad|done|done|apply Hfail].
  - (* in one that has failed *)
    unfold send_query. cbn. destruct (driver (ce_seed env) n) as [[applied text]|]; cbn; exists Broken;
      (split_and!; [apply plausible_bad|done|done|]); apply solo_snapshot, rtc_once, (mv_fail _ _ q k Broken).
Qed.

Lemma run_alone env (p : sqlprog X) : forall b held n c st,
  guarded (fun A _ _ => @lawful A) any_answer b held p -> same_state b c st -> consistent (committed c) ->
  let '(x, c') := run_sql env p n c in
  consistent (committed c') /\ rtc solo (committed c, mkSession p st None) (committed c', mkSession (Done x) Auto None).
Proof.
  induction p as [a|Y e k IH]; intros b held n c st Hg Hst Hc.
  - destruct Hg as [-> _]. destruct c as [D [|own|]], st; cbn in *; try done; by destruct Hst.
  - cbn [run_sql]. destruct (step env n e c) as [x c1] eqn:Es.
    assert (exists b1 held1 st1, guarded (fun A _ _ => @lawful A) any_answer b1 held1 (k x) /\ same_state b1 c1 st1 /\
      consistent (committed c1) /\ rtc solo (committed c, mkSession (Send e k) st None) (committed c1, mkSession (k x) st1 None))
      as (b1 & held1 & st1 & Hg1 & Hst1 & Hc1 & Hr).
    { destruct e; cbn in Es, Hg.
      - pose proof (query_alone env n q k b c st (proj1 Hg) Hst Hc) as Hq. rewrite Es in Hq.
        destruct Hq as (st1 & Hp & Hst1 & Hc1 & Hr). eexists b, _, st1. split_and!; [by apply Hg|done..].
      - destruct Hg as (-> & Hg & Hg'). destruct c as [D [|own|]], st; cbn in Hst; try done; try by destruct Hst.
        unfold send_begin in Es. destruct (driver _ _) as [[applied text]|]; injection Es as <- <-.
        + eexists false, _, Auto. split_and!; [apply Hg'|done..|]. apply rtc_once, mv_begin_fail.
        + exists true, [], (In (mkTxn ∅ [])).
          split_and!; [done|split; [done|split; [apply overlay_empty|done]]|done|].
          apply rtc_once, mv_begin.
      - destruct Hg as [Hg Hg']. unfold send_commit in Es.
        destruct c as [D [|own|]], st as [|t|]; cbn in Hst, Es; try done.
        + destruct (driver _ _) as [[[|] text]|]; injection Es as <- <-; eexists false, _, Auto;
            (split_and!; [apply Hg'|done..|apply rtc_once, mv_commit_fail]).
        + destruct Hst as (-> & <- & Ho). destruct (driver _ _) as [[[|] text]|]; injection Es as <- <-; eexists false, _, Auto.
          * split_and!; [apply Hg'|done..|apply rtc_once, mv_commit_lost].
          * split_and!; [apply Hg'|done..|apply rtc_once, mv_commit_fail].
          * split_and!; [apply Hg|done..|apply rtc_once, mv_commit].
        + destruct (driver _ _) as [[[|] text]|]; injection Es as <- <-; eexists false, _, Auto;
            (split_and!; [apply Hg'|done..|apply rtc_once, mv_commit_fail]).
      - injection Es as <- <-. eexists false, _, Auto. split_and!; [apply Hg|done..|apply rtc_once, mv_rollback].
      - injection Es as <- <-. eexists b, _, st. split_and!; [apply Hg|done..|apply rtc_once, mv_now]. }
    specialize (IH x b1 held1 (S n) c1 st1 Hg1 Hst1 Hc1). destruct (run_sql env (k x) (S n) c1) as [y c'].
    destruct IH as [Hc' Hr']. split; [done|]. by etransitivity.
Qed.

(** It may run so while no other session is in a transaction. *)
Lemma moves_mono (oth oth' : txn -> Prop) D (s : session X) D' s' :
  (forall t, oth' t -> oth t) -> moves oth D s D' s' -> moves oth' D s D' s'.
Proof.
  intros Ho Hm. destruct Hm; try by constructor.
  - eapply mv_auto; [eassumption|]. intros t Ht. auto.
  - eapply mv_auto_lost; [eassumption|]. intros t Ht. auto.
  - eapply mv_in; [eassumption|]. intros t0 Ht. auto.
Qed.

Lemma solo_steps D s D' s' (l : list (session X)) i :
  rtc solo (D, s) (D', s') -> l !! i = Some s -> (forall t, ~ others l i t) ->
  rtc mstep (mkMachine D l) (mkMachine D' (<[i := s']> l)).
Proof.
  intros Hr. remember (D, s) as x. remember (D', s') as y. revert D s l Heqx Heqy.
  induction Hr as [x|x [D1 s1] y Hs _ IH]; intros D s l -> Ey Hi Ho.
  - injection Ey as -> ->. rewrite list_insert_id by done. apply rtc_refl.
  - eapply rtc_l.
    + apply (ms (mkMachine D l) i s D1 s1 Hi). eapply moves_mono; [|exact Hs]. intros t Ht. by apply (Ho t).
    + cbn. rewrite <- (list_insert_insert_eq l i s' s1). apply (IH D1 s1); [done|done| |].
      * apply list_lookup_insert_eq. by eapply lookup_lt_Some.
      * intros t (j & s2 & Hj & Hl & E). rewrite list_lookup_insert_ne in Hl by done. apply (Ho t). by exists j, s2.
Qed.
End alone.

(** ** Calls one after the other *)

Lemma run_map env {A B} (f : A -> B) (p : sqlprog A) n c :
  run_sql env (sql_map f p) n c = let '(x, c') := run_sql env p n c in (f x, c').
Proof.
  revert n c. induction p as [a|Y e k IH]; intros n c; [done|]. cbn. destruct (step env n e c). apply IH.
Qed.

(** The calls with the environment of each, and their answers. *)
Fixpoint in_turn (cs : list (store_call * callenv)) (D : rowset) : list answer * rowset :=
  match cs with
  | [] => ([], D)
  | (c, env) :: cs =>
      let '(x, D) := pg_call (c_call c) env D in
      let '(l, D) := in_turn cs D in (Answer (c_call c) x :: l, D)
  end.

Definition at_end (a : answer) : session answer := mkSession (Done a) Auto None.

Lemma in_turn_steps cs D (l : list (session answer)) ans D' :
  consistent D -> Forall (fun s => s_state s = Auto) l -> in_turn cs D = (ans, D') ->
  rtc mstep (mkMachine D (l ++ ((fun ce => mkSession (session_of ce.1) Auto None) <$> cs)))
            (mkMachine D' (l ++ (at_end <$> ans))).
Proof.
  revert D l ans. induction cs as [|[c env] cs IH]; intros D l ans HD Hl Ht; cbn in Ht.
  - injection Ht as <- <-. apply rtc_refl.
  - destruct (pg_call (c_call c) env D) as [x D1] eqn:Ec. destruct (in_turn cs D1) as [ans' D2] eqn:Et.
    injection Ht as <- <-. unfold pg_call in Ec. destruct (run_sql env (pg_program (c_call c)) 0 (mkConn D Idle)) as [x' c'] eqn:Er.
    injection Ec as -> <-.
    pose proof (run_alone env (session_of c) false [] 0 (mkConn D Idle) Auto
      (guarded_map _ _ _ _ _ _ (programs_lawful c)) eq_refl HD) as Hr.
    unfold session_of in Hr. rewrite run_map, Er in Hr. cbn in Hr. destruct Hr as [HD1 Hr].
    etransitivity; [eapply (solo_steps _ _ _ _ _ (length l) Hr)|].
    + rewrite lookup_app_r, Nat.sub_diag by done. done.
    + intros t (j & s & Hj & Hs & E). apply lookup_app_Some in Hs as [Hs|[_ Hs]].
      * by rewrite (proj1 (Forall_lookup _ _) Hl _ _ Hs) in E.
      * apply list_lookup_fmap_Some in Hs as (ce & -> & _). done.
    + rewrite insert_app_r_alt, Nat.sub_diag by done. cbn.
      specialize (IH (committed c') (l ++ [at_end (Answer (c_call c) x)]) ans' HD1).
      rewrite <- !app_assoc in IH. apply IH; [|done]. apply Forall_app. split; [done|]. by apply Forall_singleton.
Qed.

(** Calls made one after the other, each with whatever its driver and clock do to
    it, are a run of the machine: what the theorems on concurrent calls say holds
    of the server of Sql.v too. *)
Theorem serial_calls_reachable cs D ans D' :
  pg_inv D -> in_turn cs D = (ans, D') -> reachable D (session_of <$> cs.*1) (mkMachine D' (at_end <$> ans)).
Proof.
  intros HD Ht. unfold reachable, start. rewrite <- !list_fmap_compose. refine (in_turn_steps cs D [] ans D' _ _ Ht); [|done].
  intros k r Hk. by apply (pi_keys _ HD).
Qed.
End serial.

(** ** Calls that overlap *)

Module Overlap.
Import PlainServer Example.

(** Sessions on the tables of PostgresTheorems.v, at the instant 50. *)
Definition overlapping (cs : list store_call) (turns : list nat) : machine answer :=
  play 50 0 turns (start signed_up (session_of <$> cs)).
Definition alternate (n : nat) : list nat := concat (replicate n [0; 1]%nat).
Definition answered (M : machine answer) : list bool :=
  (fun s => match s_prog s with Done _ => true | Send _ _ => false end) <$> m_sessions M.

Lemma overlapping_reachable cs turns : reachable signed_up (session_of <$> cs) (overlapping cs turns).
Proof. apply play_reachable. Qed.

(** Two tokens under a limit of one: both have counted, or wait to count. *)
Definition creating : list store_call :=
  [mkCall _ (SavePATLimited (pat "p1") 1 30); mkCall _ (SavePATLimited (pat "p2") 1 30)].

Lemma pat_cap_concurrent_witness :
  let M := overlapping creating (alternate 9) in let M' := overlapping creating (alternate 15) in
  answered M = [false; false] /\ answered M' = [true; true] /\ length (tokens_of "u1" (m_tables M')) = 1%nat /\
  Z.of_nat (length (tokens_of "u1" (m_tables M))) <= 1 /\ Z.of_nat (length (tokens_of "u1" (m_tables M'))) <= 1.
Proof.
  assert (rows (A := PersonalAccessToken) signed_up = []) as E by (vm_compute; reflexivity).
  split; [vm_compute; reflexivity|]. split; [vm_compute; reflexivity|]. split; [vm_compute; reflexivity|].
  split; (eapply (pat_cap_concurrent 1 signed_up creating);
    [intros v; unfold tokens_of; rewrite E; vm_compute; discriminate
    |repeat constructor; vm_compute; discriminate
    |apply overlapping_reachable]).
Defined.

(** Two rotations of one token. *)
Definition rotating : list store_call := [mkCall _ (RotateRefreshToken "r" 40); mkCall _ (RotateRefreshToken "r" 45)].

Lemma rotation_one_winner_witness :
  let M := overlapping rotating (alternate 4) in
  answered M = [true; true] /\ winners "r" (m_sessions M) = 1%nat /\ (winners "r" (m_sessions M) <= 1)%nat.
Proof.
  split; [vm_compute; reflexivity|]. split; [vm_compute; reflexivity|].
  apply (rotation_one_winner "r" signed_up rotating _ tables_signed_up_inv); [repeat constructor|apply overlapping_reachable].
Defined.

(** A successor is saved while its session is revoked; it was there first, and
    the revocation has waited for it. *)
Definition successor : RefreshToken := mkRefreshToken "s" "u1" "r" 1000 40 false None None.
Definition ending : list store_call := [mkCall _ (RevokeTokens "r"); mkCall _ (SaveRefreshToken successor)].
Definition saved_first : list nat := ([1; 1; 1; 1; 1] ++ alternate 12)%nat.
Definition revoked_first : list nat := ([0; 0; 0; 0; 0] ++ alternate 12)%nat.

Lemma ending_fits : Forall (fits "r") ending.
Proof. repeat constructor; vm_compute; discriminate. Qed.
Lemma signed_up_rooted : rooted "r" signed_up /\ ended_revoked "r" (family "r" signed_up).
Proof.
  assert (family "r" signed_up = [root]) as E by (vm_compute; reflexivity). unfold rooted, ended_revoked. rewrite E. split.
  - by repeat constructor.
  - intros (t & Ht & _ & He)%Exists_exists. apply list_elem_of_singleton in Ht. subst t. destruct He. reflexivity.
Qed.

Lemma ended_session_concurrent_witness :
  let M := overlapping ending saved_first in let M' := overlapping ending revoked_first in
  answered M = [true; true] /\ length (family "r" (m_tables M)) = 2%nat /\
  answered M' = [true; true] /\ length (family "r" (m_tables M')) = 1%nat /\
  ended_revoked "r" (family "r" (m_tables M)) /\ ended_revoked "r" (family "r" (m_tables M')).
Proof.
  do 4 (split; [vm_compute; reflexivity|]).
  split; (eapply (ended_session_concurrent "r" signed_up ending);
    [done|apply tables_signed_up_inv|apply signed_up_rooted|apply signed_up_rooted|apply ending_fits|apply overlapping_reachable]).
Defined.

Lemma revocation_concurrent_witness :
  let M := overlapping ending saved_first in
  length (family "r" (m_tables M)) = 2%nat /\
  Forall (fun t => rt_Revoked t = true /\ (is_root "r" t -> rt_EndedAt t <> None)) (family "r" (m_tables M)).
Proof.
  split; [vm_compute; reflexivity|].
  eapply (revocation_concurrent "r" signed_up ending _ 0);
    [done|apply tables_signed_up_inv|apply signed_up_rooted|apply signed_up_rooted|apply ending_fits|apply overlapping_reachable
    |vm_compute; reflexivity|reflexivity].
Defined.
End Overlap.
