(* ===== verification/Validation.v ===== *)
(** * Input validation (auth/validation.go)

    [ValidatePassword] and [NormalizeEmail].  Lower-casing beyond ASCII follows
    the Unicode tables of Go's standard library, a parameter of the model
    ([UnicodeTables]) of which [UnicodeLaws] states what is relied on. *)

From S2P Require Import Prelude GoStrings Errors.

Definition MinPasswordLength : Z := 8.
Definition MaxPasswordLength : Z := 128.
Definition MaxEmailLength : Z := 254.

(** The error a Go function returns, [None] for nil. *)
Definition ValidatePassword (password : string) : option error :=
  if RuneCountInString password <? MinPasswordLength then Some (auth.ErrPasswordTooShort : error)
  else if MaxPasswordLength <? RuneCountInString password then Some (auth.ErrPasswordTooLong : error)
  else None.

Definition NormalizeEmail `{UnicodeTables} (email : string) : res string :=
  let email := TrimSpace email in
  let email := ToLower email in
  let len := Z.of_nat (String.length email) in
  if (len <? 5) || (MaxEmailLength <? len) then Err auth.ErrInvalidEmail
  else if ContainsFunc IsControl email then Err auth.ErrInvalidEmail
  else
    match LastIndexByte email "@" with
    | None => Err auth.ErrInvalidEmail
    | Some atIndex =>
        let domain := str_drop (atIndex + 1) email in
        if negb (ContainsByte domain ".") then Err auth.ErrInvalidEmail
        else Ok email
    end.

(** What an accepted address looks like. *)
Definition valid_email (email : string) : Prop :=
  5 <= Z.of_nat (String.length email) <= MaxEmailLength /\
  ContainsFunc IsControl email = false /\
  exists loc domain, email = loc +:+ "@" +:+ domain /\
    ContainsByte domain "@" = false /\ ContainsByte domain "." = true.

Lemma LastIndexByte_Some s c n :
  LastIndexByte s c = Some n <->
  exists a b, s = a +:+ String c b /\ String.length a = n /\ ContainsByte b c = false.
Proof.
  revert n. induction s as [|d s IH]; intros n; cbn.
  - split; [done|]. by intros ([|? ?] & b & ? & _).
  - destruct (LastIndexByte s c) as [m|] eqn:E.
    + split.
      * intros [= <-]. destruct (proj1 (IH m) eq_refl) as (a & b & -> & <- & Hb).
        exists (String d a), b. done.
      * intros (a & b & Hs & <- & Hb). destruct a as [|x a]; cbn in *; simplify_eq.
        -- destruct (proj1 (IH m) eq_refl) as (a' & b' & Hs & _ & _). exfalso.
           rewrite Hs, ContainsByte_app in Hb. cbn in Hb. rewrite Ascii.eqb_refl in Hb.
           by rewrite orb_true_r in Hb.
        -- do 2 f_equal. cut (Some m = Some (String.length a)); [congruence|]. apply IH. eauto.
    + assert (ContainsByte s c = false) as Hs.
      { clear -E. induction s as [|x s IH]; [done|]. cbn in *.
        destruct (LastIndexByte s c); [done|]. destruct (Ascii.eqb x c); [done|]. by apply IH. }
      destruct (Ascii.eqb d c) eqn:Ed; split.
      * intros [= <-]. apply Ascii.eqb_eq in Ed as ->. by exists "", s.
      * intros (a & b & Heq & <- & Hb). destruct a as [|x a]; cbn in *; simplify_eq; [done|].
        rewrite ContainsByte_app in Hs. cbn in Hs. rewrite Ascii.eqb_refl in Hs.
        by rewrite orb_true_r in Hs.
      * done.
      * intros (a & b & Heq & <- & Hb). destruct a as [|x a]; cbn in *; simplify_eq.
        { by rewrite Ascii.eqb_refl in Ed. }
        rewrite ContainsByte_app in Hs. cbn in Hs. rewrite Ascii.eqb_refl in Hs.
        by rewrite orb_true_r in Hs.
Qed.

Section email.
Context `{UnicodeTables}.

(** The checks accept exactly the addresses of the shape above. *)
Lemma NormalizeEmail_spec s :
  NormalizeEmail s =
  (let e := ToLower (TrimSpace s) in
   if (bool_decide (5 <= Z.of_nat (String.length e) <= MaxEmailLength)
       && negb (ContainsFunc IsControl e)
       && match LastIndexByte e "@" with
          | Some i => ContainsByte (str_drop (i + 1) e) "."
          | None => false
          end)
   then Ok e else Err auth.ErrInvalidEmail).
Proof.
  unfold NormalizeEmail. cbv zeta. set (e := ToLower _).
  destruct ((_ <? _) || (_ <? _)) eqn:E1.
  - rewrite bool_decide_eq_false_2 by lia. done.
  - rewrite bool_decide_eq_true_2 by lia. destruct (ContainsFunc _ _); [done|].
    destruct (LastIndexByte _ _); [|done]. by destruct (ContainsByte _ _).
Qed.

Lemma email_shape e :
  (match LastIndexByte e "@" with
   | Some i => ContainsByte (str_drop (i + 1) e) "."
   | None => false
   end) = true <->
  exists loc domain, e = loc +:+ "@" +:+ domain /\
    ContainsByte domain "@" = false /\ ContainsByte domain "." = true.
Proof.
  assert (forall a b, str_drop (String.length a + 1) (a +:+ String "@" b) = b) as Hdrop.
  { intros a b. replace (String.length a + 1)%nat with (String.length (a +:+ "@")%string)
      by (rewrite str_length_app; done).
    change (String "@" b) with ("@" +:+ b). rewrite str_app_assoc. apply str_drop_app. }
  split.
  - destruct (LastIndexByte e "@") as [i|] eqn:E; [|done].
    apply LastIndexByte_Some in E as (a & b & -> & <- & Hb). rewrite Hdrop.
    intros Hd. by exists a, b.
  - intros (a & b & -> & Hb & Hd).
    rewrite (proj2 (LastIndexByte_Some _ "@" (String.length a))) by (by exists a, b).
    change ("@" +:+ b) with (String "@" b). by rewrite Hdrop.
Qed.

Lemma NormalizeEmail_Ok s e :
  NormalizeEmail s = Ok e <-> e = ToLower (TrimSpace s) /\ valid_email e.
Proof.
  rewrite NormalizeEmail_spec. cbv zeta. unfold valid_email. rewrite <- email_shape.
  split.
  - destruct (_ && _) eqn:E; [|done]. intros [= <-].
    apply andb_prop in E as [[E1%bool_decide_eq_true_1 E2%negb_true_iff]%andb_prop E3]. done.
  - intros (-> & H1 & H2 & H3). rewrite bool_decide_eq_true_2 by done. by rewrite H2, H3.
Qed.

Lemma NormalizeEmail_Err s e : NormalizeEmail s = Err e -> e = auth.ErrInvalidEmail.
Proof. rewrite NormalizeEmail_spec. cbv zeta. case_match; congruence. Qed.
End email.

(** What is relied on of the Unicode tables: lower-casing yields characters,
    is idempotent, and turns nothing into white space. *)
Class UnicodeLaws `{UnicodeTables} : Prop := {
  lower_scalar : forall r, scalar r -> scalar (ToLowerRune r);
  lower_idemp : forall r, ToLowerRune (ToLowerRune r) = ToLowerRune r;
  lower_space : forall r, IsSpace r = false -> IsSpace (ToLowerRune r) = false
}.

Section idempotence.
Context `{UnicodeLaws}.

Lemma lower_runes s : Forall scalar (ToLowerRune <$> runes s).
Proof. apply Forall_fmap. eapply Forall_impl; [apply runes_scalar|apply lower_scalar]. Qed.

Lemma ToLower_idemp s : ToLower (ToLower s) = ToLower s.
Proof.
  unfold ToLower at 1. unfold ToLower at 1. rewrite runes_encode_runes by apply lower_runes.
  unfold ToLower. f_equal. rewrite <- list_fmap_compose. apply list_fmap_ext.
  intros i r _. apply lower_idemp.
Qed.

Lemma ToLower_trimmed s : trimmed (segments s) -> trimmed (segments (ToLower s)).
Proof.
  unfold ToLower. rewrite segments_encode_runes by apply lower_runes.
  unfold runes. intros [Hh Ht]. split; intros p l'.
  - destruct (segments s) as [|[r w] l] eqn:E; [done|]. cbn. intros [= <- _].
    apply lower_space. by apply (Hh _ _ eq_refl).
  - intros Hl. destruct (segments s) as [|[r w] l _] using rev_ind.
    { by destruct l'. }
    rewrite !fmap_app in Hl. cbn in Hl. apply app_inj_tail in Hl as [_ <-].
    apply lower_space. by apply (Ht _ _ eq_refl).
Qed.

Lemma TrimSpace_normal s : TrimSpace (ToLower (TrimSpace s)) = ToLower (TrimSpace s).
Proof.
  apply TrimSpace_id, ToLower_trimmed. rewrite segments_TrimSpace. apply trim_segments_trimmed.
Qed.

(** An accepted email is in normal form: it has the shape of an address
    within the length bounds and without control characters, and normalizing
    it again accepts it unchanged, so the value stored at registration is the
    one looked up at login however the address was typed. *)
Theorem NormalizeEmail_idempotent s e :
  NormalizeEmail s = Ok e -> valid_email e /\ NormalizeEmail e = Ok e.
Proof.
  intros [-> Hv]%NormalizeEmail_Ok. split; [done|]. apply NormalizeEmail_Ok. split; [|done].
  by rewrite TrimSpace_normal, ToLower_idemp.
Qed.
End idempotence.

(** Lower-casing of Latin-1, an instance of the laws. *)
Definition latin1_lower : UnicodeTables :=
  fun r => if (192 <=? r) && (r <=? 222) && negb (r =? 215) then r + 32 else r.

Lemma latin1_laws : @UnicodeLaws latin1_lower.
Proof.
  split; unfold ToLowerRune, unicode_lower, latin1_lower, scalar, IsSpace, MaxRune;
    intros r; repeat case_match; lia.
Qed.

Lemma NormalizeEmail_idempotent_witness :
  @NormalizeEmail latin1_lower (" Alice.B@Example.COM" +:+ String "009" "") = Ok "alice.b@example.com" /\
  @NormalizeEmail latin1_lower "alice.b@example.com" = Ok "alice.b@example.com".
Proof.
  assert (@NormalizeEmail latin1_lower (" Alice.B@Example.COM" +:+ String "009" "")
          = Ok "alice.b@example.com") as H by (vm_compute; reflexivity).
  split; [exact H|]. exact (proj2 (@NormalizeEmail_idempotent latin1_lower latin1_laws _ _ H)).
Defined.
