(* ===== verification/Token.v ===== *)
(** * Token issuer (token/issuer.go)

    Access tokens are JWTs built with go-jose, which is a parameter of the
    model ([Jose]); [JoseLaws] states what its documentation promises and the
    issuer relies on.  Refresh tokens and personal access tokens are random
    bytes in URL-safe base64, stored under their SHA-256 digest. *)

From S2P Require Import Prelude GoStrings GoTime GoEncoding Errors Entity Ports Contract.

Definition AccessTokenTTL : duration := 15 * Minute.
Definition RefreshTokenTTL : duration := 7 * 24 * Hour.
Definition JWTIssuer : string := "psina".
Definition KeyID : string := "psina-key-1".
Definition ClockSkewTolerance : duration := 30 * Second.

Inductive Algorithm := RS256 | ES256 | OtherAlgorithm (name : string).

(** [jose.JSONWebKey], [jose.JSONWebKeySet] *)
Record JSONWebKey (K : Type) := mkJSONWebKey {
  jwk_Key : K;
  jwk_KeyID : string;
  jwk_Algorithm : string;
  jwk_Use : string
}.
Arguments mkJSONWebKey {K} _ _ _ _.

(** [customClaims]: the registered claims the issuer sets, and its own.
    [D] is the library's [*jwt.NumericDate]. *)
Record customClaims (D : Type) := mkCustomClaims {
  cc_ID : string;
  cc_Subject : string;
  cc_Issuer : string;
  cc_IssuedAt : D;
  cc_Expiry : D;
  cc_NotBefore : D;
  cc_Email : string;
  cc_Roles : list string
}.
Arguments mkCustomClaims {D} _ _ _ _ _ _ _ _.
Arguments cc_ID {D} _.
Arguments cc_Subject {D} _.
Arguments cc_Issuer {D} _.
Arguments cc_IssuedAt {D} _.
Arguments cc_Expiry {D} _.
Arguments cc_NotBefore {D} _.
Arguments cc_Email {D} _.
Arguments cc_Roles {D} _.

(** jose.SignatureAlgorithm as the issuer uses it *)
Definition algName (alg : Algorithm) : string :=
  match alg with RS256 => "RS256" | ES256 => "ES256" | OtherAlgorithm n => n end.

(** go-jose and the key generators of crypto/rsa and crypto/ecdsa. *)
Class Jose := {
  PrivateKey : Type;
  PublicKey : Type;
  Public : PrivateKey -> PublicKey;
  GenerateKey : Algorithm -> prog (res PrivateKey);
  Signer : Type;
  NewSigner : Algorithm -> PrivateKey -> string (* typ *) -> string (* kid *) -> res Signer;
  NumericDate : Type;
  NewNumericDate : time -> NumericDate;
  NumericDate_Time : NumericDate -> time;
  Serialize : Signer -> customClaims NumericDate -> prog (res string);
  JSONWebToken : Type;
  ParseSigned : string -> list Algorithm -> res JSONWebToken;
  Token_Claims : JSONWebToken -> PublicKey -> res (customClaims NumericDate);
  Claims_Validate : customClaims NumericDate -> string (* issuer *) -> time -> option error
}.

(** [HashToken] *)
Definition HashToken (token : string) : string :=
  b64_encode RawURLEncoding (sha256.Sum256 token).

Definition PATPrefix : string := "psn_".

(** [GeneratePAT] *)
Definition GeneratePAT : prog (res (string * string)) :=
  (try b := perform (RandRead 32) catch err => Ret (Err (wrap "generate pat" err)) in
   let plaintext := PATPrefix +:+ b64_encode RawURLEncoding b in
   Ret (Ok (plaintext, HashToken plaintext)))%prog.

Section issuer.
Context `{Jose}.

Record Issuer := mkIssuer {
  i_algorithm : Algorithm;
  i_privateKey : PrivateKey;
  i_publicKey : PublicKey;
  i_signer : Signer;
  i_jwks : list (JSONWebKey PublicKey)
}.

Definition newIssuer (alg : Algorithm) (privateKey : PrivateKey) (publicKey : PublicKey)
  : res Issuer :=
  match NewSigner alg privateKey "JWT" KeyID with
  | Err err => Err (wrap "create signer" err)
  | Ok signer =>
      let jwks := [mkJSONWebKey publicKey KeyID (algName alg) "sig"] in
      Ok (mkIssuer alg privateKey publicKey signer jwks)
  end.

Definition NewWithRSAKey (privateKey : PrivateKey) : res Issuer :=
  newIssuer RS256 privateKey (Public privateKey).
Definition NewWithECDSAKey (privateKey : PrivateKey) : res Issuer :=
  newIssuer ES256 privateKey (Public privateKey).
Definition NewWithKey (privateKey : PrivateKey) : res Issuer := NewWithRSAKey privateKey.

Definition NewWithAlgorithm (alg : Algorithm) : prog (res Issuer) :=
  (match alg with
   | ES256 =>
       try privateKey := GenerateKey ES256
         catch err => Ret (Err (wrap "generate ECDSA key" err)) in
       Ret (NewWithECDSAKey privateKey)
   | RS256 | OtherAlgorithm _ =>
       try privateKey := GenerateKey RS256
         catch err => Ret (Err (wrap "generate RSA key" err)) in
       Ret (NewWithRSAKey privateKey)
   end)%prog.

Definition NewDev : prog (res Issuer) := NewWithAlgorithm RS256.

Definition Issuer_Algorithm (i : Issuer) : string := algName (i_algorithm i).
Definition Issuer_JWKS (i : Issuer) : list (JSONWebKey PublicKey) := i_jwks i.

(** The claims signed at [now]. *)
Definition access_claims (now : time) (jti userID email : string) (roles : list string)
  : customClaims NumericDate :=
  mkCustomClaims jti userID JWTIssuer
    (NewNumericDate now)
    (NewNumericDate (Add now AccessTokenTTL))
    (NewNumericDate (Add now (- ClockSkewTolerance)))
    email roles.

Definition GenerateTokens (i : Issuer) (userID email : string) (roles : list string)
  : prog (res (TokenPair * string)) :=
  (let* now := time_Now in
   try jtiBytes := perform (RandRead 16) catch err => Ret (Err (wrap "generate jti" err)) in
   let jti := b64_encode RawURLEncoding jtiBytes in
   let claims := access_claims now jti userID email roles in
   try accessToken := Serialize (i_signer i) claims
     catch err => Ret (Err (wrap "sign access token" err)) in
   try refreshTokenBytes := perform (RandRead 32)
     catch err => Ret (Err (wrap "generate refresh token" err)) in
   let refreshToken := b64_encode RawURLEncoding refreshTokenBytes in
   let refreshHash := HashToken refreshToken in
   Ret (Ok (mkTokenPair accessToken refreshToken (Seconds AccessTokenTTL), refreshHash)))%prog.

Definition ParseToken (i : Issuer) (accessToken : string) : prog (res Claims) :=
  (match ParseSigned accessToken [i_algorithm i] with
   | Err err => Ret (Err (wrap "parse token" err))
   | Ok tok =>
       match Token_Claims tok (i_publicKey i) with
       | Err err => Ret (Err (wrap "verify token" err))
       | Ok claims =>
           let* now := time_Now in
           match Claims_Validate claims JWTIssuer now with
           | Some err => Ret (Err (wrap "validate claims" err))
           | None =>
               Ret (Ok (mkClaims (cc_Subject claims) (cc_Email claims) (cc_Roles claims)
                          (cc_Issuer claims)
                          (Unix (NumericDate_Time (cc_Expiry claims)))
                          (Unix (NumericDate_Time (cc_IssuedAt claims)))))
           end
       end
   end)%prog.
End issuer.

(** The leeway [Validate] grants (go-jose, [jwt.DefaultLeeway]). *)
Definition DefaultLeeway : duration := Minute.

(** JSON strings are Unicode: these survive encoding unchanged. *)
Definition valid_utf8 (s : string) : Prop := encode_runes (runes s) = s.

Definition claims_utf8 {D} (c : customClaims D) : Prop :=
  valid_utf8 (cc_ID c) /\ valid_utf8 (cc_Subject c) /\ valid_utf8 (cc_Issuer c) /\
  valid_utf8 (cc_Email c) /\ Forall valid_utf8 (cc_Roles c).

(** What go-jose documents.  A serialized token is in compact form (its first
    character is that of a base64 JSON object) and parses and verifies, with the
    algorithm and the public half of the signing key, to the signed claims;
    dates are kept to the second; validation compares the issuer, and the
    dates within the leeway; failures are the library's own errors, and signing
    with a signer that could be made fails only where faults do. *)
Class JoseLaws `{Jose, Faults} : Prop := {
  jose_date : forall t, IsZero t = false ->
    NumericDate_Time (NewNumericDate t) = ofUnix (Unix t);
  jose_sign : forall `{Backend, Reads} alg key sg claims Q a,
    NewSigner alg key "JWT" KeyID = Ok sg ->
    (forall tok, HasPrefix tok "e" = true ->
       (claims_utf8 claims ->
        exists t, ParseSigned tok [alg] = Ok t /\ Token_Claims t (Public key) = Ok claims) ->
       Q (Ok tok) a) ->
    (forall e, infrastructure e = true -> faults = true -> Q (Err e) a) ->
    wp (Serialize sg claims) Q a;
  jose_validate : forall claims iat exp nbf issuer now,
    IsZero iat = false -> IsZero exp = false -> IsZero nbf = false -> IsZero now = false ->
    cc_IssuedAt claims = NewNumericDate iat ->
    cc_Expiry claims = NewNumericDate exp ->
    cc_NotBefore claims = NewNumericDate nbf ->
    Claims_Validate claims issuer now = None <->
      cc_Issuer claims = issuer /\
      ofUnix (Unix nbf) <= now + DefaultLeeway /\
      now - DefaultLeeway <= ofUnix (Unix exp) /\
      ofUnix (Unix iat) <= now + DefaultLeeway;
  jose_parse_err : forall tok algs e, ParseSigned tok algs = Err e -> infrastructure e = true;
  jose_claims_err : forall t k e, Token_Claims t k = Err e -> infrastructure e = true;
  jose_validate_err : forall c iss now e, Claims_Validate c iss now = Some e -> infrastructure e = true
}.
