(* ===== verification/Interfaces.v ===== *)
(** * Interfaces of the service's collaborators (auth/ports.go)

    The Go interfaces as records of operations, and what the service relies on
    of an implementation as a class over the record.  The service is verified
    against the class; Token.v and Local.v discharge it. *)

From S2P Require Import Prelude GoStrings GoTime GoEncoding Errors Entity Ports Contract Memory MemoryFacts Histories Token.

(** [TokenIssuer] *)
Record TokenIssuer := mkTokenIssuer {
  ti_GenerateTokens : string -> string -> list string -> prog (res (TokenPair * string));
  ti_ParseToken : string -> prog (res Claims)
}.

(** A generated pair vouches for the user it was made for and comes with the
    digest of its refresh token; neither
    operation touches the store; failures are foreign errors, and making a pair
    fails only where faults do. *)
Class IssuerSpec `{Faults} (i : TokenIssuer) := {
  issued_for : TokenPair -> string -> string -> list string -> Prop;
  issuer_generate : forall `{Backend, Reads} userID email roles Q a,
    (forall pair, issued_for pair userID email roles -> Q (Ok (pair, HashToken (tp_RefreshToken pair))) a) ->
    (forall e, infrastructure e = true -> faults = true -> Q (Err e) a) ->
    wp (ti_GenerateTokens i userID email roles) Q a;
  issuer_parse : forall `{Backend, Reads} tok Q a,
    (forall c, Q (Ok c) a) ->
    (forall e, infrastructure e = true -> Q (Err e) a) ->
    wp (ti_ParseToken i tok) Q a
}.

(** [Provider] *)
Record Provider := mkProvider {
  p_Type : string;
  p_Authenticate : AuthRequest -> prog (res Identity);
  p_Register : RegisterRequest -> prog (res Identity)
}.

(** provider/oauth/oauth.go *)
Record UserInfo := mkUserInfo {
  ui_ExternalID : string;
  ui_Email : string;
  ui_EmailVerified : bool
}.

Record AuthParams := mkAuthParams {
  ap_State : string;
  ap_RedirectURI : string;
  ap_CodeVerifier : string;
  ap_Nonce : string
}.

(** [oauth.Provider] *)
Record OAuthProvider := mkOAuthProvider {
  op_ProviderName : string;
  op_AuthCodeURL : AuthParams -> res string;
  op_ExchangeCode : string -> AuthParams -> prog (res UserInfo)
}.

(** A provider answers with an account it vouches for, and does not touch the
    store; [vouched code params info]: what the remote service confirms. *)
Class OAuthProviderSpec `{Faults} (p : OAuthProvider)
    (vouched : string -> AuthParams -> UserInfo -> Prop) : Prop :=
  op_exchange : forall `{Backend, Reads} code params Q a,
    (forall info, vouched code params info -> Q (Ok info) a) ->
    (forall e, Q (Err e) a) -> wp (op_ExchangeCode p code params) Q a.

(** provider/wallet/provider.go *)
Record MessageOpts := mkMessageOpts {
  mo_Domain : string;
  mo_URI : string;
  mo_Statement : string;
  mo_IssuedAt : time;
  mo_ExpiresAt : time
}.

(** [wallet.WalletProvider]; [VerifySignature] returns nil on success. *)
Record WalletProvider := mkWalletProvider {
  wp_Chain : string;
  wp_NormalizeAddress : string -> res string;
  wp_BuildMessage : string -> string -> MessageOpts -> string;
  wp_VerifySignature : string -> string -> string -> option error
}.

(** [wallet.Dispatcher] *)
Record Dispatcher := mkDispatcher { disp_providers : gmap string WalletProvider }.

(** A registry keyed by name; [None] is the panic on a duplicate. *)
Fixpoint register {P} (key : P -> string) (ps : list P) (m : gmap string P) : option (gmap string P) :=
  match ps with
  | [] => Some m
  | p :: ps =>
      match m !! key p with
      | Some _ => None
      | None => register key ps (<[key p := p]> m)
      end
  end.

Definition NewDispatcher (providers : list WalletProvider) : option Dispatcher :=
  mkDispatcher <$> register wp_Chain providers ∅.

Definition Dispatcher_Provider (d : Dispatcher) (chain : string) : res WalletProvider :=
  match disp_providers d !! chain with
  | None => Err (wrapS wallet.ErrUnsupportedChain chain)
  | Some p => Ok p
  end.

(** The keys, in no particular order. *)
Definition Dispatcher_Chains (d : Dispatcher) : list string := (map_to_list (disp_providers d)).*1.

Section register.
Context {P : Type} (key : P -> string).

Lemma register_lookup ps m m' n p :
  register key ps m = Some m' ->
  m' !! n = Some p <-> m !! n = Some p \/ (p ∈ ps /\ key p = n).
Proof.
  revert m. induction ps as [|q ps IH]; intros m; cbn.
  - intros [= <-]. rewrite elem_of_nil. tauto.
  - destruct (m !! key q) eqn:E; [done|]. intros ->%IH.
    rewrite lookup_insert_Some, elem_of_cons. split.
    + intros [[[<- <-]|[_ ?]]|[? ?]]; auto.
    + intros [Hl|[[->|?] <-]]; [|by auto|by auto]. left. right. split; [congruence|done].
Qed.

(** Registration fails (the program panics) exactly on a duplicate name. *)
Lemma register_panics ps m :
  register key ps m = None <-> ~ (NoDup (key <$> ps) /\ forall p, p ∈ ps -> m !! key p = None).
Proof.
  revert m. induction ps as [|q ps IH]; intros m; cbn.
  - split; [done|]. intros []. split; [constructor|]. intros p Hp. by inversion Hp.
  - destruct (m !! key q) eqn:E.
    + split; [|done]. intros _ [_ Hf]. specialize (Hf q ltac:(left)). congruence.
    + rewrite IH. f_equiv. rewrite NoDup_cons. split.
      * intros [Hnd Hf]. split; [split|].
        -- intros (p & Heq & Hp)%list_elem_of_fmap. specialize (Hf p Hp).
           rewrite <- Heq, lookup_insert_eq in Hf. done.
        -- done.
        -- intros p [->|Hp]%elem_of_cons; [done|]. specialize (Hf p Hp).
           by apply lookup_insert_None in Hf as [? _].
      * intros [[Hni Hnd] Hf]. split; [done|]. intros p Hp. apply lookup_insert_None.
        split; [apply Hf; by right|]. intros Heq. apply Hni. rewrite Heq. by apply list_elem_of_fmap_2.
Qed.
End register.

Lemma HashToken_length s : String.length (HashToken s) = 43%nat.
Proof. unfold HashToken. by rewrite b64_encode_length, Sum256_length. Qed.

Lemma HashToken_nonempty s : HashToken s <> "".
Proof. intros E. pose proof (HashToken_length s) as Hl. by rewrite E in Hl. Qed.

(** ** The JWT issuer *)

Section issuer.
Context `{JoseLaws}.

Definition issuer_interface (i : Issuer) : TokenIssuer :=
  mkTokenIssuer (GenerateTokens i) (ParseToken i).

(** An issuer made by one of the constructors. *)
Definition issuer_for (i : Issuer) (alg : Algorithm) (key : PrivateKey) : Prop :=
  newIssuer alg key (Public key) = Ok i.

Lemma issuer_for_inv i alg key :
  issuer_for i alg key ->
  NewSigner alg key "JWT" KeyID = Ok (i_signer i) /\ i_algorithm i = alg /\
  i_publicKey i = Public key.
Proof. unfold issuer_for, newIssuer. case_match; [|done]. by intros [= <-]. Qed.

Lemma wp_GenerateTokens `{Backend, Reads} i alg key userID email roles Q a :
  issuer_for i alg key ->
  (forall now jti tok refresh, reads now ->
     let claims := access_claims now (b64_encode RawURLEncoding jti) userID email roles in
     HasPrefix tok "e" = true ->
     (claims_utf8 claims ->
      exists t, ParseSigned tok [alg] = Ok t /\ Token_Claims t (Public key) = Ok claims) ->
     String.length refresh = 32%nat ->
     let rt := b64_encode RawURLEncoding refresh in
     Q (Ok (mkTokenPair tok rt 900, HashToken rt)) a) ->
  (forall e, infrastructure e = true -> faults = true -> Q (Err e) a) ->
  wp (GenerateTokens i userID email roles) Q a.
Proof.
  intros (Hsg & _ & _)%issuer_for_inv HOk HErr. unfold GenerateTokens. intros now Hnow. cbn.
  intros [jti|e] Hlen He; [|destruct (He e eq_refl); by apply HErr]. cbn. rewrite wp_bind.
  eapply jose_sign; [done|..]; cbn; [|intros e Hi Hf; by apply HErr].
  intros tok Hpre Htok [rt|e] Hlen' He'; cbn; [|destruct (He' e eq_refl); by apply HErr].
  eapply (HOk now jti); eauto.
Qed.

Lemma wp_ParseToken `{Backend, Reads} i tok Q a :
  (forall c, Q (Ok c) a) -> (forall e, infrastructure e = true -> Q (Err e) a) ->
  wp (ParseToken i tok) Q a.
Proof.
  intros HOk HErr. unfold ParseToken.
  destruct (ParseSigned _ _) as [t|e] eqn:E1; [|apply HErr; cbn; apply (jose_parse_err _ _ _ E1)].
  destruct (Token_Claims _ _) as [c|e] eqn:E2; [|apply HErr; cbn; apply (jose_claims_err _ _ _ E2)].
  intros now _. cbn. destruct (Claims_Validate _ _ _) as [e|] eqn:E3; cbn; [|done].
  apply HErr; cbn; apply (jose_validate_err _ _ _ _ E3).
Qed.

(** The access token reads back as the claims of the user. *)
Definition token_for (alg : Algorithm) (key : PrivateKey) (tp : TokenPair) (userID email : string)
    (roles : list string) : Prop :=
  exists now jti, let claims := access_claims now jti userID email roles in
    claims_utf8 claims ->
    exists t, ParseSigned (tp_AccessToken tp) [alg] = Ok t /\ Token_Claims t (Public key) = Ok claims.

#[program] Definition issuer_spec i alg key (Hi : issuer_for i alg key) : IssuerSpec (issuer_interface i) :=
  {| issued_for := token_for alg key |}.
Next Obligation.
  cbn. intros i alg key Hi O R uid email roles Q a HOk HErr. eapply wp_GenerateTokens; [done| |done].
  intros now jti tok rt _ claims _ Hc _ rt'. apply (HOk (mkTokenPair tok _ 900)).
  by exists now, (b64_encode RawURLEncoding jti).
Qed.
Next Obligation. intros. by apply wp_ParseToken. Qed.

(** Parsing at [now] a token issued at [issued]. *)
Lemma run_ParseToken {S} `{!StoreImpl S} o (w : world S) i alg key issued jti userID email roles tok t :
  issuer_for i alg key ->
  let claims := access_claims issued jti userID email roles in
  let now := o_now o (w_tick w) in
  ParseSigned tok [alg] = Ok t -> Token_Claims t (Public key) = Ok claims ->
  0 < issued -> 0 < now ->
  exists e, infrastructure e = true /\
  (run o (ParseToken i tok) w).1 =
    if (ofUnix (Unix (issued - ClockSkewTolerance)) <=? now + DefaultLeeway) &&
       (now - DefaultLeeway <=? ofUnix (Unix (issued + AccessTokenTTL))) &&
       (ofUnix (Unix issued) <=? now + DefaultLeeway)
    then Ok (mkClaims userID email roles JWTIssuer (Unix issued + 900) (Unix issued))
    else Err e.
Proof.
  intros Hi claims now Hp Hc Hiss Hnow. unfold ParseToken.
  destruct (issuer_for_inv i alg key Hi) as (_ & -> & ->). rewrite Hp, Hc. cbn. fold now.
  assert (forall t, - ClockSkewTolerance < t -> IsZero t = false) as Hz.
  { intros u Hu. unfold IsZero, zeroTime, ClockSkewTolerance, Second in *. lia. }
  assert (forall u d, 0 < u -> - ClockSkewTolerance <= d -> IsZero (Add u d) = false) as Hz'.
  { intros u d Hu Hd. apply Hz. unfold Add. lia. }
  pose proof (jose_validate claims issued (Add issued AccessTokenTTL)
                (Add issued (- ClockSkewTolerance)) JWTIssuer now) as Hv.
  specialize (Hv (Hz issued ltac:(unfold ClockSkewTolerance, Second; lia))).
  specialize (Hv (Hz' issued AccessTokenTTL Hiss ltac:(done))).
  specialize (Hv (Hz' issued _ Hiss ltac:(done))).
  specialize (Hv (Hz now ltac:(unfold ClockSkewTolerance, Second; lia))).
  specialize (Hv eq_refl eq_refl eq_refl).
  unfold Add in Hv. change (issued + - ClockSkewTolerance) with (issued - ClockSkewTolerance) in Hv.
  assert (NumericDate_Time (NewNumericDate (Add issued AccessTokenTTL)) = ofUnix (Unix (issued + AccessTokenTTL))) as He.
  { apply jose_date, (Hz' issued AccessTokenTTL); done. }
  assert (NumericDate_Time (NewNumericDate issued) = ofUnix (Unix issued)) as Hia.
  { apply jose_date, Hz. unfold ClockSkewTolerance, Second; lia. }
  destruct (Claims_Validate claims JWTIssuer now) as [e|] eqn:E.
  - exists (wrap "validate claims" e). split; [cbn; by eapply jose_validate_err|]. cbn.
    destruct (_ && _ && _) eqn:Eb; [|done].
    exfalso. cut (Some e = None); [done|]. apply Hv. split_and!; [done|lia..].
  - exists (EForeign ""). split; [done|]. cbn. rewrite He, Hia, !Unix_ofUnix.
    destruct (proj1 Hv eq_refl) as (_ & Hb1 & Hb2 & Hb3).
    rewrite !(proj2 (Z.leb_le _ _)) by done. cbn. do 2 f_equal.
    exact (Unix_add issued 900).
Qed.

Lemma run_GenerateTokens {S} `{!StoreImpl S, !StoreContract S} o (w w' : world S) i alg key
    userID email roles pair hash :
  oracle_ok o -> sc_inv (w_store w) -> issuer_for i alg key ->
  valid_utf8 userID -> valid_utf8 email -> Forall valid_utf8 roles ->
  run o (GenerateTokens i userID email roles) w = (Ok (pair, hash), w') ->
  hash = HashToken (tp_RefreshToken pair) /\
  exists jti t, ParseSigned (tp_AccessToken pair) [alg] = Ok t /\
    Token_Claims t (Public key) = Ok (access_claims (o_now o (w_tick w)) jti userID email roles).
Proof.
  intros Ho Hinv (Hsg & _ & _)%issuer_for_inv Hu He Hr. unfold GenerateTokens.
  change (time_Now) with (perform TimeNow). unfold perform at 1. cbn.
  destruct (o_rand o _ 16) as [jti|e]; [|done]. cbn. rewrite run_bind.
  set (claims := access_claims _ _ _ _ _).
  match goal with |- context [run o (Serialize (i_signer i) claims) ?w1] =>
    destruct (run o (Serialize (i_signer i) claims) w1) as [r w2] eqn:Er;
    assert (sc_inv (w_store w1)) as Hinv1 by exact Hinv
  end.
  apply (wp_sound o _ (fun r _ => forall tok, r = Ok tok ->
    exists t, ParseSigned tok [alg] = Ok t /\ Token_Claims t (Public key) = Ok claims)) in Er
    as [Hok _]; [|done|done|].
  2: { eapply jose_sign; [done| |done]. intros tok _ Htok tok' [= <-]. apply Htok.
       split_and!; [apply b64_encode_utf8|done|vm_compute; done|done|done]. }
  destruct r as [tok|e]; [|done]. destruct (Hok tok eq_refl) as (t & Ht1 & Ht2). cbn.
  destruct (o_rand o _ 32) as [rt|e]; [|done]. cbn. intros [= <- <- _]. split; [done|].
  cbn. eauto.
Qed.

(** C31. Access tokens round-trip and expire: a token issued for a user parses
    back to exactly that user's claims, with its lifetime of fifteen minutes, at
    any moment of the window from one minute before the second of issue to
    sixteen minutes after it (the fifteen minutes and the library's leeway of
    one minute), and at any other moment it is refused. *)
Theorem access_token_lifetime {S} `{!StoreImpl S, !StoreContract S} o (w w1 w2 : world S) i alg key
    userID email roles pair hash :
  oracle_ok o -> sc_inv (w_store w) -> issuer_for i alg key ->
  valid_utf8 userID -> valid_utf8 email -> Forall valid_utf8 roles ->
  run o (GenerateTokens i userID email roles) w = (Ok (pair, hash), w1) ->
  let issued := o_now o (w_tick w) in
  let now := o_now o (w_tick w2) in
  let parsed := (run o (ParseToken i (tp_AccessToken pair)) w2).1 in
  0 < issued -> 0 < now ->
  let window := (ofUnix (Unix issued) - Minute <=? now) && (now <=? ofUnix (Unix issued) + 16 * Minute) in
  (window = true ->
     parsed = Ok (mkClaims userID email roles JWTIssuer (Unix issued + 900) (Unix issued))) /\
  (window = false -> exists e, parsed = Err e).
Proof.
  intros Ho Hinv Hi Hu He Hr Hrun issued now parsed Hiss Hnow window.
  destruct (run_GenerateTokens o w w1 i alg key userID email roles pair hash)
    as (_ & jti & t & Ht1 & Ht2); [done..|].
  destruct (run_ParseToken o w2 i alg key issued jti userID email roles _ t Hi Ht1 Ht2 Hiss Hnow)
    as (e & _ & Hp). subst parsed window. rewrite Hp. fold now.
  clear Hp Ht1 Ht2 Hrun. clearbody now issued.
  pose proof (Unix_add issued 900) as H900. change (900 * Second) with AccessTokenTTL in H900.
  pose proof (Z.div_le_mono (issued - ClockSkewTolerance) issued Second) as Hm.
  fold (Unix issued) in Hm. fold (Unix (issued - ClockSkewTolerance)) in Hm.
  rewrite H900. unfold ofUnix, DefaultLeeway, ClockSkewTolerance, Minute, Second in *.
  split; intros Hw; destruct (_ && _ && _) eqn:Eb; eauto; lia.
Qed.
End issuer.

(** ** A concrete token library

    An implementation of the laws, to run the issuer: a token is the letter
    [e] followed by an encoding of the algorithm, the key and the claims; the
    key is its own public half. *)
Module PlainJose.
Fixpoint bits (p : positive) : string :=
  match p with
  | xH => ""
  | xO p => String "0" (bits p)
  | xI p => String "1" (bits p)
  end.
Fixpoint unbits (s : string) : positive :=
  match s with
  | "" => xH
  | String c s => if Ascii.eqb c "1" then xI (unbits s) else xO (unbits s)
  end.
Lemma unbits_bits p : unbits (bits p) = p.
Proof. induction p as [p IH|p IH|]; cbn; by rewrite ?IH. Qed.

Definition date (z : Z) : string := bits (encode z).
Definition undate (s : string) : Z :=
  match decode (unbits s) with Some z => z | None => 0 end.
Lemma undate_date z : undate (date z) = z.
Proof. unfold undate, date. by rewrite unbits_bits, decode_encode. Qed.

Definition to_fields (c : customClaims Z) : list string :=
  let '(mkCustomClaims a b d e f g h r) := c in a :: b :: d :: date e :: date f :: date g :: h :: r.
Definition of_fields (x : list string) : option (customClaims Z) :=
  match x with
  | a :: b :: d :: e :: f :: g :: h :: r =>
      Some (mkCustomClaims a b d (undate e) (undate f) (undate g) h r)
  | _ => None
  end.
Lemma of_to_fields c : of_fields (to_fields c) = Some c.
Proof. destruct c. cbn. by rewrite !undate_date. Qed.

Definition signer : Type := string * string.   (* algorithm, key *)

Definition serialize (sg : signer) (c : customClaims Z) : string :=
  String "e" (bits (encode (sg.1 :: sg.2 :: to_fields c))).
Definition parse (tok : string) : option (signer * customClaims Z) :=
  match tok with
  | String c s =>
      if Ascii.eqb c "e" then
        match decode (unbits s) with
        | Some (alg :: key :: x) => (fun c => (alg, key, c)) <$> of_fields x
        | _ => None
        end
      else None
  | "" => None
  end.
Lemma parse_serialize sg c : parse (serialize sg c) = Some (sg, c).
Proof.
  unfold parse, serialize. cbn -[of_fields to_fields encode decode].
  rewrite unbits_bits, decode_encode, of_to_fields. by destruct sg.
Qed.

Definition late (c : customClaims Z) (issuer : string) (now : time) : bool :=
  strEq (cc_Issuer c) issuer &&
  (ofUnix (cc_NotBefore c) <=? now + DefaultLeeway) &&
  (now - DefaultLeeway <=? ofUnix (cc_Expiry c)) &&
  (ofUnix (cc_IssuedAt c) <=? now + DefaultLeeway).

#[export] Instance plain_jose : Jose := {|
  PrivateKey := string;
  PublicKey := string;
  Public := fun k => k;
  GenerateKey := fun _ => perform (RandRead 32);
  Signer := signer;
  NewSigner := fun alg key _ _ => Ok (algName alg, key);
  NumericDate := Z;
  NewNumericDate := Unix;
  NumericDate_Time := ofUnix;
  Serialize := fun sg c => Ret (Ok (serialize sg c));
  JSONWebToken := signer * customClaims Z;
  ParseSigned := fun tok algs =>
    match parse tok with
    | Some t => if existsb (fun alg => strEq (algName alg) t.1.1) algs then Ok t
                else Err (EForeign "unexpected signature algorithm")
    | None => Err (EForeign "malformed token")
    end;
  Token_Claims := fun t key =>
    if strEq t.1.2 key then Ok t.2 else Err (EForeign "error in cryptographic primitive");
  Claims_Validate := fun c issuer now =>
    if late c issuer now then None else Some (EForeign "validation failed")
|}.

#[export] Instance plain_jose_laws `{Faults} : JoseLaws.
Proof.
  split.
  - done.
  - intros O R alg key sg c Q a [= <-] HOk _. cbn. apply HOk; [apply (HasPrefix_app "e")|]. intros _.
    exists ((algName alg, key), c). cbn -[serialize parse]. rewrite parse_serialize. cbn.
    unfold strEq. by rewrite !bool_decide_eq_true_2 by done.
  - intros c iat exp nbf issuer now _ _ _ _ Hi He Hn. cbn. unfold late. cbn in Hi, He, Hn. rewrite Hi, He, Hn. cbn.
    unfold strEq. destruct (_ && _ && _ && _) eqn:E.
    + split; [|done]. intros _.
      repeat (apply andb_prop in E as [E ?]). apply bool_decide_eq_true_1 in E. split_and!; [done|lia..].
    + split; [done|]. intros (Hs & ? & ? & ?). rewrite bool_decide_eq_true_2 in E by done. lia.
  - cbn. intros tok algs e. repeat case_match; intros; by simplify_eq.
  - cbn. intros t k e. case_match; intros; by simplify_eq.
  - cbn. intros c iss now e. case_match; intros; by simplify_eq.
Qed.

Definition issuer : Issuer :=
  mkIssuer RS256 "key" "key" ("RS256", "key") [mkJSONWebKey "key" KeyID "RS256" "sig"].

Lemma issuer_made : issuer_for issuer RS256 "key".
Proof. done. Qed.
End PlainJose.

(** A fixed outside world: a clock advancing by one second per effect, and
    random bytes made of the tick. *)
Definition fill (c : ascii) : nat -> string :=
  fix go n := match n with O => "" | S n => String c (go n) end.

Lemma fill_length c n : String.length (fill c n) = n.
Proof. induction n as [|n IH]; [done|]. cbn. by rewrite IH. Qed.

Definition example_oracle : oracle := {|
  o_now := fun n => (1700000000 + Z.of_nat n) * Second;
  o_rand := fun n k => Ok (fill (ascii_of_nat (65 + n)) k);
  o_uuid7 := fun n => Ok ("018f-" +:+ fill (ascii_of_nat (97 + n)) 8);
  o_uuid4 := fun n => "4bf9-" +:+ fill (ascii_of_nat (97 + n)) 8;
  o_verifier := fun n => fill (ascii_of_nat (65 + n)) 43;
  o_http := fun n r => Ok (mkHttpresp 404 "" false)
|}.

Lemma example_oracle_ok `{Faults} : oracle_ok example_oracle.
Proof. split; cbn; [|done..]. intros n k s [= <-]. apply fill_length. Qed.

Module LifetimeExample.
Import PlainJose.
#[local] Existing Instance listed_order.
#[local] Instance no_faults : Faults := false.

Definition start : world Store := mkWorld New 0 [].
Lemma start_ok : sc_inv (w_store start).
Proof. exact New_inv. Qed.
Definition issued := run example_oracle (GenerateTokens issuer "u1" "alice@example.com" ["admin"]) start.
Definition minted : TokenPair :=
  match issued.1 with Ok (p, _) => p | Err _ => mkTokenPair "" "" 0 end.

(** Sixteen minutes later the token still parses; a second later it does not. *)
Lemma access_token_lifetime_witness :
  (run example_oracle (ParseToken issuer (tp_AccessToken minted)) (mkWorld New 960 [])).1
    = Ok (mkClaims "u1" "alice@example.com" ["admin"] JWTIssuer
            (Unix (o_now example_oracle 0) + 900) (Unix (o_now example_oracle 0))) /\
  exists e, (run example_oracle (ParseToken issuer (tp_AccessToken minted)) (mkWorld New 961 [])).1 = Err e.
Proof.
  split; eapply (access_token_lifetime example_oracle start issued.2 _ issuer RS256 "key"
      "u1" "alice@example.com" ["admin"] minted (HashToken (tp_RefreshToken minted)) example_oracle_ok
      start_ok issuer_made).
  all: try (apply Forall_cons_2; [|apply Forall_nil_2]).
  all: vm_compute; reflexivity.
Defined.
End LifetimeExample.
