(* ===== verification/Local.v ===== *)
(** * The password provider (provider/local/local.go)

    Argon2id is a third-party function, a parameter of the model. *)

From stdpp Require Import pretty.
From S2P Require Import Prelude GoStrings GoTime GoEncoding Errors Entity Ports Contract ContractFacts WpRules Token Interfaces.

(** [argon2.IDKey(password, salt, time, memory, threads, keyLen)] *)
Class Argon2 := IDKey : string -> string -> Z -> Z -> Z -> nat -> string.

Definition argon2Memory : Z := 64 * 1024.
Definition argon2Iterations : Z := 3.
Definition argon2Parallelism : Z := 2.
Definition argon2SaltLength : nat := 16.
Definition argon2KeyLength : nat := 32.

Section local.
Context `{Argon2}.

(** The string [hashPassword] formats. *)
Definition encodePassword (password salt : string) : string :=
  let hash := IDKey password salt argon2Iterations argon2Memory argon2Parallelism argon2KeyLength in
  let encodedSalt := b64_encode RawStdEncoding salt in
  let encodedHash := b64_encode RawStdEncoding hash in
  "$argon2id$v=19$m=" +:+ pretty argon2Memory +:+ ",t=" +:+ pretty argon2Iterations +:+ ",p=" +:+
  pretty argon2Parallelism +:+ "$" +:+ encodedSalt +:+ "$" +:+ encodedHash.

Definition hashPassword (password : string) : prog (res string) :=
  (try salt := perform (RandRead argon2SaltLength)
     catch err => Ret (Err (wrap "generate salt" err)) in
   Ret (Ok (encodePassword password salt)))%prog.

Definition verifyPassword (password encodedHash : string) : bool :=
  match Split encodedHash "$" with
  | [_; _; _; _; p4; p5] =>
      match b64_decode RawStdEncoding p4 with
      | None => false
      | Some salt =>
          match b64_decode RawStdEncoding p5 with
          | None => false
          | Some storedHash =>
              let computedHash :=
                IDKey password salt argon2Iterations argon2Memory argon2Parallelism argon2KeyLength in
              (* subtle.ConstantTimeCompare *)
              strEq storedHash computedHash
          end
      end
  | _ => false
  end.

Definition generateUserID : prog string :=
  (let* r := perform UUIDNewV7 in
   match r with
   | Ok id => Ret id
   | Err _ => perform UUIDNewString
   end)%prog.

Definition Register (req : RegisterRequest) : prog (res Identity) :=
  (if strEq (rreq_Email req) "" then
     Ret (Err (EWrap [] auth.ErrInvalidEmail [Lit ": email required"]))
   else if strEq (rreq_Password req) "" then
     Ret (Err (EWrap [] auth.ErrPasswordTooShort [Lit ": password required"]))
   else
     let* r := call (GetByEmail (rreq_Email req)) in
     match r with
     | Ok _ => Ret (Err (wrapS store.ErrUserExists (rreq_Email req)))
     | Err err =>
         if negb (errors_Is err store.ErrUserNotFound) then Ret (Err (wrap "lookup user" err))
         else
           try passwordHash := hashPassword (rreq_Password req)
             catch err => Ret (Err (wrap "hash password" err)) in
           let* id := generateUserID in
           let user := mkUser id (rreq_Email req) [] zeroTime zeroTime in
           try user := call (Create user) catch err => Ret (Err (wrap "create user" err)) in
           try _ok := call (SavePasswordHash (user_ID user) passwordHash)
             catch err =>
               (let* d := call (Delete (user_ID user)) in
                match d with
                | Err delErr =>
                    log (mkLog false LevelError "rollback of user without credentials failed"
                           [("user_id", AString (user_ID user)); ("error", AError delErr)])
                | Ok _ => Ret tt
                end ;;;
                Ret (Err (wrap "store password" err))) in
           Ret (Ok (mkIdentity (user_ID user) (user_Email user) ProviderTypeLocal ∅))
     end)%prog.

Definition Authenticate (req : AuthRequest) : prog (res Identity) :=
  (if strEq (areq_Email req) "" || strEq (areq_Password req) "" then
     Ret (Err (ECredentials ReasonMalformedCredentials ""))
   else
     let* r := call (GetByEmail (areq_Email req)) in
     match r with
     | Err err =>
         if errors_Is err store.ErrUserNotFound then Ret (Err (ECredentials ReasonUnknownUser ""))
         else Ret (Err (wrap "get user" err))
     | Ok user =>
         let* h := call (GetPasswordHash (user_ID user)) in
         match h with
         | Err err =>
             if errors_Is err store.ErrCredentialNotFound then
               Ret (Err (ECredentials ReasonNoPassword (user_ID user)))
             else Ret (Err (wrap "get password hash" err))
         | Ok storedHash =>
             if negb (verifyPassword (areq_Password req) storedHash) then
               Ret (Err (ECredentials ReasonBadPassword (user_ID user)))
             else Ret (Ok (mkIdentity (user_ID user) (user_Email user) ProviderTypeLocal ∅))
         end
     end)%prog.

Definition local_provider : Provider := mkProvider ProviderTypeLocal Authenticate Register.

(** ** Password hashes *)

Lemma verify_encoded password salt p :
  verifyPassword p (encodePassword password salt)
  = strEq (IDKey password salt argon2Iterations argon2Memory argon2Parallelism argon2KeyLength)
          (IDKey p salt argon2Iterations argon2Memory argon2Parallelism argon2KeyLength).
Proof.
  unfold verifyPassword, encodePassword. cbv zeta.
  set (h := IDKey password _ _ _ _ _).
  assert (forall s, ContainsByte (b64_encode RawStdEncoding s) "$" = false) as Hno.
  { intros s. eapply str_forall_no_byte; [apply b64_encode_bytes|done]. }
  replace (Split _ "$") with
    ["" ; "argon2id"; "v=19"; "m=65536,t=3,p=2"; b64_encode RawStdEncoding salt; b64_encode RawStdEncoding h].
  - by rewrite !b64_decode_encode.
  - symmetry. etransitivity.
    + apply (f_equal (fun s => Split s "$")).
      instantiate (1 := "" +:+ String "$" ("argon2id" +:+ String "$" ("v=19" +:+ String "$"
        ("m=65536,t=3,p=2" +:+ String "$" (b64_encode RawStdEncoding salt +:+
           String "$" (b64_encode RawStdEncoding h)))))). reflexivity.
    + by rewrite !Split_app, Split_no_sep by first [apply Hno|done].
Qed.

(** The stored hash of [email]'s account accepts [password]. *)
Definition password_accepted (a : db) (email password : string) (u : User) : Prop :=
  has_email a email u /\
  exists h, d_passwords a !! user_ID u = Some h /\ verifyPassword password h = true.

Definition local_identity (u : User) : Identity :=
  mkIdentity (user_ID u) (user_Email u) ProviderTypeLocal ∅.

(** What [Authenticate] answers, branch by branch. *)
Definition authenticated `{Backend, Faults} (a : db) (email password : string) (r : res Identity) : Prop :=
  match r with
  | Ok i => exists u, password_accepted a email password u /\ i = local_identity u
  | Err e =>
      broken e \/
      exists reason uid, e = ECredentials reason uid /\
        (password = "" \/ ~ exists u, password_accepted a email password u) /\
        (uid = "" \/ exists u, has_email a email u /\ user_ID u = uid)
  end.

Lemma wp_Authenticate `{Backend, Reads, Faults} req a :
  db_ok a ->
  wp (Authenticate req) (fun r a' => a' = a /\ authenticated a (areq_Email req) (areq_Password req) r) a.
Proof.
  intros Hok. unfold Authenticate.
  assert (forall u, has_email a (areq_Email req) u ->
    (exists v, password_accepted a (areq_Email req) (areq_Password req) v) ->
    password_accepted a (areq_Email req) (areq_Password req) u) as Huniq.
  { intros u Hu (v & Hv & Hp). by rewrite (ok_emails _ Hok _ _ _ Hu Hv). }
  destruct (strEq (areq_Email req) "") eqn:E1; cbn [orb].
  { apply strEq_true in E1. cbn. split; [done|]. right. do 2 eexists. split_and!; [done| |by left].
    right. intros (u & (He & _ & _) & _). done. }
  destruct (strEq (areq_Password req) "") eqn:E2.
  { apply strEq_true in E2. cbn. split; [done|]. right. do 2 eexists. split_and!; [done|by left|by left]. }
  apply wp_GetByEmail.
  - intros u Hu. apply wp_GetPasswordHash.
    + intros h Hh. destruct (verifyPassword _ h) eqn:Ev; cbn; (split; [done|]).
      * exists u. split; [|done]. split; eauto.
      * right. do 2 eexists. split_and!; [done| |eauto]. right. intros Hx.
        destruct (Huniq u Hu Hx) as (_ & h' & Hh' & Hv). congruence.
    + intros e Hh He. decide_is. split; [done|]. right. do 2 eexists. split_and!; [done| |eauto].
      right. intros Hx. destruct (Huniq u Hu Hx) as (_ & h' & Hh' & Hv). congruence.
    + intros e Hout He. decide_is. cbn. eauto with errs.
  - intros e Hn He. decide_is. cbn. split; [done|]. right. do 2 eexists.
    split_and!; [done| |by left]. right. intros (u & Hu & _). by eapply Hn.
  - intros e Hout He. decide_is. cbn. eauto with errs.
Qed.

(** The database after an account has been registered. *)
Definition with_account (a : db) (u : User) (hash : string) : db :=
  with_passwords (with_users a (<[user_ID u := u]> (d_users a)))
    (<[user_ID u := hash]> (d_passwords a)).

Definition registered `{Backend, Faults} (a : db) (email password : string) (r : res Identity) (a' : db) : Prop :=
  match r with
  | Ok i => exists u salt, i = local_identity u /\ user_Email u = email /\ user_Roles u = [] /\
      d_users a !! user_ID u = None /\ (forall v, ~ has_email a email v) /\
      a' = with_account a u (encodePassword password salt)
  | Err e =>
      broken e \/
      ((exists v, has_email a email v) \/ (exists id, is_Some (d_users a !! id))) /\ a' = a /\
      errors_Is e store.ErrUserExists = true
  end.

Lemma wp_Register `{Backend, Reads, Faults} req a :
  db_ok a -> rreq_Email req <> "" -> rreq_Password req <> "" ->
  wp (Register req) (registered a (rreq_Email req) (rreq_Password req)) a.
Proof.
  intros Hok He%strEq_false Hp%strEq_false. unfold Register. rewrite He, Hp.
  apply wp_GetByEmail.
  - intros u Hu. cbn. right. split_and!; eauto.
  - intros e Hn Hex. decide_is. rewrite wp_bind. unfold hashPassword. cbn -[encodePassword].
    intros r _ Hr. destruct r as [salt|er]; cbn -[encodePassword];
      [|left; destruct (Hr er eq_refl); eauto with errs].
    assert (forall id, wp (try user := call (Create (mkUser id (rreq_Email req) [] zeroTime zeroTime))
        catch err => Ret (Err (wrap "create user" err)) in
      try _ok := call (SavePasswordHash (user_ID user) (encodePassword (rreq_Password req) salt))
        catch err =>
          (let* d := call (Delete (user_ID user)) in
           match d with
           | Err delErr => log (mkLog false LevelError "rollback of user without credentials failed"
                             [("user_id", AString (user_ID user)); ("error", AError delErr)])
           | Ok _ => Ret tt
           end ;;; Ret (Err (wrap "store password" err))) in
      Ret (Ok (mkIdentity (user_ID user) (user_Email user) ProviderTypeLocal ∅)))%prog
      (registered a (rreq_Email req) (rreq_Password req)) a) as Hgo.
    { intros id. apply wp_Create.
      - intros now a1 Hfree Hok1 ->. cbn [user_ID stamp_user].
        apply wp_SavePasswordHash.
        + intros a2 _ _ ->. cbn. exists (stamp_user now (mkUser id (rreq_Email req) [] zeroTime zeroTime)), salt.
          split_and!; [done..| |exact Hn|done].
          apply eq_None_not_Some. intros ?. apply Hfree. by left.
        + intros e' Hnone. cbn in Hnone. by rewrite lookup_insert_eq in Hnone.
        + intros e' a2 He' Hleft. cbn. intros env x a3 _ _ _. destruct x; cbn; left; eauto with errs.
      - intros e' Htaken He'. cbn. right. split_and!; [|done|by rewrite (exactly_Is _ _ _ He')].
        destruct Htaken; eauto.
      - intros e' a1 He' Hleft. cbn. left. eauto with errs. }
    unfold generateUserID. intros u _. destruct u as [id|er']; [apply (Hgo id)|].
    intros id. apply (Hgo id).
  - intros e Hout Hi. decide_is. cbn. left. eauto with errs.
Qed.

(** A stored password hash accepts exactly the passwords with the same
    digest: what [hashPassword] stores is parsed back by [verifyPassword] to
    the salt and the digest it was made of, for every password and salt. *)
Theorem stored_hash_exact password salt p :
  verifyPassword p (encodePassword password salt) = true <->
  IDKey p salt argon2Iterations argon2Memory argon2Parallelism argon2KeyLength =
  IDKey password salt argon2Iterations argon2Memory argon2Parallelism argon2KeyLength.
Proof.
  rewrite verify_encoded. split; [by intros ->%strEq_true|]. intros ->. apply strEq_refl.
Qed.
End local.
