(* ===== verification/Service.v ===== *)
(** * The authentication service (auth/service.go)

    The methods of [Service] as programs over the ports.  One store serves all
    the store interfaces, as the program wires it; a feature whose store is nil
    is off.  [svc_now] is the service's clock, [time.Now] unless [WithClock]
    replaces it.  google/uuid's parser is a parameter ([UUIDLib]). *)

From S2P Require Import Prelude GoStrings GoTime GoEncoding Errors Entity Ports Contract Validation Token Interfaces.

(** ** Configuration *)

Definition DefaultPATMaxPerUser : Z := 50.
Definition DefaultPATTouchInterval : duration := Minute.
Definition maxPATNameLength : Z := 100.

Record PATConfig := mkPATConfig {
  pc_MaxPerUser : Z;
  pc_MaxTTL : duration;
  pc_TouchInterval : duration
}.

Record OAuthConfig := mkOAuthConfig {
  oc_DisableAutoLinkEmail : bool;
  oc_StateTTL : duration
}.

Record WalletConfig := mkWalletConfig {
  wc_Domain : string;
  wc_URI : string;
  wc_Statement : string;
  wc_ChallengeTTL : duration
}.

(** The struct; [patStore] and the like are [true] when set. *)
Record Service := mkService {
  providers : gmap string Provider;
  localProvider : option Provider;
  issuer : TokenIssuer;
  patStore : bool;
  patConfig : PATConfig;
  oauthProviders : option (gmap string OAuthProvider);
  oauthConfig : OAuthConfig;
  walletProviders : option Dispatcher;
  walletConfig : WalletConfig;
  refreshReuseLeeway : duration;
  svc_now : prog time
}.

Definition DefaultRefreshReuseLeeway : duration := 10 * Second.

(** A [ServiceOption] edits the struct. *)
Definition ServiceOption : Type := Service -> Service.

Definition WithPAT (cfg : PATConfig) : ServiceOption := fun s =>
  let cfg := mkPATConfig
    (if pc_MaxPerUser cfg =? 0 then DefaultPATMaxPerUser else pc_MaxPerUser cfg)
    (pc_MaxTTL cfg)
    (if pc_TouchInterval cfg =? 0 then DefaultPATTouchInterval else pc_TouchInterval cfg) in
  mkService (providers s) (localProvider s) (issuer s) true cfg
    (oauthProviders s) (oauthConfig s) (walletProviders s) (walletConfig s)
    (refreshReuseLeeway s) (svc_now s).

Definition WithRefreshReuseLeeway (d : duration) : ServiceOption := fun s =>
  mkService (providers s) (localProvider s) (issuer s) (patStore s) (patConfig s)
    (oauthProviders s) (oauthConfig s) (walletProviders s) (walletConfig s)
    (Z.max d 0) (svc_now s).

Definition WithClock (now : prog time) : ServiceOption := fun s =>
  mkService (providers s) (localProvider s) (issuer s) (patStore s) (patConfig s)
    (oauthProviders s) (oauthConfig s) (walletProviders s) (walletConfig s)
    (refreshReuseLeeway s) now.

(** [None] is the panic on a duplicate provider type. *)
Definition NewService (iss : TokenIssuer) (ps : list Provider) (opts : list ServiceOption)
  : option Service :=
  match register p_Type ps ∅ with
  | None => None
  | Some registry =>
      let s := mkService registry (registry !! ProviderTypeLocal) iss
                 false (mkPATConfig 0 0 0) None (mkOAuthConfig false 0)
                 None (mkWalletConfig "" "" "" 0)
                 DefaultRefreshReuseLeeway time_Now in
      Some (foldl (fun s opt => opt s) s opts)
  end.

Definition provider (s : Service) (t : string) : option Provider := providers s !! t.

(** Wiring: making a service panics exactly when two providers have the same
    type, and otherwise every provider is registered under its own type. *)
Theorem NewService_registry iss ps opts :
  (NewService iss ps opts = None <-> ~ NoDup (p_Type <$> ps)) /\
  (forall s, NewService iss ps [] = Some s ->
     forall t p, provider s t = Some p <-> p ∈ ps /\ p_Type p = t).
Proof.
  unfold NewService. split.
  - pose proof (register_panics p_Type ps ∅) as Hp. destruct (register p_Type ps ∅) eqn:E.
    + split; [done|]. intros Hnd. exfalso. cut (Some g = None); [done|]. apply Hp. by intros [? _].
    + split; [|done]. intros _ Hnd. by apply Hp.
  - intros s Hs t p. destruct (register p_Type ps ∅) as [m|] eqn:E; [|done]. injection Hs as <-.
    cbn. rewrite (register_lookup p_Type ps ∅ m t p E), lookup_empty. split; [by intros [|]|by right].
Qed.

(** [*RegisterResult] and [*LoginResult] *)
Record AuthResult := mkAuthResult {
  ar_UserID : string;
  ar_Email : string;
  ar_TokenPair : TokenPair
}.

Record PATResult := mkPATResult {
  pr_Plaintext : string;
  pr_Token : PersonalAccessToken
}.

(** A nil pointer dereference: connect recovers the panic into an internal error. *)
Definition nil_deref : error :=
  EForeign "runtime error: invalid memory address or nil pointer dereference".

(** ** Refresh token families *)

Definition familyRoot (rt : RefreshToken) : string :=
  if strEq (rt_Parent rt) "" then rt_Hash rt else rt_Parent rt.

Definition issueTokens (s : Service) (userID email : string) (roles : list string) (parent : string)
  : prog (res TokenPair) :=
  (try g := ti_GenerateTokens (issuer s) userID email roles
     catch err => Ret (Err (wrap "generate tokens" err)) in
   let '(tokenPair, refreshHash) := g in
   let* now := svc_now s in
   let rt := mkRefreshToken refreshHash userID parent (Add now RefreshTokenTTL) now false None None in
   try _ok := call (SaveRefreshToken rt)
     catch err => Ret (Err (wrap "save refresh token" err)) in
   Ret (Ok tokenPair))%prog.

Definition isDuplicateRefresh (s : Service) (rt : RefreshToken) (now : time) : prog (res bool) :=
  (match rt_RotatedAt rt with
   | None => Ret (Ok false)
   | Some rotatedAt =>
       if (refreshReuseLeeway s =? 0) || negb (After (rt_ExpiresAt rt) now) then Ret (Ok false)
       else
         let since := Sub now rotatedAt in
         if (since >? refreshReuseLeeway s) || (since <? - refreshReuseLeeway s) then Ret (Ok false)
         else
           try family := call (GetRefreshFamily (familyRoot rt))
             catch err => Ret (Err (wrap "get refresh family" err)) in
           match rf_LastRotatedAt family with
           | None => Ret (Ok false)
           | Some last =>
               if rf_SessionEnded family then Ret (Ok false)
               else Ret (Ok (negb (Before rotatedAt last)))
           end
   end)%prog.

Definition revokeReusedFamily (s : Service) (rt : RefreshToken) : prog error :=
  (let* r := call (RevokeTokens (familyRoot rt)) in
   match r with
   | Err err =>
       log (mkLog false LevelError "revoke reused refresh token family"
              [("user_id", AString (rt_UserID rt)); ("error", AError err)])
   | Ok _ => Ret tt
   end ;;;
   Ret (ETokenReuse (rt_UserID rt)))%prog.

(** The rest of [Refresh], once the token is known to be usable. *)
Definition refreshFrom (s : Service) (rt : RefreshToken) : prog (res TokenPair) :=
  (let* u := call (GetByID (rt_UserID rt)) in
   match u with
   | Err err =>
       if errors_Is err store.ErrUserNotFound then
         Ret (Err (EWrap2 auth.ErrInvalidCredentials err []))
       else Ret (Err (wrap "get user" err))
   | Ok user =>
       let* r := issueTokens s (user_ID user) (user_Email user) (user_Roles user) (familyRoot rt) in
       match r with
       | Err err =>
           if errors_Is err store.ErrTokenRevoked then Ret (Err (ETokenReuse (rt_UserID rt)))
           else Ret (Err err)
       | Ok tokens => Ret (Ok tokens)
       end
   end)%prog.

Definition Service_Refresh (s : Service) (refreshToken : string) : prog (res TokenPair) :=
  (let hash := HashToken refreshToken in
   let* now := svc_now s in
   let* r := call (RotateRefreshToken hash now) in
   match r with
   | Rotated rt => refreshFrom s rt
   | RotateErr rt err =>
       if errors_Is err store.ErrTokenNotFound then
         Ret (Err (EWrap2 auth.ErrInvalidCredentials err []))
       else if errors_Is err store.ErrTokenExpired then
         Ret (Err (EWrap2 auth.ErrInvalidCredentials auth.ErrTokenExpired []))
       else if errors_Is err store.ErrTokenRevoked then
         match rt with
         | None => Ret (Err nil_deref)
         | Some rt =>
             try dup := isDuplicateRefresh s rt now catch err => Ret (Err err) in
             if negb dup then
               let* e := revokeReusedFamily s rt in Ret (Err e)
             else
               match rt_RotatedAt rt with
               | None => Ret (Err nil_deref)
               | Some rotatedAt =>
                   log (mkLog false LevelInfo "duplicate refresh within reuse leeway"
                          [("user_id", AString (rt_UserID rt));
                           ("since_rotation", ADuration (Sub now rotatedAt))]) ;;;
                   refreshFrom s rt
               end
         end
       else Ret (Err (wrap "rotate refresh token" err))
   end)%prog.

Definition Service_Logout (s : Service) (refreshToken : string) : prog (res unit) :=
  (let* r := call (GetRefreshToken (HashToken refreshToken)) in
   match r with
   | Err err =>
       if errors_Is err store.ErrTokenNotFound then Ret (Ok tt)
       else Ret (Err (wrap "get refresh token" err))
   | Ok rt => call (RevokeTokens (familyRoot rt))
   end)%prog.

(** ** Password sign-up and sign-in *)

Section passwords.
Context `{UnicodeTables}.

Definition Service_Register (s : Service) (email password : string) : prog (res AuthResult) :=
  (match NormalizeEmail email with
   | Err err => Ret (Err (wrap "validate email" err))
   | Ok email =>
       match ValidatePassword password with
       | Some err => Ret (Err (wrap "validate password" err))
       | None =>
           match localProvider s with
           | None => Ret (Err auth.ErrProviderNotConfigured)
           | Some p =>
               let* r := p_Register p (mkRegisterRequest email password) in
               match r with
               | Err err =>
                   if errors_Is err store.ErrUserExists
                   then Ret (Err (wrap "register" auth.ErrUserExists))
                   else Ret (Err (wrap "register" err))
               | Ok identity =>
                   try tokenPair := issueTokens s (identity_UserID identity) (identity_Email identity) [] ""
                     catch err =>
                       Ret (Err (EAccount (mkAccountChange (identity_UserID identity) true false)
                                   (wrap "issue tokens" err))) in
                   Ret (Ok (mkAuthResult (identity_UserID identity) (identity_Email identity) tokenPair))
               end
           end
       end
   end)%prog.

Definition Service_Login (s : Service) (email password : string) : prog (res AuthResult) :=
  (match localProvider s with
   | None => Ret (Err auth.ErrProviderNotConfigured)
   | Some p =>
       match NormalizeEmail email with
       | Err _ => Ret (Err (ECredentials ReasonMalformedCredentials ""))
       | Ok email =>
           let* r := p_Authenticate p (mkAuthRequest email password) in
           match r with
           | Err err =>
               if errors_Is err auth.ErrInvalidCredentials then
                 match as_credentials err with
                 | Some (reason, uid) => Ret (Err (ECredentials reason uid))
                 | None => Ret (Err auth.ErrInvalidCredentials)
                 end
               else Ret (Err (wrap "authenticate" err))
           | Ok identity =>
               let change := mkAccountChange (identity_UserID identity) false false in
               try user := call (GetByID (identity_UserID identity))
                 catch err => Ret (Err (EAccount change (wrap "get user" err))) in
               try tokenPair := issueTokens s (identity_UserID identity) (identity_Email identity)
                                  (user_Roles user) ""
                 catch err => Ret (Err (EAccount change (wrap "issue tokens" err))) in
               Ret (Ok (mkAuthResult (identity_UserID identity) (identity_Email identity) tokenPair))
           end
       end
   end)%prog.
End passwords.

(** ** Personal access tokens *)

(** [pat.ExpiresAt != nil && time.Now().After( *pat.ExpiresAt )] *)
Definition patExpiredNow (pat : PersonalAccessToken) : prog bool :=
  (match pat_ExpiresAt pat with
   | None => Ret false
   | Some e => let* now := time_Now in Ret (After now e)
   end)%prog.

(** Whether the last-used time is due for an update. *)
Definition touchDue (s : Service) (pat : PersonalAccessToken) : prog bool :=
  (let interval := pc_TouchInterval (patConfig s) in
   if interval <? 0 then Ret true
   else match pat_LastUsedAt pat with
        | None => Ret true
        | Some l => let* now := time_Now in Ret (interval <=? Sub now l)   (* time.Since *)
        end)%prog.

Definition touchLastUsed (s : Service) (pat : PersonalAccessToken) : prog unit :=
  (let* due := touchDue s pat in
   if (due : bool) then
     let* now := time_Now in
     let* _t := call (TouchPAT (pat_Hash pat) now) in Ret tt
   else Ret tt)%prog.

Definition verifyPAT (s : Service) (accessToken : string) : prog (res Claims) :=
  (if negb (patStore s) then Ret (Err auth.ErrInvalidCredentials)
   else
     let* r := call (GetPAT (HashToken accessToken)) in
     match r with
     | Err err =>
         if errors_Is err store.ErrTokenNotFound then
           Ret (Err (EWrap2 auth.ErrInvalidCredentials err []))
         else Ret (Err (wrap "get pat" err))
     | Ok pat =>
         let* expired := patExpiredNow pat in
         if (expired : bool) then Ret (Err (EWrap2 auth.ErrInvalidCredentials auth.ErrTokenExpired []))
         else
           let* u := call (GetByID (pat_UserID pat)) in
           match u with
           | Err err =>
               if errors_Is err store.ErrUserNotFound then Ret (Err auth.ErrInvalidCredentials)
               else Ret (Err (wrap "get user" err))
           | Ok user =>
               touchLastUsed s pat ;;;
               Ret (Ok (mkClaims (user_ID user) (user_Email user) (user_Roles user) JWTIssuer 0 0))
           end
     end)%prog.

Definition Service_Verify (s : Service) (accessToken : string) : prog (res Claims) :=
  (if HasPrefix accessToken PATPrefix then verifyPAT s accessToken
   else
     try claims := ti_ParseToken (issuer s) accessToken
       catch err => Ret (Err (EWrap2 auth.ErrInvalidCredentials err [])) in
     Ret (Ok claims))%prog.

(** The checks on a requested expiry; [None] is acceptance. *)
Definition checkExpiry (maxTTL : duration) (now : time) (expiresAt : option time) : option error :=
  match expiresAt with
  | Some e =>
      if negb (After e now) then
        Some (EWrap [] auth.ErrPATExpiryInvalid [Lit ": expiry is in the past"])
      else if (0 <? maxTTL) && (maxTTL <? Sub e now) then
        Some (EWrap [] auth.ErrPATExpiryInvalid [Lit ": expiry exceeds max ttl "; ArgDur maxTTL])
      else None
  | None =>
      if 0 <? maxTTL then
        Some (EWrap [] auth.ErrPATExpiryInvalid
                [Lit ": expiry is required (max ttl "; ArgDur maxTTL; Lit ")"])
      else None
  end.

Definition Service_CreatePAT (s : Service) (userID name : string) (scopes : list string)
    (expiresAt : option time) : prog (res PATResult) :=
  (if negb (patStore s) then Ret (Err auth.ErrPATDisabled)
   else
     let name := TrimSpace name in
     if strEq name "" then Ret (Err auth.ErrPATNameRequired)
     else if maxPATNameLength <? Z.of_nat (String.length name) then Ret (Err auth.ErrPATNameTooLong)
     else
       let* now := time_Now in
       match checkExpiry (pc_MaxTTL (patConfig s)) now expiresAt with
       | Some err => Ret (Err err)
       | None =>
           try g := GeneratePAT catch err => Ret (Err (wrap "generate pat" err)) in
           let '(plaintext, hash) := g in
           let* id := perform UUIDNewString in
           let pat := mkPAT id hash userID name scopes expiresAt None now in
           let* r := if 0 <? pc_MaxPerUser (patConfig s)
                     then call (SavePATLimited pat (pc_MaxPerUser (patConfig s)) now)
                     else call (SavePAT pat) in
           match r with
           | Err err =>
               if errors_Is err store.ErrPATLimitReached then Ret (Err auth.ErrPATLimitReached)
               else Ret (Err (wrap "save pat" err))
           | Ok pat => Ret (Ok (mkPATResult plaintext pat))
           end
       end)%prog.

Definition Service_ListPATs (s : Service) (userID : string) : prog (res (list PersonalAccessToken)) :=
  if negb (patStore s) then Ret (Err auth.ErrPATDisabled)
  else call (ListPATs userID).

(** [uuid.Parse], then [String()]: the canonical spelling. *)
Class UUIDLib := uuid_Parse : string -> res string.

Definition Service_RevokePAT `{UUIDLib} (s : Service) (userID id : string) : prog (res unit) :=
  (if negb (patStore s) then Ret (Err auth.ErrPATDisabled)
   else match uuid_Parse id with
        | Err _ => Ret (Err (wrapS auth.ErrPATNotFound id))
        | Ok parsed =>
            let* r := call (DeletePAT userID parsed) in
            match r with
            | Err err =>
                if errors_Is err store.ErrTokenNotFound then Ret (Err (wrapS auth.ErrPATNotFound id))
                else Ret (Err err)
            | Ok _ => Ret (Ok tt)
            end
        end)%prog.
