(* ===== verification/Refresh.v ===== *)
(** * Refresh token rotation, verified

    [refresh_spec] is what [Service.Refresh] promises, case by case, over the
    abstract database; [wp_Refresh] shows the program follows it for every store
    that honours the contract.  The theorems read the specification: rejections
    and outages are told apart, a session stays with its user and family, reuse
    ends the family, and the leeway window is exactly the documented one. *)

From S2P Require Import Prelude GoStrings GoTime GoEncoding Errors Entity Ports Contract ContractFacts WpRules Memory MemoryFacts Histories Token Interfaces Service.

(** What the service relies on of its issuer and its clock. *)
Class ServiceSpec `{Faults} (s : Service) := {
  svc_issuer :: IssuerSpec (issuer s);
  svc_clock : forall `{Backend, Reads} Q a, (forall t, reads t -> Q t a) -> wp (svc_now s) Q a
}.

(** The pair's access token speaks for the user as the user is now. *)
Definition speaks_for `{Faults, !ServiceSpec s} (tp : TokenPair) (u : User) : Prop :=
  issued_for tp (user_ID u) (user_Email u) (user_Roles u).
#[global] Arguments speaks_for {_} s {_} tp u.

Lemma wp_time_Now `{Backend, Reads, Faults} {A} (k : time -> prog A) Q a :
  (forall t, reads t -> wp (k t) Q a) -> wp (bind time_Now k) Q a.
Proof. intros Hk t. apply Hk. Qed.

Lemma run_time_Now {S} `{!StoreImpl S} o {A} (k : time -> prog A) (w : world S) :
  run o (bind time_Now k) w = run o (k (o_now o (w_tick w))) (tick w).
Proof. done. Qed.

Lemma wp_svc_now `{Backend, Reads, Faults} {A} `{!ServiceSpec s} (k : time -> prog A) Q a :
  (forall t, reads t -> wp (k t) Q a) -> wp (bind (svc_now s) k) Q a.
Proof. intros Hk. rewrite wp_bind. by apply svc_clock. Qed.

(** ** Issuing a session's token *)

(** The row [issueTokens] saves at [now]; [st] is its creation time as stored. *)
Definition session_token (tp : TokenPair) (userID parent : string) (now st : time) : RefreshToken :=
  mkRefreshToken (HashToken (tp_RefreshToken tp)) userID parent (Add now RefreshTokenTTL) st false None None.

Definition with_session (a : db) (tp : TokenPair) (userID parent : string) (now st : time) : db :=
  with_tokens a (<[HashToken (tp_RefreshToken tp) := session_token tp userID parent now st]> (d_tokens a)).

(** What an infrastructure failure of [issueTokens] may leave. *)
Definition issue_left `{Reads} (a : db) (userID parent : string) (a' : db) : Prop :=
  a' = a \/ exists tp now st, reads now /\ a' = with_session a tp userID parent now st.

Lemma wp_issueTokens `{Backend, Reads, Faults} `{!ServiceSpec s} userID email roles parent Q a :
  (forall tp now st a', issued_for tp userID email roles -> reads now -> ~ root_unusable parent (d_tokens a) -> is_Some (d_users a !! userID) -> db_ok a' ->
     a' = with_session a tp userID parent now st -> Q (Ok tp) a') ->
  (forall e, root_unusable parent (d_tokens a) -> exactly e store.ErrTokenRevoked ->
     Q (Err (wrap "save refresh token" e)) a) ->
  (forall e, ~ root_unusable parent (d_tokens a) -> d_users a !! userID = None ->
     exactly e store.ErrUserNotFound -> Q (Err (wrap "save refresh token" e)) a) ->
  (forall e a', broken e -> issue_left a userID parent a' -> Q (Err e) a') ->
  wp (issueTokens s userID email roles parent) Q a.
Proof.
  intros HOk Hrev Hgone Hout. unfold issueTokens. rewrite wp_bind.
  apply issuer_generate; [|intros e He Hf; apply Hout; [eauto with errs|by left]].
  intros tp Htp. apply wp_svc_now. intros now Hnow. apply wp_SaveRefreshToken; [done..| | | |]; cbn.
  - intros st a' Hu Hs Hok ->. eapply (HOk tp now); eauto.
  - eauto.
  - eauto.
  - intros e a' He (Hob & Hok & env & _ & Ho). apply Hout; [by apply broken_outage|].
    destruct Ho as [->|[[y Hp]|[[] _]]]; [by left|]. cbn in Hp.
    destruct Hp as [(_ & _ & ->)|[_ Hp]]; [by left|].
    destruct (d_users a !! userID); [|by left; destruct Hp].
    destruct Hp as (r & Hr & _ & ->). apply token_row_issued in Hr as ->; [|done..]. right. by eexists tp, now, _.
Qed.

(** ** The specification *)

(** Why the presented token may still be exchanged although it was rotated. *)
Definition within_leeway (leeway : duration) (m : gmap string RefreshToken) (t : RefreshToken) (now : time)
  : Prop :=
  leeway <> 0 /\ now < rt_ExpiresAt t /\
  exists r, rt_RotatedAt t = Some r /\ - leeway <= Sub now r <= leeway /\
    (forall h t', m !! h = Some t' -> in_family (familyRoot t) t' = true -> rt_EndedAt t' = None) /\
    (forall h t' r', m !! h = Some t' -> in_family (familyRoot t) t' = true ->
       rt_RotatedAt t' = Some r' -> r' <= r).

(** The presented token [t] entitles its bearer to a new pair: it was live and
    is now rotated, or it is the retry of the rotation that spent it. *)
Definition entitled (leeway : duration) (a : db) (h : string) (now : time) (t : RefreshToken) (a1 : db) : Prop :=
  d_tokens a !! h = Some t /\
  (rt_Revoked t = false /\ now < rt_ExpiresAt t /\
     a1 = with_tokens a (<[h := rotate now t]> (d_tokens a)) \/
   rt_Revoked t = true /\ within_leeway leeway (d_tokens a) t now /\ a1 = a).

Inductive refresh_spec `{Backend, Reads, Faults, !ServiceSpec s} (leeway : duration) (a : db) (h : string) (now : time)
  : res TokenPair -> db -> Prop :=
| rs_unknown e :
    d_tokens a !! h = None -> errors_Is e auth.ErrInvalidCredentials = true ->
    refresh_spec leeway a h now (Err e) a
| rs_expired t e :
    d_tokens a !! h = Some t -> rt_Revoked t = false -> rt_ExpiresAt t <= now ->
    errors_Is e auth.ErrInvalidCredentials = true -> errors_Is e auth.ErrTokenExpired = true ->
    refresh_spec leeway a h now (Err e) a
| rs_exchanged t user tp now' st a1 :
    entitled leeway a h now t a1 -> d_users a !! rt_UserID t = Some user ->
    ~ root_unusable (familyRoot t) (d_tokens a1) -> speaks_for s tp user -> reads now' ->
    refresh_spec leeway a h now (Ok tp) (with_session a1 tp (rt_UserID t) (familyRoot t) now' st)
| rs_ended t a1 :
    entitled leeway a h now t a1 -> root_unusable (familyRoot t) (d_tokens a1) ->
    refresh_spec leeway a h now (Err (ETokenReuse (rt_UserID t))) a1
| rs_reuse t now' :
    d_tokens a !! h = Some t -> rt_Revoked t = true -> ~ within_leeway leeway (d_tokens a) t now ->
    refresh_spec leeway a h now (Err (ETokenReuse (rt_UserID t)))
      (with_tokens a (end_family now' (familyRoot t) (d_tokens a)))
| rs_reuse_outage t a' :
    d_tokens a !! h = Some t -> rt_Revoked t = true -> ~ within_leeway leeway (d_tokens a) t now ->
    left_by a (RevokeTokens (familyRoot t)) a' ->
    refresh_spec leeway a h now (Err (ETokenReuse (rt_UserID t))) a'
| rs_outage e :
    broken e -> refresh_spec leeway a h now (Err e) a
| rs_outage_spent t a1 a' e :
    entitled leeway a h now t a1 -> issue_left a1 (rt_UserID t) (familyRoot t) a' ->
    broken e -> refresh_spec leeway a h now (Err e) a'.

Section refresh.
Context `{Backend, Reads, Faults} `{!ServiceSpec s} (a : db) (Hok : db_ok a).

Lemma wp_refreshFrom t h now (a1 : db) :
  entitled (refreshReuseLeeway s) a h now t a1 -> db_ok a1 ->
  forall t1, rt_UserID t1 = rt_UserID t -> familyRoot t1 = familyRoot t ->
  wp (refreshFrom s t1) (refresh_spec (refreshReuseLeeway s) a h now) a1.
Proof.
  intros Hent Hok1 t1 Huid Hroot. unfold refreshFrom. pose proof Hent as [Hl Hcase].
  assert (d_users a1 = d_users a) as Hus by (by destruct Hcase as [(_ & _ & ->)|(_ & _ & ->)]).
  destruct (ok_tokens _ Hok _ _ Hl) as [_ [u Hu]].
  apply wp_GetByID; rewrite ?Huid, ?Hus.
  - intros u' Hu'. pose proof (ok_users _ Hok _ _ Hu') as Hid. rewrite wp_bind. apply wp_issueTokens.
    + intros tp now' st a' Htp Hread Hr _ _ ->. rewrite Hroot in *. cbn. rewrite Hid in *.
      eapply (rs_exchanged _ _ _ _ t u'); eauto. unfold speaks_for. by rewrite Hid.
    + intros e Hr He. cbn. decide_is. cbn. rewrite Hroot in Hr. by eapply rs_ended.
    + intros e _ Hn. rewrite Hid, Hus in Hn. congruence.
    + intros e a' He Hleft. cbn. decide_is. rewrite Hid, Hroot in Hleft. by eapply rs_outage_spent.
  - intros e Hn. congruence.
  - intros e Hout He. decide_is. eapply rs_outage_spent; [done|by left|by apply broken_outage].
Qed.

(** A rotation whose answer was lost may still have happened. *)
Lemma rotate_left h now a' :
  left_by a (RotateRefreshToken h now) a' ->
  a' = a \/ exists t, d_tokens a !! h = Some t /\ rt_Revoked t = false /\ now < rt_ExpiresAt t /\
    a' = with_tokens a (<[h := rotate now t]> (d_tokens a)).
Proof.
  intros (_ & _ & env & _ & [->|[[y Hp]|[[] _]]]); [by left|]. cbn in Hp.
  destruct (d_tokens a !! h) as [t|] eqn:E; [|left; apply Hp].
  destruct (rt_Revoked t) eqn:Er; [left; apply Hp|].
  destruct (rt_ExpiresAt t <=? now) eqn:Ee; [left; apply Hp|].
  right. exists t. split_and!; [done|done|lia|apply Hp].
Qed.

(** The leeway test answers exactly [within_leeway]. *)
Lemma wp_isDuplicateRefresh t now Q :
  (forall b : bool, (if b then within_leeway (refreshReuseLeeway s) (d_tokens a) t now
            else ~ within_leeway (refreshReuseLeeway s) (d_tokens a) t now) -> Q (Ok b) a) ->
  (forall e, outages = true -> infrastructure e = true -> Q (Err e) a) ->
  (exists h, d_tokens a !! h = Some t) ->
  wp (isDuplicateRefresh s t now) Q a.
Proof.
  intros HOk HErr [h Hl]. unfold isDuplicateRefresh, After, Before.
  destruct (rt_RotatedAt t) as [r|] eqn:Er.
  2: { apply (HOk false). intros (_ & _ & r & Hr & _). congruence. }
  destruct (_ || _) eqn:E1.
  { apply (HOk false). intros (? & ? & _). lia. }
  destruct (_ || _) eqn:E2 in |- *.
  { apply (HOk false). intros (_ & _ & r' & Hr & ? & _). simplify_eq. lia. }
  apply wp_GetRefreshFamily; [|intros e Hf He; cbn; by apply HErr].
  intros f [Hend Hlast].
  assert (in_family (familyRoot t) t = true) as Hself.
  { unfold familyRoot. destruct (strEq (rt_Parent t) "") eqn:Ep;
      [by apply in_family_Hash|by apply in_family_Parent]. }
  destruct (rf_LastRotatedAt f) as [l|].
  2: { apply (HOk false). rewrite (Hlast h t) in Er by done. congruence. }
  destruct Hlast as [(h1 & t1 & Hl1 & Hf1 & Hr1) Hmax].
  destruct (rf_SessionEnded f).
  { apply (HOk false). intros (_ & _ & r' & _ & _ & Hne & _).
    destruct (proj1 Hend eq_refl) as (h2 & t2 & Hl2 & Hf2 & [x Hx]). rewrite (Hne _ _ Hl2 Hf2) in Hx. done. }
  cbn. apply HOk. destruct (r <? l) eqn:Erl; cbn.
  - intros (_ & _ & r' & Hr & _ & _ & Hm). simplify_eq. specialize (Hm _ _ _ Hl1 Hf1 Hr1). lia.
  - split; [lia|]. split; [lia|]. exists r. split_and!; [done|lia|lia| |].
    + intros h2 t2 Hl2 Hf2. destruct (rt_EndedAt t2) eqn:E; [|done].
      cut (false = true); [done|]. apply Hend. eauto.
    + intros h2 t2 r2 Hl2 Hf2 Hr2. specialize (Hmax _ _ _ Hl2 Hf2 Hr2). lia.
Qed.

Lemma wp_Refresh tok :
  wp (Service_Refresh s tok)
    (fun r a' => exists now, reads now /\ refresh_spec (refreshReuseLeeway s) a (HashToken tok) now r a') a.
Proof.
  unfold Service_Refresh. apply wp_svc_now. intros now Hnow.
  set (Q := refresh_spec (refreshReuseLeeway s) a (HashToken tok) now).
  apply (wp_mono _ Q); [eauto|]. subst Q.
  apply wp_RotateRefreshToken.
  - intros t a' Hl Hr He Hok' ->. apply (wp_refreshFrom t); [|done..]. split; auto.
  - intros e Hn He. decide_is. apply rs_unknown; [done|]. reflexivity.
  - intros t e Hl Hr He. decide_is. rewrite wp_bind.
    apply wp_isDuplicateRefresh; [|intros e' Hout He'; by apply rs_outage, broken_outage|eauto].
    intros [] Hd; cbn [negb].
    + pose proof Hd as (_ & _ & r & -> & _). cbn. apply (wp_refreshFrom t); [|done..]. split; auto.
    + rewrite wp_bind. unfold revokeReusedFamily. apply wp_RevokeTokens.
      * intros now' a' _ ->. cbn. by apply rs_reuse.
      * intros e' a' He' Hleft. cbn. by eapply rs_reuse_outage.
  - intros t e Hl Hr Hexp He. decide_is. by eapply rs_expired.
  - intros e a' He Hleft. decide_is. destruct (rotate_left _ _ _ Hleft) as [->|(t & Hl & Hr & He' & ->)].
    + apply rs_outage. eauto with errs.
    + eapply rs_outage_spent; [split; [exact Hl|by left]|by left|eauto with errs].
Qed.
End refresh.

Lemma infra_not_rejected e t : errors_Is e t = true -> infrastructure e = false.
Proof.
  intros H. destruct (infrastructure e) eqn:E; [|done]. by rewrite (infrastructure_Is _ _ E) in H.
Qed.

Lemma refresh_spec_error `{Backend, Reads, Faults, !ServiceSpec s} leeway a h now e a' :
  refresh_spec leeway a h now (Err e) a' ->
  errors_Is e auth.ErrInvalidCredentials = negb (infrastructure e).
Proof.
  remember (Err e) as r eqn:Er. intros Hs.
  destruct Hs as [e' _ He|t e' _ _ _ He _| | | | |e' He|t a1 a' e' _ _ He]; simplify_eq; try done.
  1-2: by rewrite He, (infra_not_rejected _ _ He).
  all: apply broken_infra in He; by rewrite He, (infrastructure_Is _ _ He).
Qed.

(** A member of the family other than the root has the root as parent. *)
Lemma familyRoot_in t : in_family (familyRoot t) t = true.
Proof.
  unfold familyRoot. destruct (strEq (rt_Parent t) "") eqn:E;
    [by apply in_family_Hash|by apply in_family_Parent].
Qed.

Lemma familyRoot_session tp uid t now st :
  rt_Hash t <> "" -> familyRoot (session_token tp uid (familyRoot t) now st) = familyRoot t.
Proof.
  intros Hh. unfold familyRoot at 1. cbn. destruct (strEq (familyRoot t) "") eqn:E; [|done].
  apply strEq_true in E. unfold familyRoot in E. destruct (strEq (rt_Parent t) "") eqn:Ep; [done|].
  by apply strEq_false in Ep.
Qed.

Lemma wp_Logout `{Backend, Reads, Faults} s tok a :
  wp (Service_Logout s tok) (fun r a' =>
    match d_tokens a !! HashToken tok with
    | None => (r = Ok tt \/ exists e, r = Err e /\ infrastructure e = true /\ outages = true) /\ a' = a
    | Some t =>
        r = Ok tt /\ (exists now, a' = with_tokens a (end_family now (familyRoot t) (d_tokens a))) \/
        (exists e, r = Err e /\ infrastructure e = true /\ outages = true)
    end) a.
Proof.
  unfold Service_Logout. apply wp_GetRefreshToken.
  - intros t Hl. rewrite Hl. intros env x a' _ Hok' [Hp|(Hf & (e & -> & He) & _)]; cbn; [|eauto 10].
    cbn in Hp. destruct Hp as [-> ->]. eauto.
  - intros e Hn He. decide_is. cbn. rewrite Hn. auto.
  - intros e Hout He. decide_is. cbn. case_match; eauto 10.
Qed.

Section theorems.
Context {S : Type} `{!StoreImpl S, !StoreContract S, Faults} (o : oracle) `{!ServiceSpec s}.

Lemma run_Refresh tok w r w' :
  oracle_ok o -> sc_inv (w_store w) -> run o (Service_Refresh s tok) w = (r, w') ->
  let _ : Reads := read_during o w w' in
  exists now, reads now /\
    refresh_spec (refreshReuseLeeway s) (sc_view (w_store w)) (HashToken tok) now r
      (sc_view (w_store w')).
Proof.
  intros Ho Hinv Hrun R. exact (proj1 (wp_sound o _ _ _ _ _ Ho Hinv (wp_Refresh _ (sc_ok _ Hinv) tok) Hrun)).
Qed.

(** C3. [Refresh] implements its specification: for every store honouring the
    contract, every environment and every token, its answer and the next
    database are those of the documented case the token is in at a moment the
    clock showed during the request. *)
Theorem Refresh_refines_spec tok w r w' :
  oracle_ok o -> sc_inv (w_store w) -> run o (Service_Refresh s tok) w = (r, w') ->
  let _ : Reads := read_during o w w' in
  exists now, reads now /\
    refresh_spec (refreshReuseLeeway s) (sc_view (w_store w)) (HashToken tok) now r
      (sc_view (w_store w')).
Proof.
  apply run_Refresh.
Qed.

(** A failed [Refresh] is classified: the error matches
    [ErrInvalidCredentials] exactly when it is a rejection of the token, and
    otherwise is an infrastructure failure, so an outage never reads as a bad
    token nor the reverse. *)
Theorem Refresh_errors_classified tok w e w' :
  oracle_ok o -> sc_inv (w_store w) -> run o (Service_Refresh s tok) w = (Err e, w') ->
  errors_Is e auth.ErrInvalidCredentials = negb (infrastructure e).
Proof.
  intros Ho Hinv (now & _ & Hr)%run_Refresh; [|done..]. by eapply refresh_spec_error.
Qed.

(** A successful [Refresh] continues the session it was given: the new
    refresh token is stored, live, for the same user and in the same family as
    the presented one, the access token speaks for that user's present email
    and roles; and the presented token is then spent, so it cannot be rotated
    again. *)
Theorem Refresh_continues_session tok w tp w' :
  oracle_ok o -> sc_inv (w_store w) -> run o (Service_Refresh s tok) w = (Ok tp, w') ->
  let a := sc_view (w_store w) in let a' := sc_view (w_store w') in
  exists t t', d_tokens a !! HashToken tok = Some t /\
    d_tokens a' !! HashToken (tp_RefreshToken tp) = Some t' /\
    rt_UserID t' = rt_UserID t /\ familyRoot t' = familyRoot t /\
    rt_Revoked t' = false /\ rt_EndedAt t' = None /\
    (exists u, d_users a !! rt_UserID t = Some u /\ speaks_for s tp u) /\
    (HashToken (tp_RefreshToken tp) <> HashToken tok ->
     exists t1, d_tokens a' !! HashToken tok = Some t1 /\ rt_Revoked t1 = true).
Proof.
  intros Ho Hinv (now & _ & Hr)%run_Refresh a a'; [|done..]. pose proof (sc_ok _ Hinv) as Hok.
  fold a a' in Hr, Hok. clearbody a a'. remember (Ok tp) as r eqn:Er.
  destruct Hr as [| |t user tp' now' st a1 [Hl Hcase] Hu Hroot Htp _| | | | |]; simplify_eq.
  exists t, (session_token tp (rt_UserID t) (familyRoot t) now' st).
  assert (rt_Hash t <> "") as Hne.
  { rewrite (proj1 (ok_tokens _ Hok _ _ Hl)). apply HashToken_nonempty. }
  split_and!; [done| |done|by apply familyRoot_session|done|done|by exists user|].
  - cbn. apply lookup_insert_eq.
  - intros Hneq. cbn. rewrite lookup_insert_ne by done.
    destruct Hcase as [(_ & _ & ->)|(Hr & _ & ->)]; [|eauto].
    cbn. rewrite lookup_insert_eq. eauto.
Qed.

(** C7. Replaying a spent token outside the leeway ends the session: with a
    store that answers, the caller is told of the reuse and every token of the
    family is revoked and ended, so neither the thief nor the owner can go on
    with it. *)
Theorem Refresh_reuse_ends_session tok w r w' t :
  oracle_ok o -> sc_inv (w_store w) -> outages = false -> svc_now s = time_Now ->
  d_tokens (sc_view (w_store w)) !! HashToken tok = Some t -> rt_Revoked t = true ->
  ~ within_leeway (refreshReuseLeeway s) (d_tokens (sc_view (w_store w))) t (o_now o (w_tick w)) ->
  run o (Service_Refresh s tok) w = (r, w') ->
  r = Err (ETokenReuse (rt_UserID t)) /\ ended (familyRoot t) (sc_view (w_store w')).
Proof.
  intros Ho Hinv Hout Hclock Hl Hr Hd. pose proof (sc_ok _ Hinv) as Hok.
  unfold Service_Refresh. rewrite Hclock. cbv zeta. rewrite run_time_Now.
  set (now := o_now o (w_tick w)) in *. intros Hrun.
  refine (proj1 (wp_sound o _ (fun r a' => r = Err (ETokenReuse (rt_UserID t)) /\ ended (familyRoot t) a')
    (tick w) r w' Ho Hinv _ Hrun)). cbn [w_store tick].
  apply (wp_RotateRefreshToken _ _ (HashToken tok) now); try congruence.
  - intros t' e Hl' _ He. rewrite Hl in Hl'. simplify_eq. decide_is. rewrite wp_bind.
    apply wp_isDuplicateRefresh; [|congruence|eauto].
    intros [] Hb; [done|]. cbn [negb]. rewrite wp_bind.
    apply wp_RevokeTokens; [|intros e' a' _ (Hf & _); congruence].
    intros now' a' _ ->. cbn. split; [done|]. by apply end_family_ended.
  - intros e a' _ (Hf & _). congruence.
Qed.

(** The leeway test is exact: a replayed token counts as a duplicate of a
    legitimate refresh exactly when the leeway is on, the token is unexpired,
    was revoked by rotation no further than the leeway from now on either side
    of the clock, is the family's latest rotation, and the session has not
    ended. *)
Theorem isDuplicateRefresh_exact t now w r w' h :
  oracle_ok o -> sc_inv (w_store w) -> d_tokens (sc_view (w_store w)) !! h = Some t ->
  run o (isDuplicateRefresh s t now) w = (r, w') ->
  match r with
  | Ok b => b = true <-> within_leeway (refreshReuseLeeway s) (d_tokens (sc_view (w_store w))) t now
  | Err e => outages = true /\ infrastructure e = true
  end.
Proof.
  intros Ho Hinv Hl Hrun. pose proof (sc_ok _ Hinv) as Hok.
  refine (proj1 (wp_sound o _ (fun r _ => match r with
    | Ok b => b = true <-> within_leeway (refreshReuseLeeway s) (d_tokens (sc_view (w_store w))) t now
    | Err e => outages = true /\ infrastructure e = true end) w r w' Ho Hinv _ Hrun)).
  apply wp_isDuplicateRefresh; [|done|eauto]. intros []; [done|]. intros Hn. by split.
Qed.

(** C30. Logging out ends the whole session: when [Logout] reports success for a
    known token, whichever member of the family it is, every token of the
    family is revoked and ended; an unknown token is accepted and changes
    nothing; only an outage makes it fail. *)
Theorem Logout_ends_session tok w r w' :
  oracle_ok o -> sc_inv (w_store w) -> run o (Service_Logout s tok) w = (r, w') ->
  match d_tokens (sc_view (w_store w)) !! HashToken tok with
  | Some t => r = Ok tt -> ended (familyRoot t) (sc_view (w_store w'))
  | None => sc_view (w_store w') = sc_view (w_store w)
  end /\
  (forall e, r = Err e -> infrastructure e = true /\ outages = true).
Proof.
  intros Ho Hinv Hrun. pose proof (sc_ok _ Hinv) as Hok.
  pose proof (proj1 (wp_sound o _ _ _ _ _ Ho Hinv (@wp_Logout _ (read_during o w w') _ s tok _) Hrun)) as Hr. cbn in Hr.
  destruct (d_tokens _ !! HashToken tok) as [t|] eqn:Hl.
  - destruct Hr as [[-> [now ->]]|(e & -> & He)].
    + split; [|done]. intros _. by apply end_family_ended.
    + split; [done|]. by intros e' [= <-].
  - destruct Hr as [[->|(e & -> & He)] ->]; (split; [done|]); [done|]. by intros e' [= <-].
Qed.
(** C16. A healthy service lets its users go on: when the store and the sources
    answer, a refresh token that is stored, live and unexpired throughout the
    request, of a session that has not ended, is always exchanged. *)
Theorem Refresh_live tok w r w' t :
  oracle_ok o -> sc_inv (w_store w) -> outages = false -> faults = false ->
  d_tokens (sc_view (w_store w)) !! HashToken tok = Some t -> rt_Revoked t = false ->
  ~ root_unusable (familyRoot t) (d_tokens (sc_view (w_store w))) ->
  (forall now, read_during o w w' now -> now < rt_ExpiresAt t) ->
  run o (Service_Refresh s tok) w = (r, w') -> exists tp, r = Ok tp.
Proof.
  intros Ho Hinv Hout Hf Hl Hr Hroot Hexp (now & Hnow & Hs)%run_Refresh; [|done..].
  specialize (Hexp now Hnow). clear Hnow.
  destruct Hs as [e|t' e Hl' _ He'| |t' a1 [Hl' Hcase] Hu|t' ? Hl' Hr'|t' ? Hl' Hr'|e [_ Hd]|t' a1 ? e _ _ [_ Hd]];
    simplify_eq; try (destruct Hd; congruence); try congruence; try lia; [eauto|].
  exfalso. apply Hroot. destruct Hcase as [(_ & _ & Ha)|(? & _)]; [|congruence].
  rewrite Ha in Hu. destruct Hu as [Hne Hu]. split; [done|]. cbn in Hu. destruct (decide (familyRoot t = HashToken tok)) as [E|E].
  - rewrite E in *. rewrite lookup_insert_eq in Hu. by rewrite Hl.
  - by rewrite lookup_insert_ne in Hu.
Qed.
End theorems.
