(* ===== verification/AccessTokens.v ===== *)
(** * Personal access tokens, verified

    [verify_spec] and [create_spec] state what [Service.Verify] does with a
    personal access token and what [Service.CreatePAT] creates, over the abstract
    database. *)

From S2P Require Import Prelude GoStrings GoTime GoEncoding Errors Entity Ports Contract ContractFacts WpRules Token Interfaces Service Refresh.

(** ** Verification *)

Definition pat_claims (u : User) : Claims :=
  mkClaims (user_ID u) (user_Email u) (user_Roles u) JWTIssuer 0 0.

(** At most the last-used time of the token changed. *)
Definition touched `{Reads} (h : string) (a a' : db) : Prop :=
  a' = a \/ exists t, reads t /\ a' = with_pats a (alter (touch t) h (d_pats a)).

Inductive verify_spec `{Backend, Reads} (a : db) (h : string) : res Claims -> db -> Prop :=
| vs_unknown e :
    d_pats a !! h = None -> errors_Is e auth.ErrInvalidCredentials = true -> verify_spec a h (Err e) a
| vs_expired p e now :
    d_pats a !! h = Some p -> reads now -> pat_expired now p = true ->
    errors_Is e auth.ErrInvalidCredentials = true -> errors_Is e auth.ErrTokenExpired = true ->
    verify_spec a h (Err e) a
| vs_valid p u a' :
    d_pats a !! h = Some p ->
    pat_ExpiresAt p = None \/ (exists now, reads now /\ pat_expired now p = false) ->
    d_users a !! pat_UserID p = Some u -> touched h a a' ->
    verify_spec a h (Ok (pat_claims u)) a'
| vs_outage e :
    infrastructure e = true -> outages = true -> verify_spec a h (Err e) a.

Section pats.
Context `{Backend, Reads, Faults} (s : Service).

(** The last-used update never fails a verification. *)
Lemma wp_touchLastUsed pat (Q : unit -> db -> Prop) a :
  (forall a', touched (pat_Hash pat) a a' -> Q tt a') -> wp (touchLastUsed s pat) Q a.
Proof.
  intros HQ. unfold touchLastUsed. rewrite wp_bind.
  assert (forall due : bool, wp (if due then
      let* now := time_Now in let* _t := call (TouchPAT (pat_Hash pat) now) in Ret tt
    else Ret tt)%prog Q a) as Hdue.
  { intros []; [|by apply HQ; left]. apply wp_time_Now. intros now Hnow.
    apply wp_TouchPAT. intros r a' _ [->| ->]; apply HQ; [by left|]. right. eauto. }
  unfold touchDue. cbv zeta. destruct (_ <? 0); [apply Hdue|].
  destruct (pat_LastUsedAt pat); [|apply Hdue]. intros now _. apply Hdue.
Qed.

Lemma wp_patExpiredNow pat (Q : bool -> db -> Prop) a :
  (forall b, (exists now, reads now /\ pat_expired now pat = b) \/
             (pat_ExpiresAt pat = None /\ b = false) -> Q b a) ->
  wp (patExpiredNow pat) Q a.
Proof.
  intros HQ. unfold patExpiredNow. destruct (pat_ExpiresAt pat) as [e|] eqn:E; [|apply HQ; auto].
  intros now Hnow. apply HQ. left. exists now. unfold pat_expired. by rewrite E.
Qed.

Lemma wp_verifyPAT tok a :
  db_ok a -> patStore s = true -> wp (verifyPAT s tok) (verify_spec a (HashToken tok)) a.
Proof.
  intros Hok Hs. unfold verifyPAT. rewrite Hs. cbn [negb]. apply wp_GetPAT.
  - intros p Hl. destruct (ok_pats _ Hok _ _ Hl) as [Hh [u Hu]].
    rewrite wp_bind. apply wp_patExpiredNow. intros [] Hexp.
    { destruct Hexp as [(now & Hnow & Hexp)|[_ [=]]]. by eapply vs_expired. }
    apply wp_GetByID.
    + intros u' Hu'. rewrite wp_bind. apply wp_touchLastUsed. intros a' Ha'.
      eapply vs_valid; [done| |done|by rewrite <- Hh]. destruct Hexp as [?|[? _]]; auto.
    + intros e Hn. congruence.
    + intros e Hout He. decide_is. by apply vs_outage.
  - intros e Hn He. decide_is. by apply vs_unknown.
  - intros e Hout He. decide_is. by apply vs_outage.
Qed.

(** ** Creation *)

(** The row [CreatePAT] saves. *)
Definition new_pat (id plaintext userID name : string) (scopes : list string)
    (expiresAt : option time) (now : time) : PersonalAccessToken :=
  mkPAT id (HashToken plaintext) userID (TrimSpace name) scopes expiresAt None now.

(** A cap is enforced on the tokens that have not expired. *)
Definition cap_respected (a : db) (userID : string) (now : time) : Prop :=
  0 < pc_MaxPerUser (patConfig s) ->
  pat_count userID (prune_pats userID now (d_pats a)) < pc_MaxPerUser (patConfig s).

(** The tokens that creating one leaves of those there were: under a cap, the
    user's own that have expired at [now] are dropped. *)
Definition pats_left (a : db) (userID : string) (now : time) : gmap string PersonalAccessToken :=
  if 0 <? pc_MaxPerUser (patConfig s) then prune_pats userID now (d_pats a) else d_pats a.

(** The token that is asked for, made at [now] of the plaintext. *)
Definition token_asked (userID name : string) (scopes : list string) (expiresAt : option time)
    (now : time) (plaintext : string) (p : PersonalAccessToken) : Prop :=
  HasPrefix plaintext PATPrefix = true /\ pat_Hash p = HashToken plaintext /\ pat_UserID p = userID /\
  pat_Name p = TrimSpace name /\ pat_Scopes p = scopes /\ pat_ExpiresAt p = expiresAt /\
  (IsZero now = false -> pat_CreatedAt p = now) /\ pat_LastUsedAt p = None.

(** An expiry must lie ahead and, where there is a limit, within it. *)
Definition expiry_allowed (now : time) (expiresAt : option time) : Prop :=
  match expiresAt with
  | Some e => now < e /\ (0 < pc_MaxTTL (patConfig s) -> Sub e now <= pc_MaxTTL (patConfig s))
  | None => pc_MaxTTL (patConfig s) <= 0
  end.

(** Why no token is made, and what is left then. *)
Inductive create_refused (a : db) (userID name : string) (scopes : list string) (expiresAt : option time)
  : sentinel -> db -> Prop :=
| cr_name : TrimSpace name = "" -> create_refused a userID name scopes expiresAt auth.ErrPATNameRequired a
| cr_long : 100 < Z.of_nat (String.length (TrimSpace name)) ->
    create_refused a userID name scopes expiresAt auth.ErrPATNameTooLong a
| cr_expiry now : reads now -> ~ expiry_allowed now expiresAt ->
    create_refused a userID name scopes expiresAt auth.ErrPATExpiryInvalid a
| cr_limit now : reads now -> 0 < pc_MaxPerUser (patConfig s) -> ~ cap_respected a userID now ->
    create_refused a userID name scopes expiresAt auth.ErrPATLimitReached (with_pats a (pats_left a userID now))
| cr_user : d_users a !! userID = None -> create_refused a userID name scopes expiresAt store.ErrUserNotFound a
| cr_clash now plaintext p a' : reads now -> token_asked userID name scopes expiresAt now plaintext p ->
    pat_clash p (pats_left a userID now) -> a' = a \/ a' = with_pats a (pats_left a userID now) ->
    create_refused a userID name scopes expiresAt store.ErrPATExists a'.

Definition create_spec (a : db) (userID name : string) (scopes : list string) (expiresAt : option time)
    (r : res PATResult) (a' : db) : Prop :=
  match r with
  | Ok pr =>
      exists now, reads now /\
        let p := pr_Token pr in
        token_asked userID name scopes expiresAt now (pr_Plaintext pr) p /\
        pat_Name p <> "" /\ Z.of_nat (String.length (pat_Name p)) <= 100 /\
        expiry_allowed now expiresAt /\
        cap_respected a userID now /\
        pats_left a userID now !! pat_Hash p = None /\
        d_users a !! userID <> None /\
        a' = with_pats a (<[pat_Hash p := p]> (pats_left a userID now))
  | Err e =>
      (exists t, errors_Is e t = true /\ create_refused a userID name scopes expiresAt t a') \/
      broken e /\
      (a' = a \/ exists now, reads now /\
         (a' = with_pats a (pats_left a userID now) \/
          exists plaintext p, token_asked userID name scopes expiresAt now plaintext p /\
            a' = with_pats a (<[pat_Hash p := p]> (pats_left a userID now))))
  end.

Lemma checkExpiry_allowed now expiresAt :
  match checkExpiry (pc_MaxTTL (patConfig s)) now expiresAt with
  | None => expiry_allowed now expiresAt
  | Some err => errors_Is err auth.ErrPATExpiryInvalid = true /\ ~ expiry_allowed now expiresAt
  end.
Proof.
  unfold checkExpiry, expiry_allowed, After. destruct expiresAt as [e|].
  - destruct (negb _) eqn:E1; [split; [done|lia]|]. destruct ((0 <? _) && _) eqn:E2; [split; [done|lia]|lia].
  - destruct (0 <? _) eqn:E; [split; [done|lia]|lia].
Qed.

Lemma stamp_made t now : IsZero now = false -> stamp now t = now.
Proof. unfold stamp. by intros ->. Qed.

(** What a lost answer may have left. *)
Lemma left_by_SavePATLimited a p limit now a' :
  left_by a (SavePATLimited p limit now) a' ->
  a' = a \/ a' = with_pats a (prune_pats (pat_UserID p) now (d_pats a)) \/
  exists t, a' = with_pats a (<[pat_Hash p := stamp_pat t p]> (prune_pats (pat_UserID p) now (d_pats a))).
Proof.
  intros (_ & _ & env & _ & [->|[[y Hp]|[[] _]]]); [by left|]. cbn in Hp.
  destruct (d_users a !! pat_UserID p); [|destruct Hp as [_ ->]; by left].
  destruct (limit <=? _); [destruct Hp as [_ ->]; by right; left|].
  destruct (_ !! pat_Hash p); [destruct Hp as [_ [->| ->]]; auto|].
  destruct Hp as [[_ ->]|(_ & _ & [->| ->])]; eauto.
Qed.
Lemma left_by_SavePAT a p a' :
  left_by a (SavePAT p) a' -> a' = a \/ exists t, a' = with_pats a (<[pat_Hash p := stamp_pat t p]> (d_pats a)).
Proof.
  intros (_ & _ & env & _ & [->|[[y Hp]|[[] _]]]); [by left|]. cbn in Hp.
  destruct (d_users a !! pat_UserID p), (d_pats a !! pat_Hash p);
    [destruct Hp as [_ ->]; by left| |destruct Hp as [_ ->]; by left..].
  destruct Hp as [[_ ->]|(_ & _ & ->)]; eauto.
Qed.

Lemma wp_CreatePAT userID name scopes expiresAt a :
  patStore s = true ->
  wp (Service_CreatePAT s userID name scopes expiresAt)
    (create_spec a userID name scopes expiresAt) a.
Proof.
  intros Hs. unfold Service_CreatePAT. rewrite Hs. cbn [negb]. cbv zeta.
  destruct (strEq (TrimSpace name) "") eqn:En.
  { apply strEq_true in En. left. exists auth.ErrPATNameRequired. split; [done|by apply cr_name]. }
  destruct (maxPATNameLength <? _) eqn:El.
  { left. exists auth.ErrPATNameTooLong. split; [done|]. apply cr_long. unfold maxPATNameLength in El. lia. }
  apply wp_time_Now. intros now Hnow. pose proof (checkExpiry_allowed now expiresAt) as Hexp.
  destruct (checkExpiry _ now expiresAt) as [err|].
  { destruct Hexp as [He Hbad]. left. exists auth.ErrPATExpiryInvalid. split; [exact He|by eapply cr_expiry]. }
  rewrite wp_bind. unfold GeneratePAT. rewrite wp_bind. cbn -[HashToken].
  intros b _ Hb. destruct b as [b|eb]; cbn -[HashToken]; [|right; destruct (Hb eb eq_refl); split; [by apply broken_fault|by left]].
  set (plain := PATPrefix +:+ b64_encode RawURLEncoding b). intros id.
  set (p := mkPAT id (HashToken plain) userID (TrimSpace name) scopes expiresAt None now).
  assert (forall st, token_asked userID name scopes expiresAt now plain (stamp_pat st p)) as Hasked.
  { intros st. split_and!; try done; [apply (HasPrefix_app PATPrefix)|apply stamp_made]. }
  assert (token_asked userID name scopes expiresAt now plain p) as Hasked'.
  { split_and!; try done. apply (HasPrefix_app PATPrefix). }
  assert (forall st, pats_left a userID now !! pat_Hash p = None -> cap_respected a userID now -> d_users a !! userID <> None ->
    create_spec a userID name scopes expiresAt (Ok (mkPATResult plain (stamp_pat st p)))
      (with_pats a (<[pat_Hash p := stamp_pat st p]> (pats_left a userID now)))) as HOk.
  { intros st Hfresh Hcap Hu. exists now. cbn [pr_Plaintext pr_Token]. apply strEq_false in En.
    unfold maxPATNameLength in El. split_and!; try done. cbn. lia. }
  assert (forall e t a', t = store.ErrUserNotFound /\ d_users a !! userID = None /\ a' = a \/
      t = store.ErrPATExists /\ pat_clash p (pats_left a userID now) /\ (a' = a \/ a' = with_pats a (pats_left a userID now)) ->
    exactly e t -> errors_Is e store.ErrPATLimitReached = false /\
      create_spec a userID name scopes expiresAt (Err (wrap "save pat" e)) a') as HErr.
  { intros e t a' Ht He. split; [by destruct Ht as [(-> & _)|(-> & _)]; rewrite (exactly_Is _ _ _ He)|].
    left. exists t. split; [cbn; rewrite (exactly_Is _ _ _ He); by apply bool_decide_eq_true_2|].
    destruct Ht as [(-> & Hu & ->)|(-> & Hc & Ha')]; [by apply cr_user|by eapply cr_clash]. }
  rewrite wp_bind. destruct (0 <? pc_MaxPerUser (patConfig s)) eqn:Em.
  - assert (pats_left a userID now = prune_pats userID now (d_pats a)) as Hleft by (unfold pats_left; by rewrite Em).
    change (call ?c) with (bind (call c) Ret). apply wp_SavePATLimited; cbn [pat_UserID pat_Hash p]; rewrite <- ?Hleft.
    + intros st a' [u Hu] Hcount Hfresh _ ->. cbn. apply HOk; [done|by intros _; rewrite <- Hleft|]. by rewrite Hu.
    + intros e a' Hfull He _ ->. cbn. decide_is. cbn. left. exists auth.ErrPATLimitReached. split; [done|].
      eapply cr_limit; [done|lia|]. unfold cap_respected. rewrite <- Hleft. lia.
    + intros e t a' Ht He _. cbn. destruct (HErr e t a' Ht He) as [-> HE]. exact HE.
    + intros e a' He Hleft'. pose proof Hleft' as [Hout _]. cbn. decide_is. cbn. right. split; [by apply broken_outage|].
      apply left_by_SavePATLimited in Hleft' as [->|Hleft']; [by left|]. right. exists now. split; [done|].
      rewrite Hleft. destruct Hleft' as [->|[t ->]]; [by left|]. right. by exists plain, (stamp_pat t p).
  - assert (pats_left a userID now = d_pats a) as Hleft by (unfold pats_left; by rewrite Em).
    change (call ?c) with (bind (call c) Ret). apply wp_SavePAT; cbn [pat_UserID pat_Hash p].
    + intros st a' [u Hu] Hfresh _ ->. cbn. rewrite <- Hleft. apply HOk; [by rewrite Hleft|unfold cap_respected; lia|]. by rewrite Hu.
    + intros e t Ht He. cbn. destruct (HErr e t a) as [-> HE]; [|exact He|exact HE]. rewrite Hleft.
      destruct Ht as [(-> & Hu)|(-> & Hc)]; [by left|by right; auto].
    + intros e a' He Hleft'. pose proof Hleft' as [Hout _]. cbn. decide_is. cbn. right. split; [by apply broken_outage|].
      apply left_by_SavePAT in Hleft' as [->|[t ->]]; [by left|]. right. exists now. split; [done|].
      rewrite Hleft. right. by exists plain, (stamp_pat t p).
Qed.
End pats.

(** ** Revocation *)

Definition revoke_spec `{Backend} (a : db) (userID id : string) (r : res unit) (a' : db) : Prop :=
  match r with
  | Ok _ => exists h p, d_pats a !! h = Some p /\ pat_ID p = id /\ pat_UserID p = userID /\
              a' = with_pats a (delete h (d_pats a))
  | Err e =>
      (infrastructure e = true /\ outages = true) \/
      (errors_Is e auth.ErrPATNotFound = true /\ a' = a /\
       forall h p, d_pats a !! h = Some p -> ~ (pat_ID p = id /\ pat_UserID p = userID))
  end.

Lemma wp_RevokePAT `{Backend, Reads, Faults} `{UUIDLib} s userID id parsed a :
  patStore s = true -> uuid_Parse id = Ok parsed ->
  wp (Service_RevokePAT s userID id) (revoke_spec a userID parsed) a.
Proof.
  intros Hs Hp. unfold Service_RevokePAT. rewrite Hs, Hp. cbn [negb]. apply wp_DeletePAT.
  - intros h p a' Hl Hid Hu _ ->. cbn. eauto 10.
  - intros e Hn He. decide_is. cbn. eauto.
  - intros e a' He [Hout _]. decide_is. by left.
Qed.

Section theorems.
Context {S : Type} `{!StoreImpl S, !StoreContract S, Faults} (o : oracle) (s : Service).

(** C27. Verifying a personal access token gives exactly what the store holds: an
    unknown or expired token is rejected, a live one yields the claims of its
    owner as the owner is now, and nothing but the token's last-used time
    changes; the only other outcome is an infrastructure failure. *)
Theorem Verify_PAT_spec tok w r w' :
  oracle_ok o -> sc_inv (w_store w) -> patStore s = true -> HasPrefix tok PATPrefix = true ->
  run o (Service_Verify s tok) w = (r, w') ->
  let _ : Reads := read_during o w w' in
  verify_spec (sc_view (w_store w)) (HashToken tok) r (sc_view (w_store w')).
Proof.
  unfold Service_Verify. intros Ho Hinv Hs -> Hrun.
  exact (proj1 (wp_sound o _ _ _ _ _ Ho Hinv (wp_verifyPAT s tok _ (sc_ok _ Hinv) Hs) Hrun)).
Qed.

(** C28. Creating a personal access token: on success the stored row belongs to
    the user, carries the trimmed name, the scopes and the accepted expiry, is
    kept under the digest of the plaintext handed out, and was admitted under
    the cap, and all that changed besides is that, under a cap, the user's own
    expired tokens are gone.  It is refused only for its reason - a name that is
    missing or too long, an expiry that is not allowed, a full cap, no such user,
    a digest or ID that is taken - and then at most those expired tokens are gone;
    any other failure is an outage, after which, where the store's answer was
    lost, the token asked for may have been saved. *)
Theorem CreatePAT_spec userID name scopes expiresAt w r w' :
  oracle_ok o -> sc_inv (w_store w) -> patStore s = true ->
  run o (Service_CreatePAT s userID name scopes expiresAt) w = (r, w') ->
  let _ : Reads := read_during o w w' in
  create_spec s (sc_view (w_store w)) userID name scopes expiresAt r (sc_view (w_store w')).
Proof.
  intros Ho Hinv Hs Hrun R.
  exact (proj1 (wp_sound o _ _ _ _ _ Ho Hinv (wp_CreatePAT s userID name scopes expiresAt _ Hs) Hrun)).
Qed.

(** C29. A created token works: the plaintext handed out by [CreatePAT], presented
    to [Verify] by a later request on the same data, is accepted with the claims
    of the user it was created for, unless it has expired by then or the store
    fails. *)
Theorem CreatePAT_then_Verify userID name scopes expiresAt w pr w1 w2 r w3 :
  oracle_ok o -> sc_inv (w_store w) -> patStore s = true ->
  run o (Service_CreatePAT s userID name scopes expiresAt) w = (Ok pr, w1) ->
  w_store w2 = w_store w1 ->
  run o (Service_Verify s (pr_Plaintext pr)) w2 = (r, w3) ->
  (exists u, d_users (sc_view (w_store w)) !! userID = Some u /\ r = Ok (pat_claims u)) \/
  (exists e now t, r = Err e /\ read_during o w2 w3 now /\ expiresAt = Some t /\ After now t = true /\
     errors_Is e auth.ErrTokenExpired = true) \/
  (exists e, r = Err e /\ infrastructure e = true /\ outages = true).
Proof.
  intros Ho Hinv Hs H1 H2 H3.
  destruct (wp_sound o _ _ _ _ _ Ho Hinv (wp_CreatePAT s userID name scopes expiresAt _ Hs) H1)
    as [Hc Hinv1].
  destruct Hc as (now & _ & (Hpre & Hh & Hu & _ & _ & Hexp & _) & _ & _ & _ & _ & _ & _ & Ha).
  rewrite <- H2 in Hinv1. unfold Service_Verify in H3. rewrite Hpre in H3.
  pose proof (proj1 (wp_sound o _ _ _ _ _ Ho Hinv1 (wp_verifyPAT s _ _ (sc_ok _ Hinv1) Hs) H3)) as Hv.
  rewrite H2, Ha in Hv. rewrite <- Hh in Hv. clear H1 H3.
  destruct Hv as [e Hl|p e now' Hl Hnow Hx _ He|p u a' Hl Hx Hus _|e He Hob];
    cbn in *; rewrite ?lookup_insert_eq in *; simplify_eq; [|left; by eauto|by eauto 10].
  right. left. unfold pat_expired in Hx. destruct (pat_ExpiresAt _) as [t|]; [|done].
  exists e, now', t. done.
Qed.

(** A user can only revoke their own tokens: [RevokePAT] deletes one row,
    owned by the caller and carrying the given ID in canonical form, or reports
    that the caller has no such token and changes nothing; only an outage gives
    any other result. *)
Theorem RevokePAT_scoped `{UUIDLib} userID id parsed w r w' :
  oracle_ok o -> sc_inv (w_store w) -> patStore s = true -> uuid_Parse id = Ok parsed ->
  run o (Service_RevokePAT s userID id) w = (r, w') ->
  revoke_spec (sc_view (w_store w)) userID parsed r (sc_view (w_store w')).
Proof.
  intros Ho Hinv Hs Hp Hrun.
  exact (proj1 (wp_sound o _ _ _ _ _ Ho Hinv (wp_RevokePAT s userID id parsed _ Hs Hp) Hrun)).
Qed.
End theorems.
