(* ===== verification/Accounts.v ===== *)
(** * Password sign-up and sign-in, verified

    [Service.Register] and [Service.Login] with the password provider: what they
    answer and store, and that an account registered with a password can be
    signed in to with it. *)

From S2P Require Import Prelude GoStrings GoTime GoEncoding Errors Entity Ports Contract ContractFacts WpRules Validation Token Interfaces Local Service Refresh.

Section accounts.
Context `{UnicodeTables, Argon2}.

(** ** Specifications *)

Definition login_spec `{Backend, Reads, Faults, !ServiceSpec s} (a : db) (email password : string) (r : res AuthResult) (a' : db) : Prop :=
  match r with
  | Ok ar => exists e u now st, reads now /\ speaks_for s (ar_TokenPair ar) u /\
      NormalizeEmail email = Ok e /\ password_accepted a e password u /\
      ar_UserID ar = user_ID u /\ ar_Email ar = user_Email u /\
      a' = with_session a (ar_TokenPair ar) (user_ID u) "" now st
  | Err err =>
      broken_off err \/
      a' = a /\ (exists reason uid, err = ECredentials reason uid) /\
      (password = "" \/ forall e u, NormalizeEmail email = Ok e -> ~ password_accepted a e password u)
  end.

Definition register_spec `{Backend, Reads, Faults, !ServiceSpec s} (a : db) (email password : string) (r : res AuthResult) (a' : db) : Prop :=
  match r with
  | Ok ar => exists e u salt now st, reads now /\ speaks_for s (ar_TokenPair ar) u /\
      NormalizeEmail email = Ok e /\ ValidatePassword password = None /\
      (forall v, ~ has_email a e v) /\ d_users a !! user_ID u = None /\
      user_Email u = e /\ user_Roles u = [] /\
      ar_UserID ar = user_ID u /\ ar_Email ar = e /\
      a' = with_session (with_account a u (encodePassword password salt))
             (ar_TokenPair ar) (user_ID u) "" now st
  | Err err =>
      broken_off err \/
      a' = a /\
      (errors_Is err auth.ErrInvalidEmail = true \/
       errors_Is err auth.ErrPasswordTooShort = true \/ errors_Is err auth.ErrPasswordTooLong = true \/
       errors_Is err auth.ErrUserExists = true)
  end.

Lemma not_unusable_root m : ~ root_unusable "" m.
Proof. by intros []. Qed.

Lemma ValidatePassword_nonempty password : ValidatePassword password = None -> password <> "".
Proof. by intros Hv ->. Qed.

Lemma valid_email_nonempty e : valid_email e -> e <> "".
Proof. intros ((Hl & _) & _) ->. cbn in Hl. lia. Qed.

Lemma password_accepted_nonempty a e u : ~ password_accepted a "" e u.
Proof. by intros [(? & _) _]. Qed.

Context `{Backend, Reads, Faults}.

Lemma wp_Login `{!ServiceSpec s} email password a :
  db_ok a -> localProvider s = Some local_provider ->
  wp (Service_Login s email password) (login_spec a email password) a.
Proof.
  intros Hok Hp. unfold Service_Login. rewrite Hp.
  destruct (NormalizeEmail email) as [e|] eqn:En.
  2: { cbn. right. split_and!; [done|eauto|]. right. congruence. }
  rewrite wp_bind. eapply wp_mono; [|apply wp_Authenticate, Hok]. cbn [areq_Email areq_Password].
  intros [i|err] a' [-> Hr]; cbn [authenticated] in Hr.
  - destruct Hr as (u & Hacc & ->). pose proof Hacc as [(_ & _ & Hu) _].
    apply wp_GetByID; cbn [local_identity identity_UserID identity_Email].
    + intros u' Hu'. rewrite wp_bind. apply wp_issueTokens.
      * intros tp now st a' Htp Hnow _ _ _ ->. cbn. rewrite Hu in Hu'. simplify_eq. by exists e, u', now, st.
      * intros ? Hf. by apply not_unusable_root in Hf.
      * intros ? _ Hn. congruence.
      * intros err a' Herr _. left. by apply broken_account, broken_broken_off.
    + intros err Hn. congruence.
    + intros err Hout Herr. left. eauto with errs.
  - destruct Hr as [Hi|(reason & uid & -> & Hno & _)].
    + decide_is. left. by apply (broken_broken_off err).
    + cbn. right. split_and!; [done|eauto|]. destruct Hno as [?|Hno]; [by left|]. right.
      intros e' u He'. rewrite En in He'. simplify_eq. eauto.
Qed.

Lemma with_account_ok a u h :
  db_ok a -> d_users a !! user_ID u = None -> (forall v, ~ has_email a (user_Email u) v) ->
  db_ok (with_account a u h).
Proof.
  intros Hok Hn He. apply (db_ok_password (with_users a (<[user_ID u := u]> (d_users a)))).
  - by apply db_ok_user.
  - cbn. by rewrite lookup_insert_eq.
Qed.

Lemma wp_ServiceRegister `{!ServiceSpec s} email password a :
  db_ok a -> localProvider s = Some local_provider ->
  wp (Service_Register s email password) (register_spec a email password) a.
Proof.
  intros Hok Hp. unfold Service_Register. rewrite Hp.
  destruct (NormalizeEmail email) as [e|err] eqn:En.
  2: { apply NormalizeEmail_Err in En as ->. right. split; [done|]. by left. }
  destruct (ValidatePassword password) as [err|] eqn:Ev.
  { right. split; [done|]. unfold ValidatePassword in Ev. repeat case_match; simplify_eq; auto. }
  apply NormalizeEmail_Ok in En as Hv. destruct Hv as [_ Hv%valid_email_nonempty].
  rewrite wp_bind. eapply wp_mono; [|apply wp_Register; [done|done|by apply ValidatePassword_nonempty]].
  cbn [rreq_Email rreq_Password]. intros [i|err] a' Hr; cbn [registered] in Hr.
  - destruct Hr as (u & salt & -> & <- & Hroles & Hid & Hfree & ->). cbn [local_identity identity_UserID identity_Email].
    rewrite wp_bind. apply wp_issueTokens.
    + intros tp now st a' Htp Hnow _ _ _ ->. exists (user_Email u), u, salt, now, st.
      split_and!; try done. unfold speaks_for. by rewrite Hroles.
    + intros ? Hf. by apply not_unusable_root in Hf.
    + intros ? _ Hn. cbn in Hn. by rewrite lookup_insert_eq in Hn.
    + intros err a' Herr _. left. by apply broken_account, broken_broken_off.
  - destruct Hr as [Hi|(_ & -> & He)].
    + decide_is. left. by apply (broken_broken_off err).
    + rewrite He. right. split; [done|]. by right; right; right.
Qed.
End accounts.

Section theorems.
Context `{UnicodeTables, Argon2}.
Context {S : Type} `{!StoreImpl S, !StoreContract S, Faults} (o : oracle) `{!ServiceSpec s}.

(** C18. [Login] answers by the credentials alone: it opens a session exactly for
    the account holding the normalized email whose stored hash accepts the
    password; every rejection is a [CredentialsError], leaves the data
    unchanged, and happens only when no account accepts the password; anything
    else is an outage. *)
Theorem Login_spec email password w r w' :
  oracle_ok o -> sc_inv (w_store w) -> localProvider s = Some local_provider ->
  run o (Service_Login s email password) w = (r, w') ->
  let _ : Reads := read_during o w w' in
  login_spec (sc_view (w_store w)) email password r (sc_view (w_store w')).
Proof.
  intros Ho Hinv Hp Hrun R.
  exact (proj1 (wp_sound o _ _ _ _ _ Ho Hinv (wp_Login email password _ (sc_ok _ Hinv) Hp) Hrun)).
Qed.

(** C19. [Register] creates one account and one session: on success the email was
    free, and the user with the normalized email, a hash that verifies the
    password and a fresh session are stored; a rejection (taken or invalid
    email, password too short or too long) changes nothing; anything else is an
    outage. *)
Theorem Register_spec email password w r w' :
  oracle_ok o -> sc_inv (w_store w) -> localProvider s = Some local_provider ->
  run o (Service_Register s email password) w = (r, w') ->
  let _ : Reads := read_during o w w' in
  register_spec (sc_view (w_store w)) email password r (sc_view (w_store w')).
Proof.
  intros Ho Hinv Hp Hrun R.
  exact (proj1 (wp_sound o _ _ _ _ _ Ho Hinv (wp_ServiceRegister email password _ (sc_ok _ Hinv) Hp) Hrun)).
Qed.

(** C20. An account that registered can sign in: after a successful [Register], a
    [Login] by a later request on the same data, with any spelling of the email
    that normalizes alike and the same password, signs in to that account,
    unless the infrastructure fails. *)
Theorem Register_then_Login email email' password w ar w1 w2 r w3 :
  oracle_ok o -> sc_inv (w_store w) -> localProvider s = Some local_provider ->
  run o (Service_Register s email password) w = (Ok ar, w1) ->
  w_store w2 = w_store w1 -> NormalizeEmail email' = NormalizeEmail email ->
  run o (Service_Login s email' password) w2 = (r, w3) ->
  (exists ar', r = Ok ar' /\ ar_UserID ar' = ar_UserID ar /\ ar_Email ar' = ar_Email ar) \/
  (exists e, r = Err e /\ broken_off e).
Proof.
  intros Ho Hinv Hp Hreg Hst Hem3 Hlog.
  destruct (wp_sound o _ _ _ _ _ Ho Hinv (wp_ServiceRegister email password _ (sc_ok _ Hinv) Hp) Hreg)
    as [(e & u & salt & now & st & _ & _ & He & Hv & _ & Hfree & Hue & _ & Hid & Hem & Ha) Hinv1].
  rewrite <- Hst in Hinv1, Ha. rewrite He in Hem3.
  pose proof (proj1 (wp_sound o _ _ _ _ _ Ho Hinv1
    (wp_Login email' password _ (sc_ok _ Hinv1) Hp) Hlog)) as Hl.
  pose proof (sc_ok _ Hinv1) as Hok1. rewrite Ha in Hl, Hok1.
  assert (password_accepted (with_session (with_account (sc_view (w_store w)) u
    (encodePassword password salt)) (ar_TokenPair ar) (user_ID u) "" now st) e password u) as Hacc.
  { apply NormalizeEmail_Ok in He as [_ Hne%valid_email_nonempty]. split.
    - split_and!; [done|done|]. cbn. apply lookup_insert_eq.
    - exists (encodePassword password salt). cbn. rewrite lookup_insert_eq. split; [done|].
      etransitivity; [apply verify_encoded|apply strEq_refl]. }
  destruct r as [ar'|err].
  - left. destruct Hl as (e' & u' & now' & st' & _ & _ & He' & Hacc' & Hid' & Hem' & _).
    rewrite Hem3 in He'. simplify_eq. exists ar'. split; [done|].
    destruct Hacc as [Hh1 _], Hacc' as [Hh2 _].
    rewrite Hid', Hem', Hid, Hem. by rewrite (ok_emails _ Hok1 _ _ _ Hh2 Hh1).
  - right. destruct Hl as [?|(_ & _ & [->|Hno])]; [eauto| |].
    + by vm_compute in Hv.
    + by destruct (Hno e u Hem3 Hacc).
Qed.
End theorems.
