(* ===== verification/OAuth.v ===== *)
(** * OAuth sign-in (auth/oauth.go)

    The providers are behind [OAuthProvider]; the state of a flow is a
    [Challenge] row keyed by the state secret. *)

From S2P Require Import Prelude GoStrings GoTime GoEncoding Errors Entity Ports Contract Validation Token Interfaces Service.

Definition DefaultOAuthStateTTL : duration := 15 * Minute.
Definition oauthSecretBytes : nat := 32.

(** [None] is the panic on a duplicate provider name. *)
Definition WithOAuth (ps : list OAuthProvider) (cfg : OAuthConfig) : option ServiceOption :=
  let cfg := mkOAuthConfig (oc_DisableAutoLinkEmail cfg)
    (if oc_StateTTL cfg =? 0 then DefaultOAuthStateTTL else oc_StateTTL cfg) in
  (fun registry s =>
     mkService (providers s) (localProvider s) (issuer s) (patStore s) (patConfig s)
       (Some registry) cfg (walletProviders s) (walletConfig s)
       (refreshReuseLeeway s) (svc_now s)) <$> register op_ProviderName ps ∅.

Record OAuthURLResult := mkOAuthURLResult {
  our_URL : string;
  our_State : string;
  our_Binding : string
}.

Record OAuthCallbackRequest := mkOAuthCallbackRequest {
  ocr_Provider : string;
  ocr_Code : string;
  ocr_State : string;
  ocr_RedirectURI : string;
  ocr_Binding : string
}.

Record OAuthCallbackResult := mkOAuthCallbackResult {
  ores_UserID : string;
  ores_Email : string;
  ores_TokenPair : TokenPair;
  ores_IsNewUser : bool;
  ores_Linked : bool
}.

Inductive oauthUserOrigin := oauthUserExisting | oauthUserCreated | oauthUserLinked.

#[export] Instance oauthUserOrigin_eq_dec : EqDecision oauthUserOrigin.
Proof. solve_decision. Defined.

Definition oauthProvider (s : Service) (name : string) : res OAuthProvider :=
  match oauthProviders s with
  | None => Err auth.ErrOAuthDisabled
  | Some ps =>
      match ps !! name with
      | None => Err (EWrap [] auth.ErrOAuthProviderUnknown [Lit ": "; ArgQ name])
      | Some p => Ok p
      end
  end.

Definition newline : string := String (ascii_of_nat 10) "".

Definition oauthStateBinding (provider redirectURI : string) : string :=
  provider +:+ newline +:+ redirectURI.

Definition hashBinding (binding : string) : string := hex_encode (sha256.Sum256 binding).

Definition randomSecret : prog (res string) :=
  (try b := perform (RandRead oauthSecretBytes)
     catch err => Ret (Err (wrap "generate oauth secret" err)) in
   Ret (Ok (b64_encode RawURLEncoding b)))%prog.

Definition GetOAuthURL (s : Service) (provider redirectURI : string) : prog (res OAuthURLResult) :=
  (match oauthProvider s provider with
   | Err err => Ret (Err err)
   | Ok p =>
       try state := randomSecret catch err => Ret (Err err) in
       try nonce := randomSecret catch err => Ret (Err err) in
       try binding := randomSecret catch err => Ret (Err err) in
       let* verifier := perform GenerateVerifier in
       let params := mkAuthParams state redirectURI verifier nonce in
       match op_AuthCodeURL p params with
       | Err err => Ret (Err (wrap "build auth url" err))
       | Ok url =>
           let* now := svc_now s in
           let ch := mkChallenge state (oauthStateBinding provider redirectURI) "" ""
                       (ap_CodeVerifier params) (ap_Nonce params) (hashBinding binding)
                       (Add now (oc_StateTTL (oauthConfig s))) now in
           try _ok := call (SaveChallenge ch)
             catch err => Ret (Err (wrap "save oauth state" err)) in
           Ret (Ok (mkOAuthURLResult url state binding))
       end
   end)%prog.

Definition consumeOAuthState (s : Service) (req : OAuthCallbackRequest) : prog (res Challenge) :=
  (if strEq (ocr_Code req) "" || strEq (ocr_State req) "" || strEq (ocr_Binding req) "" then
     Ret (Err auth.ErrOAuthStateInvalid)
   else
     let* r := call (Ports.GetChallenge (ocr_State req)) in
     match r with
     | Err err =>
         if errors_Is err store.ErrChallengeNotFound || errors_Is err store.ErrChallengeExpired then
           Ret (Err auth.ErrOAuthStateInvalid)
         else Ret (Err (wrap "get oauth state" err))
     | Ok ch =>
         let* now := svc_now s in
         if negb (Before now (ch_ExpiresAt ch)) ||
            negb (strEq (ch_Message ch) (oauthStateBinding (ocr_Provider req) (ocr_RedirectURI req))) ||
            strEq (ch_BindingHash ch) "" ||
            negb (strEq (hashBinding (ocr_Binding req)) (ch_BindingHash ch))
         then Ret (Err auth.ErrOAuthStateInvalid)
         else
           let* d := call (DeleteChallenge (ocr_State req)) in
           match d with
           | Err err =>
               if errors_Is err store.ErrChallengeNotFound then Ret (Err auth.ErrOAuthStateInvalid)
               else Ret (Err (wrap "delete oauth state" err))
           | Ok _ => Ret (Ok ch)
           end
     end)%prog.

Definition oauthIdentityUser (provider externalID : string) : prog (res User) :=
  (let* r := call (GetOAuthIdentity provider externalID) in
   match r with
   | Err err =>
       if errors_Is err store.ErrOAuthIdentityNotFound then Ret (Err err)
       else Ret (Err (wrap "get oauth identity" err))
   | Ok identity =>
       try user := call (GetByID (oi_UserID identity))
         catch err => Ret (Err (wrap "get oauth user" err)) in
       Ret (Ok user)
   end)%prog.

Definition findOrCreateUser (s : Service) (email : string) : prog (res (User * bool)) :=
  (let* r := call (GetByEmail email) in
   match r with
   | Ok user => Ret (Ok (user, false))
   | Err err =>
       if negb (errors_Is err store.ErrUserNotFound) then Ret (Err (wrap "get user by email" err))
       else
         try id := perform UUIDNewV7 catch err => Ret (Err (wrap "generate user id" err)) in
         let* now := svc_now s in
         let* c := call (Create (mkUser id email [] now now)) in
         match c with
         | Ok user => Ret (Ok (user, true))
         | Err err =>
             if negb (errors_Is err store.ErrUserExists) then Ret (Err (wrap "create user" err))
             else
               try user := call (GetByEmail email)
                 catch err => Ret (Err (wrap "get user by email" err)) in
               Ret (Ok (user, false))
         end
   end)%prog.

(** [None] is acceptance. *)
Definition checkAutoLink (s : Service) (userID : string) : prog (option error) :=
  (if oc_DisableAutoLinkEmail (oauthConfig s) then Ret (Some (auth.ErrOAuthLinkDisabled : error))
   else
     let* r := call (GetPasswordHash userID) in
     match r with
     | Ok _ => Ret (Some (auth.ErrOAuthAccountHasPassword : error))
     | Err err =>
         if errors_Is err store.ErrCredentialNotFound then Ret None
         else Ret (Some (wrap "get password hash" err))
     end)%prog.

Definition discardUnlinkedUser (userID : string) : prog unit :=
  (let* r := call (ListOAuthIdentities userID) in
   match r with
   | Err err =>
       log (mkLog false LevelError "check user links after failed oauth link"
              [("user_id", AString userID); ("error", AError err)])
   | Ok linked =>
       if 0 <? Z.of_nat (length linked) then Ret tt
       else
         let* d := call (Delete userID) in
         match d with
         | Err err =>
             log (mkLog false LevelError "delete user after failed oauth link"
                    [("user_id", AString userID); ("error", AError err)])
         | Ok _ => Ret tt
         end
   end)%prog.

Section oauth.
Context `{UnicodeTables}.

(** The last step of [resolveOAuthUser]: save the link, or find out who did. *)
Definition linkOAuthUser (s : Service) (provider : string) (info : UserInfo) (email : string)
    (user : User) (isNew : bool) (origin : oauthUserOrigin) : prog (res (User * oauthUserOrigin)) :=
  (let* id := perform UUIDNewString in
   let* now := svc_now s in
   let* r := call (SaveOAuthIdentity
                     (mkOAuthIdentity id (user_ID user) provider (ui_ExternalID info) email now)) in
   match r with
   | Ok _ => Ret (Ok (user, origin))
   | Err err =>
       (if isNew then discardUnlinkedUser (user_ID user) else Ret tt) ;;;
       if errors_Is err store.ErrOAuthIdentityExists then
         let* w := oauthIdentityUser provider (ui_ExternalID info) in
         match w with
         | Ok winner =>
             if isNew && strEq (user_ID winner) (user_ID user)
             then Ret (Ok (winner, oauthUserCreated))
             else Ret (Ok (winner, oauthUserExisting))
         | Err err => Ret (Err err)
         end
       else Ret (Err (wrap "save oauth identity" err))
   end)%prog.

Definition resolveOAuthUser (s : Service) (provider : string) (info : UserInfo)
  : prog (res (User * oauthUserOrigin)) :=
  (let* r := oauthIdentityUser provider (ui_ExternalID info) in
   match r with
   | Ok user => Ret (Ok (user, oauthUserExisting))
   | Err err =>
       if negb (errors_Is err store.ErrOAuthIdentityNotFound) then Ret (Err err)
       else
         match NormalizeEmail (ui_Email info) with
         | Err _ => Ret (Err auth.ErrOAuthEmailRequired)
         | Ok email =>
             if negb (ui_EmailVerified info) then Ret (Err auth.ErrOAuthEmailUnverified)
             else
               try f := findOrCreateUser s email catch err => Ret (Err err) in
               let '(user, isNew) := f in
               if (isNew : bool) then linkOAuthUser s provider info email user true oauthUserCreated
               else
                 let* c := checkAutoLink s (user_ID user) in
                 match c with
                 | Some err => Ret (Err (EAccount (mkAccountChange (user_ID user) false false) err))
                 | None => linkOAuthUser s provider info email user false oauthUserLinked
                 end
         end
   end)%prog.

Definition Service_OAuthCallback (s : Service) (req : OAuthCallbackRequest)
  : prog (res OAuthCallbackResult) :=
  (match oauthProvider s (ocr_Provider req) with
   | Err err => Ret (Err err)
   | Ok p =>
       try ch := consumeOAuthState s req catch err => Ret (Err err) in
       let* e := op_ExchangeCode p (ocr_Code req)
                   (mkAuthParams (ocr_State req) (ocr_RedirectURI req) (ch_CodeVerifier ch)
                      (ch_OAuthNonce ch)) in
       match e with
       | Err err => Ret (Err (EWrap2 auth.ErrOAuthExchangeFailed err []))
       | Ok info =>
           if strEq (ui_ExternalID info) "" then
             Ret (Err (EWrap2 auth.ErrOAuthExchangeFailed oauth.ErrInvalidToken
                         [Lit ": empty external id"]))
           else
             try u := resolveOAuthUser s (ocr_Provider req) info catch err => Ret (Err err) in
             let '(user, origin) := u in
             let change := mkAccountChange (user_ID user)
                             (bool_decide (origin = oauthUserCreated))
                             (bool_decide (origin = oauthUserLinked)) in
             try tokens := issueTokens s (user_ID user) (user_Email user) (user_Roles user) ""
               catch err => Ret (Err (EAccount change (wrap "issue tokens" err))) in
             Ret (Ok (mkOAuthCallbackResult (user_ID user) (user_Email user) tokens
                        (ac_created change) (ac_linked change)))
       end
   end)%prog.
End oauth.
