(* ===== verification/OAuth2.v ===== *)
(** * The OAuth 2.0 client library

    What the providers use of golang.org/x/oauth2: a parameter, with what its
    documentation promises and the providers rely on. *)

From S2P Require Import Prelude GoTime Errors Entity Ports Contract.

(** [oauth2.Endpoint], [oauth2.Config] *)
Record Endpoint := mkEndpoint { AuthURL : string; TokenURL : string }.
Record OAuth2Config := mkOAuth2Config {
  o2_ClientID : string;
  o2_ClientSecret : string;
  o2_RedirectURL : string;
  o2_Endpoint : Endpoint;
  o2_Scopes : list string
}.

(** [oauth2.AuthCodeOption] as the providers use it. *)
Inductive AuthCodeOption :=
| S256ChallengeOption (verifier : string)
| SetAuthURLParam (key value : string).

Class OAuth2 := {
  oauth2_Token : Type;
  Config_AuthCodeURL : OAuth2Config -> string -> list AuthCodeOption -> string;
  Config_Exchange : OAuth2Config -> string (* code *) -> string (* verifier *) -> prog (res oauth2_Token);
  Client_Do : OAuth2Config -> oauth2_Token -> httpreq -> prog (res httpresp);
  Token_Extra : oauth2_Token -> string -> option string   (* the field, when it is a string *)
}.

(** The exchange and the requests go to the network, never to the store, and
    fail with errors of the library. *)
Class OAuth2Laws `{OAuth2} : Prop := {
  exchange_remote : forall `{Backend, Reads, Faults} c code v Q a,
    (forall t, Q (Ok t) a) -> (forall e, infrastructure e = true -> Q (Err e) a) ->
    wp (Config_Exchange c code v) Q a;
  client_remote : forall `{Backend, Reads, Faults} c t r Q a,
    (forall resp, Q (Ok resp) a) -> (forall e, infrastructure e = true -> Q (Err e) a) ->
    wp (Client_Do c t r) Q a
}.

(** The text of a library's error, as [%v] prints it. *)
Definition error_text (e : error) : string :=
  match e with EForeign text => text | _ => "" end.

(** [slices.Contains] on strings *)
Definition Contains (l : list string) (s : string) : bool := existsb (strEq s) l.

Lemma Contains_elem l s : Contains l s = true <-> s ∈ l.
Proof.
  unfold Contains. rewrite existsb_exists, list_elem_of_In. split.
  - intros (x & Hx & ->%bool_decide_eq_true). done.
  - intros Hs. exists s. split; [done|]. by apply bool_decide_eq_true.
Qed.
