(* ===== verification/GitHub.v ===== *)
(** * Sign in with GitHub (provider/oauth/github/github.go)

    The account is the numeric id of GET /user; the email is the primary one of
    GET /user/emails, with its verified flag. *)

From S2P Require Import Prelude GoStrings GoTime GoFormat GoJson Errors Entity Ports Contract Interfaces OAuth2.

Definition apiURL_default : string := "https://api.github.com".
Definition apiVersion : string := "2022-11-28".
Definition maxAPIResponse : Z := Z.shiftl 1 20.
Definition emailsPerPage : Z := 100.

Record Config := mkConfig {
  ClientID : string;
  ClientSecret : string;
  RedirectURIs : list string
}.

Record Provider := mkProvider {
  cfg : Config;
  endpoint : Endpoint;
  apiURL : string
}.

Definition newWithEndpoint (cfg : Config) (endpoint : Endpoint) (baseURL : string) : res Provider :=
  if strEq (ClientID cfg) "" then Err (ENew "github: client id is required")
  else if strEq (ClientSecret cfg) "" then Err (ENew "github: client secret is required")
  else match RedirectURIs cfg with
       | [] => Err (ENew "github: at least one redirect uri is required")
       | _ => Ok (mkProvider cfg endpoint baseURL)
       end.

(** golang.org/x/oauth2/endpoints *)
Class Endpoints := endpoints_GitHub : Endpoint.
Definition New `{Endpoints} (cfg : Config) : res Provider := newWithEndpoint cfg endpoints_GitHub apiURL_default.

Definition ProviderName : string := ProviderTypeGitHub.

Definition oauthConfig (p : Provider) (redirectURI : string) : res OAuth2Config :=
  if negb (Contains (RedirectURIs (cfg p)) redirectURI) then
    Err (wrapS oauth.ErrRedirectURINotAllowed redirectURI)
  else Ok (mkOAuth2Config (ClientID (cfg p)) (ClientSecret (cfg p)) redirectURI (endpoint p) ["user:email"]).

(** [None] is nil. *)
Definition requireParams (params : AuthParams) : option error :=
  if strEq (ap_CodeVerifier params) "" then
    Some (EWrap [] oauth.ErrMissingAuthParams [Lit ": code verifier is required"])
  else None.

(** ** The API's answers *)

Record apiUser := mkApiUser { au_ID : Z }.
Record apiEmail := mkApiEmail { ae_Email : string; ae_Primary : bool; ae_Verified : bool }.

Definition apiUser_json : json -> option apiUser :=
  decode_struct (fun name v u =>
    if strEq name "id" then mkApiUser <$> set_int64 (au_ID u) v else Some u) (mkApiUser 0).

Definition apiEmail_json : json -> option apiEmail :=
  decode_struct (fun name v e =>
    if strEq name "email" then (fun s => mkApiEmail s (ae_Primary e) (ae_Verified e)) <$> set_string (ae_Email e) v
    else if strEq name "primary" then (fun b => mkApiEmail (ae_Email e) b (ae_Verified e)) <$> set_bool (ae_Primary e) v
    else if strEq name "verified" then (fun b => mkApiEmail (ae_Email e) (ae_Primary e) b) <$> set_bool (ae_Verified e) v
    else Some e) (mkApiEmail "" false false).

Definition apiEmails_json : json -> option (list apiEmail) := decode_slice apiEmail_json.

Definition json_text (e : jsonerr) : string :=
  match e with SyntaxError => "syntax error" | ReadError => "read error" | UnmarshalTypeError => "type error" end.

(** net/http: whether a URL can be parsed into a request. *)
Class RequestURL := NewRequest_error : string -> option error.

Section provider.
Context `{OAuth2, RequestURL}.

Definition AuthCodeURL (p : Provider) (params : AuthParams) : res string :=
  match requireParams params with
  | Some err => Err err
  | None =>
      match oauthConfig p (ap_RedirectURI params) with
      | Err err => Err err
      | Ok conf => Ok (Config_AuthCodeURL conf (ap_State params) [S256ChallengeOption (ap_CodeVerifier params)])
      end
  end.

(** GET a path with the user's token and decode the body. *)
Definition getJSON {A} (p : Provider) (do_ : httpreq -> prog (res httpresp)) (path : string)
    (dst : json -> option A) : prog (res A) :=
  (match NewRequest_error (apiURL p +:+ path) with
   | Some err => Ret (Err (EWrap [Lit "github: build "; ArgS path; Lit " request: "] err []))
   | None =>
       let req := mkHttpreq "GET" (apiURL p +:+ path)
         [("Accept", "application/vnd.github+json"); ("X-GitHub-Api-Version", apiVersion)] "" in
       try resp := do_ req
         catch err => Ret (Err (EWrap [Lit "github: get "; ArgS path; Lit ": "] err [])) in
       if negb (hp_StatusCode resp =? 200) then
         Ret (Err (ENew ("github: get " +:+ path +:+ ": unexpected status " +:+ Itoa (hp_StatusCode resp))))
       else
         match Decode maxAPIResponse dst (hp_Body resp) (hp_Broken resp) with
         | inl err => Ret (Err (EWrap [] oauth.ErrInvalidToken
                        [Lit ": decode "; ArgS path; Lit ": "; ArgV (json_text err)]))
         | inr a => Ret (Ok a)
         end
   end)%prog.

Definition ExchangeCode (p : Provider) (code : string) (params : AuthParams) : prog (res UserInfo) :=
  (match requireParams params with
   | Some err => Ret (Err err)
   | None =>
       match oauthConfig p (ap_RedirectURI params) with
       | Err err => Ret (Err err)
       | Ok conf =>
           try token := Config_Exchange conf code (ap_CodeVerifier params)
             catch err => Ret (Err (wrap "github: exchange code" err)) in
           let client := Client_Do conf token in
           try user := getJSON p client "/user" apiUser_json catch err => Ret (Err err) in
           if au_ID user <=? 0 then
             Ret (Err (EWrap [] oauth.ErrInvalidToken [Lit ": /user has no id"]))
           else
             try emails := getJSON p client ("/user/emails?per_page=" +:+ Itoa emailsPerPage) apiEmails_json
               catch err => Ret (Err err) in
             let id := Itoa (au_ID user) in
             Ret (Ok (match List.find ae_Primary emails with
                      | Some e => mkUserInfo id (ae_Email e) (ae_Verified e)
                      | None => mkUserInfo id "" false
                      end))
       end
   end)%prog.

(** The provider as the service sees it. *)
Definition github_provider (p : Provider) : OAuthProvider :=
  mkOAuthProvider ProviderName (AuthCodeURL p) (ExchangeCode p).
End provider.
