(* ===== verification/Google.v ===== *)
(** * Sign in with Google (provider/oauth/google/google.go)

    The account and the email are claims of the ID token that comes with the
    code exchange. *)

From S2P Require Import Prelude GoStrings GoTime Errors Entity Ports Contract Token Interfaces OAuth2.

Definition endpoint_default : Endpoint :=
  mkEndpoint "https://accounts.google.com/o/oauth2/auth" "https://oauth2.googleapis.com/token".

Record Config := mkConfig {
  ClientID : string;
  ClientSecret : string;
  RedirectURIs : list string
}.

Record Provider := mkProvider { cfg : Config; endpoint : Endpoint }.

Definition newWithEndpoint (cfg : Config) (endpoint : Endpoint) : res Provider :=
  if strEq (ClientID cfg) "" then Err (ENew "google: client id is required")
  else if strEq (ClientSecret cfg) "" then Err (ENew "google: client secret is required")
  else match RedirectURIs cfg with
       | [] => Err (ENew "google: at least one redirect uri is required")
       | _ => Ok (mkProvider cfg endpoint)
       end.

Definition New (cfg : Config) : res Provider := newWithEndpoint cfg endpoint_default.

Definition ProviderName : string := ProviderTypeGoogle.

Definition oauthConfig (p : Provider) (redirectURI : string) : res OAuth2Config :=
  if negb (Contains (RedirectURIs (cfg p)) redirectURI) then
    Err (wrapS oauth.ErrRedirectURINotAllowed redirectURI)
  else Ok (mkOAuth2Config (ClientID (cfg p)) (ClientSecret (cfg p)) redirectURI (endpoint p) ["openid"; "email"]).

(** [None] is nil. *)
Definition requireParams (params : AuthParams) : option error :=
  if strEq (ap_CodeVerifier params) "" then
    Some (EWrap [] oauth.ErrMissingAuthParams [Lit ": code verifier is required"])
  else if strEq (ap_Nonce params) "" then
    Some (EWrap [] oauth.ErrMissingAuthParams [Lit ": nonce is required"])
  else None.

(** [idTokenClaims], with the registered claims of [jwt.Claims]; a date that is
    absent is [None]. *)
Record idTokenClaims := mkIdTokenClaims {
  it_Issuer : string;
  it_Subject : string;
  it_Audience : list string;
  it_Expiry : option time;
  it_NotBefore : option time;
  it_IssuedAt : option time;
  it_ID : string;
  it_Email : string;
  it_EmailVerified : bool;
  it_Nonce : string
}.

(** go-jose's [jwt]: parsing a compact token, decoding its payload, and
    [Claims.Validate] against an audience and a time. *)
Class IdTokens := {
  IdToken : Type;
  id_ParseSigned : string -> list Algorithm -> res IdToken;
  UnsafeClaimsWithoutVerification : IdToken -> res idTokenClaims;
  Validate : idTokenClaims -> list string (* AnyAudience *) -> time -> option error
}.

(** [Validate]: some expected audience is among the token's, and the dates that
    are present hold, a minute of leeway given. *)
Class IdTokensLaws `{IdTokens} : Prop :=
  Validate_spec : forall c aud now, Validate c aud now = None <->
    (exists x, x ∈ aud /\ x ∈ it_Audience c) /\
    (forall e, it_Expiry c = Some e -> now - Minute <= e) /\
    (forall n, it_NotBefore c = Some n -> n <= now + Minute) /\
    (forall i, it_IssuedAt c = Some i -> i <= now + Minute).

Section provider.
Context `{OAuth2, IdTokens}.

Definition AuthCodeURL (p : Provider) (params : AuthParams) : res string :=
  match requireParams params with
  | Some err => Err err
  | None =>
      match oauthConfig p (ap_RedirectURI params) with
      | Err err => Err err
      | Ok conf =>
          Ok (Config_AuthCodeURL conf (ap_State params)
                [S256ChallengeOption (ap_CodeVerifier params); SetAuthURLParam "nonce" (ap_Nonce params)])
      end
  end.

Definition invalid_token (post : list frag) : error := EWrap [] oauth.ErrInvalidToken post.

Definition ExchangeCode (p : Provider) (code : string) (params : AuthParams) : prog (res UserInfo) :=
  (match requireParams params with
   | Some err => Ret (Err err)
   | None =>
       match oauthConfig p (ap_RedirectURI params) with
       | Err err => Ret (Err err)
       | Ok conf =>
           try token := Config_Exchange conf code (ap_CodeVerifier params)
             catch err => Ret (Err (wrap "google: exchange code" err)) in
           let rawIDToken := default "" (Token_Extra token "id_token") in
           if strEq rawIDToken "" then
             Ret (Err (invalid_token [Lit ": token response has no id_token"]))
           else
             match id_ParseSigned rawIDToken [RS256; ES256] with
             | Err err => Ret (Err (invalid_token [Lit ": parse id_token: "; ArgV (error_text err)]))
             | Ok parsed =>
                 match UnsafeClaimsWithoutVerification parsed with
                 | Err err => Ret (Err (invalid_token [Lit ": decode id_token claims: "; ArgV (error_text err)]))
                 | Ok claims =>
                     let* now := time_Now in
                     match Validate claims [ClientID (cfg p)] now with
                     | Some err =>
                         Ret (Err (invalid_token [Lit ": validate id_token claims: "; ArgV (error_text err)]))
                     | None =>
                         if negb (strEq (it_Issuer claims) "https://accounts.google.com") &&
                            negb (strEq (it_Issuer claims) "accounts.google.com") then
                           Ret (Err (invalid_token [Lit ": unexpected issuer "; ArgQ (it_Issuer claims)]))
                         else if strEq (it_Subject claims) "" then
                           Ret (Err (invalid_token [Lit ": id_token has no sub"]))
                         else if negb (strEq (it_Nonce claims) (ap_Nonce params)) then
                           Ret (Err (invalid_token [Lit ": id_token nonce mismatch"]))
                         else
                           Ret (Ok (mkUserInfo (it_Subject claims) (it_Email claims) (it_EmailVerified claims)))
                     end
                 end
             end
       end
   end)%prog.

(** The provider as the service sees it. *)
Definition google_provider (p : Provider) : OAuthProvider :=
  mkOAuthProvider ProviderName (AuthCodeURL p) (ExchangeCode p).
End provider.
