(* ===== verification/Wallet.v ===== *)
(** * Wallet sign-in (auth/wallet.go) *)

From S2P Require Import Prelude GoStrings GoTime GoEncoding Errors Entity Ports Contract Token Interfaces Service.

Definition DefaultWalletChallengeTTL : duration := 5 * Minute.
Definition walletNonceBytes : nat := 16.

(** [None] is the panic on a wiring mistake: an empty domain or URI, or a line
    break in what goes into the message. *)
Definition WithWallet (d : Dispatcher) (cfg : WalletConfig) : option ServiceOption :=
  if strEq (wc_Domain cfg) "" || strEq (wc_URI cfg) "" then None
  else if ContainsAny (wc_Domain cfg +:+ wc_URI cfg +:+ wc_Statement cfg)
            [ascii_of_nat 13; ascii_of_nat 10] then None
  else
    let cfg := mkWalletConfig (wc_Domain cfg) (wc_URI cfg) (wc_Statement cfg)
      (if wc_ChallengeTTL cfg =? 0 then DefaultWalletChallengeTTL else wc_ChallengeTTL cfg) in
    Some (fun s =>
      mkService (providers s) (localProvider s) (issuer s) (patStore s) (patConfig s)
        (oauthProviders s) (oauthConfig s) (Some d) cfg
        (refreshReuseLeeway s) (svc_now s)).

Record WalletChallengeResult := mkWalletChallengeResult {
  wcr_Nonce : string;
  wcr_Message : string;
  wcr_ExpiresAt : time
}.

Record WalletAuthRequest := mkWalletAuthRequest {
  war_Chain : string;
  war_Address : string;
  war_Nonce : string;
  war_Signature : string
}.

Record WalletAuthResult := mkWalletAuthResult {
  wres_UserID : string;
  wres_Email : string;
  wres_TokenPair : TokenPair;
  wres_IsNewUser : bool
}.

Definition walletProvider (s : Service) (chain address : string) : res (WalletProvider * string) :=
  match walletProviders s with
  | None => Err auth.ErrWalletDisabled
  | Some d =>
      match Dispatcher_Provider d chain with
      | Err _ => Err (EWrap [] auth.ErrWalletChainUnsupported [Lit ": "; ArgQ chain])
      | Ok p =>
          match wp_NormalizeAddress p address with
          | Err err => Err (EWrap2 auth.ErrWalletAddressInvalid err [])
          | Ok addr => Ok (p, addr)
          end
      end
  end.

Definition Service_GetChallenge (s : Service) (chain address : string)
  : prog (res WalletChallengeResult) :=
  (match walletProvider s chain address with
   | Err err => Ret (Err err)
   | Ok (p, addr) =>
       try b := perform (RandRead walletNonceBytes)
         catch err => Ret (Err (wrap "generate wallet nonce" err)) in
       let nonce := hex_encode b in
       let* now := svc_now s in
       let expiresAt := Add now (wc_ChallengeTTL (walletConfig s)) in
       let message := wp_BuildMessage p addr nonce
         (mkMessageOpts (wc_Domain (walletConfig s)) (wc_URI (walletConfig s))
            (wc_Statement (walletConfig s)) now expiresAt) in
       try _ok := call (SaveChallenge (mkChallenge nonce message chain addr "" "" "" expiresAt now))
         catch err => Ret (Err (wrap "save wallet challenge" err)) in
       Ret (Ok (mkWalletChallengeResult nonce message expiresAt))
   end)%prog.

(** [None] is success. *)
Definition consumeWalletChallenge (s : Service) (p : WalletProvider) (req : WalletAuthRequest)
    (addr : string) : prog (option error) :=
  (if strEq (war_Nonce req) "" || strEq (war_Signature req) "" then
     Ret (Some (auth.ErrWalletChallengeInvalid : error))
   else
     let* r := call (Ports.GetChallenge (war_Nonce req)) in
     match r with
     | Err err =>
         if errors_Is err store.ErrChallengeNotFound || errors_Is err store.ErrChallengeExpired then
           Ret (Some (auth.ErrWalletChallengeInvalid : error))
         else Ret (Some (wrap "get wallet challenge" err))
     | Ok ch =>
         let* now := svc_now s in
         if negb (Before now (ch_ExpiresAt ch)) || negb (strEq (ch_Chain ch) (war_Chain req)) ||
            negb (strEq (ch_Address ch) addr)
         then Ret (Some (auth.ErrWalletChallengeInvalid : error))
         else
           match wp_VerifySignature p addr (ch_Message ch) (war_Signature req) with
           | Some _ => Ret (Some (auth.ErrWalletChallengeInvalid : error))
           | None =>
               let* d := call (DeleteChallenge (war_Nonce req)) in
               match d with
               | Err err =>
                   if errors_Is err store.ErrChallengeNotFound then
                     Ret (Some (auth.ErrWalletChallengeInvalid : error))
                   else Ret (Some (wrap "delete wallet challenge" err))
               | Ok _ => Ret None
               end
           end
     end)%prog.

Definition walletIdentityUser (chain addr : string) : prog (res User) :=
  (let* r := call (GetWalletIdentity chain addr) in
   match r with
   | Err err =>
       if errors_Is err store.ErrWalletIdentityNotFound then Ret (Err err)
       else Ret (Err (wrap "get wallet identity" err))
   | Ok identity =>
       try user := call (GetByID (wi_UserID identity))
         catch err => Ret (Err (wrap "get wallet user" err)) in
       Ret (Ok user)
   end)%prog.

Definition discardWalletUser (userID : string) : prog unit :=
  (let* d := call (Delete userID) in
   match d with
   | Err err =>
       log (mkLog false LevelError "delete user after failed wallet link"
              [("user_id", AString userID); ("error", AError err)])
   | Ok _ => Ret tt
   end)%prog.

Definition resolveWalletUser (s : Service) (chain addr : string) : prog (res (User * bool)) :=
  (let* r := walletIdentityUser chain addr in
   match r with
   | Ok user => Ret (Ok (user, false))
   | Err err =>
       if negb (errors_Is err store.ErrWalletIdentityNotFound) then Ret (Err err)
       else
         try id := perform UUIDNewV7 catch err => Ret (Err (wrap "generate user id" err)) in
         let* now := svc_now s in
         try user := call (Create (mkUser id "" [] now now))
           catch err => Ret (Err (wrap "create user" err)) in
         let* wid := perform UUIDNewString in
         let* w := call (SaveWalletIdentity (mkWalletIdentity wid (user_ID user) chain addr now)) in
         match w with
         | Ok _ => Ret (Ok (user, true))
         | Err err =>
             discardWalletUser (user_ID user) ;;;
             if errors_Is err store.ErrWalletIdentityExists then
               try user := walletIdentityUser chain addr catch err => Ret (Err err) in
               Ret (Ok (user, false))
             else Ret (Err (wrap "save wallet identity" err))
         end
   end)%prog.

Definition Service_AuthenticateWallet (s : Service) (req : WalletAuthRequest)
  : prog (res WalletAuthResult) :=
  (match walletProvider s (war_Chain req) (war_Address req) with
   | Err err => Ret (Err err)
   | Ok (p, addr) =>
       let* c := consumeWalletChallenge s p req addr in
       match c with
       | Some err => Ret (Err err)
       | None =>
           try u := resolveWalletUser s (war_Chain req) addr catch err => Ret (Err err) in
           let '(user, isNew) := u in
           try tokens := issueTokens s (user_ID user) (user_Email user) (user_Roles user) ""
             catch err => Ret (Err (EAccount (mkAccountChange (user_ID user) isNew false)
                                      (wrap "issue tokens" err))) in
           Ret (Ok (mkWalletAuthResult (user_ID user) (user_Email user) tokens isNew))
       end
   end)%prog.
