(* ===== verification/Evm.v ===== *)
(** * Wallet sign-in for EVM chains (provider/wallet/evm/evm.go)

    EIP-55 addresses, the EIP-4361 message and EIP-191 signatures, as an
    implementation of [WalletProvider].  Keccak-256 and the recovery of a
    secp256k1 public key are library code and parameters. *)

From S2P Require Import Prelude GoStrings GoTime GoFormat GoEncoding Errors Interfaces.

Definition addressHexLen : nat := 40.
Definition signatureBytes : nat := 65.

(** [sha3.NewLegacyKeccak256], [Write], [Sum(nil)] *)
Class Keccak := keccak256 : string -> string.
Class KeccakLaws `{Keccak} : Prop := keccak256_length : forall data, String.length (keccak256 data) = 32%nat.

(** decred's [ecdsa.RecoverCompact]: the public key behind a compact signature
    of a hash and whether it was marked compressed; and
    [SerializeUncompressed]. *)
Class Secp256k1 := {
  PublicKey : Type;
  RecoverCompact : string -> string -> res (PublicKey * bool);
  SerializeUncompressed : PublicKey -> string
}.

(** [evm.Provider] *)
Record EvmProvider := New { chain : string; chainID : Z }.

Definition Chain (p : EvmProvider) : string := chain p.

Section evm.
Context `{Keccak, UnicodeTables, UpperTables}.

(** A letter is uppercased when the nibble of [hash] at its place is 8 or
    more; [i] is the place of the first digit. *)
Fixpoint checksum_digits (i : nat) (hash digits : string) : string :=
  match digits with
  | EmptyString => EmptyString
  | String c rest =>
      let b := match String.get (i / 2) hash with Some b => byteval b | None => 0 end in
      let nibble := if (i mod 2 =? 1)%nat then Z.land b 15 else Z.shiftr b 4 in
      String (if (97 <=? byteval c) && (8 <=? nibble) then bytechr (byteval c - 97 + 65) else c)
        (checksum_digits (S i) hash rest)
  end.

Definition checksum (lowerDigits : string) : string :=
  "0x" +:+ checksum_digits 0 (keccak256 lowerDigits) lowerDigits.

(** The provider's configuration plays no part. *)
Definition NormalizeAddress (p : EvmProvider) (addr : string) : res string :=
  let '(digits, ok) := CutPrefix addr "0x" in
  if negb ok || negb (String.length digits =? addressHexLen)%nat then
    Err (EWrap [] evm.ErrInvalidAddress
           [Lit ": want 0x followed by "; ArgD (Z.of_nat addressHexLen); Lit " hex digits"])
  else
    match hex_decode digits with
    | None => Err (EWrap [] evm.ErrInvalidAddress [Lit ": not hex"])
    | Some _ =>
        let lower := ToLower digits in
        let checksummed := checksum lower in
        if negb (bool_decide (digits = lower)) && negb (bool_decide (digits = ToUpper digits)) &&
           negb (bool_decide (digits = str_drop 2 checksummed))
        then Err (EWrap [] evm.ErrInvalidAddress [Lit ": checksum mismatch"])
        else Ok checksummed
    end.

Definition newline : string := String (ascii_of_nat 10) "".

Definition BuildMessage (p : EvmProvider) (addr nonce : string) (opts : MessageOpts) : string :=
  mo_Domain opts +:+ " wants you to sign in with your Ethereum account:" +:+ newline +:+
  addr +:+ newline +:+ newline +:+
  (if bool_decide (mo_Statement opts = "") then "" else mo_Statement opts +:+ newline) +:+
  newline +:+
  "URI: " +:+ mo_URI opts +:+ newline +:+
  "Version: 1" +:+ newline +:+
  "Chain ID: " +:+ Itoa (chainID p) +:+ newline +:+
  "Nonce: " +:+ nonce +:+ newline +:+
  "Issued At: " +:+ FormatRFC3339 (mo_IssuedAt opts) +:+
  (if IsZero (mo_ExpiresAt opts) then ""
   else newline +:+ "Expiration Time: " +:+ FormatRFC3339 (mo_ExpiresAt opts)).

(** [r || s || v] as [v' || r || s] *)
Definition compactSignature (sig : string) : res string :=
  let '(digits, ok) := CutPrefix sig "0x" in
  if negb ok then Err (EWrap [] evm.ErrInvalidSignature [Lit ": missing 0x prefix"])
  else
    let malformed := Err (EWrap [] evm.ErrInvalidSignature
      [Lit ": want "; ArgD (Z.of_nat signatureBytes); Lit " hex-encoded bytes"]) in
    match hex_decode digits with
    | None => malformed
    | Some raw =>
        if negb (String.length raw =? signatureBytes)%nat then malformed
        else
          let v := match String.get (signatureBytes - 1) raw with Some b => byteval b | None => 0 end in
          if (v =? 0) || (v =? 1) then
            Ok (String (bytechr (27 + v)) (str_take (signatureBytes - 1) raw))
          else if (v =? 27) || (v =? 28) then
            Ok (String (bytechr v) (str_take (signatureBytes - 1) raw))
          else Err (EWrap [] evm.ErrInvalidSignature [Lit ": recovery id v="; ArgD v])
    end.

(** The message is prefixed with its length in bytes. *)
Definition personalSignHash (message : string) : string :=
  keccak256 (String (ascii_of_nat 25) ("Ethereum Signed Message:" +:+ newline +:+
               Itoa (Z.of_nat (String.length message)) +:+ message)).

Context `{Secp256k1}.

(** The address of a public key. *)
Definition key_address (pub : PublicKey) : string :=
  checksum (hex_encode (str_drop 12 (keccak256 (str_drop 1 (SerializeUncompressed pub))))).

(** [None] is nil: the signature is good. *)
Definition VerifySignature (p : EvmProvider) (addr message sig : string) : option error :=
  match NormalizeAddress p addr with
  | Err err => Some err
  | Ok want =>
      match compactSignature sig with
      | Err err => Some err
      | Ok compact =>
          match RecoverCompact compact (personalSignHash message) with
          | Err err => Some (EWrap2 evm.ErrInvalidSignature err [])
          | Ok (pub, _) =>
              let got := key_address pub in
              if negb (bool_decide (got = want)) then
                Some (EWrap [] evm.ErrInvalidSignature [Lit ": signed by another address"])
              else None
          end
      end
  end.

(** The provider as the dispatcher sees it. *)
Definition evm_provider (p : EvmProvider) : WalletProvider :=
  mkWalletProvider (Chain p) (NormalizeAddress p) (BuildMessage p) (VerifySignature p).
End evm.
