(* ===== verification/SignIn.v ===== *)
(** * OAuth and wallet sign-in, verified

    A flow's state and a wallet challenge are consumed only by a request that
    passes every check, and at most once; an OAuth sign-in never takes over an
    account with a password nor trusts an unverified email; a wallet sign-in
    signs in to the account linked to the wallet that signed. *)

From S2P Require Import Prelude GoStrings GoTime GoEncoding Errors Entity Ports Contract ContractFacts WpRules Validation Token Interfaces Service Refresh OAuth Wallet.

Lemma maybe_dropped_infra `{Reads} a n a' : maybe_dropped a n a' -> d_users a' = d_users a.
Proof. by intros [->|(c & now & _ & _ & _ & ->)]. Qed.

(** Without its challenges. *)
Definition same_accounts (a a' : db) : Prop :=
  d_users a' = d_users a /\ d_tokens a' = d_tokens a /\ d_pats a' = d_pats a /\
  d_passwords a' = d_passwords a /\ d_oauth a' = d_oauth a /\ d_wallets a' = d_wallets a.

(** The request [req] is entitled to the state row [ch] at [now]. *)
Definition state_matches (req : OAuthCallbackRequest) (ch : Challenge) (now : time) : Prop :=
  now < ch_ExpiresAt ch /\
  ch_Message ch = oauthStateBinding (ocr_Provider req) (ocr_RedirectURI req) /\
  ch_BindingHash ch = hashBinding (ocr_Binding req) /\ ch_BindingHash ch <> "".

Definition consume_state_spec `{Backend, Reads} (a : db) (req : OAuthCallbackRequest) (r : res Challenge) (a' : db) : Prop :=
  match r with
  | Ok ch => exists now, reads now /\ d_challenges a !! ocr_State req = Some ch /\ state_matches req ch now /\
      a' = with_challenges a (delete (ocr_State req) (d_challenges a))
  | Err e =>
      (infrastructure e = true /\ outages = true) \/
      (e = auth.ErrOAuthStateInvalid /\ maybe_dropped a (ocr_State req) a' /\
       (ocr_Code req = "" \/ ocr_State req = "" \/ ocr_Binding req = "" \/
        exists now, reads now /\ forall ch, d_challenges a !! ocr_State req = Some ch ->
          ~ state_matches req ch now))
  end.

Definition challenge_matches (p : WalletProvider) (req : WalletAuthRequest) (addr : string)
    (ch : Challenge) (now : time) : Prop :=
  now < ch_ExpiresAt ch /\ ch_Chain ch = war_Chain req /\ ch_Address ch = addr /\
  wp_VerifySignature p addr (ch_Message ch) (war_Signature req) = None.

Definition consume_challenge_spec `{Backend, Reads} (a : db) (p : WalletProvider) (req : WalletAuthRequest) (addr : string)
    (r : option error) (a' : db) : Prop :=
  match r with
  | None => exists ch now, reads now /\ d_challenges a !! war_Nonce req = Some ch /\
      challenge_matches p req addr ch now /\
      a' = with_challenges a (delete (war_Nonce req) (d_challenges a))
  | Some e =>
      (infrastructure e = true /\ outages = true) \/
      (e = auth.ErrWalletChallengeInvalid /\ maybe_dropped a (war_Nonce req) a' /\
       (war_Nonce req = "" \/ war_Signature req = "" \/
        exists now, reads now /\ forall ch, d_challenges a !! war_Nonce req = Some ch ->
          ~ challenge_matches p req addr ch now))
  end.

Section consume.
Context `{Backend, Reads, Faults, !ServiceSpec s}.

Lemma wp_consumeOAuthState req a :
  wp (consumeOAuthState s req) (consume_state_spec a req) a.
Proof.
  unfold consumeOAuthState. destruct (_ || _ || _) eqn:E0.
  { right. split_and!; [done|by left|].
    apply orb_prop in E0 as [[E0|E0]%orb_prop|E0]; apply strEq_true in E0; auto. }
  apply wp_GetChallenge.
  - intros ch Hl. apply wp_svc_now. intros now Hnow.
    destruct (_ || _ || _ || _) eqn:E.
    { right. split_and!; [done|by left|]. do 3 right. exists now. split; [done|].
      intros ch' Hl' (H1' & H2' & H3' & H4'). simplify_eq. unfold Before in E.
      rewrite H2', <- H3', !strEq_refl, (proj2 (strEq_false _ _) H4') in E. cbn in E. lia. }
    apply orb_false_elim in E as [[[E1 E2]%orb_false_elim E3]%orb_false_elim E4].
    apply negb_false_iff in E1, E2, E4. apply strEq_true in E2, E4. apply strEq_false in E3.
    assert (state_matches req ch now) as Hm.
    { unfold Before in E1. split_and!; [lia|done|done|done]. }
    apply wp_DeleteChallenge.
    + intros a' _ _ ->. cbn. eauto 10.
    + intros e Hn. congruence.
    + intros e a' He [Hout _]. decide_is. by left.
  - intros e st a' _ Hd (now & Hnow & Hno) Hst He.
    assert (errors_Is e store.ErrChallengeNotFound ||
      errors_Is e store.ErrChallengeExpired = true) as ->.
    { rewrite !(exactly_Is _ _ _ He). destruct Hst as [->| ->]; done. }
    right. split_and!; [done|done|]. do 3 right. exists now. split; [done|].
    intros ch Hl [Hlt _]. specialize (Hno ch Hl). unfold Before in Hno. lia.
  - intros e a' He Hout _ _. decide_is. by left.
Qed.

Lemma wp_consumeWalletChallenge p req addr a :
  wp (consumeWalletChallenge s p req addr) (consume_challenge_spec a p req addr) a.
Proof.
  unfold consumeWalletChallenge. destruct (_ || _) eqn:E0.
  { right. split_and!; [done|by left|].
    apply orb_prop in E0 as [E0|E0]; apply strEq_true in E0; auto. }
  apply wp_GetChallenge.
  - intros ch Hl. apply wp_svc_now. intros now Hnow.
    destruct (_ || _ || _) eqn:E.
    { right. split_and!; [done|by left|]. do 2 right. exists now. split; [done|].
      intros ch' Hl' (H1' & H2' & H3' & _). simplify_eq. unfold Before in E.
      rewrite H2', !strEq_refl in E. cbn in E. lia. }
    apply orb_false_elim in E as [[E1 E2]%orb_false_elim E3].
    apply negb_false_iff in E1, E2, E3. apply strEq_true in E2, E3.
    destruct (wp_VerifySignature _ _ _ _) eqn:Ev.
    { right. split_and!; [done|by left|]. do 2 right. exists now. split; [done|].
      intros ch' Hl' (_ & _ & _ & Hv). congruence. }
    assert (challenge_matches p req addr ch now) as Hm.
    { unfold Before in E1. split_and!; [lia|done|done|done]. }
    apply wp_DeleteChallenge.
    + intros a' _ _ ->. cbn. eauto 10.
    + intros e Hn. congruence.
    + intros e a' He [Hout _]. decide_is. by left.
  - intros e st a' _ Hd (now & Hnow & Hno) Hst He.
    assert (errors_Is e store.ErrChallengeNotFound ||
      errors_Is e store.ErrChallengeExpired = true) as ->.
    { rewrite !(exactly_Is _ _ _ He). destruct Hst as [->| ->]; done. }
    right. split_and!; [done|done|]. do 2 right. exists now. split; [done|].
    intros ch Hl [Hlt _]. specialize (Hno ch Hl). unfold Before in Hno. lia.
  - intros e a' He Hout _ _. decide_is. by left.
Qed.
End consume.

(** ** Who signs in *)

Definition with_oauth_link (a : db) (userID provider ext email id : string) (now : time) : db :=
  with_oauth a (<[(provider, ext) := mkOAuthIdentity id userID provider ext email now]> (d_oauth a)).

(** How a provider account leads to a user. *)
Inductive oauth_resolved `{UnicodeTables} (s : Service) (a : db) (provider : string) (info : UserInfo)
  : User -> oauthUserOrigin -> db -> Prop :=
| or_existing i u :
    d_oauth a !! (provider, ui_ExternalID info) = Some i -> d_users a !! oi_UserID i = Some u ->
    oauth_resolved s a provider info u oauthUserExisting a
| or_created email u id now :
    d_oauth a !! (provider, ui_ExternalID info) = None ->
    ui_EmailVerified info = true -> NormalizeEmail (ui_Email info) = Ok email ->
    (forall v, ~ has_email a email v) -> d_users a !! user_ID u = None ->
    user_Email u = email -> user_Roles u = [] ->
    oauth_resolved s a provider info u oauthUserCreated
      (with_oauth_link (with_users a (<[user_ID u := u]> (d_users a)))
         (user_ID u) provider (ui_ExternalID info) email id now)
| or_linked email u id now :
    d_oauth a !! (provider, ui_ExternalID info) = None ->
    ui_EmailVerified info = true -> NormalizeEmail (ui_Email info) = Ok email ->
    has_email a email u -> d_passwords a !! user_ID u = None ->
    oc_DisableAutoLinkEmail (oauthConfig s) = false ->
    oauth_resolved s a provider info u oauthUserLinked
      (with_oauth_link a (user_ID u) provider (ui_ExternalID info) email id now).

(** Why a resolution is refused; the accounts are then untouched.  Besides, a
    new link fails when another already has its random ID. *)
Definition oauth_refused (e : error) : Prop :=
  errors_Is e auth.ErrOAuthEmailRequired = true \/ errors_Is e auth.ErrOAuthEmailUnverified = true \/
  errors_Is e auth.ErrOAuthLinkDisabled = true \/ errors_Is e auth.ErrOAuthAccountHasPassword = true.

Definition resolve_oauth_spec `{UnicodeTables} (s : Service) (a : db) (provider : string) (info : UserInfo)
    (r : res (User * oauthUserOrigin)) (a' : db) : Prop :=
  match r with
  | Ok (u, origin) => oauth_resolved s a provider info u origin a'
  | Err e => unavailable e = true \/ errors_Is e store.ErrOAuthIdentityNotFound = true \/
      (a' = a /\ (oauth_refused e \/ errors_Is e store.ErrUserExists = true \/
                  errors_Is e store.ErrUserNotFound = true))
  end.

Section resolve.
Context `{UnicodeTables, Backend, Reads, Faults, !ServiceSpec s}.

Lemma wp_oauthIdentityUser provider ext (Q : res User -> db -> Prop) a :
  db_ok a ->
  (forall i u, d_oauth a !! (provider, ext) = Some i -> d_users a !! oi_UserID i = Some u -> Q (Ok u) a) ->
  (forall e, d_oauth a !! (provider, ext) = None -> exactly e store.ErrOAuthIdentityNotFound -> Q (Err e) a) ->
  (forall e, infrastructure e = true -> Q (Err e) a) ->
  wp (oauthIdentityUser provider ext) Q a.
Proof.
  intros Hok Hf Hn Ho. unfold oauthIdentityUser. apply wp_GetOAuthIdentity.
  - intros i Hi. destruct (ok_oauth _ Hok _ _ Hi) as [_ [u Hu]]. apply wp_GetByID.
    + intros u' Hu'. by eapply Hf.
    + intros e Hnone. congruence.
    + intros e _ He. by apply Ho.
  - intros e Hi He. decide_is. by apply Hn.
  - intros e _ He. decide_is. by apply Ho.
Qed.

(** The row of a user just created goes, and links nothing in going. *)
Lemma delete_left_absent uid key (a' : db) :
  d_oauth a' !! key = None -> d_oauth (cascade uid a') !! key = None.
Proof. intros Hn. cbn. rewrite eq_None_not_Some. intros [i [Hl _]%lookup_DeleteFunc]. congruence. Qed.

Lemma wp_discardUnlinkedUser {B} uid key (k : prog B) Q a :
  db_ok a -> d_oauth a !! key = None ->
  (forall a', db_ok a' -> d_oauth a' !! key = None -> wp k Q a') ->
  wp (discardUnlinkedUser uid ;;; k)%prog Q a.
Proof.
  intros Hok Hn Hk. unfold discardUnlinkedUser. apply wp_ListOAuthIdentities; [|intros; by apply Hk].
  intros l _. destruct (0 <? _); [by apply Hk|]. apply wp_Delete.
  - intros a' _ Hok' ->. apply Hk; [done|by apply delete_left_absent].
  - intros; by apply Hk.
  - intros e a' _ (_ & Hok' & env & _ & [->|[[y Hp]|[[] _]]]); [by apply Hk|].
    apply Hk; [done|]. cbn in Hp. destruct (d_users a !! uid); destruct Hp as [_ ->]; [|done].
    by apply delete_left_absent.
Qed.

Lemma wp_linkOAuthUser provider info email u isNew origin (Q : res (User * oauthUserOrigin) -> db -> Prop) a :
  db_ok a -> is_Some (d_users a !! user_ID u) -> d_oauth a !! (provider, ui_ExternalID info) = None ->
  (forall id now, Q (Ok (u, origin))
     (with_oauth_link a (user_ID u) provider (ui_ExternalID info) email id now)) ->
  (forall e a', unavailable e = true \/ errors_Is e store.ErrOAuthIdentityNotFound = true -> Q (Err e) a') ->
  wp (linkOAuthUser s provider info email u isNew origin) Q a.
Proof.
  intros Hoka [v Hv] Hn HOk HErr. unfold linkOAuthUser. intros id. apply wp_svc_now. intros now _.
  apply wp_SaveOAuthIdentity; cbn [oi_UserID oi_Provider oi_ExternalID].
  - intros st a' _ _ _ ->. apply (HOk id (stamp now st)).
  - intros e _ He.
    assert (forall a'', db_ok a'' -> d_oauth a'' !! (provider, ui_ExternalID info) = None ->
      wp (let* w := oauthIdentityUser provider (ui_ExternalID info) in
        match w with
        | Ok winner => if isNew && strEq (user_ID winner) (user_ID u)
                       then Ret (Ok (winner, oauthUserCreated)) else Ret (Ok (winner, oauthUserExisting))
        | Err err => Ret (Err err)
        end)%prog Q a'') as Hend.
    { intros a'' Hok'' Hn''. rewrite wp_bind. apply wp_oauthIdentityUser; [done|congruence|..].
      - intros e' _ He'. apply HErr. right. by decide_is.
      - intros e' He'. apply HErr. left. by apply infrastructure_unavailable. }
    decide_is. destruct isNew; [|by apply Hend]. by eapply wp_discardUnlinkedUser.
  - intros e st Hnone. congruence.
  - intros e a' He _. rewrite wp_bind.
    assert (forall a'', wp (if errors_Is e store.ErrOAuthIdentityExists then
        let* w := oauthIdentityUser provider (ui_ExternalID info) in
        match w with
        | Ok winner => if isNew && strEq (user_ID winner) (user_ID u)
                       then Ret (Ok (winner, oauthUserCreated)) else Ret (Ok (winner, oauthUserExisting))
        | Err err => Ret (Err err)
        end
      else Ret (Err (wrap "save oauth identity" e)))%prog Q a'') as Hend.
    { intros a''. decide_is. apply HErr. left. cbn. by apply infrastructure_unavailable. }
    destruct isNew; [|apply Hend]. unfold discardUnlinkedUser.
    apply wp_ListOAuthIdentities; [|intros; apply Hend].
    intros l _. destruct (0 <? _); [apply Hend|].
    apply wp_Delete; intros; apply Hend.
Qed.

Lemma wp_findOrCreateUser email (Q : res (User * bool) -> db -> Prop) a :
  (forall u, has_email a email u -> Q (Ok (u, false)) a) ->
  (forall u a', (forall v, ~ has_email a email v) -> d_users a !! user_ID u = None ->
     user_Email u = email -> user_Roles u = [] -> db_ok a' ->
     a' = with_users a (<[user_ID u := u]> (d_users a)) -> Q (Ok (u, true)) a') ->
  (forall e a', unavailable e = true -> Q (Err e) a') ->
  (forall e, errors_Is e store.ErrUserNotFound = true -> Q (Err e) a) ->
  wp (findOrCreateUser s email) Q a.
Proof.
  intros Hold Hnew HErr Hgone. unfold findOrCreateUser. apply wp_GetByEmail.
  - intros u Hu. by apply Hold.
  - intros e Hn He. decide_is. intros r Hr. destruct r as [id|er]; cbn.
    2: { apply HErr. cbn. by apply infrastructure_unavailable, Hr. }
    apply wp_svc_now. intros now _. apply wp_Create.
    + intros st a' Hfree Hok ->. apply Hnew; try done.
      cbn. apply eq_None_not_Some. intros ?. apply Hfree. by left.
    + intros e' _ He'. decide_is. apply wp_GetByEmail; cbn.
      * intros u Hu. by destruct (Hn u).
      * intros e'' _ He''. apply Hgone. cbn. by rewrite (exactly_Is _ _ _ He'').
      * intros e'' _ He''. apply HErr. cbn. by apply infrastructure_unavailable.
    + intros e' a' He' _. decide_is. apply HErr. cbn. by apply infrastructure_unavailable.
  - intros e _ He. decide_is. apply HErr. cbn. by apply infrastructure_unavailable.
Qed.

Lemma wp_resolveOAuthUser provider info a :
  db_ok a -> wp (resolveOAuthUser s provider info) (resolve_oauth_spec s a provider info) a.
Proof.
  intros Hok. unfold resolveOAuthUser. rewrite wp_bind. apply wp_oauthIdentityUser; [done|..].
  - intros i u Hi Hu. cbn. by eapply or_existing.
  - intros e Hnone He. decide_is. destruct (NormalizeEmail _) as [email|] eqn:En.
    2: { right. right. split; [done|]. left. by left. }
    destruct (ui_EmailVerified info) eqn:Ever; cbn [negb].
    2: { right. right. split; [done|]. left. right. by left. }
    rewrite wp_bind. apply wp_findOrCreateUser.
    + intros u Hu. rewrite wp_bind. unfold checkAutoLink.
      destruct (oc_DisableAutoLinkEmail _) eqn:Ed.
      { right. right. split; [done|]. left. right. right. by left. }
      apply wp_GetPasswordHash.
      * intros h _. right. right. split; [done|]. left. by right; right; right.
      * intros e' Hpw He'. decide_is. apply wp_linkOAuthUser; [done|by destruct Hu as (_ & _ & ->)|done|..].
        -- intros id now. by apply or_linked.
        -- intros e'' a' [He''|He'']; [by left|by right; left].
      * intros e' _ He'. decide_is. left. cbn. by apply infrastructure_unavailable.
    + intros u a' Hfree Hid Hem Hroles Hok' ->. apply wp_linkOAuthUser; [done|cbn; by rewrite lookup_insert_eq|done|..].
      * intros id now. by apply or_created.
      * intros e'' a' [He''|He'']; [by left|by right; left].
    + intros e' a' He'. by left.
    + intros e' He'. right. right. split; [done|]. auto.
  - intros e He. rewrite (infra_Is _ _ He). left. by apply infrastructure_unavailable.
Qed.
End resolve.

(** ** Wallets *)

Definition with_wallet_link (a : db) (userID chain addr id : string) (now : time) : db :=
  with_wallets a (<[(chain, addr) := mkWalletIdentity id userID chain addr now]> (d_wallets a)).

Inductive wallet_resolved (a : db) (chain addr : string) : User -> bool -> db -> Prop :=
| wr_existing i u :
    d_wallets a !! (chain, addr) = Some i -> d_users a !! wi_UserID i = Some u ->
    wallet_resolved a chain addr u false a
| wr_created u id now :
    d_wallets a !! (chain, addr) = None -> d_users a !! user_ID u = None ->
    user_Email u = "" -> user_Roles u = [] ->
    wallet_resolved a chain addr u true
      (with_wallet_link (with_users a (<[user_ID u := u]> (d_users a))) (user_ID u) chain addr id now).

Definition resolve_wallet_spec (a : db) (chain addr : string) (r : res (User * bool)) (a' : db) : Prop :=
  match r with
  | Ok (u, isNew) => wallet_resolved a chain addr u isNew a'
  | Err e => unavailable e = true \/ errors_Is e store.ErrWalletIdentityNotFound = true \/
      (a' = a /\ errors_Is e store.ErrUserExists = true)
  end.

Lemma wp_walletIdentityUser `{Backend, Reads, Faults} chain addr (Q : res User -> db -> Prop) a :
  db_ok a ->
  (forall i u, d_wallets a !! (chain, addr) = Some i -> d_users a !! wi_UserID i = Some u -> Q (Ok u) a) ->
  (forall e, d_wallets a !! (chain, addr) = None -> exactly e store.ErrWalletIdentityNotFound -> Q (Err e) a) ->
  (forall e, infrastructure e = true -> Q (Err e) a) ->
  wp (walletIdentityUser chain addr) Q a.
Proof.
  intros Hok Hf Hn Ho. unfold walletIdentityUser. apply wp_GetWalletIdentity.
  - intros i Hi. destruct (ok_wallets _ Hok _ _ Hi) as [_ [u Hu]]. apply wp_GetByID.
    + intros u' Hu'. by eapply Hf.
    + intros e Hnone. congruence.
    + intros e _ He. by apply Ho.
  - intros e Hi He. decide_is. by apply Hn.
  - intros e _ He. decide_is. by apply Ho.
Qed.

Lemma wp_discardWalletUser `{Backend, Reads, Faults} {B} uid key (k : prog B) Q a :
  db_ok a -> d_wallets a !! key = None ->
  (forall a', db_ok a' -> d_wallets a' !! key = None -> wp k Q a') ->
  wp (discardWalletUser uid ;;; k)%prog Q a.
Proof.
  intros Hok Hn Hk. unfold discardWalletUser.
  assert (d_wallets (cascade uid a) !! key = None) as Hc.
  { cbn. rewrite eq_None_not_Some. intros [i [Hl _]%lookup_DeleteFunc]. congruence. }
  apply wp_Delete.
  - intros a' _ Hok' ->. by apply Hk.
  - intros; by apply Hk.
  - intros e a' _ (_ & Hok' & env & _ & [->|[[y Hp]|[[] _]]]); [by apply Hk|].
    apply Hk; [done|]. cbn in Hp. by destruct (d_users a !! uid); destruct Hp as [_ ->].
Qed.

Lemma wp_resolveWalletUser `{Backend, Reads, Faults, !ServiceSpec s} chain addr a :
  db_ok a -> wp (resolveWalletUser s chain addr) (resolve_wallet_spec a chain addr) a.
Proof.
  intros Hok. unfold resolveWalletUser. rewrite wp_bind. apply wp_walletIdentityUser; [done|..].
  - intros i u Hi Hu. cbn. by eapply wr_existing.
  - intros e Hnone He. decide_is. intros r Hr. destruct r as [id|er]; cbn.
    2: { left. cbn. by apply infrastructure_unavailable, Hr. }
    apply wp_svc_now. intros now _. apply wp_Create.
    + intros st a' Hfree Hok' ->. intros wid. apply wp_SaveWalletIdentity; cbn [wi_UserID wi_Chain wi_Address].
      * intros st' a' _ _ _ ->. cbn.
        apply (wr_created a chain addr (stamp_user st (mkUser id "" [] now now)) wid (stamp now st')); try done.
        apply eq_None_not_Some. intros ?. apply Hfree. by left.
      * intros e' _ He'. apply wp_discardWalletUser with (key := (chain, addr)); [done..|].
        intros a' Hok'' Hn.
        enough (wp (try user := walletIdentityUser chain addr catch err => Ret (Err err) in
                    Ret (Ok (user, false)))%prog (resolve_wallet_spec a chain addr) a') by by decide_is.
        rewrite wp_bind. apply wp_walletIdentityUser; [done|congruence|..].
        -- intros e2 _ He2. right. left. by decide_is.
        -- intros e2 He2. left. by apply infrastructure_unavailable.
      * intros e' s' Hn. cbn in Hn. by rewrite lookup_insert_eq in Hn.
      * intros e' a' He' _. intros env x a3 _ _ _.
        destruct x; cbn; decide_is; left; cbn; by apply infrastructure_unavailable.
    + intros e' _ He'. right. right. split; [done|]. cbn. by rewrite (exactly_Is _ _ _ He').
    + intros e' a' He' _. left. cbn. by apply infrastructure_unavailable.
  - intros e He. rewrite (infra_Is _ _ He). left. by apply infrastructure_unavailable.
Qed.

(** ** The two sign-ins *)

Definition wallet_signed_in `{Reads, Faults} (s : Service) `{!ServiceSpec s} (a : db) (req : WalletAuthRequest) (res : WalletAuthResult) (a' : db)
  : Prop :=
  exists p addr ch now u a1 t0 t1, reads now /\ reads t0 /\
    walletProvider s (war_Chain req) (war_Address req) = Ok (p, addr) /\
    d_challenges a !! war_Nonce req = Some ch /\ challenge_matches p req addr ch now /\
    wallet_resolved (with_challenges a (delete (war_Nonce req) (d_challenges a)))
      (war_Chain req) addr u (wres_IsNewUser res) a1 /\
    wres_UserID res = user_ID u /\ wres_Email res = user_Email u /\
    speaks_for s (wres_TokenPair res) u /\
    a' = with_session a1 (wres_TokenPair res) (user_ID u) "" t0 t1.

Definition oauth_signed_in `{UnicodeTables, Reads, Faults} (s : Service) `{!ServiceSpec s} (a : db) (req : OAuthCallbackRequest)
    (vouched : string -> AuthParams -> UserInfo -> Prop) (res : OAuthCallbackResult) (a' : db) : Prop :=
  exists ch now info u origin a1 t0 t1, reads now /\ reads t0 /\
    d_challenges a !! ocr_State req = Some ch /\ state_matches req ch now /\
    vouched (ocr_Code req)
      (mkAuthParams (ocr_State req) (ocr_RedirectURI req) (ch_CodeVerifier ch) (ch_OAuthNonce ch)) info /\
    ui_ExternalID info <> "" /\
    oauth_resolved s (with_challenges a (delete (ocr_State req) (d_challenges a)))
      (ocr_Provider req) info u origin a1 /\
    ores_UserID res = user_ID u /\ ores_Email res = user_Email u /\
    ores_IsNewUser res = bool_decide (origin = oauthUserCreated) /\
    ores_Linked res = bool_decide (origin = oauthUserLinked) /\
    speaks_for s (ores_TokenPair res) u /\
    a' = with_session a1 (ores_TokenPair res) (user_ID u) "" t0 t1.

(** Rows of an existing or a new user. *)
Lemma wallet_resolved_user a chain addr u b a1 :
  db_ok a -> wallet_resolved a chain addr u b a1 -> d_users a1 !! user_ID u = Some u.
Proof.
  intros Hok [i u' Hi Hu|u' id now _ _ _ _]; cbn.
  - by rewrite (ok_users _ Hok _ _ Hu).
  - apply lookup_insert_eq.
Qed.

Lemma oauth_resolved_user `{UnicodeTables} s a provider info u origin a1 :
  db_ok a -> oauth_resolved s a provider info u origin a1 -> d_users a1 !! user_ID u = Some u.
Proof.
  intros Hok [i u' Hi Hu|e u' id now _ _ _ _ _ _ _|e u' id now _ _ _ (_ & _ & Hu) _ _]; cbn.
  - by rewrite (ok_users _ Hok _ _ Hu).
  - apply lookup_insert_eq.
  - done.
Qed.

(** What follows the exchange of the code. *)
Definition after_exchange `{UnicodeTables} (s : Service) (req : OAuthCallbackRequest) (e : res UserInfo) : prog (res OAuthCallbackResult) :=
  (match e with
   | Err err => Ret (Err (EWrap2 auth.ErrOAuthExchangeFailed err []))
   | Ok info =>
       if strEq (ui_ExternalID info) "" then
         Ret (Err (EWrap2 auth.ErrOAuthExchangeFailed oauth.ErrInvalidToken [Lit ": empty external id"]))
       else
         try u := resolveOAuthUser s (ocr_Provider req) info catch err => Ret (Err err) in
         let '(user, origin) := u in
         let change := mkAccountChange (user_ID user)
                         (bool_decide (origin = oauthUserCreated)) (bool_decide (origin = oauthUserLinked)) in
         try tokens := issueTokens s (user_ID user) (user_Email user) (user_Roles user) ""
           catch err => Ret (Err (EAccount change (wrap "issue tokens" err))) in
         Ret (Ok (mkOAuthCallbackResult (user_ID user) (user_Email user) tokens (ac_created change) (ac_linked change)))
   end)%prog.

(** The parameters of the flow whose state [ch] was. *)
Definition flow_params (req : OAuthCallbackRequest) (ch : Challenge) : AuthParams :=
  mkAuthParams (ocr_State req) (ocr_RedirectURI req) (ch_CodeVerifier ch) (ch_OAuthNonce ch).

Lemma OAuthCallback_cut `{UnicodeTables} s req : Service_OAuthCallback s req =
  (match oauthProvider s (ocr_Provider req) with
   | Err err => Ret (Err err)
   | Ok p =>
       try ch := consumeOAuthState s req catch err => Ret (Err err) in
       let* e := op_ExchangeCode p (ocr_Code req) (flow_params req ch) in after_exchange s req e
   end)%prog.
Proof. reflexivity. Qed.

Section sign_in.
Context `{UnicodeTables, Backend, Reads, Faults, !ServiceSpec s}.

Lemma wp_AuthenticateWallet req a :
  db_ok a ->
  wp (Service_AuthenticateWallet s req)
    (fun r a' => match r with Ok res => wallet_signed_in s a req res a' | Err _ => True end) a.
Proof.
  intros Hok. unfold Service_AuthenticateWallet.
  destruct (walletProvider s _ _) as [[p addr]|] eqn:Ep; [|done].
  rewrite wp_bind. eapply wp_mono; [|apply wp_consumeWalletChallenge].
  intros [e|] a1 Hc; [done|]. destruct Hc as (ch & now & Hnow & Hl & Hm & ->).
  set (a0 := with_challenges a _).
  assert (db_ok a0) as Hok0.
  { apply db_ok_challenges; [done|]. intros n c [_ Hc]%lookup_delete_Some. by apply (ok_challenges _ Hok). }
  rewrite wp_bind. eapply wp_mono; [|by apply wp_resolveWalletUser].
  intros [[u isNew]|e] a1 Hr; [|done]. cbn in Hr. cbv beta iota. rewrite wp_bind. apply wp_issueTokens; [|done..].
  intros tp t0 t1 a' Htp Ht0 _ _ _ ->. cbn. by exists p, addr, ch, now, u, a1, t0, t1.
Qed.

Lemma wp_after_exchange req vouched a ch now info :
  db_ok a -> reads now -> d_challenges a !! ocr_State req = Some ch -> state_matches req ch now ->
  vouched (ocr_Code req) (flow_params req ch) info ->
  wp (after_exchange s req (Ok info))
    (fun r a' => match r with Ok res => oauth_signed_in s a req vouched res a' | Err _ => True end)
    (with_challenges a (delete (ocr_State req) (d_challenges a))).
Proof.
  intros Hok Hnow Hl Hm Hv. set (a0 := with_challenges a _).
  assert (db_ok a0) as Hok0.
  { apply db_ok_challenges; [done|]. intros n c [_ Hc]%lookup_delete_Some. by apply (ok_challenges _ Hok). }
  unfold after_exchange. destruct (strEq (ui_ExternalID info) "") eqn:Ex; [done|]. apply strEq_false in Ex.
  rewrite wp_bind. eapply wp_mono; [|by apply wp_resolveOAuthUser].
  intros [[u origin]|e] a1 Hr; [|done]. cbn in Hr. cbv beta iota zeta. rewrite wp_bind. apply wp_issueTokens; [|done..].
  intros tp t0 t1 a' Htp Ht0 _ _ _ ->. cbn. by exists ch, now, info, u, origin, a1, t0, t1.
Qed.

(** The providers of the service keep to their interface. *)
Lemma wp_OAuthCallback req vouched a :
  db_ok a -> (forall p, oauthProvider s (ocr_Provider req) = Ok p -> OAuthProviderSpec p vouched) ->
  wp (Service_OAuthCallback s req)
    (fun r a' => match r with Ok res => oauth_signed_in s a req vouched res a' | Err _ => True end) a.
Proof.
  intros Hok Hps. rewrite OAuthCallback_cut.
  destruct (oauthProvider s _) as [p|] eqn:Ep; [|done]. specialize (Hps p eq_refl).
  rewrite wp_bind. eapply wp_mono; [|apply wp_consumeOAuthState].
  intros [ch|e] a1 Hc; [|done]. destruct Hc as (now & Hnow & Hl & Hm & ->).
  rewrite wp_bind. apply (op_exchange (p := p) (vouched := vouched)); [intros info Hv|done].
  by eapply wp_after_exchange.
Qed.
End sign_in.

Section theorems.
Context `{UnicodeTables}.
Context {S : Type} `{!StoreImpl S, !StoreContract S, Faults} (o : oracle) `{!ServiceSpec s}.

(** The state of an OAuth flow is spent only by the browser and redirect it
    was issued for: the callback gets past the state check exactly with a
    stored, unexpired state bound to its provider, redirect URI and browser
    secret, and the row is then gone; a request that fails any check is told the
    same error and leaves a live state in place; only an outage does otherwise. *)
Theorem consumeOAuthState_spec req w r w' :
  oracle_ok o -> sc_inv (w_store w) -> run o (consumeOAuthState s req) w = (r, w') ->
  let _ : Reads := read_during o w w' in
  consume_state_spec (sc_view (w_store w)) req r (sc_view (w_store w')).
Proof.
  intros Ho Hinv Hrun R.
  exact (proj1 (wp_sound o _ _ _ _ _ Ho Hinv (wp_consumeOAuthState req _) Hrun)).
Qed.

(** A wallet challenge is spent only by a signature that verifies: the
    sign-in gets past the check exactly with a stored, unexpired challenge for
    that chain and address whose very message the wallet signed, and the row is
    then gone; any other request is told the same error and cannot burn a live
    challenge. *)
Theorem consumeWalletChallenge_spec p req addr w r w' :
  oracle_ok o -> sc_inv (w_store w) -> run o (consumeWalletChallenge s p req addr) w = (r, w') ->
  let _ : Reads := read_during o w w' in
  consume_challenge_spec (sc_view (w_store w)) p req addr r (sc_view (w_store w')).
Proof.
  intros Ho Hinv Hrun R.
  exact (proj1 (wp_sound o _ _ _ _ _ Ho Hinv (wp_consumeWalletChallenge p req addr _) Hrun)).
Qed.

(** What a sign-in leaves. *)
Lemma oauth_signed_in_facts `{Reads} a req vouched res a' :
  db_ok a -> oauth_signed_in s a req vouched res a' ->
  exists ch now info, reads now /\
    d_challenges a !! ocr_State req = Some ch /\ state_matches req ch now /\
    d_challenges a' !! ocr_State req = None /\
    vouched (ocr_Code req) (flow_params req ch) info /\
    let key := (ocr_Provider req, ui_ExternalID info) in
    (exists u i, d_users a' !! ores_UserID res = Some u /\ ores_Email res = user_Email u /\
       speaks_for s (ores_TokenPair res) u /\
       d_oauth a' !! key = Some i /\ oi_UserID i = ores_UserID res) /\
    match ores_IsNewUser res, ores_Linked res with
    | false, false => d_oauth a' !! key = d_oauth a !! key
    | created, _ =>
        d_oauth a !! key = None /\ ui_EmailVerified info = true /\
        NormalizeEmail (ui_Email info) = Ok (ores_Email res) /\
        (if (created : bool) then d_users a !! ores_UserID res = None
         else d_passwords a !! ores_UserID res = None /\
              oc_DisableAutoLinkEmail (oauthConfig s) = false /\
              is_Some (d_users a !! ores_UserID res))
    end.
Proof.
  intros Hok (ch & now & info & u & origin & a1 & t0 & t1 & Hnow & _ & Hl & Hm & Hv & _ & Hr & -> & Hem & -> & -> & Htp & ->).
  set (a0 := with_challenges a _) in Hr.
  assert (db_ok a0) as Hok0.
  { apply db_ok_challenges; [done|]. intros n c [_ Hc]%lookup_delete_Some. by apply (ok_challenges _ Hok). }
  exists ch, now, info.
  assert (d_challenges a1 = delete (ocr_State req) (d_challenges a)) as Hch by (by destruct Hr).
  pose proof (oauth_resolved_user _ _ _ _ _ _ _ Hok0 Hr) as Hu1.
  cbn [with_session with_tokens d_challenges d_users d_oauth]. rewrite Hch.
  split_and!; [done..|apply lookup_delete_eq|done| |].
  - exists u. destruct Hr as [i u Hi Hu| |]; cbn in *.
    + exists i. split_and!; [done..|]. by rewrite (ok_users _ Hok _ _ Hu).
    + eexists. split_and!; [done..|apply lookup_insert_eq|done].
    + eexists. split_and!; [done..|apply lookup_insert_eq|done].
  - rewrite Hem. destruct Hr as [i u Hi Hu|e u id n Hn Hver He _ Hid Hue _|e u id n Hn Hver He Hu Hpw Hd]; cbn in *.
    + done.
    + by rewrite Hue.
    + destruct Hu as (_ & <- & Hu). cbn in Hu. split_and!; eauto.
Qed.

(** A successful callback, cut at the exchange of the code: that is the exchange
    whose answer the session is opened for. *)
Lemma run_OAuthCallback_cut req p vouched w res w' :
  oracle_ok o -> sc_inv (w_store w) -> oauthProvider s (ocr_Provider req) = Ok p -> OAuthProviderSpec p vouched ->
  run o (Service_OAuthCallback s req) w = (Ok res, w') ->
  exists ch w0 info w1,
    (w_tick w <= w_tick w0 <= w_tick w1)%nat /\ (w_tick w1 <= w_tick w')%nat /\
    sc_view (w_store w0) = with_challenges (sc_view (w_store w)) (delete (ocr_State req) (d_challenges (sc_view (w_store w)))) /\
    run o (op_ExchangeCode p (ocr_Code req) (flow_params req ch)) w0 = (Ok info, w1) /\
    let _ : Reads := read_during o w w' in
    oauth_signed_in s (sc_view (w_store w)) req (fun _ params i => params = flow_params req ch /\ i = info) res
      (sc_view (w_store w')).
Proof.
  intros Ho Hinv Hp Hspec. rewrite OAuthCallback_cut, Hp, run_bind.
  destruct (run o (consumeOAuthState s req) w) as [[ch|e] w0] eqn:Hc; [|done]. rewrite run_bind.
  destruct (run o (op_ExchangeCode p _ _) w0) as [[info|e] w1] eqn:Hx; [|done]. intros Hrun.
  pose proof (run_tick o (consumeOAuthState s req) w) as T0. rewrite Hc in T0. cbn in T0.
  pose proof (run_tick o (op_ExchangeCode p (ocr_Code req) (flow_params req ch)) w0) as T1. rewrite Hx in T1. cbn in T1.
  pose proof (run_tick o (after_exchange s req (Ok info)) w1) as T2. rewrite Hrun in T2. cbn in T2.
  set (R := read_during o w w').
  destruct (wp_sound_within o (consumeOAuthState s req) _ w (Ok ch) w0 (w_tick w) (w_tick w') Ho Hinv ltac:(lia) ltac:(lia)
    (wp_consumeOAuthState req _) Hc) as [(now & Hnow & Hl & Hm & Hv0) Hinv0].
  destruct (wp_sound_within o (op_ExchangeCode p (ocr_Code req) (flow_params req ch)) (fun _ a => a = sc_view (w_store w0)) w0
    (Ok info) w1 (w_tick w0) (w_tick w1) Ho Hinv0 ltac:(lia) ltac:(lia)) as [Hv1 Hinv1]; [by apply (op_exchange (vouched := vouched))|exact Hx|].
  exists ch, w0, info, w1. split_and!; [lia|lia|lia|exact Hv0|exact Hx|].
  destruct (wp_sound_within o (after_exchange s req (Ok info))
    (fun r a' => match r with
                 | Ok res => @oauth_signed_in _ R _ s _ (sc_view (w_store w)) req (fun _ params i => params = flow_params req ch /\ i = info) res a'
                 | Err _ => True end) w1 (Ok res) w' (w_tick w) (w_tick w') Ho Hinv1 ltac:(lia) ltac:(lia)) as [Hs _]; [|exact Hrun|exact Hs].
  rewrite Hv1, Hv0. apply (wp_after_exchange req _ _ ch now); [by apply sc_ok|exact Hnow|done..].
Qed.

Lemma run_OAuthCallback req vouched w res w' :
  oracle_ok o -> sc_inv (w_store w) ->
  (forall p, oauthProvider s (ocr_Provider req) = Ok p -> OAuthProviderSpec p vouched) ->
  run o (Service_OAuthCallback s req) w = (Ok res, w') ->
  let _ : Reads := read_during o w w' in
  oauth_signed_in s (sc_view (w_store w)) req vouched res (sc_view (w_store w')).
Proof.
  intros Ho Hinv Hps Hrun R. pose proof (sc_ok _ Hinv) as Hok.
  exact (proj1 (wp_sound o _ _ _ _ _ Ho Hinv (wp_OAuthCallback req vouched _ Hok Hps) Hrun)).
Qed.

(** C11. An OAuth sign-in never takes over an account: a successful callback spent
    the flow's own state, exchanged the code for an account the provider vouches
    for, and opened a session of the user linked to that account, who either was
    linked to it already, or was created for it, or was found by the verified
    email; and the last happens only with automatic linking on and for a user
    that has no password. *)
Theorem OAuthCallback_no_takeover req vouched w res w' :
  oracle_ok o -> sc_inv (w_store w) ->
  (forall p, oauthProvider s (ocr_Provider req) = Ok p -> OAuthProviderSpec p vouched) ->
  run o (Service_OAuthCallback s req) w = (Ok res, w') ->
  let a := sc_view (w_store w) in let a' := sc_view (w_store w') in
  exists ch now info, read_during o w w' now /\
    d_challenges a !! ocr_State req = Some ch /\ state_matches req ch now /\
    d_challenges a' !! ocr_State req = None /\
    vouched (ocr_Code req)
      (mkAuthParams (ocr_State req) (ocr_RedirectURI req) (ch_CodeVerifier ch) (ch_OAuthNonce ch)) info /\
    let key := (ocr_Provider req, ui_ExternalID info) in
    (exists u i, d_users a' !! ores_UserID res = Some u /\ ores_Email res = user_Email u /\
       speaks_for s (ores_TokenPair res) u /\
       d_oauth a' !! key = Some i /\ oi_UserID i = ores_UserID res) /\
    match ores_IsNewUser res, ores_Linked res with
    | false, false => d_oauth a' !! key = d_oauth a !! key
    | created, _ =>
        d_oauth a !! key = None /\ ui_EmailVerified info = true /\
        NormalizeEmail (ui_Email info) = Ok (ores_Email res) /\
        (if (created : bool) then d_users a !! ores_UserID res = None
         else d_passwords a !! ores_UserID res = None /\
              oc_DisableAutoLinkEmail (oauthConfig s) = false /\
              is_Some (d_users a !! ores_UserID res))
    end.
Proof.
  intros Ho Hinv Hps Hrun. apply (oauth_signed_in_facts (H1 := read_during o w w')); [by apply sc_ok|].
  by apply run_OAuthCallback.
Qed.

Lemma run_AuthenticateWallet req w res w' :
  oracle_ok o -> sc_inv (w_store w) ->
  run o (Service_AuthenticateWallet s req) w = (Ok res, w') ->
  let a := sc_view (w_store w) in let a' := sc_view (w_store w') in
  exists p addr ch now i, read_during o w w' now /\
    walletProvider s (war_Chain req) (war_Address req) = Ok (p, addr) /\
    d_challenges a !! war_Nonce req = Some ch /\ challenge_matches p req addr ch now /\
    d_challenges a' !! war_Nonce req = None /\
    d_wallets a' !! (war_Chain req, addr) = Some i /\ wi_UserID i = wres_UserID res /\
    (exists u, d_users a' !! wres_UserID res = Some u /\ speaks_for s (wres_TokenPair res) u) /\
    (wres_IsNewUser res = true <-> d_wallets a !! (war_Chain req, addr) = None).
Proof.
  intros Ho Hinv Hrun a a'. pose proof (sc_ok _ Hinv) as Hok. fold a in Hok.
  destruct (proj1 (wp_sound o _ _ _ _ _ Ho Hinv (wp_AuthenticateWallet req _ Hok) Hrun))
    as (p & addr & ch & now & u & a1 & t0 & t1 & Hnow & _ & Hp & Hl & Hm & Hr & -> & _ & Htp & Ha').
  subst a'. rewrite Ha'. clear Hrun Ha'. fold a in Hr, Hl.
  destruct Hr as [i u Hi Hu|u id n Hn _ _ _]; cbn in *.
  - exists p, addr, ch, now, i. pose proof (ok_users _ Hok _ _ Hu) as Hid.
    split_and!; try done; [apply lookup_delete_eq|exists u; by rewrite Hid|split; congruence].
  - exists p, addr, ch, now. eexists.
    split_and!; try done; [apply lookup_delete_eq|apply lookup_insert_eq|done|].
    exists u. by rewrite lookup_insert_eq.
Qed.

(** C12. A wallet sign-in is by the wallet's owner: a successful one used a live
    challenge whose message verifies as signed by the normalized address, spent
    it, and opened a session for the user linked to exactly that chain and
    address, created if the wallet was new. *)
Theorem AuthenticateWallet_by_owner req w res w' :
  oracle_ok o -> sc_inv (w_store w) ->
  run o (Service_AuthenticateWallet s req) w = (Ok res, w') ->
  let a := sc_view (w_store w) in let a' := sc_view (w_store w') in
  exists p addr ch now i, read_during o w w' now /\
    walletProvider s (war_Chain req) (war_Address req) = Ok (p, addr) /\
    d_challenges a !! war_Nonce req = Some ch /\ challenge_matches p req addr ch now /\
    d_challenges a' !! war_Nonce req = None /\
    d_wallets a' !! (war_Chain req, addr) = Some i /\ wi_UserID i = wres_UserID res /\
    (exists u, d_users a' !! wres_UserID res = Some u /\ speaks_for s (wres_TokenPair res) u) /\
    (wres_IsNewUser res = true <-> d_wallets a !! (war_Chain req, addr) = None).
Proof. apply run_AuthenticateWallet. Qed.
End theorems.
