(* ===== verification/EvmFacts.v ===== *)
(** * What an EVM sign-in proves

    An address is accepted in the spellings EIP-55 allows and normalized to one
    text per account; a signature is accepted exactly when it recovers to the
    account; the message says, without ambiguity, who signs in where and with
    which nonce. *)

From S2P Require Import Prelude GoStrings GoTime GoFormat GoEncoding Errors Entity Ports Contract ContractFacts WpRules Token Interfaces Service Refresh Wallet Evm SignIn.

(** ** Hexadecimal text *)

Lemma str_ind2 (P : string -> Prop) :
  P "" -> (forall a, P (String a "")) -> (forall a b t, P t -> P (String a (String b t))) -> forall s, P s.
Proof. intros H0 H1 H2. fix IH 1. intros [|a [|b t]]; [done|done|]. apply H2, IH. Qed.

(** The value of a digit: three ranges of bytes. *)
Lemma hex_val_cases c v :
  hex_val c = Some v ->
  48 <= byteval c <= 57 /\ v = byteval c - 48 \/ 97 <= byteval c <= 102 /\ v = byteval c - 87 \/
  65 <= byteval c <= 70 /\ v = byteval c - 55.
Proof.
  unfold hex_val. cbv zeta. repeat (case_match; [intros [= <-]; lia|]). done.
Qed.

Lemma hex_val_lower c : hex_val (lower_byte c) = hex_val c.
Proof.
  unfold lower_byte. destruct (_ && _) eqn:E; [|done]. pose proof (byteval_range c).
  unfold hex_val. rewrite byteval_bytechr by lia. cbv zeta.
  repeat case_match; try lia; f_equal; lia.
Qed.
Lemma hex_val_upper c : hex_val (upper_byte c) = hex_val c.
Proof.
  unfold upper_byte. destruct (_ && _) eqn:E; [|done]. pose proof (byteval_range c).
  unfold hex_val. rewrite byteval_bytechr by lia. cbv zeta.
  repeat case_match; try lia; f_equal; lia.
Qed.
Lemma hex_digit_lower c v : hex_val c = Some v -> hex_digit v = lower_byte c /\ 0 <= v < 16.
Proof.
  intros [[? ->]|[[? ->]|[? ->]]]%hex_val_cases; unfold hex_digit, lower_byte.
  - replace (_ && _) with false by lia. replace (_ <? 10) with true by lia.
    replace (48 + _) with (byteval c) by lia. rewrite bytechr_byteval. split; [done|lia].
  - replace (_ && _) with false by lia. replace (_ <? 10) with false by lia.
    replace (87 + _) with (byteval c) by lia. rewrite bytechr_byteval. split; [done|lia].
  - replace (_ && _) with true by lia. replace (_ <? 10) with false by lia.
    replace (87 + _) with (byteval c + 32) by lia. split; [done|lia].
Qed.
Lemma hex_val_ascii c v : hex_val c = Some v -> byteval c < 128.
Proof. intros Hv%hex_val_cases. lia. Qed.

Lemma hex_decode_map f s : (forall c, hex_val (f c) = hex_val c) -> hex_decode (str_map f s) = hex_decode s.
Proof.
  intros Hf. induction s as [|a|a b s IH] using str_ind2; [done|done|]. cbn. by rewrite !Hf, IH.
Qed.

(** The digits that a decoding read, in lower case. *)
Lemma hex_decode_spec s raw :
  hex_decode s = Some raw ->
  hex_encode raw = str_map lower_byte s /\ is_ascii s = true /\ String.length s = (2 * String.length raw)%nat.
Proof.
  revert raw. induction s as [|a|a b s IH] using str_ind2; intros raw; cbn.
  - by intros [= <-].
  - done.
  - destruct (hex_val a) as [va|] eqn:Ea; [|done]. destruct (hex_val b) as [vb|] eqn:Eb; [|done].
    destruct (hex_decode s) as [t|]; [|done]. cbn. intros [= <-]. destruct (IH t eq_refl) as (He & Hs & Hl).
    destruct (hex_digit_lower a va Ea) as [<- ?], (hex_digit_lower b vb Eb) as [<- ?].
    pose proof (hex_val_ascii a va Ea). pose proof (hex_val_ascii b vb Eb).
    cbn [hex_encode String.length]. rewrite byteval_bytechr by lia.
    replace ((va * 16 + vb) / 16) with va by eucl. replace ((va * 16 + vb) mod 16) with vb by eucl.
    rewrite He. split_and!; [done| |lia]. rewrite Hs. repeat (apply andb_true_intro; split); lia.
Qed.

Lemma hex_digit_val v : 0 <= v < 16 -> hex_val (hex_digit v) = Some v /\ lower_byte (hex_digit v) = hex_digit v.
Proof.
  intros Hv. unfold hex_digit, hex_val, lower_byte. destruct (v <? 10) eqn:E; rewrite byteval_bytechr by lia; cbv zeta.
  - replace (_ && _) with true by lia. replace ((65 <=? _) && _) with false by lia. split; [f_equal; lia|done].
  - replace (_ && _) with false by lia. replace ((97 <=? _) && _) with true by lia.
    replace ((65 <=? _) && _) with false by lia. split; [f_equal; lia|done].
Qed.

Lemma hex_decode_encode raw : hex_decode (hex_encode raw) = Some raw.
Proof.
  induction raw as [|c raw IH]; [done|]. pose proof (byteval_range c). cbn.
  rewrite !(fun v Hv => proj1 (hex_digit_val v Hv)), IH by eucl. cbn.
  replace (byteval c / 16 * 16 + byteval c mod 16) with (byteval c) by eucl. by rewrite bytechr_byteval.
Qed.

Lemma hex_encode_inj a b : hex_encode a = hex_encode b -> a = b.
Proof. intros E. apply (f_equal hex_decode) in E. rewrite !hex_decode_encode in E. by simplify_eq. Qed.

Lemma hex_encode_lower raw : str_map lower_byte (hex_encode raw) = hex_encode raw.
Proof.
  induction raw as [|c raw IH]; [done|]. pose proof (byteval_range c). cbn.
  by rewrite !(fun v Hv => proj2 (hex_digit_val v Hv)), IH by eucl.
Qed.

Lemma CutPrefix_spec s p digits :
  CutPrefix s p = (digits, true) <-> s = p +:+ digits.
Proof.
  unfold CutPrefix. destruct (HasPrefix s p) eqn:E.
  - split; [|intros ->; by rewrite str_drop_app]. intros [= <-].
    apply HasPrefix_spec in E as [t ->]. by rewrite str_drop_app.
  - split; [done|]. intros ->. by rewrite HasPrefix_app in E.
Qed.

(** ** Addresses *)

Section addresses.
Context `{Keccak, UnicodeTables, UpperTables}.

Lemma checksum_digits_length i h s : String.length (checksum_digits i h s) = String.length s.
Proof. revert i. induction s as [|c s IH]; intros i; cbn; [done|]. by rewrite IH. Qed.

(** The checksum only changes the case of digits. *)
Lemma checksum_digits_lower i h raw :
  str_map lower_byte (checksum_digits i h (hex_encode raw)) = hex_encode raw.
Proof.
  assert (forall b v, 0 <= v < 16 ->
    lower_byte (if (97 <=? byteval (hex_digit v)) && b then bytechr (byteval (hex_digit v) - 97 + 65) else hex_digit v)
    = hex_digit v) as Hd.
  { intros b v Hv. destruct (_ && b) eqn:E; [|by apply hex_digit_val].
    apply andb_prop in E as [E _]. unfold hex_digit in *. destruct (v <? 10) eqn:Ev;
      rewrite byteval_bytechr in E |- * by lia; [lia|]. unfold lower_byte.
    rewrite byteval_bytechr by lia. replace (_ && _) with true by lia. f_equal. lia. }
  revert i. induction raw as [|c raw IH]; intros i; [done|]. pose proof (byteval_range c).
  cbn -[Nat.div Nat.modulo]. rewrite !Hd by eucl. by rewrite IH.
Qed.

(** The text EIP-55 gives 20 bytes. *)
Definition eip55 (raw : string) : string := checksum (hex_encode raw).

Lemma eip55_inj a b : eip55 a = eip55 b -> a = b.
Proof.
  unfold eip55, checksum. intros [= E]. apply (f_equal (str_map lower_byte)) in E.
  rewrite !checksum_digits_lower in E. by apply hex_encode_inj.
Qed.

(** A spelling of 20 bytes: in small or in capital letters, or with the
    checksum. *)
Definition spells (addr raw : string) : Prop :=
  String.length raw = 20%nat /\
  (addr = "0x" +:+ hex_encode raw \/ addr = "0x" +:+ str_map upper_byte (hex_encode raw) \/ addr = eip55 raw).

Lemma upper_lower c : upper_byte (lower_byte c) = upper_byte c.
Proof.
  unfold upper_byte at 1, lower_byte. pose proof (byteval_range c).
  destruct ((65 <=? byteval c) && (byteval c <=? 90)) eqn:E.
  - rewrite byteval_bytechr by lia. replace (_ && _) with true by lia.
    replace (byteval c + 32 - 32) with (byteval c) by lia. rewrite bytechr_byteval.
    unfold upper_byte. by replace (_ && _) with false by lia.
  - done.
Qed.
Lemma str_map_comp f g s : str_map f (str_map g s) = str_map (fun c => f (g c)) s.
Proof. induction s as [|c s IH]; cbn; congruence. Qed.
Lemma str_map_ext f g s : (forall c, f c = g c) -> str_map f s = str_map g s.
Proof. intros Hf. induction s as [|c s IH]; cbn; congruence. Qed.

Lemma upper_hex digits raw :
  hex_decode digits = Some raw -> str_map upper_byte (hex_encode raw) = str_map upper_byte digits.
Proof.
  intros (-> & _ & _)%hex_decode_spec. rewrite str_map_comp. apply str_map_ext, upper_lower.
Qed.

Lemma eip55_length raw : String.length (eip55 raw) = (2 + 2 * String.length raw)%nat.
Proof. unfold eip55, checksum. cbn. by rewrite checksum_digits_length, hex_encode_length. Qed.

(** What [NormalizeAddress] does, once the digits are decoded. *)
Lemma NormalizeAddress_digits p digits raw :
  hex_decode digits = Some raw -> String.length digits = addressHexLen ->
  (spells ("0x" +:+ digits) raw -> NormalizeAddress p ("0x" +:+ digits) = Ok (eip55 raw)) /\
  (~ spells ("0x" +:+ digits) raw ->
   NormalizeAddress p ("0x" +:+ digits) = Err (EWrap [] evm.ErrInvalidAddress [Lit ": checksum mismatch"])).
Proof.
  intros Hd Hl. destruct (hex_decode_spec _ _ Hd) as (He & Ha & Hlen).
  unfold NormalizeAddress. rewrite (proj2 (CutPrefix_spec _ _ _) eq_refl), Hl, Hd. cbn [negb orb Nat.eqb].
  rewrite ToLower_ascii, ToUpper_ascii, <- He by done. fold (eip55 raw). cbn [Nat.eqb addressHexLen negb].
  rewrite <- (upper_hex _ _ Hd). assert (String.length raw = 20%nat) as Hr by (unfold addressHexLen in Hl; lia).
  assert (digits = str_drop 2 (eip55 raw) <-> "0x" +:+ digits = eip55 raw) as Hc.
  { unfold eip55, checksum. cbn [str_drop String.app]. split; [by intros <-|by intros [= <-]]. }
  unfold spells. split.
  - intros [_ Hs]. destruct (_ && _) eqn:E; [|done]. exfalso.
    rewrite !andb_true_iff, !negb_true_iff, !bool_decide_eq_false, Hc in E.
    destruct E as [[E1 E2] E3]. destruct Hs as [Hs|[Hs|Hs]]; [|injection Hs as Hs|done]; [injection Hs as Hs|]; done.
  - intros Hs. destruct (_ && _) eqn:E; [done|]. exfalso. apply Hs. split; [done|].
    rewrite !andb_false_iff, !negb_false_iff, !bool_decide_eq_true, Hc in E.
    destruct E as [[E|E]|E]; [left|right; left|by right; right]; by rewrite <- E.
Qed.

Lemma spells_digits addr raw :
  spells addr raw -> exists digits, addr = "0x" +:+ digits /\ hex_decode digits = Some raw /\
    String.length digits = addressHexLen.
Proof.
  intros [Hr Hs]. destruct Hs as [-> |[-> | ->]].
  - eexists. split; [done|]. rewrite hex_decode_encode, hex_encode_length, Hr. done.
  - eexists. split; [done|]. rewrite hex_decode_map by apply hex_val_upper.
    rewrite hex_decode_encode, str_map_length, hex_encode_length, Hr. done.
  - eexists. split; [done|]. rewrite checksum_digits_length, hex_encode_length, Hr. split; [|done].
    rewrite <- (hex_decode_map lower_byte) by apply hex_val_lower.
    by rewrite checksum_digits_lower, hex_decode_encode.
Qed.

Lemma NormalizeAddress_exact p addr :
  match NormalizeAddress p addr with
  | Ok a => exists raw, spells addr raw /\ a = eip55 raw
  | Err e => errors_Is e evm.ErrInvalidAddress = true /\ forall raw, ~ spells addr raw
  end.
Proof.
  destruct (NormalizeAddress p addr) as [a|e] eqn:En.
  - assert (exists digits raw, addr = "0x" +:+ digits /\ hex_decode digits = Some raw /\ String.length digits = addressHexLen)
      as (digits & raw & -> & Hd & Hl).
    { unfold NormalizeAddress in En. destruct (CutPrefix addr "0x") as [digits ok] eqn:Ec.
      destruct ok; [|done]. apply CutPrefix_spec in Ec as ->. cbn [negb orb] in En.
      destruct (String.length digits =? addressHexLen)%nat eqn:El; [|done]. apply Nat.eqb_eq in El.
      destruct (hex_decode digits) as [raw|] eqn:Ed; [|done]. eauto. }
    destruct (NormalizeAddress_digits p digits raw Hd Hl) as [Hy Hn].
    destruct (decide (spells ("0x" +:+ digits) raw)) as [Hs|Hs]; [|rewrite Hn in En; done].
    rewrite Hy in En by done. exists raw. by simplify_eq.
  - assert (forall raw, ~ spells addr raw) as Hno.
    { intros raw Hs. destruct (spells_digits _ _ Hs) as (digits & -> & Hd & Hl).
      destruct (NormalizeAddress_digits p digits raw Hd Hl) as [Hy _]. rewrite Hy in En; done. }
    split; [|done]. clear Hno. unfold NormalizeAddress in En. destruct (CutPrefix addr "0x").
    repeat (case_match; simplify_eq; try done).
Qed.
End addresses.

(** ** Signatures *)

Section signatures.
Context `{Keccak, UnicodeTables, UpperTables, Secp256k1}.

(** A signature as wallets write it: 64 bytes [r || s] and a recovery id, as
    such or plus 27. *)
Definition signature_parts (sig rs : string) (id : Z) : Prop :=
  exists digits v, sig = "0x" +:+ digits /\ hex_decode digits = Some (rs +:+ String (bytechr v) "") /\
    String.length rs = 64%nat /\ (id = 0 \/ id = 1) /\ (v = id \/ v = 27 + id).

(** The key recovered from the signature of the message is the account's. *)
Definition signed_with (raw message sig : string) : Prop :=
  exists rs id pub compressed, signature_parts sig rs id /\
    RecoverCompact (String (bytechr (27 + id)) rs) (personalSignHash message) = Ok (pub, compressed) /\
    str_drop 12 (keccak256 (str_drop 1 (SerializeUncompressed pub))) = raw.

Lemma split_last s n :
  String.length s = S n ->
  exists c, s = str_take n s +:+ String c "" /\ String.get n s = Some c /\ String.length (str_take n s) = n.
Proof.
  revert s. induction n as [|n IH]; intros [|c s]; cbn; try done.
  - destruct s; [|done]. intros _. by exists c.
  - intros [= Hl]. destruct (IH s Hl) as (d & Hs & Hg & Ht). exists d. rewrite <- Hs, Ht. done.
Qed.

Lemma get_last rs c : String.get (String.length rs) (rs +:+ String c "") = Some c.
Proof. induction rs as [|d rs IH]; [done|]. exact IH. Qed.

Lemma compactSignature_exact sig :
  match compactSignature sig with
  | Ok compact => exists rs id, signature_parts sig rs id /\ compact = String (bytechr (27 + id)) rs
  | Err e => errors_Is e evm.ErrInvalidSignature = true /\ forall rs id, ~ signature_parts sig rs id
  end.
Proof.
  unfold compactSignature. destruct (CutPrefix sig "0x") as [digits ok] eqn:Ec. destruct ok; cbn [negb].
  2: { split; [done|]. intros rs id (ds & v & -> & _). by rewrite (proj2 (CutPrefix_spec _ _ _) eq_refl) in Ec. }
  apply CutPrefix_spec in Ec as ->.
  assert (forall rs id, signature_parts ("0x" +:+ digits) rs id -> exists v,
    hex_decode digits = Some (rs +:+ String (bytechr v) "") /\ String.length rs = 64%nat /\
    (id = 0 \/ id = 1) /\ (v = id \/ v = 27 + id)) as Hparts.
  { intros rs id (ds & v & [= ->] & Hv). eauto. }
  destruct (hex_decode digits) as [raw|] eqn:Ed.
  2: { split; [done|]. intros rs id (v & [=] & _)%Hparts. }
  destruct (String.length raw =? signatureBytes)%nat eqn:El; cbn [negb].
  2: { split; [done|]. intros rs id (v & [= ->] & Hl & _)%Hparts.
       rewrite str_length_app, Hl in El. done. }
  apply Nat.eqb_eq in El. destruct (split_last raw 64 El) as (c & Hraw & Hg & Ht).
  change (signatureBytes - 1)%nat with 64%nat. rewrite Hg. pose proof (byteval_range c).
  assert (forall id, (id = 0 \/ id = 1) -> byteval c = id \/ byteval c = 27 + id ->
    signature_parts ("0x" +:+ digits) (str_take 64 raw) id) as Hgood.
  { intros id Hid Hv. exists digits, (byteval c). rewrite bytechr_byteval, <- Hraw. done. }
  cbv zeta. destruct ((byteval c =? 0) || (byteval c =? 1)) eqn:E01;
    [|destruct ((byteval c =? 27) || (byteval c =? 28)) eqn:E27].
  - exists (str_take 64 raw), (byteval c). split; [apply Hgood; lia|done].
  - exists (str_take 64 raw), (byteval c - 27). split; [apply Hgood; lia|]. do 2 f_equal. lia.
  - split; [done|]. intros rs id (v & [= Hr] & Hl & Hid & Hv)%Hparts.
    rewrite Hr, <- Hl, get_last in Hg. injection Hg as <-. rewrite byteval_bytechr in E01, E27 by lia. lia.
Qed.

Lemma signature_parts_inj sig rs id rs' id' :
  signature_parts sig rs id -> signature_parts sig rs' id' -> rs = rs' /\ id = id'.
Proof.
  intros (ds & v & -> & Hd & Hl & Hid & Hv) (ds' & v' & [= ->] & Hd' & Hl' & Hid' & Hv').
  rewrite Hd in Hd'. injection Hd' as E. apply str_app_inj in E as [-> E]; [|congruence].
  split; [done|]. injection E as E. apply (f_equal byteval) in E. rewrite !byteval_bytechr in E by lia. lia.
Qed.

Lemma spells_inj addr raw raw' : spells addr raw -> spells addr raw' -> raw = raw'.
Proof.
  intros (d & -> & Hd & _)%spells_digits (d' & [= ->] & Hd' & _)%spells_digits. congruence.
Qed.

Lemma VerifySignature_exact_aux p addr message sig :
  match VerifySignature p addr message sig with
  | None => exists raw, spells addr raw /\ signed_with raw message sig
  | Some e =>
      (errors_Is e evm.ErrInvalidAddress = true \/ errors_Is e evm.ErrInvalidSignature = true) /\
      forall raw, spells addr raw -> ~ signed_with raw message sig
  end.
Proof.
  unfold VerifySignature. pose proof (NormalizeAddress_exact p addr) as Hn.
  destruct (NormalizeAddress p addr) as [want|e]; [|split; [by left; apply Hn|]; intros raw Hs; by apply Hn in Hs].
  destruct Hn as (raw & Hs & ->). pose proof (compactSignature_exact sig) as Hc.
  destruct (compactSignature sig) as [compact|e].
  2: { split; [by right; apply Hc|]. intros raw' _ (rs & id & pub & c & Hp & _). by apply Hc in Hp. }
  destruct Hc as (rs & id & Hp & ->).
  assert (forall raw' rs' id' pub c, spells addr raw' -> signature_parts sig rs' id' ->
    RecoverCompact (String (bytechr (27 + id')) rs') (personalSignHash message) = Ok (pub, c) ->
    raw' = raw /\ RecoverCompact (String (bytechr (27 + id)) rs) (personalSignHash message) = Ok (pub, c)) as Hu.
  { intros raw' rs' id' pub c Hs' Hp' Hr. destruct (signature_parts_inj _ _ _ _ _ Hp' Hp) as [-> ->].
    by rewrite (spells_inj _ _ _ Hs' Hs). }
  destruct (RecoverCompact _ _) as [[pub c]|e] eqn:Er.
  - unfold key_address. fold (eip55 (str_drop 12 (keccak256 (str_drop 1 (SerializeUncompressed pub))))).
    destruct (bool_decide _) eqn:Eb; cbn [negb].
    + apply bool_decide_eq_true, eip55_inj in Eb. exists raw. split; [done|]. by exists rs, id, pub, c.
    + apply bool_decide_eq_false in Eb. split; [by right|].
      intros raw' Hs' (rs' & id' & pub' & c' & Hp' & Hr' & Hk').
      destruct (Hu _ _ _ _ _ Hs' Hp' Hr') as [-> Hr2]. by simplify_eq.
  - split; [by right|]. intros raw' Hs' (rs' & id' & pub' & c' & Hp' & Hr' & Hk').
    by destruct (Hu _ _ _ _ _ Hs' Hp' Hr') as [-> Hr2].
Qed.
End signatures.

(** ** The message *)

(** No line break: [WithWallet] refuses a configuration that has one. *)
Definition one_line (s : string) : Prop := ContainsByte s (ascii_of_nat 10) = false.

Lemma line_inj a b c d :
  one_line a -> one_line c -> a +:+ newline +:+ b = c +:+ newline +:+ d -> a = c /\ b = d.
Proof.
  unfold one_line. revert c. induction a as [|x a IH]; intros [|y c]; cbn.
  - by intros _ _ [= ->].
  - intros _ [Hy _]%orb_false_iff [= <- _]. done.
  - intros [Hx _]%orb_false_iff _ [= -> _]. done.
  - intros [_ Ha]%orb_false_iff [_ Hc]%orb_false_iff [= -> E]. by destruct (IH c Ha Hc E) as [-> ->].
Qed.

Lemma str_app_inj_r a b s : a +:+ s = b +:+ s -> a = b.
Proof.
  intros E. pose proof (f_equal String.length E) as El. rewrite !str_length_app in El.
  apply (str_app_inj a s b s); [lia|done].
Qed.

Lemma str_app_inj_l s a b : s +:+ a = s +:+ b -> a = b.
Proof. intros E. by apply str_app_inj in E as [_ ?]. Qed.

Lemma one_line_app a b : one_line (a +:+ b) <-> one_line a /\ one_line b.
Proof. unfold one_line. rewrite ContainsByte_app. by rewrite orb_false_iff. Qed.

Lemma appendInt2_length x : 0 <= x < 100 -> String.length (appendInt x 2) = 2%nat.
Proof. intros Hx. by apply appendInt2. Qed.

Lemma FormatRFC3339_length t : rfc3339_time t -> String.length (FormatRFC3339 t) = 20%nat.
Proof.
  intros Ht. unfold FormatRFC3339. destruct (civil _) as [[y m] d] eqn:E.
  destruct (rfc3339_year t y m d Ht E) as (Hy & Hm & Hd). pose proof (Z.mod_pos_bound (Unix t) 86400 ltac:(lia)).
  rewrite !str_length_app, !appendInt2_length by eucl. by rewrite (proj1 (appendInt4 y Hy)).
Qed.

Lemma Itoa_one_line z : one_line (Itoa z).
Proof. apply Itoa_no_newline. Qed.

Record writable (addr nonce : string) (opts : MessageOpts) : Prop := {
  wr_Domain : one_line (mo_Domain opts);
  wr_addr : one_line addr;
  wr_nonce : one_line nonce;
  wr_Statement : one_line (mo_Statement opts);
  wr_URI : one_line (mo_URI opts);
  wr_IssuedAt : rfc3339_time (mo_IssuedAt opts);
  wr_ExpiresAt : rfc3339_time (mo_ExpiresAt opts)
}.

(** The lines below the statement. *)
Definition message_tail (p : EvmProvider) (nonce : string) (opts : MessageOpts) : string :=
  "URI: " +:+ mo_URI opts +:+ newline +:+ "Version: 1" +:+ newline +:+
  "Chain ID: " +:+ Itoa (chainID p) +:+ newline +:+ "Nonce: " +:+ nonce +:+ newline +:+
  "Issued At: " +:+ FormatRFC3339 (mo_IssuedAt opts) +:+
  (if IsZero (mo_ExpiresAt opts) then ""
   else newline +:+ "Expiration Time: " +:+ FormatRFC3339 (mo_ExpiresAt opts)).

Lemma message_tail_inj p p' nonce nonce' opts opts' addr addr' :
  writable addr nonce opts -> writable addr' nonce' opts' ->
  message_tail p nonce opts = message_tail p' nonce' opts' ->
  mo_URI opts = mo_URI opts' /\ chainID p = chainID p' /\ nonce = nonce' /\
  Unix (mo_IssuedAt opts) = Unix (mo_IssuedAt opts') /\
  Unix (mo_ExpiresAt opts) = Unix (mo_ExpiresAt opts').
Proof.
  intros W W'. unfold message_tail. intros E%str_app_inj_l.
  apply line_inj in E as [HU E]; [|apply W|apply W']. do 3 apply str_app_inj_l in E.
  apply line_inj in E as [HI%Itoa_inj E]; [|apply Itoa_one_line..]. apply str_app_inj_l in E.
  apply line_inj in E as [HN E]; [|apply W|apply W']. apply str_app_inj_l in E.
  apply str_app_inj in E as [HT E]; [|rewrite !FormatRFC3339_length; [done|apply W'|apply W]].
  apply FormatRFC3339_inj in HT; [|apply W|apply W']. split_and!; [done..|].
  unfold IsZero in E. destruct (_ =? _) eqn:Z1 in E; destruct (_ =? _) eqn:Z2 in E; try done.
  - f_equal. lia.
  - do 2 apply str_app_inj_l in E. apply FormatRFC3339_inj in E; [done|apply W|apply W'].
Qed.

(** The message before and after the statement. *)
Lemma BuildMessage_lines p addr nonce opts :
  BuildMessage p addr nonce opts =
  (mo_Domain opts +:+ " wants you to sign in with your Ethereum account:") +:+ newline +:+
  addr +:+ newline +:+ newline +:+
  (if bool_decide (mo_Statement opts = "") then "" else mo_Statement opts +:+ newline) +:+
  newline +:+ message_tail p nonce opts.
Proof. unfold BuildMessage, message_tail. by rewrite <- str_app_assoc. Qed.

Lemma BuildMessage_inj p p' addr addr' nonce nonce' opts opts' :
  writable addr nonce opts -> writable addr' nonce' opts' ->
  BuildMessage p addr nonce opts = BuildMessage p' addr' nonce' opts' ->
  addr = addr' /\ nonce = nonce' /\ chainID p = chainID p' /\
  mo_Domain opts = mo_Domain opts' /\ mo_URI opts = mo_URI opts' /\
  mo_Statement opts = mo_Statement opts' /\
  Unix (mo_IssuedAt opts) = Unix (mo_IssuedAt opts') /\
  Unix (mo_ExpiresAt opts) = Unix (mo_ExpiresAt opts').
Proof.
  intros W W'. rewrite !BuildMessage_lines.
  intros [HD%str_app_inj_r E]%line_inj; [|apply one_line_app; split; [apply W || apply W'|done]..].
  apply line_inj in E as [HA E]; [|apply W|apply W']. apply str_app_inj_l in E.
  assert (mo_Statement opts = mo_Statement opts' /\ message_tail p nonce opts = message_tail p' nonce' opts') as [HS HT].
  { pose proof (wr_Statement _ _ _ W) as S. pose proof (wr_Statement _ _ _ W') as S'.
    destruct (bool_decide _) eqn:B in E; destruct (bool_decide _) eqn:B' in E.
    - do 2 apply str_app_inj_l in E. apply bool_decide_eq_true in B, B'. split; [congruence|done].
    - apply bool_decide_eq_false in B'. destruct (mo_Statement opts') as [|c s]; [done|]. injection E as <- _. done.
    - apply bool_decide_eq_false in B. destruct (mo_Statement opts) as [|c s]; [done|]. injection E as -> _. done.
    - rewrite <- !str_app_assoc in E. apply line_inj in E as [HS E]; [|done..]. by apply str_app_inj_l in E. }
  destruct (message_tail_inj _ _ _ _ _ _ _ _ W W' HT) as (? & ? & ? & ? & ?). done.
Qed.

(** ** The properties *)

Section theorems.
Context `{Keccak, UnicodeTables, UpperTables, Secp256k1}.

(** C25. An address is accepted exactly when it spells 20 bytes in small
    letters, in capitals or with its EIP-55 checksum, and all accepted spellings
    of one account, and of no other, are normalized to the same text; any other
    input is an invalid address. *)
Theorem NormalizeAddress_canonical p addr :
  (forall a, NormalizeAddress p addr = Ok a <-> exists raw, spells addr raw /\ a = eip55 raw) /\
  (forall e, NormalizeAddress p addr = Err e -> errors_Is e evm.ErrInvalidAddress = true) /\
  (forall addr' a a', NormalizeAddress p addr = Ok a -> NormalizeAddress p addr' = Ok a' ->
     (a = a' <-> exists raw, spells addr raw /\ spells addr' raw)).
Proof.
  assert (forall x a, NormalizeAddress p x = Ok a <-> exists raw, spells x raw /\ a = eip55 raw) as Hx.
  { intros x a. pose proof (NormalizeAddress_exact p x) as Hn. split; [by intros E; rewrite E in Hn|].
    intros (raw & Hs & ->). destruct (NormalizeAddress p x) as [b|e].
    - destruct Hn as (raw' & Hs' & ->). by rewrite (spells_inj _ _ _ Hs Hs').
    - by destruct (proj2 Hn raw). }
  split_and!; [apply Hx| |].
  - intros e E. pose proof (NormalizeAddress_exact p addr) as Hn. rewrite E in Hn. apply Hn.
  - intros addr' a a' (raw & Hs & ->)%Hx (raw' & Hs' & ->)%Hx. split.
    + intros <-%eip55_inj. eauto.
    + intros (r & Hr & Hr'). by rewrite (spells_inj _ _ _ Hs Hr), (spells_inj _ _ _ Hs' Hr').
Qed.

(** A signature is accepted exactly when it is 65 bytes whose recovery id
    is 0 or 1, plain or offset by 27, and the key it recovers from the EIP-191
    hash of the message is the key of the claimed account; every refusal is an
    invalid address or an invalid signature. *)
Theorem VerifySignature_exact p addr message sig :
  (VerifySignature p addr message sig = None <->
     exists raw, spells addr raw /\ signed_with raw message sig) /\
  (forall e, VerifySignature p addr message sig = Some e ->
     errors_Is e evm.ErrInvalidAddress = true \/ errors_Is e evm.ErrInvalidSignature = true).
Proof.
  pose proof (VerifySignature_exact_aux p addr message sig) as Hv.
  destruct (VerifySignature p addr message sig) as [e|].
  - split; [|by intros e' [= <-]; apply Hv]. split; [done|]. intros (raw & Hs & Hw).
    by destruct (proj2 Hv raw Hs).
  - done.
Qed.

(** C26. The message a wallet signs is unambiguous: two messages of values
    without line breaks are equal only when they name the same domain, account,
    chain, nonce, resource and statement and the same seconds of issue and
    expiry; a signature for one sign-in is no signature for another. *)
Theorem BuildMessage_binds p p' addr addr' nonce nonce' opts opts' :
  writable addr nonce opts -> writable addr' nonce' opts' ->
  BuildMessage p addr nonce opts = BuildMessage p' addr' nonce' opts' ->
  addr = addr' /\ nonce = nonce' /\ chainID p = chainID p' /\
  mo_Domain opts = mo_Domain opts' /\ mo_URI opts = mo_URI opts' /\
  mo_Statement opts = mo_Statement opts' /\
  Unix (mo_IssuedAt opts) = Unix (mo_IssuedAt opts') /\
  Unix (mo_ExpiresAt opts) = Unix (mo_ExpiresAt opts').
Proof. apply BuildMessage_inj. Qed.

Context {S : Type} `{!StoreImpl S, !StoreContract S, Faults} (o : oracle) `{!ServiceSpec s}.

(** C13. Behind an EVM chain the owner is the holder of the key: a successful
    sign-in spent a challenge that was stored for that chain and had not expired,
    for the account whose 20 bytes the address spells; the key recovered from the
    signature over exactly the stored message is that account's, and the session is
    of the user linked to it. *)
Theorem evm_sign_in_by_key req w res w' d p :
  oracle_ok o -> sc_inv (w_store w) ->
  walletProviders s = Some d -> disp_providers d !! war_Chain req = Some (evm_provider p) ->
  run o (Service_AuthenticateWallet s req) w = (Ok res, w') ->
  let a := sc_view (w_store w) in let a' := sc_view (w_store w') in
  exists raw ch now i, spells (war_Address req) raw /\
    d_challenges a !! war_Nonce req = Some ch /\ read_during o w w' now /\ now < ch_ExpiresAt ch /\
    ch_Chain ch = war_Chain req /\ ch_Address ch = eip55 raw /\
    signed_with raw (ch_Message ch) (war_Signature req) /\
    d_challenges a' !! war_Nonce req = None /\
    d_wallets a' !! (war_Chain req, eip55 raw) = Some i /\ wi_UserID i = wres_UserID res.
Proof.
  intros Ho Hinv Hd Hp Hrun a a'.
  destruct (run_AuthenticateWallet o req w res w' Ho Hinv Hrun)
    as (q & addr & ch & now & i & Hnow & Hq & Hch & Hm & Hdel & Hw & Hu & _).
  unfold walletProvider, Dispatcher_Provider in Hq. rewrite Hd, Hp in Hq. cbn in Hq.
  pose proof (NormalizeAddress_exact p (war_Address req)) as Hn.
  destruct (NormalizeAddress p (war_Address req)) as [ad|e]; [|done]. injection Hq as <- <-.
  destruct Hn as (raw & Hs & ->). destruct Hm as (Hlive & Hchain & Haddr & Hsig).
  pose proof (VerifySignature_exact_aux p (eip55 raw) (ch_Message ch) (war_Signature req)) as Hv.
  change (VerifySignature p (eip55 raw) (ch_Message ch) (war_Signature req) = None) in Hsig.
  rewrite Hsig in Hv. destruct Hv as (raw' & Hs' & Hw').
  assert (spells (eip55 raw) raw) as Hself by (split; [apply Hs|auto]).
  rewrite (spells_inj _ _ _ Hs' Hself) in Hw'. by exists raw, ch, now, i.
Qed.
End theorems.

(** ** A provider at work *)

(** Keccak-256 as the library computes it. *)
Module keccak.
Definition w64 (x : Z) : Z := Z.land x 18446744073709551615.
Definition rotl (n x : Z) : Z := if n =? 0 then x else Z.lor (w64 (Z.shiftl x n)) (Z.shiftr x (64 - n)).
Definition lane (a : list Z) (x y : nat) : Z := nth (x mod 5 + 5 * (y mod 5)) a 0.
Definition offsets : list Z :=
  [0; 1; 62; 28; 27; 36; 44; 6; 55; 20; 3; 10; 43; 25; 39; 41; 45; 15; 21; 8; 18; 2; 61; 56; 14].
Definition constants : list Z :=
  [0x0000000000000001; 0x0000000000008082; 0x800000000000808A; 0x8000000080008000;
   0x000000000000808B; 0x0000000080000001; 0x8000000080008081; 0x8000000000008009;
   0x000000000000008A; 0x0000000000000088; 0x0000000080008009; 0x000000008000000A;
   0x000000008000808B; 0x800000000000008B; 0x8000000000008089; 0x8000000000008003;
   0x8000000000008002; 0x8000000000000080; 0x000000000000800A; 0x800000008000000A;
   0x8000000080008081; 0x8000000000008080; 0x0000000080000001; 0x8000000080008008].
Definition tabulate (f : nat -> nat -> Z) : list Z :=
  flat_map (fun y => map (fun x => f x y) (seq 0 5)) (seq 0 5).
Definition theta (a : list Z) : list Z :=
  let c := map (fun x => foldr Z.lxor 0 (map (lane a x) (seq 0 5))) (seq 0 5) in
  let d := map (fun x => Z.lxor (nth ((x + 4) mod 5) c 0) (rotl 1 (nth ((x + 1) mod 5) c 0))) (seq 0 5) in
  tabulate (fun x y => Z.lxor (lane a x y) (nth x d 0)).
(* The lane (x, y) goes to (y, 2x + 3y). *)
Definition rho_pi (a : list Z) : list Z :=
  tabulate (fun x y => let x0 := (x + 3 * y)%nat in rotl (lane offsets x0 x) (lane a x0 x)).
Definition chi (a : list Z) : list Z :=
  tabulate (fun x y => Z.lxor (lane a x y)
    (Z.land (Z.lxor (lane a (x + 1) y) 18446744073709551615) (lane a (x + 2) y))).
Definition round (a : list Z) (rc : Z) : list Z :=
  match chi (rho_pi (theta a)) with
  | [] => []
  | a0 :: rest => Z.lxor a0 rc :: rest
  end.
Fixpoint lanes (fuel : nat) (s : string) : list Z :=
  match fuel with
  | O => []
  | S fuel => foldr (fun c acc => byteval c + 256 * acc) 0 (String.list_ascii_of_string (str_take 8 s))
              :: lanes fuel (str_drop 8 s)
  end.
Definition absorb (a : list Z) (block : string) : list Z :=
  let ls := lanes 25 block in
  foldl round (zip_with Z.lxor a (ls)) constants.
Definition pad (s : string) : string :=
  let n := (136 - String.length s mod 136)%nat in
  if (n =? 1)%nat then s +:+ String (bytechr 129) ""
  else s +:+ String (bytechr 1) (repeat_byte (n - 2) (bytechr 0)) +:+ String (bytechr 128) "".
Fixpoint sponge (fuel : nat) (a : list Z) (s : string) : list Z :=
  match fuel with
  | O => a
  | S fuel => match s with
              | EmptyString => a
              | _ => sponge fuel (absorb a (str_take 136 s)) (str_drop 136 s)
              end
  end.
Fixpoint le_bytes (n : nat) (z : Z) : string :=
  match n with O => "" | S n => String (bytechr (z mod 256)) (le_bytes n (z / 256)) end.
Definition Sum256 (s : string) : string :=
  let a := sponge (S (String.length s)) (repeat 0 25) (pad s) in
  le_bytes 8 (nth 0 a 0) +:+ le_bytes 8 (nth 1 a 0) +:+ le_bytes 8 (nth 2 a 0) +:+ le_bytes 8 (nth 3 a 0).

Example empty : hex_encode (Sum256 "") = "c5d2460186f7233c927e7db2dcc703c0e500b653ca82273b7bfad8045d85a470".
Proof. vm_compute. reflexivity. Qed.
End keccak.

Module Example.
#[export] Instance real_keccak : Keccak := keccak.Sum256.
#[export] Instance lower_tables : UnicodeTables := fun r => r.
#[export] Instance upper_tables : UpperTables := fun r => r.
(** A scheme in which a signature carries its public key. *)
#[export] Instance plain_keys : Secp256k1 := {|
  PublicKey := string;
  RecoverCompact sig hash :=
    if (String.length hash =? 32)%nat then Ok (str_drop 1 sig, false) else Err (EForeign "bad hash");
  SerializeUncompressed pub := String (bytechr 4) pub
|}.

Definition ethereum : EvmProvider := New "ethereum" 1.

Example eip55_mixed :
  NormalizeAddress ethereum "0x5aaeb6053f3e94c9b9a09f33669435e7ef1beaed" =
  Ok "0x5aAeb6053F3E94C9b9A09f33669435E7Ef1BeAed".
Proof. vm_compute. reflexivity. Qed.
Example eip55_capitals :
  NormalizeAddress ethereum "0x52908400098527886E0F7030069857D2E4169EE7" =
  Ok "0x52908400098527886E0F7030069857D2E4169EE7".
Proof. vm_compute. reflexivity. Qed.
Example bad_checksum :
  NormalizeAddress ethereum "0x5aAeb6053F3E94C9b9A09f33669435E7Ef1BeAeD" =
  Err (EWrap [] evm.ErrInvalidAddress [Lit ": checksum mismatch"]).
Proof. vm_compute. reflexivity. Qed.

Definition opts : MessageOpts :=
  mkMessageOpts "app.example.com" "https://app.example.com/login" "Sign in to psina."
    (1792756800 * Second) (1792757100 * Second).
Definition signer : string := "0xf39Fd6e51aad88F6F4ce6aB8827279cffFb92266".

Example message_text :
  Split (BuildMessage ethereum signer "32891756abcd" opts) (ascii_of_nat 10) =
  ["app.example.com wants you to sign in with your Ethereum account:"; signer; "";
   "Sign in to psina."; ""; "URI: https://app.example.com/login"; "Version: 1"; "Chain ID: 1";
   "Nonce: 32891756abcd"; "Issued At: 2026-10-23T12:00:00Z"; "Expiration Time: 2026-10-23T12:05:00Z"].
Proof. vm_compute. reflexivity. Qed.

Lemma NormalizeAddress_canonical_witness :
  let a := "0x5aAeb6053F3E94C9b9A09f33669435E7Ef1BeAed" in
  exists raw, spells "0x5aaeb6053f3e94c9b9a09f33669435e7ef1beaed" raw /\ a = eip55 raw.
Proof.
  apply (proj1 (NormalizeAddress_canonical ethereum "0x5aaeb6053f3e94c9b9a09f33669435e7ef1beaed")).
  vm_compute. reflexivity.
Defined.

(** The key of 64 zero bytes signs. *)
Definition zero_key : string := repeat_byte 64 (bytechr 0).
Definition zero_account : string := str_drop 12 (keccak256 zero_key).
Definition signature : string := "0x" +:+ hex_encode zero_key +:+ "1b".

Lemma VerifySignature_exact_witness :
  exists raw, spells (eip55 zero_account) raw /\ signed_with raw "hello" signature.
Proof.
  apply (proj1 (proj1 (VerifySignature_exact ethereum (eip55 zero_account) "hello" signature))).
  vm_compute. reflexivity.
Defined.

Lemma BuildMessage_binds_witness :
  writable signer "32891756abcd" opts /\ Unix (mo_ExpiresAt opts) = Unix (mo_ExpiresAt opts).
Proof.
  assert (writable signer "32891756abcd" opts) as W by (split; (reflexivity || (vm_compute; split; done))).
  split; [exact W|].
  apply (BuildMessage_binds ethereum ethereum signer signer "32891756abcd" "32891756abcd" opts opts W W eq_refl).
Defined.
End Example.
