(* ===== verification/EvmTest.v ===== *)
(** * A wallet for tests (provider/wallet/evm/evmtest/signer.go)

    A signer that holds a private key and signs as Ethereum wallets do, and that
    what it signs the provider accepts for its address and for no other. *)

From S2P Require Import Prelude GoStrings GoTime GoFormat GoEncoding Errors Entity Ports Contract Interfaces Evm EvmFacts.

(** ** encoding/hex *)

(** [strconv.IsPrint], below U+0100. *)
Definition isPrint8 (b : Z) : bool := (32 <=? b) && (b <=? 126) || (161 <=? b) && negb (b =? 173).
Definition upper_digit (i : Z) : string := String (if i <? 10 then bytechr (48 + i) else bytechr (55 + i)) "".

(** [InvalidByteError], its byte written with %#U. *)
Definition invalid_byte (c : ascii) : string :=
  let b := byteval c in
  "encoding/hex: invalid byte: U+00" +:+ upper_digit (b / 16) +:+ upper_digit (b mod 16) +:+
  (if isPrint8 b then " '" +:+ encode_rune b +:+ "'" else "").

(** Why a text does not decode. *)
Fixpoint hex_error (s : string) : string :=
  match s with
  | EmptyString => ""
  | String a EmptyString =>
      match hex_val a with None => invalid_byte a | Some _ => "encoding/hex: odd length hex string" end
  | String a (String b t) =>
      match hex_val a, hex_val b with
      | None, _ => invalid_byte a
      | _, None => invalid_byte b
      | _, _ => hex_error t
      end
  end.

Definition DecodeString (s : string) : res string :=
  match hex_decode s with Some raw => Ok raw | None => Err (EForeign (hex_error s)) end.

(** ** Keys (decred's secp256k1 and ecdsa) *)

Class Signing `{Secp256k1} := {
  PrivateKey : Type;
  PrivKeyFromBytes : string -> PrivateKey;
  PubKey : PrivateKey -> PublicKey;
  SignCompact : PrivateKey -> string (* hash *) -> bool (* compressed *) -> string
}.

(** A compact signature is 65 bytes: 27 plus the recovery code, then r and s; it
    recovers the key.  Codes 2 and 3 mean that r had to be reduced. *)
Class SigningLaws `{Signing} : Prop :=
  SignCompact_spec : forall key hash, String.length hash = 32%nat ->
    exists code rs, SignCompact key hash false = String (bytechr (27 + code)) rs /\
      0 <= code < 4 /\ String.length rs = 64%nat /\
      RecoverCompact (SignCompact key hash false) hash = Ok (PubKey key, false).

(** ** The signer *)

Section signer.
Context `{Keccak, UnicodeTables, UpperTables, Secp256k1, !Signing}.

Definition Key0 : string := "ac0974bec39a17e36ba4a6b4d238ff944bacb478cbed5efcae784d7bf4f2ff80".
Definition Key1 : string := "59c6995e998f97a5a0044966f0945389dc9e86dae88c7a8412f4603b6b78690d".

Record Signer := mkSigner { Address : string; key : PrivateKey }.

Definition NewSigner (keyHex : string) : res Signer :=
  match DecodeString keyHex with
  | Err err => Err (wrap "decode key" err)
  | Ok raw =>
      let key := PrivKeyFromBytes raw in
      match NormalizeAddress (New "" 0)
              ("0x" +:+ hex_encode (str_drop 12 (keccak256 (str_drop 1 (SerializeUncompressed (PubKey key)))))) with
      | Err err => Err err
      | Ok addr => Ok (mkSigner addr key)
      end
  end.

(** r, s and v, from v, r and s. *)
Definition wallet_order (compact : string) : string :=
  str_drop 1 compact +:+ match compact with String v _ => String v "" | EmptyString => "" end.

Definition Sign (s : Signer) (message : string) : string :=
  "0x" +:+ hex_encode (wallet_order (SignCompact (key s) (personalSignHash message) false)).

(** The account of a key. *)
Definition account (k : PrivateKey) : string :=
  str_drop 12 (keccak256 (str_drop 1 (SerializeUncompressed (PubKey k)))).
(** The signature needs no reduced r, as all but one in 2^127 do not. *)
Definition plain_signature (k : PrivateKey) (message : string) : Prop :=
  exists code rs, SignCompact k (personalSignHash message) false = String (bytechr (27 + code)) rs /\ (code = 0 \/ code = 1).

Context `{!KeccakLaws, !SigningLaws}.

Lemma str_drop_length n s : String.length (str_drop n s) = (String.length s - n)%nat.
Proof. revert n. induction s as [|c s IH]; intros [|n]; cbn; auto. Qed.

Lemma str_take_length n s : String.length (str_take n s) = (n `min` String.length s)%nat.
Proof. revert n. induction s as [|c s IH]; intros [|n]; cbn; auto. Qed.

Lemma account_length k : String.length (account k) = 20%nat.
Proof. unfold account. by rewrite str_drop_length, keccak256_length. Qed.
Lemma account_spells k : spells (eip55 (account k)) (account k).
Proof. split; [apply account_length|auto]. Qed.

Lemma NewSigner_address keyHex : NewSigner keyHex =
  match DecodeString keyHex with
  | Err err => Err (wrap "decode key" err)
  | Ok raw => Ok (mkSigner (eip55 (account (PrivKeyFromBytes raw))) (PrivKeyFromBytes raw))
  end.
Proof.
  unfold NewSigner. destruct (DecodeString keyHex) as [raw|]; [|done]. cbv zeta. fold (account (PrivKeyFromBytes raw)).
  set (k := PrivKeyFromBytes raw).
  destruct (NormalizeAddress_digits (New "" 0) (hex_encode (account k)) (account k)) as [Hy _].
  - apply hex_decode_encode.
  - by rewrite hex_encode_length, account_length.
  - rewrite Hy; [done|]. split; [apply account_length|auto].
Qed.

Lemma personalSignHash_length message : String.length (personalSignHash message) = 32%nat.
Proof. apply keccak256_length. Qed.

(** The signature a wallet writes has the parts of the compact one. *)
Lemma Sign_parts s message code rs :
  SignCompact (key s) (personalSignHash message) false = String (bytechr (27 + code)) rs ->
  String.length rs = 64%nat -> code = 0 \/ code = 1 -> signature_parts (Sign s message) rs code.
Proof.
  intros E Hl Hc. unfold Sign. rewrite E. cbn [wallet_order str_drop]. eexists _, (27 + code).
  split; [done|]. rewrite hex_decode_encode. auto.
Qed.

Lemma signed_with_own s message raw :
  plain_signature (key s) message -> signed_with raw message (Sign s message) <-> raw = account (key s).
Proof.
  intros (code & rs & E & Hc).
  destruct (SignCompact_spec (key s) (personalSignHash message)) as (code' & rs' & E' & _ & Hl & Hr); [apply personalSignHash_length|].
  assert (rs' = rs) as -> by (rewrite E in E'; by injection E'). rewrite E in Hr.
  pose proof (Sign_parts s message code rs E Hl Hc) as Hparts. unfold signed_with. split.
  - intros (rs2 & id & pub & c & Hp & Hr2 & <-). destruct (signature_parts_inj _ _ _ _ _ Hp Hparts) as [-> ->].
    rewrite Hr in Hr2. by injection Hr2 as <- _.
  - intros ->. by exists rs, code, (PubKey (key s)), false.
Qed.

(** A key in hexadecimal makes a signer, anything else an error; what the
    signer signs the provider accepts for the signer's address - on any chain -
    and for an address of another account refuses. *)
Theorem signer_accepted keyHex s p message :
  NewSigner keyHex = Ok s -> plain_signature (key s) message ->
  VerifySignature p (Address s) message (Sign s message) = None /\
  forall addr, VerifySignature p addr message (Sign s message) = None <-> spells addr (account (key s)).
Proof.
  rewrite NewSigner_address. destruct (DecodeString keyHex) as [raw|]; [|done]. intros [= <-] Hp. cbn [Address key] in *.
  set (k := PrivKeyFromBytes raw) in *.
  assert (forall addr, VerifySignature p addr message (Sign (mkSigner (eip55 (account k)) k) message) = None <-> spells addr (account k)) as Hv.
  { intros addr. pose proof (VerifySignature_exact_aux p addr message (Sign (mkSigner (eip55 (account k)) k) message)) as Hx.
    destruct (VerifySignature _ _ _ _) as [e|].
    - split; [done|]. intros Hs. destruct (proj2 Hx _ Hs). by apply signed_with_own.
    - split; [|done]. intros _. destruct Hx as (r & Hs & Hw). apply signed_with_own in Hw; [|done]. by subst. }
  split; [|done]. apply Hv, account_spells.
Qed.
End signer.

(** ** A scheme that evaluates *)

Module Example.
Import EvmFacts.Example.

(** A key padded to 64 bytes is its public key, and the signature carries it. *)
Definition pad (raw : string) : string := str_take 64 (raw +:+ repeat_byte 64 (bytechr 0)).
#[export] Instance plain_signing : Signing := {|
  PrivateKey := string;
  PrivKeyFromBytes raw := raw;
  PubKey k := pad k;
  SignCompact k hash _ := String (bytechr 27) (pad k)
|}.

Lemma pad_length raw : String.length (pad raw) = 64%nat.
Proof. unfold pad. rewrite str_take_length, str_length_app. change (String.length (repeat_byte 64 (bytechr 0))) with 64%nat. lia. Qed.

#[export] Instance plain_signing_laws : SigningLaws.
Proof.
  intros k hash Hh. exists 0, (pad k). split; [done|]. split; [lia|]. split; [apply pad_length|]. cbn. by rewrite Hh.
Qed.
#[export] Instance real_keccak_laws : KeccakLaws.
Proof.
  assert (forall n z, String.length (keccak.le_bytes n z) = n) as Hl by (induction n; intros z; cbn; auto).
  intros data. unfold keccak256, real_keccak, keccak.Sum256. cbv zeta. by rewrite !str_length_app, !Hl.
Qed.

Example not_hex : NewSigner "abcg" = Err (wrap "decode key" (EForeign "encoding/hex: invalid byte: U+0067 'g'")).
Proof. vm_compute. reflexivity. Qed.
Example odd_length : NewSigner "abc" = Err (wrap "decode key" (EForeign "encoding/hex: odd length hex string")).
Proof. vm_compute. reflexivity. Qed.

Lemma signer_accepted_witness : exists s, NewSigner Key0 = Ok s /\
  VerifySignature ethereum (Address s) "hello" (Sign s "hello") = None /\
  (VerifySignature ethereum signer "hello" (Sign s "hello") = None <-> spells signer (account (key s))).
Proof.
  destruct (NewSigner Key0) as [s|e] eqn:E; [|vm_compute in E; discriminate E]. exists s. split; [reflexivity|].
  destruct (signer_accepted Key0 s ethereum "hello" E) as [Hown Hother].
  - exists 0. eexists. split; [reflexivity|by left].
  - split; [exact Hown|apply Hother].
Defined.
End Example.
