(* ===== verification/ProviderFacts.v ===== *)
(** * What the OAuth providers vouch for

    Google answers with the claims of an ID token made for this client and this
    flow; GitHub with the account and the primary email of the API.  Both refuse
    a flow without PKCE or with a foreign redirect URI before anything is sent. *)

From S2P Require Import Prelude GoStrings GoTime GoFormat GoJson Errors Entity Ports Contract ContractFacts WpRules Memory MemoryFacts Histories Token Interfaces Service Refresh OAuth SignIn Validation OAuth2.
From S2P Require GitHub Google.

(** ** Refusals *)

(** What a provider refuses before the flow starts: nothing is exchanged. *)
Section refusals.
Context `{OAuth2, GitHub.RequestURL, Google.IdTokens}.
Context {S : Type} `{!StoreImpl S} (o : oracle).

Lemma github_refuses p code params w :
  (ap_CodeVerifier params = "" \/ ap_RedirectURI params ∉ GitHub.RedirectURIs (GitHub.cfg p)) ->
  exists e, run o (GitHub.ExchangeCode p code params) w = (Err e, w) /\ GitHub.AuthCodeURL p params = Err e /\
    (errors_Is e oauth.ErrMissingAuthParams = true \/ errors_Is e oauth.ErrRedirectURINotAllowed = true).
Proof.
  intros Hbad. unfold GitHub.ExchangeCode, GitHub.AuthCodeURL, GitHub.requireParams, GitHub.oauthConfig.
  destruct (strEq (ap_CodeVerifier params) "") eqn:Ev; [eexists; split_and!; [done..|by left]|].
  apply strEq_false in Ev. destruct Hbad as [?|Hr]; [done|].
  destruct (Contains _ _) eqn:Ec; [by apply Contains_elem in Ec|]. cbn. eexists. split_and!; [done..|by right].
Qed.

Lemma google_refuses p code params w :
  (ap_CodeVerifier params = "" \/ ap_Nonce params = "" \/
   ap_RedirectURI params ∉ Google.RedirectURIs (Google.cfg p)) ->
  exists e, run o (Google.ExchangeCode p code params) w = (Err e, w) /\ Google.AuthCodeURL p params = Err e /\
    (errors_Is e oauth.ErrMissingAuthParams = true \/ errors_Is e oauth.ErrRedirectURINotAllowed = true).
Proof.
  intros Hbad. unfold Google.ExchangeCode, Google.AuthCodeURL, Google.requireParams, Google.oauthConfig.
  destruct (strEq (ap_CodeVerifier params) "") eqn:Ev; [eexists; split_and!; [done..|by left]|].
  destruct (strEq (ap_Nonce params) "") eqn:En; [eexists; split_and!; [done..|by left]|].
  apply strEq_false in Ev, En. destruct Hbad as [?|[?|Hr]]; [done..|].
  destruct (Contains _ _) eqn:Ec; [by apply Contains_elem in Ec|]. cbn. eexists. split_and!; [done..|by right].
Qed.
End refusals.

(** ** GitHub *)

Section github.
Context `{OAuth2, GitHub.RequestURL}.

(** The request for a path of the API. *)
Definition api_get (p : GitHub.Provider) (path : string) : httpreq :=
  mkHttpreq "GET" (GitHub.apiURL p +:+ path)
    [("Accept", "application/vnd.github+json"); ("X-GitHub-Api-Version", GitHub.apiVersion)] "".

(** An answer the provider accepts for a value. *)
Definition answers_with {A} (resp : httpresp) (dst : json -> option A) (a : A) : Prop :=
  hp_StatusCode resp = 200 /\ Decode GitHub.maxAPIResponse dst (hp_Body resp) (hp_Broken resp) = inr a.

(** The identity read from the two answers. *)
Definition github_identity (user : GitHub.apiUser) (emails : list GitHub.apiEmail) (info : UserInfo) : Prop :=
  0 < GitHub.au_ID user /\ ui_ExternalID info = Itoa (GitHub.au_ID user) /\
  match List.find GitHub.ae_Primary emails with
  | Some e => ui_Email info = GitHub.ae_Email e /\ ui_EmailVerified info = GitHub.ae_Verified e
  | None => ui_Email info = "" /\ ui_EmailVerified info = false
  end.

Section run.
Context {S : Type} `{!StoreImpl S} (o : oracle).

Lemma run_getJSON {A} p (do_ : httpreq -> prog (res httpresp)) path (dst : json -> option A) w r w' :
  run o (GitHub.getJSON p do_ path dst) w = (r, w') ->
  match r with
  | Ok a => exists resp, run o (do_ (api_get p path)) w = (Ok resp, w') /\ answers_with resp dst a
  | Err e => True
  end.
Proof.
  unfold GitHub.getJSON. destruct (GitHub.NewRequest_error _); [by intros [= <- <-]|]. rewrite run_bind.
  fold (api_get p path). destruct (run o (do_ (api_get p path)) w) as [[resp|e] w1]; [|by intros [= <- <-]].
  destruct (hp_StatusCode resp =? 200) eqn:Es; [|by intros [= <- <-]]. cbn [negb].
  destruct (Decode _ _ _ _) eqn:Ed; intros [= <- <-]; [done|]. exists resp. split; [done|]. split; [lia|done].
Qed.

Lemma run_github p code params w info w' :
  run o (GitHub.ExchangeCode p code params) w = (Ok info, w') ->
  exists token w1 user_resp user w2 emails_resp emails,
    let conf := mkOAuth2Config (GitHub.ClientID (GitHub.cfg p)) (GitHub.ClientSecret (GitHub.cfg p))
                  (ap_RedirectURI params) (GitHub.endpoint p) ["user:email"] in
    ap_CodeVerifier params <> "" /\ ap_RedirectURI params ∈ GitHub.RedirectURIs (GitHub.cfg p) /\
    run o (Config_Exchange conf code (ap_CodeVerifier params)) w = (Ok token, w1) /\
    run o (Client_Do conf token (api_get p "/user")) w1 = (Ok user_resp, w2) /\
    run o (Client_Do conf token (api_get p "/user/emails?per_page=100")) w2 = (Ok emails_resp, w') /\
    answers_with user_resp GitHub.apiUser_json user /\ answers_with emails_resp GitHub.apiEmails_json emails /\
    github_identity user emails info.
Proof.
  unfold GitHub.ExchangeCode, GitHub.requireParams, GitHub.oauthConfig.
  destruct (strEq (ap_CodeVerifier params) "") eqn:Ev; [done|]. apply strEq_false in Ev.
  destruct (Contains _ _) eqn:Ec; [|done]. apply Contains_elem in Ec. cbn [negb]. rewrite run_bind.
  destruct (run o (Config_Exchange _ _ _) w) as [[token|e] w1] eqn:Ex; [|done]. rewrite run_bind.
  destruct (run o (GitHub.getJSON _ _ _ _) w1) as [[user|e] w2] eqn:Eu; [|done].
  apply run_getJSON in Eu as (ru & Eu & Au). destruct (GitHub.au_ID user <=? 0) eqn:Eid; [done|]. rewrite run_bind.
  destruct (run o (GitHub.getJSON _ _ _ _) w2) as [[emails|e] w3] eqn:Em; [|done].
  apply run_getJSON in Em as (rm & Em & Am). cbn [run]. intros [= <- <-].
  exists token, w1, ru, user, w2, rm, emails. split_and!; try done. unfold github_identity.
  destruct (List.find _ _); cbn; split_and!; done || lia.
Qed.
End run.

(** As the service sees it. *)
Definition github_vouched (p : GitHub.Provider) (code : string) (params : AuthParams) (info : UserInfo) : Prop :=
  ap_RedirectURI params ∈ GitHub.RedirectURIs (GitHub.cfg p) /\
  exists user emails, github_identity user emails info.

Lemma github_provider_spec `{!OAuth2Laws, Faults} p : OAuthProviderSpec (GitHub.github_provider p) (github_vouched p).
Proof.
  intros O R code params Q a Hok Herr. cbn. unfold GitHub.ExchangeCode, GitHub.requireParams, GitHub.oauthConfig.
  destruct (strEq (ap_CodeVerifier params) ""); [apply Herr|].
  destruct (Contains _ _) eqn:Ec; [|apply Herr]. apply Contains_elem in Ec. cbn [negb].
  apply wp_bind, exchange_remote; [intros token|intros e _; apply Herr].
  assert (forall A path (dst : json -> option A) K,
    (forall x, wp (K (Ok x)) Q a) -> (forall e, wp (K (Err e)) Q a) ->
    wp (bind (GitHub.getJSON p (Client_Do (mkOAuth2Config (GitHub.ClientID (GitHub.cfg p)) (GitHub.ClientSecret (GitHub.cfg p))
      (ap_RedirectURI params) (GitHub.endpoint p) ["user:email"]) token) path dst) K) Q a) as Hget.
  { intros A path dst K HO HE. unfold GitHub.getJSON. apply wp_bind. destruct (GitHub.NewRequest_error _); [apply HE|].
    apply wp_bind, client_remote; [intros resp|intros e _; apply HE].
    destruct (negb _); [apply HE|]. destruct (Decode _ _ _ _); [apply HE|apply HO]. }
  apply Hget; [intros user|intros e; apply Herr]. destruct (GitHub.au_ID user <=? 0) eqn:Eid; [apply Herr|].
  apply Hget; [intros emails|intros e; apply Herr]. apply Hok. split; [done|]. exists user, emails.
  unfold github_identity. destruct (List.find _ _); cbn; split_and!; done || lia.
Qed.
End github.

(** ** Google *)

Section google.
Context `{OAuth2, Google.IdTokens}.

(** The claims the provider accepts for a flow, and the account it reports for them. *)
Definition genuine (p : Google.Provider) (params : AuthParams) (claims : Google.idTokenClaims) (info : UserInfo) : Prop :=
  (Google.it_Issuer claims = "https://accounts.google.com" \/ Google.it_Issuer claims = "accounts.google.com") /\
  Google.it_Nonce claims = ap_Nonce params /\ ap_Nonce params <> "" /\ Google.it_Subject claims <> "" /\
  info = mkUserInfo (Google.it_Subject claims) (Google.it_Email claims) (Google.it_EmailVerified claims).

(** The claims date from before the moment of the check and have not expired at
    it, by more than the minute of leeway. *)
Definition timely (claims : Google.idTokenClaims) (now : time) : Prop :=
  (forall e, Google.it_Expiry claims = Some e -> now <= e + Minute) /\
  (forall n, Google.it_NotBefore claims = Some n -> n <= now + Minute) /\
  (forall i, Google.it_IssuedAt claims = Some i -> i <= now + Minute).

(** The account is the one of the ID token that came with this very token: its
    claims are read from the field "id_token" and are made by Google, for this
    client, for this flow, and in time. *)
Definition identified_by (p : Google.Provider) (params : AuthParams) (token : oauth2_Token) (now : time)
    (claims : Google.idTokenClaims) (info : UserInfo) : Prop :=
  exists raw parsed,
    Token_Extra token "id_token" = Some raw /\ Google.id_ParseSigned raw [RS256; ES256] = Ok parsed /\
    Google.UnsafeClaimsWithoutVerification parsed = Ok claims /\
    genuine p params claims info /\ Google.ClientID (Google.cfg p) ∈ Google.it_Audience claims /\ timely claims now.

Lemma Validate_timely `{!Google.IdTokensLaws} p claims now :
  Google.Validate claims [Google.ClientID (Google.cfg p)] now = None ->
  Google.ClientID (Google.cfg p) ∈ Google.it_Audience claims /\ timely claims now.
Proof.
  intros [(x & ->%list_elem_of_singleton & Hx) (He & Hn & Hi)]%Google.Validate_spec.
  split; [done|]. split_and!; [|exact Hn|exact Hi]. intros e Hexp. specialize (He e Hexp). lia.
Qed.

(** The client the provider exchanges a code as. *)
Definition google_client (p : Google.Provider) (redirect : string) : OAuth2Config :=
  mkOAuth2Config (Google.ClientID (Google.cfg p)) (Google.ClientSecret (Google.cfg p)) redirect (Google.endpoint p)
    ["openid"; "email"].

Section run.
Context {S : Type} `{!StoreImpl S} (o : oracle).

Lemma run_google `{!Google.IdTokensLaws} p code params w info w' :
  run o (Google.ExchangeCode p code params) w = (Ok info, w') ->
  exists token w1 claims,
    ap_CodeVerifier params <> "" /\ ap_RedirectURI params ∈ Google.RedirectURIs (Google.cfg p) /\
    run o (Config_Exchange (google_client p (ap_RedirectURI params)) code (ap_CodeVerifier params)) w = (Ok token, w1) /\
    identified_by p params token (o_now o (w_tick w1)) claims info /\ w' = tick w1.
Proof.
  unfold Google.ExchangeCode, Google.requireParams, Google.oauthConfig.
  destruct (strEq (ap_CodeVerifier params) "") eqn:Ev; [done|]. apply strEq_false in Ev.
  destruct (strEq (ap_Nonce params) "") eqn:En; [done|]. apply strEq_false in En.
  destruct (Contains _ _) eqn:Ec; [|done]. apply Contains_elem in Ec. cbn [negb]. rewrite run_bind.
  destruct (run o (Config_Exchange _ _ _) w) as [[token|e] w1] eqn:Ex; [|done].
  destruct (Token_Extra token "id_token") as [raw|] eqn:Er; [|done]. cbn [default from_option id].
  destruct (strEq raw "") eqn:E0; [done|].
  destruct (Google.id_ParseSigned raw _) as [parsed|e] eqn:Ep; [|done].
  destruct (Google.UnsafeClaimsWithoutVerification parsed) as [claims|e] eqn:Ecl; [|done].
  cbn [bind time_Now perform run handle].
  destruct (Google.Validate _ _ _) eqn:Eval; [done|]. destruct (_ && _) eqn:Eiss; [done|].
  destruct (strEq (Google.it_Subject claims) "") eqn:Es; [done|]. apply strEq_false in Es.
  destruct (strEq (Google.it_Nonce claims) _) eqn:Eno; [|done]. apply strEq_true in Eno. cbn [negb run].
  intros [= <- <-]. exists token, w1, claims. split_and!; try done.
  apply Validate_timely in Eval as [Ha Ht]. exists raw, parsed. split_and!; try done.
  rewrite andb_false_iff, !negb_false_iff, !strEq_true in Eiss. unfold genuine. tauto.
Qed.
End run.

(** As the service sees it. *)
Definition google_vouched (p : Google.Provider) (code : string) (params : AuthParams) (info : UserInfo) : Prop :=
  ap_RedirectURI params ∈ Google.RedirectURIs (Google.cfg p) /\
  exists token now claims, identified_by p params token now claims info.

Lemma google_provider_spec `{!OAuth2Laws, !Google.IdTokensLaws, Faults} p :
  OAuthProviderSpec (Google.google_provider p) (google_vouched p).
Proof.
  intros O R code params Q a Hok Herr. cbn. unfold Google.ExchangeCode, Google.requireParams, Google.oauthConfig.
  destruct (strEq (ap_CodeVerifier params) "") eqn:Ev; [apply Herr|].
  destruct (strEq (ap_Nonce params) "") eqn:En; [apply Herr|]. apply strEq_false in En.
  destruct (Contains _ _) eqn:Ec; [|apply Herr]. apply Contains_elem in Ec. cbn [negb].
  apply wp_bind, exchange_remote; [intros token|intros e _; apply Herr].
  destruct (Token_Extra token "id_token") as [raw|] eqn:Er; [|apply Herr]. cbn [default from_option id].
  destruct (strEq raw ""); [apply Herr|]. destruct (Google.id_ParseSigned _ _) as [parsed|] eqn:Ep; [|apply Herr].
  destruct (Google.UnsafeClaimsWithoutVerification parsed) as [claims|] eqn:Ecl; [|apply Herr].
  intros now Hnow. cbn [bind]. destruct (Google.Validate _ _ _) eqn:Eval; [apply Herr|]. destruct (_ && _) eqn:Eiss; [apply Herr|].
  destruct (strEq (Google.it_Subject claims) "") eqn:Es; [apply Herr|]. apply strEq_false in Es.
  destruct (strEq (Google.it_Nonce claims) _) eqn:Eno; [|apply Herr]. apply strEq_true in Eno. cbn [negb].
  apply Hok. split; [done|]. apply Validate_timely in Eval as [Ha Ht].
  exists token, now, claims, raw, parsed. split_and!; try done.
  rewrite andb_false_iff, !negb_false_iff, !strEq_true in Eiss. unfold genuine. tauto.
Qed.
End google.

(** ** The properties *)

Section theorems.
Context `{OAuth2, GitHub.RequestURL, Google.IdTokens}.
Context {S : Type} `{!StoreImpl S, Faults} (o : oracle).

(** A GitHub sign-in reports the account the API answered for: a successful
    exchange used the flow's verifier and an allowed redirect URI, got a positive
    account id from GET /user with the token it exchanged the code for, and the
    email is verified only if the first primary entry of GET /user/emails is. *)
Theorem github_exchange p code params w info w' :
  run o (GitHub.ExchangeCode p code params) w = (Ok info, w') ->
  ap_CodeVerifier params <> "" /\ ap_RedirectURI params ∈ GitHub.RedirectURIs (GitHub.cfg p) /\
  exists conf token w1 user_resp user w2 emails_resp emails,
    o2_RedirectURL conf = ap_RedirectURI params /\
    run o (Config_Exchange conf code (ap_CodeVerifier params)) w = (Ok token, w1) /\
    run o (Client_Do conf token (api_get p "/user")) w1 = (Ok user_resp, w2) /\
    run o (Client_Do conf token (api_get p "/user/emails?per_page=100")) w2 = (Ok emails_resp, w') /\
    answers_with user_resp GitHub.apiUser_json user /\ answers_with emails_resp GitHub.apiEmails_json emails /\
    github_identity user emails info /\
    (ui_EmailVerified info = true -> exists e, e ∈ emails /\ GitHub.ae_Primary e = true /\
       GitHub.ae_Verified e = true /\ GitHub.ae_Email e = ui_Email info).
Proof.
  intros (token & w1 & ru & user & w2 & rm & emails & Hv & Hr & Hx & Hu & Hm & Au & Am & Hid)%run_github.
  split; [done|]. split; [done|]. eexists _, token, w1, ru, user, w2, rm, emails.
  split_and!; [|exact Hx|exact Hu|exact Hm|done..|]; [done|]. intros Hver. destruct Hid as (_ & _ & Hf).
  destruct (List.find _ _) as [e|] eqn:E; [|destruct Hf; congruence]. apply find_some in E as [Hin Hp].
  exists e. rewrite list_elem_of_In. destruct Hf as [-> Hve]. split_and!; congruence || done.
Qed.

(** A Google sign-in reports the subject of a token made for this flow: a
    successful exchange got, for the flow's verifier and an allowed redirect URI,
    an ID token issued by Google to this client with the flow's nonce, that had
    not expired, by more than the minute of leeway, when it was checked. *)
Theorem google_exchange `{!Google.IdTokensLaws} p code params w info w' :
  run o (Google.ExchangeCode p code params) w = (Ok info, w') ->
  ap_CodeVerifier params <> "" /\ ap_RedirectURI params ∈ Google.RedirectURIs (Google.cfg p) /\
  exists token w1 claims,
    run o (Config_Exchange (google_client p (ap_RedirectURI params)) code (ap_CodeVerifier params)) w = (Ok token, w1) /\
    identified_by p params token (o_now o (w_tick w1)) claims info.
Proof.
  intros Hrun. destruct (run_google o _ _ _ _ _ _ Hrun) as (token & w1 & claims & Hv & Hr & Hx & Hid & ->).
  split; [done|]. split; [done|]. by exists token, w1, claims.
Qed.

Context `{UnicodeTables, !StoreContract S} `{!ServiceSpec s}.

(** C14. Signing in with Google needs a token of one's own flow: a successful
    callback spent a live stored state, then exchanged the code with that flow's
    verifier and redirect URI, an allowed one, and the very token it got carries
    an ID token that Google issued to this client with the nonce of that state,
    in date when it was checked; the session is of the user linked to that ID
    token's subject, and a user is created or joined only by its verified
    email. *)
Theorem google_sign_in `{!OAuth2Laws, !Google.IdTokensLaws} req w res w' g :
  oracle_ok o -> sc_inv (w_store w) ->
  oauthProvider s (ocr_Provider req) = Ok (Google.google_provider g) ->
  run o (Service_OAuthCallback s req) w = (Ok res, w') ->
  let a := sc_view (w_store w) in let a' := sc_view (w_store w') in
  exists ch now w0 token w1 claims i,
    read_during o w w' now /\
    d_challenges a !! ocr_State req = Some ch /\ state_matches req ch now /\ d_challenges a' !! ocr_State req = None /\
    ocr_RedirectURI req ∈ Google.RedirectURIs (Google.cfg g) /\
    (w_tick w <= w_tick w0 <= w_tick w1)%nat /\ (w_tick w1 <= w_tick w')%nat /\
    sc_view (w_store w0) = with_challenges a (delete (ocr_State req) (d_challenges a)) /\
    run o (Config_Exchange (google_client g (ocr_RedirectURI req)) (ocr_Code req) (ch_CodeVerifier ch)) w0 = (Ok token, w1) /\
    identified_by g (flow_params req ch) token (o_now o (w_tick w1)) claims
      (mkUserInfo (Google.it_Subject claims) (Google.it_Email claims) (Google.it_EmailVerified claims)) /\
    d_oauth a' !! (ocr_Provider req, Google.it_Subject claims) = Some i /\ oi_UserID i = ores_UserID res /\
    (ores_IsNewUser res = true \/ ores_Linked res = true ->
     Google.it_EmailVerified claims = true /\ NormalizeEmail (Google.it_Email claims) = Ok (ores_Email res)).
Proof.
  intros Ho Hinv Hg Hrun a a'.
  destruct (run_OAuthCallback_cut o req _ (google_vouched g) w res w' Ho Hinv Hg (google_provider_spec g) Hrun)
    as (ch & w0 & info & w1 & T1 & T2 & Hv0 & Hx & Hs).
  destruct (oauth_signed_in_facts (H1 := read_during o w w') _ _ _ _ _ (sc_ok _ Hinv) Hs)
    as (ch' & now & info' & Hnow & Hch & Hm & Hdel & (Hpar & ->) & (u & i & _ & _ & _ & Hi & Hu) & Hcase).
  destruct (run_google o _ _ _ _ _ _ Hx) as (token & w2 & claims & _ & Hr & Hx' & Hid & ->). clear Hx. rename Hx' into Hx.
  pose proof Hid as (_ & _ & _ & _ & _ & (_ & _ & _ & _ & ->) & _). cbn in Hi, Hcase, T1, T2.
  exists ch', now, w0, token, w2, claims, i. rewrite Hpar. injection Hpar as Hpar1 Hpar2.
  pose proof (run_tick o (Config_Exchange (google_client g (ap_RedirectURI (flow_params req ch))) (ocr_Code req)
    (ap_CodeVerifier (flow_params req ch))) w0) as T0. rewrite Hx in T0. cbn in T0, Hx. rewrite Hpar1.
  split_and!; try done; try lia.
  intros Hnew. destruct (ores_IsNewUser res); [destruct_and!; done|].
  destruct (ores_Linked res); [destruct_and!; done|]. destruct Hnew; congruence.
Qed.
End theorems.

(** ** The providers at work *)

Module PlainOAuth2.
(** A library that posts the code and keeps the answer as the token; the field
    "id_token" is the whole answer. *)
#[export] Instance plain_oauth2 : OAuth2 := {|
  oauth2_Token := string;
  Config_AuthCodeURL c state opts := AuthURL (o2_Endpoint c) +:+ "?client_id=" +:+ o2_ClientID c +:+ "&state=" +:+ state;
  Config_Exchange c code v :=
    (try resp := perform (HTTP (mkHttpreq "POST" (TokenURL (o2_Endpoint c)) []
                                  ("code=" +:+ code +:+ "&code_verifier=" +:+ v)))
       catch err => Ret (Err err) in
     if hp_StatusCode resp =? 200 then Ret (Ok (hp_Body resp)) else Ret (Err (EForeign "cannot fetch token")))%prog;
  Client_Do c t req :=
    perform (HTTP (mkHttpreq (hr_Method req) (hr_URL req) (("Authorization", "Bearer " +:+ t) :: hr_Header req) (hr_Body req)));
  Token_Extra t key := if strEq key "id_token" then Some t else None
|}.

#[export] Instance plain_oauth2_laws : OAuth2Laws.
Proof.
  split; intros O R F c x v Q a HO HE; cbn.
  - intros r Hr. destruct r as [resp|e]; [|by apply HE, (Hr e)]. cbn. by destruct (_ =? 200); cbn; auto.
  - intros r Hr. destruct r as [resp|e]; [apply HO|by apply HE, (Hr e)].
Qed.

#[export] Instance any_url : GitHub.RequestURL := fun _ => None.

(** A token of six fields: issuer, subject, audience, expiry, email, nonce. *)
#[export] Instance plain_id_tokens : Google.IdTokens := {|
  Google.IdToken := string;
  Google.id_ParseSigned raw _ := Ok raw;
  Google.UnsafeClaimsWithoutVerification t :=
    match Split t "|" with
    | [iss; sub; aud; exp; email; nonce] =>
        match ParseInt exp with
        | Some e => Ok (Google.mkIdTokenClaims iss sub [aud] (Some (ofUnix e)) None None "" email true nonce)
        | None => Err (EForeign "bad exp")
        end
    | _ => Err (EForeign "malformed claims")
    end;
  Google.Validate c aud now :=
    if existsb (fun x => Contains (Google.it_Audience c) x) aud &&
       (match Google.it_Expiry c with Some e => now - Minute <=? e | None => true end) &&
       (match Google.it_NotBefore c with Some e => e <=? now + Minute | None => true end) &&
       (match Google.it_IssuedAt c with Some e => e <=? now + Minute | None => true end)
    then None else Some (EForeign "validation failed")
|}.

#[export] Instance plain_id_tokens_laws : Google.IdTokensLaws.
Proof.
  intros c aud now. cbn. destruct (_ && _) eqn:E.
  - split; [|done]. intros _. rewrite !andb_true_iff, existsb_exists in E. destruct E as [[[(x & Hx & Hc) He] Hn] Hi].
    rewrite <- list_elem_of_In in Hx. apply Contains_elem in Hc. split_and!; [eauto|..].
    + intros e Ee. rewrite Ee in He. lia.
    + intros e Ee. rewrite Ee in Hn. lia.
    + intros e Ee. rewrite Ee in Hi. lia.
  - split; [done|]. intros ((x & Hx & Hc) & He & Hn & Hi). rewrite !andb_false_iff in E.
    destruct E as [[[E|E]|E]|E]; exfalso.
    + apply not_true_iff_false in E. apply E, existsb_exists. exists x.
      rewrite <- list_elem_of_In. by rewrite Contains_elem.
    + destruct (Google.it_Expiry c) as [e|]; [|done]. specialize (He e eq_refl). lia.
    + destruct (Google.it_NotBefore c) as [e|]; [|done]. specialize (Hn e eq_refl). lia.
    + destruct (Google.it_IssuedAt c) as [e|]; [|done]. specialize (Hi e eq_refl). lia.
Qed.
End PlainOAuth2.

Module Example.
Import PlainOAuth2.
#[local] Existing Instance listed_order.

(** An outside world whose network answers [net]. *)
Definition online (net : httpreq -> httpresp) : oracle := {|
  o_now := o_now example_oracle; o_rand := o_rand example_oracle; o_uuid7 := o_uuid7 example_oracle;
  o_uuid4 := o_uuid4 example_oracle; o_verifier := o_verifier example_oracle;
  o_http := fun _ r => Ok (net r)
|}.
Lemma online_ok `{Faults} net : oracle_ok (online net).
Proof. split; cbn; [|done..]. intros n k s [= <-]. apply fill_length. Qed.

Definition quoted (s : string) : string := String (ascii_of_nat 34) (s +:+ String (ascii_of_nat 34) "").

(** GitHub's servers. *)
Definition github_net (r : httpreq) : httpresp :=
  if strEq (hr_URL r) "https://github.example/token" then mkHttpresp 200 "gho_access" false
  else if negb (Contains ((fun h => h.1 +:+ "=" +:+ h.2) <$> hr_Header r) "Authorization=Bearer gho_access")
  then mkHttpresp 401 "" false
  else if strEq (hr_URL r) "https://api.github.com/user" then
    mkHttpresp 200 ("{" +:+ quoted "login" +:+ ": " +:+ quoted "octocat" +:+ ", " +:+ quoted "id" +:+ ": 583231}") false
  else if strEq (hr_URL r) "https://api.github.com/user/emails?per_page=100" then
    mkHttpresp 200
      ("[{" +:+ quoted "email" +:+ ":" +:+ quoted "old@example.com" +:+ "," +:+ quoted "verified" +:+ ":true}, {" +:+
       quoted "Email" +:+ ":" +:+ quoted "octocat@example.com" +:+ "," +:+ quoted "primary" +:+ ":true," +:+
       quoted "verified" +:+ ":true," +:+ quoted "visibility" +:+ ":null}]") false
  else mkHttpresp 404 "" false.

Definition github : GitHub.Provider :=
  GitHub.mkProvider (GitHub.mkConfig "Iv1.client123" "secret" ["https://app.example.com/callback"])
    (mkEndpoint "https://github.example/authorize" "https://github.example/token") GitHub.apiURL_default.
Definition params (nonce : string) : AuthParams :=
  mkAuthParams "state-xyz" "https://app.example.com/callback" "verifier" nonce.
Definition start : world Store := mkWorld Memory.New 0 [].

Lemma github_exchange_witness :
  let info := mkUserInfo "583231" "octocat@example.com" true in
  (run (online github_net) (GitHub.ExchangeCode github "code" (params "")) start).1 = Ok info /\
  exists e, GitHub.ae_Primary e = true /\ GitHub.ae_Verified e = true /\ GitHub.ae_Email e = ui_Email info.
Proof.
  assert (run (online github_net) (GitHub.ExchangeCode github "code" (params "")) start =
    (Ok (mkUserInfo "583231" "octocat@example.com" true),
     (run (online github_net) (GitHub.ExchangeCode github "code" (params "")) start).2)) as Hrun
    by (vm_compute; reflexivity).
  split; [exact (f_equal fst Hrun)|].
  destruct (github_exchange (online github_net) github "code" (params "") start _ _ Hrun)
    as (_ & _ & conf & t & w1 & ru & u & w2 & rm & es & _ & _ & _ & _ & _ & _ & _ & Hv).
  destruct (Hv eq_refl) as (e & _ & He). exists e. exact He.
Defined.

(** Google's token endpoint. *)
Definition google_net (nonce : string) (r : httpreq) : httpresp :=
  mkHttpresp 200 ("https://accounts.google.com|1178|client-1|1700003600|bob@example.com|" +:+ nonce) false.
Definition google : Google.Provider :=
  Google.mkProvider (Google.mkConfig "client-1" "secret" ["https://app.example.com/callback"]) Google.endpoint_default.

Lemma google_exchange_witness :
  exists claims info,
    (run (online (google_net "n-1")) (Google.ExchangeCode google "code" (params "n-1")) start).1 = Ok info /\
    genuine google (params "n-1") claims info /\ "client-1" ∈ Google.it_Audience claims.
Proof.
  assert (run (online (google_net "n-1")) (Google.ExchangeCode google "code" (params "n-1")) start =
    (Ok (mkUserInfo "1178" "bob@example.com" true),
     (run (online (google_net "n-1")) (Google.ExchangeCode google "code" (params "n-1")) start).2)) as Hrun
    by (vm_compute; reflexivity).
  destruct (google_exchange (online (google_net "n-1")) google "code" (params "n-1") start _ _ Hrun)
    as (_ & _ & t & w1 & claims & _ & raw & parsed & _ & _ & _ & Hg & Ha & _).
  exists claims, (mkUserInfo "1178" "bob@example.com" true).
  exact (conj (f_equal fst Hrun) (conj Hg Ha)).
Defined.
End Example.
