(* ===== verification/GoNetip.v ===== *)
(** * IP addresses (net/netip)

    The parsing, printing and prefix matching of Go's net/netip that the
    program uses.  An IPv6 address is its eight 16-bit groups and a zone. *)

From stdpp Require Import pretty.
From S2P Require Import Prelude GoStrings GoFormat.

Inductive Addr :=
| Addr4 (bytes : list Z)                       (* four *)
| Addr6 (groups : list Z) (zone : string).     (* eight *)

#[export] Instance Addr_eq_dec : EqDecision Addr.
Proof. solve_decision. Defined.

Definition digit (c : ascii) : option Z :=
  let b := byteval c in if (48 <=? b) && (b <=? 57) then Some (b - 48) else None.

Definition hexdigit (c : ascii) : option Z :=
  let b := byteval c in
  if (48 <=? b) && (b <=? 57) then Some (b - 48)
  else if (97 <=? b) && (b <=? 102) then Some (b - 87)
  else if (65 <=? b) && (b <=? 70) then Some (b - 55)
  else None.

(** The digits at the head of a string: their value, their number, the rest. *)
Fixpoint span_digits (base : Z) (dig : ascii -> option Z) (s : string) (acc : Z) (n : nat)
  : Z * nat * string :=
  match s with
  | String c t =>
      match dig c with
      | Some d => span_digits base dig t (acc * base + d) (S n)
      | None => (acc, n, s)
      end
  | "" => (acc, n, s)
  end.

(** A decimal field of an IPv4 address: no sign, no leading zero, at most 255. *)
Definition parse_octet (s : string) : option Z :=
  match span_digits 10 digit s 0 0 with
  | (v, S n, "") =>
      if (0 <? Z.of_nat n) && HasPrefix s "0" then None
      else if 255 <? v then None else Some v
  | _ => None
  end.

Definition parseIPv4 (s : string) : option (list Z) :=
  match parse_octet <$> Split s "." with
  | [Some a; Some b; Some c; Some d] => Some [a; b; c; d]
  | _ => None
  end.

(** The loop of parseIPv6: the groups read, the position of the ellipsis, what
    is left.  Every round reads a group, so nine rounds are enough. *)
Fixpoint parse_groups (fuel : nat) (s : string) (gs : list Z) (ellipsis : option nat)
  : option (list Z * option nat * string) :=
  match fuel with
  | O => None
  | S fuel =>
      if (8 <=? Z.of_nat (length gs)) then Some (gs, ellipsis, s)
      else
        match span_digits 16 hexdigit s 0 0 with
        | (_, O, _) => None
        | (acc, n, rest) =>
            if 4 <? Z.of_nat n then None
            else
              match rest with
              | "" => Some (gs ++ [acc], ellipsis, "")
              | String c rest' =>
                  if Ascii.eqb c "." then
                    if negb (bool_decide (is_Some ellipsis)) && negb (Z.of_nat (length gs) =? 6) then None
                    else if 6 <? Z.of_nat (length gs) then None
                    else match parseIPv4 s with
                         | Some [a; b; c; d] => Some (gs ++ [a * 256 + b; c * 256 + d], ellipsis, "")
                         | _ => None
                         end
                  else if negb (Ascii.eqb c ":") then None
                  else
                    match rest' with
                    | "" => None
                    | String c' rest'' =>
                        if Ascii.eqb c' ":" then
                          if bool_decide (is_Some ellipsis) then None
                          else
                            let gs := gs ++ [acc] in
                            if bool_decide (rest'' = "") then Some (gs, Some (length gs), "")
                            else parse_groups fuel rest'' gs (Some (length gs))
                        else parse_groups fuel rest' (gs ++ [acc]) ellipsis
                    end
              end
        end
  end.

Definition expand (gs : list Z) (ellipsis : option nat) : option (list Z) :=
  if Z.of_nat (length gs) <? 8 then
    match ellipsis with
    | None => None
    | Some e => Some (take e gs ++ replicate (8 - length gs) 0 ++ drop e gs)
    end
  else match ellipsis with Some _ => None | None => Some gs end.

Definition parseIPv6 (input : string) : option Addr :=
  let '(s, zone, found) := Cut input "%" in
  if found && bool_decide (zone = "") then None
  else
    let '(s, ellipsis) := if HasPrefix s "::" then (str_drop 2 s, Some 0%nat) else (s, None) in
    if bool_decide (is_Some ellipsis) && bool_decide (s = "") then Some (Addr6 (replicate 8 0) zone)
    else
      match parse_groups 9 s [] ellipsis with
      | Some (gs, ellipsis, "") => (fun gs => Addr6 gs zone) <$> expand gs ellipsis
      | _ => None
      end.

(** Which of '.', ':' and '%' comes first decides the syntax. *)
Fixpoint first_sep (s : string) : option ascii :=
  match s with
  | "" => None
  | String c t =>
      if Ascii.eqb c "." || Ascii.eqb c ":" || Ascii.eqb c "%" then Some c else first_sep t
  end.

Definition ParseAddr (s : string) : option Addr :=
  match first_sep s with
  | Some c =>
      if Ascii.eqb c "." then Addr4 <$> parseIPv4 s
      else if Ascii.eqb c ":" then parseIPv6 s
      else None
  | None => None
  end.

(** [strconv.ParseUint(s, 10, 16)] *)
Definition parse_port (s : string) : option Z :=
  match span_digits 10 digit s 0 0 with
  | (v, S _, "") => if 65535 <? v then None else Some v
  | _ => None
  end.

Definition ParseAddrPort (s : string) : option (Addr * Z) :=
  match LastIndexByte s ":" with
  | None => None
  | Some i =>
      let ip := str_take i s in
      let port := str_drop (i + 1) s in
      if bool_decide (ip = "") || bool_decide (port = "") then None
      else
        let n := String.length ip in
        let bracketed := HasPrefix ip "[" in
        if bracketed && negb ((2 <=? Z.of_nat n) && bool_decide (str_drop (n - 1) ip = "]")) then None
        else
          let ip := if bracketed then str_take (n - 2) (str_drop 1 ip) else ip in
          match parse_port port, ParseAddr ip with
          | Some p, Some (Addr4 b) => if bracketed then None else Some (Addr4 b, p)
          | Some p, Some (Addr6 g z) => if bracketed then Some (Addr6 g z, p) else None
          | _, _ => None
          end
  end.

(** [Unmap]: an IPv4 address in IPv6 clothing is IPv4. *)
Definition Unmap (a : Addr) : Addr :=
  match a with
  | Addr6 [0; 0; 0; 0; 0; f; g; h] _ =>
      if f =? 65535 then Addr4 [g / 256; g mod 256; h / 256; h mod 256] else a
  | _ => a
  end.

(** Hexadecimal without leading zeros. *)
Definition hexchar (d : Z) : ascii := if d <? 10 then bytechr (48 + d) else bytechr (87 + d).
Definition group_string (g : Z) : string :=
  if 4096 <=? g then String (hexchar (g / 4096)) (String (hexchar (g / 256 mod 16))
                       (String (hexchar (g / 16 mod 16)) (String (hexchar (g mod 16)) "")))
  else if 256 <=? g then String (hexchar (g / 256)) (String (hexchar (g / 16 mod 16)) (String (hexchar (g mod 16)) ""))
  else if 16 <=? g then String (hexchar (g / 16)) (String (hexchar (g mod 16)) "")
  else String (hexchar g) "".

(** The number of zero groups at the head. *)
Fixpoint zero_run (gs : list Z) : nat :=
  match gs with
  | g :: gs => if g =? 0 then S (zero_run gs) else O
  | [] => O
  end.

(** The first longest run of at least two zero groups: its start and length. *)
Fixpoint best_run (i : nat) (gs : list Z) (best : nat * nat) : nat * nat :=
  match gs with
  | [] => best
  | _ :: gs' =>
      let l := zero_run gs in
      best_run (S i) gs' (if (2 <=? Z.of_nat l) && (Z.of_nat best.2 <? Z.of_nat l) then (i, l) else best)
  end.

Definition Addr_String (a : Addr) : string :=
  match a with
  | Addr4 b => Join ((fun z : Z => pretty z) <$> b) "."
  | Addr6 gs zone =>
      let '(start, len) := best_run 0 gs (0, 0)%nat in
      (match len with
       | O => Join (group_string <$> gs) ":"
       | _ => Join (group_string <$> take start gs) ":" +:+ "::" +:+
              Join (group_string <$> drop (start + len) gs) ":"
       end) +:+ (if bool_decide (zone = "") then "" else "%" +:+ zone)
  end.

(** ** Prefixes *)

(** [Bits] is -1 in a prefix that is not valid. *)
Record Prefix := mkPrefix { pfx_Addr : Addr; pfx_Bits : Z }.

Definition BitLen (a : Addr) : Z := match a with Addr4 _ => 32 | Addr6 _ _ => 128 end.

Definition Is4In6 (a : Addr) : bool :=
  match a with
  | Addr6 [0; 0; 0; 0; 0; f; _; _] _ => f =? 65535
  | _ => false
  end.

Definition zone (a : Addr) : string := match a with Addr4 _ => "" | Addr6 _ z => z end.
Definition withoutZone (a : Addr) : Addr := match a with Addr4 b => Addr4 b | Addr6 g _ => Addr6 g "" end.

Definition PrefixFrom (a : Addr) (bits : Z) : Prefix :=
  mkPrefix (withoutZone a) (if (0 <=? bits) && (bits <=? BitLen a) then bits else -1).

(** A number as [n] digits, the first the most significant, and back. *)
Fixpoint digits (base : Z) (n : nat) (v : Z) : list Z :=
  match n with
  | O => []
  | S n => digits base n (v / base) ++ [v mod base]
  end.
Definition number (base : Z) (l : list Z) : Z := foldl (fun acc b => acc * base + b) 0 l.

(** The first [bits] of the [width] bits of a number, the others zero. *)
Definition mask (width bits v : Z) : Z := Z.shiftl (Z.shiftr v (width - bits)) (width - bits).

(** [Masked], of a valid prefix. *)
Definition Masked (p : Prefix) : Prefix :=
  PrefixFrom
    (match pfx_Addr p with
     | Addr4 b => Addr4 (digits 256 4 (mask 32 (pfx_Bits p) (number 256 b)))
     | Addr6 g z => Addr6 (digits 65536 8 (mask 128 (pfx_Bits p) (number 65536 g))) z
     end) (pfx_Bits p).

Definition Prefix_Contains (p : Prefix) (a : Addr) : bool :=
  if pfx_Bits p <? 0 then false
  else
    match pfx_Addr p, a with
    | Addr4 b, Addr4 b' =>
        Z.shiftr (Z.lxor (number 256 b) (number 256 b')) (32 - pfx_Bits p) =? 0
    | Addr6 g _, Addr6 g' "" =>
        Z.shiftr (Z.lxor (number 65536 g) (number 65536 g')) (128 - pfx_Bits p) =? 0
    | _, _ => false
    end.

(** No zone, no sign and no leading zero in the length. *)
Definition ParsePrefix (s : string) : option Prefix :=
  match LastIndexByte s "/" with
  | None => None
  | Some i =>
      match ParseAddr (str_take i s) with
      | None => None
      | Some ip =>
          if negb (bool_decide (zone ip = "")) then None
          else
            let bitsStr := str_drop (i + 1) s in
            let signed := match bitsStr with
                          | String c _ => (1 <? Z.of_nat (String.length bitsStr)) &&
                                          ((byteval c <? 49) || (57 <? byteval c))
                          | "" => false
                          end in
            if signed then None
            else match Atoi bitsStr with
                 | None => None
                 | Some bits =>
                     if (bits <? 0) || (BitLen ip <? bits) then None
                     else Some (PrefixFrom ip bits)
                 end
      end
  end.

Example parse_v4 : ParseAddr "10.0.0.1" = Some (Addr4 [10; 0; 0; 1]).
Proof. reflexivity. Qed.
Example parse_v4_zero : ParseAddr "10.0.0.01" = None.
Proof. reflexivity. Qed.
Example parse_v6 : Addr_String <$> ParseAddr "2001:DB8::0:1" = Some "2001:db8::1".
Proof. reflexivity. Qed.
Example parse_v6_all : Addr_String <$> ParseAddr "::" = Some "::".
Proof. reflexivity. Qed.
Example parse_v6_mapped : Unmap <$> ParseAddr "::ffff:192.0.2.1" = Some (Addr4 [192; 0; 2; 1]).
Proof. reflexivity. Qed.
Example parse_v6_zone : Addr_String <$> ParseAddr "fe80::1%eth0" = Some "fe80::1%eth0".
Proof. reflexivity. Qed.
Example parse_port_v6 : ParseAddrPort "[::1]:8080" = Some (Addr6 [0; 0; 0; 0; 0; 0; 0; 1] "", 8080).
Proof. reflexivity. Qed.
Example contains_v4 :
  Prefix_Contains (mkPrefix (Addr4 [10; 0; 0; 0]) 8) (Addr4 [10; 1; 2; 3]) = true.
Proof. reflexivity. Qed.
Example parse_prefix : Masked <$> ParsePrefix "10.1.2.3/8" = Some (mkPrefix (Addr4 [10; 0; 0; 0]) 8).
Proof. reflexivity. Qed.
Example parse_prefix_long : ParsePrefix "10.1.2.3/33" = None.
Proof. reflexivity. Qed.
Example parse_prefix_zero : ParsePrefix "::/00" = None.
Proof. reflexivity. Qed.
