(* ===== verification/NetipFacts.v ===== *)
(** * Facts about addresses and prefixes

    A parsed address has its groups in range; a prefix matches an address when
    the first bits of their numbers agree.  To compare across families an
    address is given 128 bits, an IPv4 one those of its IPv4-mapped form. *)

From S2P Require Import Prelude GoStrings GoFormat GoNetip.

(** ** Well-formed addresses *)

Definition below (base : Z) (l : list Z) : Prop := Forall (fun b => 0 <= b < base) l.

Definition addr_wf (a : Addr) : Prop :=
  match a with
  | Addr4 b => length b = 4%nat /\ below 256 b
  | Addr6 g _ => length g = 8%nat /\ below 65536 g
  end.

Lemma span_digits_bound base dig s acc n v m r :
  (forall c d, dig c = Some d -> 0 <= d < base) -> 0 < base ->
  0 <= acc < base ^ Z.of_nat n -> span_digits base dig s acc n = (v, m, r) -> 0 <= v < base ^ Z.of_nat m.
Proof.
  intros Hd Hb. revert acc n. induction s as [|c s IH]; intros acc n Ha; cbn; [by intros [= <- <- _]|].
  destruct (dig c) as [d|] eqn:E; [|by intros [= <- <- _]]. apply IH.
  specialize (Hd c d E). rewrite Nat2Z.inj_succ, Z.pow_succ_r by lia. nia.
Qed.

Lemma digit_bound c d : digit c = Some d -> 0 <= d < 10.
Proof. unfold digit. cbv zeta. repeat case_match; intros [= <-]; lia. Qed.

Lemma hexdigit_bound c d : hexdigit c = Some d -> 0 <= d < 16.
Proof.
  unfold hexdigit. cbv zeta. repeat case_match; intros [= <-]; lia.
Qed.

Lemma parse_octet_bound s v : parse_octet s = Some v -> 0 <= v < 256.
Proof.
  unfold parse_octet. destruct (span_digits _ _ _ _ _) as [[x n] r] eqn:E. destruct n, r; try done.
  destruct (_ && _); [done|]. destruct (255 <? x) eqn:Hx; [done|]. intros [= <-].
  eapply span_digits_bound in E; [lia|apply digit_bound|lia|cbn; lia].
Qed.

Lemma parseIPv4_wf s b : parseIPv4 s = Some b -> addr_wf (Addr4 b).
Proof.
  unfold parseIPv4. assert (Forall (fun o => forall v, o = Some v -> 0 <= v < 256) (parse_octet <$> Split s ".")) as Hf.
  { apply Forall_fmap, Forall_true. intros w v. apply parse_octet_bound. }
  destruct Hf as [|[a|] ? Ha [|[b'|] ? Hb [|[c|] ? Hc [|[d|] ? Hd []]]]]; try done.
  intros [= <-]. split; [done|]. repeat (constructor; [by auto|]). constructor.
Qed.

Lemma below_app base l k : below base (l ++ k) <-> below base l /\ below base k.
Proof. apply Forall_app. Qed.

Lemma below_snoc base l x : below base l -> 0 <= x < base -> below base (l ++ [x]).
Proof. intros Hl Hx. apply below_app. split; [done|]. by apply Forall_singleton. Qed.

Lemma parse_groups_wf fuel s gs e gs' e' r :
  below 65536 gs -> (length gs <= 8)%nat -> (forall i, e = Some i -> i <= length gs)%nat ->
  parse_groups fuel s gs e = Some (gs', e', r) ->
  below 65536 gs' /\ (length gs' <= 8)%nat /\ (forall i, e' = Some i -> i <= length gs')%nat.
Proof.
  revert s gs e. induction fuel as [|fuel IH]; intros s gs e Hb Hl He; cbn [parse_groups]; [done|].
  destruct (8 <=? _) eqn:E8; [by intros [= <- <- <-]|].
  destruct (span_digits _ _ _ _ _) as [[acc n] rest] eqn:Es. destruct n as [|n]; [done|].
  destruct (4 <? _) eqn:E4; [done|].
  assert (0 <= acc < 65536) as Ha.
  { eapply span_digits_bound in Es; [|apply hexdigit_bound|lia|cbn; lia].
    assert (16 ^ Z.of_nat (S n) <= 16 ^ 4) by (apply Z.pow_le_mono_r; [lia|]; apply Z.ltb_ge in E4; exact E4). lia. }
  assert (below 65536 (gs ++ [acc]) /\ (length (gs ++ [acc]) <= 8)%nat) as [Hb' Hl'].
  { split; [by apply below_snoc|]. rewrite length_app. cbn. lia. }
  assert (forall i, e = Some i -> i <= length (gs ++ [acc]))%nat as He'.
  { intros i Hi. specialize (He i Hi). rewrite length_app. lia. }
  destruct rest as [|c rest']; [by intros [= <- <- <-]|].
  destruct (Ascii.eqb c "."); [|destruct (negb _); [done|]].
  - destruct (_ && _); [done|]. destruct (6 <? _) eqn:E6; [done|].
    destruct (parseIPv4 s) as [[|a [|b [|c' [|d []]]]]|] eqn:E; try done.
    apply parseIPv4_wf in E as [_ E]. unfold below in E. rewrite !Forall_cons in E. destruct E as (?&?&?&?&_).
    intros [= <- <- <-]. rewrite length_app. cbn. split_and!; [|lia|intros i Hi; specialize (He i Hi); lia].
    apply below_app. split; [done|]. apply Forall_cons; split; [|apply Forall_singleton]; lia.
  - destruct rest' as [|c' rest'']; [done|]. destruct (Ascii.eqb c' ":"); [|by apply IH].
    destruct (bool_decide _); [done|].
    destruct (bool_decide _); [intros [= <- <- <-]; split_and!; [done..|by intros i [= <-]]|].
    apply IH; [done..|]. by intros i [= <-].
Qed.

Lemma expand_wf gs e l : below 65536 gs -> (length gs <= 8)%nat -> (forall i, e = Some i -> i <= length gs)%nat ->
  expand gs e = Some l -> length l = 8%nat /\ below 65536 l.
Proof.
  intros Hb Hl He. unfold expand. destruct (_ <? _) eqn:E; destruct e as [i|]; try done.
  - intros [= <-]. specialize (He i eq_refl). rewrite !length_app, length_replicate, length_take, length_drop.
    split; [lia|]. apply below_app. split; [by apply Forall_take|]. apply below_app. split; [|by apply Forall_drop].
    apply Forall_replicate. lia.
  - intros [= <-]. split; [lia|done].
Qed.

Lemma parseIPv6_wf s a : parseIPv6 s = Some a -> addr_wf a.
Proof.
  unfold parseIPv6. destruct (Cut s "%") as [[t z] found]. destruct (_ && _); [done|].
  destruct (if HasPrefix t "::" then _ else _) as [u e] eqn:Eu. destruct (_ && _).
  { intros [= <-]. split; [done|]. repeat (apply Forall_cons; split; [lia|]). constructor. }
  destruct (parse_groups 9 u [] e) as [[[gs e'] []]|] eqn:E; try done.
  apply parse_groups_wf in E as (Hb & Hl & He); [|constructor|cbn; lia|].
  - destruct (expand gs e') as [l|] eqn:Ex; [|done]. intros [= <-]. by eapply expand_wf.
  - intros i ->. destruct (HasPrefix _ _); injection Eu; [intros <- _; cbn; lia|done].
Qed.

Lemma ParseAddr_wf s a : ParseAddr s = Some a -> addr_wf a.
Proof.
  unfold ParseAddr. destruct (first_sep s) as [c|]; [|done]. destruct (Ascii.eqb c ".").
  - destruct (parseIPv4 s) as [b|] eqn:E; [|done]. intros [= <-]. by eapply parseIPv4_wf.
  - destruct (Ascii.eqb c ":"); [apply parseIPv6_wf|done].
Qed.

Lemma addr_groups g z : addr_wf (Addr6 g z) ->
  exists g0 g1 g2 g3 g4 g5 g6 g7, g = [g0; g1; g2; g3; g4; g5; g6; g7] /\
    0 <= g0 < 65536 /\ 0 <= g1 < 65536 /\ 0 <= g2 < 65536 /\ 0 <= g3 < 65536 /\ 0 <= g4 < 65536 /\
    0 <= g5 < 65536 /\ 0 <= g6 < 65536 /\ 0 <= g7 < 65536.
Proof.
  intros [Hl Hb]. do 8 (destruct g as [|? g]; [done|]). destruct g; [|done].
  unfold below in Hb. rewrite !Forall_cons in Hb. eexists _, _, _, _, _, _, _, _. split; [done|tauto].
Qed.

Lemma Unmap_wf a : addr_wf a -> addr_wf (Unmap a).
Proof.
  destruct a as [b|g z]; [done|]. intros Hw. pose proof (addr_groups g z Hw) as (?&?&?&?&?&?&?&?& -> & H).
  unfold Unmap. repeat (case_match; try done).
  split; [done|]. repeat (apply Forall_cons; split; [eucl|]). constructor.
Qed.

Lemma Is4In6_Unmap a : Is4In6 (Unmap a) = false.
Proof.
  destruct a as [b|g z]; [done|]. unfold Unmap. repeat case_match; cbn; try done; congruence || done.
Qed.

(** ** Addresses as numbers *)

Definition is4 (a : Addr) : bool := match a with Addr4 _ => true | Addr6 _ _ => false end.

(** The 128 bits of an address. *)
Definition addr128 (a : Addr) : Z :=
  match a with
  | Addr4 b => 65535 * 2 ^ 32 + number 256 b
  | Addr6 g _ => number 65536 g
  end.

Lemma number_snoc base l x : number base (l ++ [x]) = number base l * base + x.
Proof. unfold number. by rewrite foldl_app. Qed.

Lemma number_digits base n v : 0 < base -> number base (digits base n v) = v mod base ^ Z.of_nat n.
Proof.
  intros Hb. revert v. induction n as [|n IH]; intros v; [by rewrite Z.mod_1_r|].
  cbn [digits]. rewrite number_snoc, IH, Nat2Z.inj_succ, Z.pow_succ_r by lia.
  rewrite Z.rem_mul_r by (try apply Z.pow_nonzero; lia). lia.
Qed.

Lemma digits_below base n v : 0 < base -> length (digits base n v) = n /\ below base (digits base n v).
Proof.
  intros Hb. revert v. induction n as [|n IH]; intros v; [by split; [|constructor]|].
  cbn [digits]. rewrite length_app. destruct (IH (v / base)) as [-> ?]. split; [cbn; lia|].
  apply below_snoc; [done|]. by apply Z.mod_pos_bound.
Qed.

Lemma number_bound base l : 0 < base -> below base l -> 0 <= number base l < base ^ Z.of_nat (length l).
Proof.
  intros Hb. induction l as [|x l IH] using rev_ind; intros Hl; [done|].
  apply below_app in Hl as [Hl [Hx _]%Forall_cons]. specialize (IH Hl).
  rewrite number_snoc, length_app, Nat.add_1_r, Nat2Z.inj_succ, Z.pow_succ_r by lia. nia.
Qed.

Lemma lxor_top a b k : 0 <= k -> (Z.shiftr (Z.lxor a b) k =? 0) = true <-> Z.shiftr a k = Z.shiftr b k.
Proof.
  intros Hk. rewrite Z.eqb_eq, Z.shiftr_lxor. split; [apply Z.lxor_eq|intros ->; apply Z.lxor_nilpotent].
Qed.

Lemma addr128_4 b : addr_wf (Addr4 b) -> addr128 (Addr4 b) / 2 ^ 32 = 65535.
Proof.
  intros [Hl Hb]. pose proof (number_bound 256 b ltac:(lia) Hb) as Hn. rewrite Hl in Hn.
  cbn -[Z.pow Z.mul Z.div]. change (256 ^ Z.of_nat 4) with (2 ^ 32) in Hn.
  rewrite Z.add_comm, Z.div_add by done. rewrite Z.div_small by done. done.
Qed.

Lemma addr128_mapped a : addr_wf a -> is4 a = false -> Is4In6 a = true <-> addr128 a / 2 ^ 32 = 65535.
Proof.
  destruct a as [b|g z]; [done|]. intros Hw _.
  destruct (addr_groups g z Hw) as (g0&g1&g2&g3&g4&g5&g6&g7& -> &H).
  assert (addr128 (Addr6 [g0;g1;g2;g3;g4;g5;g6;g7] z) / 2 ^ 32 =
          ((((g0 * 65536 + g1) * 65536 + g2) * 65536 + g3) * 65536 + g4) * 65536 + g5) as ->.
  { cbn. eucl. }
  transitivity (g0 = 0 /\ g1 = 0 /\ g2 = 0 /\ g3 = 0 /\ g4 = 0 /\ g5 = 65535); [|lia].
  split.
  - unfold Is4In6. repeat (case_match; try done). lia.
  - intros (-> & -> & -> & -> & -> & ->). done.
Qed.

Lemma addr128_Unmap a : addr_wf a -> addr128 (Unmap a) = addr128 a.
Proof.
  destruct a as [b|g z]; [done|]. intros Hw.
  destruct (addr_groups g z Hw) as (g0&g1&g2&g3&g4&g5&g6&g7& -> &H).
  unfold Unmap. repeat (case_match; try done). cbn. eucl.
Qed.

Lemma Unmap_is4 a : is4 (Unmap a) = is4 a || Is4In6 a.
Proof. destruct a as [b|g z]; [done|]. unfold Unmap, Is4In6. repeat (case_match; try done). Qed.

(** ** Prefixes *)

Definition prefix_wf (p : Prefix) : Prop :=
  addr_wf (pfx_Addr p) /\ 0 <= pfx_Bits p <= BitLen (pfx_Addr p).

(** The bits of the address that a prefix leaves free. *)
Definition free_bits (p : Prefix) : Z := BitLen (pfx_Addr p) - pfx_Bits p.

Lemma withoutZone_same a : addr128 (withoutZone a) = addr128 a /\ is4 (withoutZone a) = is4 a /\
  BitLen (withoutZone a) = BitLen a /\ (addr_wf a -> addr_wf (withoutZone a)).
Proof. by destruct a. Qed.

Lemma PrefixFrom_wf a bits : addr_wf a -> 0 <= bits <= BitLen a ->
  prefix_wf (PrefixFrom a bits) /\ addr128 (pfx_Addr (PrefixFrom a bits)) = addr128 a /\
  is4 (pfx_Addr (PrefixFrom a bits)) = is4 a /\ pfx_Bits (PrefixFrom a bits) = bits.
Proof.
  intros Hw Hb. unfold PrefixFrom, prefix_wf. cbn. destruct (withoutZone_same a) as (-> & -> & -> & Hz).
  replace ((0 <=? bits) && (bits <=? BitLen a)) with true; [by auto|]. symmetry. apply andb_true_intro. lia.
Qed.

Lemma Prefix_Contains_top p a : prefix_wf p -> addr_wf a -> zone a = "" ->
  Prefix_Contains p a = true <->
    is4 (pfx_Addr p) = is4 a /\ Z.shiftr (addr128 (pfx_Addr p)) (free_bits p) = Z.shiftr (addr128 a) (free_bits p).
Proof.
  intros [Hp Hb] Ha Hz. unfold Prefix_Contains, free_bits. replace (pfx_Bits p <? 0) with false by lia.
  destruct p as [[b|g z] bits], a as [b'|g' z']; cbn -[Z.pow Z.mul] in *; try (split; [done|by intros []]).
  - rewrite lxor_top by lia. assert (forall n, Z.shiftr (65535 * 2 ^ 32 + n) (32 - bits) =
      65535 * 2 ^ bits + Z.shiftr n (32 - bits)) as Ht.
    { intros n. rewrite !Z.shiftr_div_pow2 by lia. replace (2 ^ 32) with (2 ^ bits * 2 ^ (32 - bits)).
      - rewrite Z.mul_assoc, Z.div_add_l; [done|]. apply Z.pow_nonzero; lia.
      - rewrite <- Z.pow_add_r by lia. f_equal. lia. }
    rewrite !Ht. intuition lia.
  - subst z'. rewrite lxor_top by lia. intuition.
Qed.

Lemma mask_top width bits v : bits <= width ->
  Z.shiftr (mask width bits v) (width - bits) = Z.shiftr v (width - bits) /\
  mask width bits v = Z.shiftr v (width - bits) * 2 ^ (width - bits).
Proof.
  intros Hb. unfold mask. rewrite Z.shiftr_shiftl_l, Z.sub_diag, Z.shiftl_0_r by lia.
  split; [done|]. apply Z.shiftl_mul_pow2. lia.
Qed.

Lemma mask_bound width bits v : 0 <= bits <= width -> 0 <= v < 2 ^ width -> 0 <= mask width bits v < 2 ^ width.
Proof.
  intros Hb Hv. destruct (mask_top width bits v) as [_ ->]; [lia|]. rewrite Z.shiftr_div_pow2 by lia.
  assert (0 < 2 ^ (width - bits)) by (apply Z.pow_pos_nonneg; lia).
  pose proof (Z.div_pos v (2 ^ (width - bits))). pose proof (Z.mul_div_le v (2 ^ (width - bits))). nia.
Qed.

(** Masking keeps the first bits and clears the free ones. *)
Lemma Masked_spec p : prefix_wf p ->
  prefix_wf (Masked p) /\ is4 (pfx_Addr (Masked p)) = is4 (pfx_Addr p) /\ pfx_Bits (Masked p) = pfx_Bits p /\
  Z.shiftr (addr128 (pfx_Addr (Masked p))) (free_bits p) = Z.shiftr (addr128 (pfx_Addr p)) (free_bits p) /\
  (is4 (pfx_Addr p) = false ->
   addr128 (pfx_Addr (Masked p)) = Z.shiftr (addr128 (pfx_Addr p)) (free_bits p) * 2 ^ free_bits p).
Proof.
  destruct p as [[b|g z] bits]; intros [[Hl Hb] Hbits]; cbn in Hbits; unfold Masked, free_bits; cbn [pfx_Addr pfx_Bits BitLen].
  - pose proof (number_bound 256 b ltac:(lia) Hb) as Hn. rewrite Hl in Hn. change (256 ^ Z.of_nat 4) with (2 ^ 32) in Hn.
    pose proof (mask_bound 32 bits (number 256 b) Hbits Hn) as Hm. pose proof (mask_top 32 bits (number 256 b)) as [Ht _]; [lia|].
    destruct (digits_below 256 4 (mask 32 bits (number 256 b)) ltac:(lia)) as [Hdl Hdb].
    destruct (PrefixFrom_wf (Addr4 (digits 256 4 (mask 32 bits (number 256 b)))) bits) as (Hw & -> & -> & ->); [by split|done|].
    split_and!; [done..| |done]. cbn [addr128]. rewrite number_digits by lia.
    change (256 ^ Z.of_nat 4) with (2 ^ 32). rewrite Z.mod_small by done.
    rewrite !Z.shiftr_div_pow2 in * by lia. replace (2 ^ 32) with (2 ^ bits * 2 ^ (32 - bits)).
    + rewrite Z.mul_assoc, !Z.div_add_l by (apply Z.pow_nonzero; lia). by rewrite Ht.
    + rewrite <- Z.pow_add_r by lia. f_equal. lia.
  - pose proof (number_bound 65536 g ltac:(lia) Hb) as Hn. rewrite Hl in Hn. change (65536 ^ Z.of_nat 8) with (2 ^ 128) in Hn.
    pose proof (mask_bound 128 bits (number 65536 g) Hbits Hn) as Hm. pose proof (mask_top 128 bits (number 65536 g)) as [Ht Ht']; [lia|].
    destruct (digits_below 65536 8 (mask 128 bits (number 65536 g)) ltac:(lia)) as [Hdl Hdb].
    destruct (PrefixFrom_wf (Addr6 (digits 65536 8 (mask 128 bits (number 65536 g))) z) bits) as (Hw & -> & -> & ->); [by split|done|].
    cbn [addr128]. rewrite number_digits by lia.
    change (65536 ^ Z.of_nat 8) with (2 ^ 128). rewrite Z.mod_small by done. split_and!; done.
Qed.
