(* ===== verification/ClientIP.v ===== *)
(** * The client address (auth/clientip.go)

    An [http.Header] is the list of its lines, keys in canonical form. *)

From S2P Require Import Prelude GoStrings GoNetip.

Definition Header : Type := list (string * string).

(** [header.Values(key)] and [header.Get(key)] *)
Definition header_Values (h : Header) (key : string) : list string :=
  (filter (fun kv => kv.1 = key) h).*2.
Definition header_Get (h : Header) (key : string) : string :=
  match header_Values h key with v :: _ => v | [] => "" end.

Definition unknownClientIP : string := "unknown".

Definition parseAddr (s : string) : option Addr :=
  let s := TrimSpace s in
  match ParseAddrPort s with
  | Some (a, _) => Some (Unmap a)
  | None =>
      match ParseAddr s with
      | Some a => Some (Unmap a)
      | None => None
      end
  end.

Definition trusted (trustedProxies : list Prefix) (addr : Addr) : bool :=
  existsb (fun p => Prefix_Contains p addr) trustedProxies.

Definition forwardedFor (header : Header) : list string :=
  flat_map (fun line =>
    filter (fun hop => hop <> "") (TrimSpace <$> Split line ","))
    (header_Values header "X-Forwarded-For").

(** The loop over the hops, from the last; [addr] is the best so far. *)
Fixpoint walk_hops (trustedProxies : list Prefix) (addr : Addr) (hops_rev : list string) : string :=
  match hops_rev with
  | [] => Addr_String addr
  | hop :: hops =>
      match parseAddr hop with
      | None => Addr_String addr
      | Some addr =>
          if negb (trusted trustedProxies addr) then Addr_String addr
          else walk_hops trustedProxies addr hops
      end
  end.

Definition clientIP (trustedProxies : list Prefix) (peer : string) (header : Header) : string :=
  match parseAddr peer with
  | None => unknownClientIP
  | Some addr =>
      if negb (trusted trustedProxies addr) then Addr_String addr
      else
        match forwardedFor header with
        | [] =>
            match parseAddr (header_Get header "X-Real-IP") with
            | Some real => Addr_String real
            | None => Addr_String addr
            end
        | hops => walk_hops trustedProxies addr (reverse hops)
        end
  end.

(** ** Which address is reported *)

Section reported.
Context (tp : list Prefix).






End reported.

(** The client's claim to the left of the hop its proxy added does not count. *)
Example clientIP_claim :
  clientIP [mkPrefix (Addr4 [10; 0; 0; 0]) 8] "10.0.0.2:4000"
    [("X-Forwarded-For", "6.6.6.6, 203.0.113.9"); ("X-Forwarded-For", "10.1.1.1")] = "203.0.113.9".
Proof. vm_compute. reflexivity. Qed.
