(* ===== verification/GoHttp.v ===== *)
(** * net/http: requests, responses and the multiplexer

    What the program uses of [http.ServeMux]: patterns with an optional method
    and a path of literal segments, or the subtree below one ([parsePattern]); the
    cleaning of paths, the redirects, the methods of a path and the refusals
    ([findHandler], [ServeHTTP]).  A request's URL is kept as the escaped path
    that was sent; [URL_Path] is what [r.URL.Path] holds. *)

From S2P Require Import Prelude GoStrings GoEncoding Ports ClientIP.

(** ** Requests and responses *)

(** An [*http.Request] as a server has it. *)
Record serverRequest := mkServerRequest {
  hq_Method : string;
  hq_Host : string;
  hq_EscapedPath : string;   (* r.URL.EscapedPath() *)
  hq_Header : Header;
  hq_RemoteAddr : string;
  hq_Body : string
}.

(** What a handler function leaves in its [http.ResponseWriter]; a header that is
    set again replaces the earlier value. *)
Record response := mkResponse {
  rs_Status : Z;
  rs_Header : list (string * string);
  rs_Body : string
}.

Definition http_Handler : Type := serverRequest -> prog response.

Definition header_Set (h : list (string * string)) (key value : string) : list (string * string) :=
  filter (fun kv => kv.1 <> key) h ++ [(key, value)].

(** [http.Error] on headers set so far. *)
Definition http_Error (h : list (string * string)) (msg : string) (code : Z) : response :=
  mkResponse code
    (header_Set (header_Set (filter (fun kv => kv.1 <> "Content-Length") h)
       "Content-Type" "text/plain; charset=utf-8") "X-Content-Type-Options" "nosniff")
    (msg +:+ String (ascii_of_nat 10) "").

Definition StatusOK : Z := 200.
Definition StatusBadRequest : Z := 400.
Definition StatusUnauthorized : Z := 401.
Definition StatusNotFound : Z := 404.
Definition StatusMethodNotAllowed : Z := 405.
Definition StatusInternalServerError : Z := 500.
Definition StatusServiceUnavailable : Z := 503.

(** [http.NotFound] *)
Definition http_NotFound : response := http_Error [] "404 page not found" StatusNotFound.

(** ** URLs *)

(** [url.unescape] of a path or of a segment of one. *)
Fixpoint unescape (s : string) : option string :=
  match s with
  | EmptyString => Some EmptyString
  | String c s' =>
      if Ascii.eqb c "%" then
        match s' with
        | String a (String b rest) =>
            x ← hex_val a; y ← hex_val b; t ← unescape rest; Some (String (bytechr (16 * x + y)) t)
        | _ => None
        end
      else t ← unescape s'; Some (String c t)
  end.

(** [r.URL.Path]; a request whose path does not unescape reaches no handler. *)
Definition URL_Path (r : serverRequest) : string := default "" (unescape (hq_EscapedPath r)).

(** [pathUnescape] of the multiplexer *)
Definition pathUnescape (s : string) : string := default s (unescape s).

Definition HasSlashSuffix (s : string) : bool :=
  match last (String.list_ascii_of_string s) with Some c => Ascii.eqb c "/" | None => false end.

(** [path.Clean] of a rooted path: empty and [.] elements go, [..] takes the
    element before it along. *)
Definition clean_step (out : list string) (elem : string) : list string :=
  if bool_decide (elem = "") || bool_decide (elem = ".") then out
  else if bool_decide (elem = "..") then removelast out
  else out ++ [elem].
Definition path_Clean (p : string) : string := "/" +:+ Join (foldl clean_step [] (Split p "/")) "/".

Definition cleanPath (p : string) : string :=
  if bool_decide (p = "") then "/"
  else
    let p := if HasPrefix p "/" then p else "/" +:+ p in
    let np := path_Clean p in
    if HasSlashSuffix p && negb (bool_decide (np = "/")) then np +:+ "/" else np.

(** ** The multiplexer *)

(** The segments of a path, each after its slash. *)
Definition path_segments (p : string) : list string := tail (Split p "/").

(** A pattern: a method or none, literal segments, and whether everything below
    them matches. *)
Record pattern := mkPattern {
  pt_Method : string;
  pt_Segments : list string;
  pt_Multi : bool
}.

(** A pattern without host and wildcards; it ends in a slash for a subtree. *)
Definition parsePattern (s : string) : pattern :=
  let '(method, path) := match Cut s " " with (m, rest, true) => (m, rest) | (rest, _, false) => ("", rest) end in
  let segs := path_segments path in
  if bool_decide (last segs = Some "") then mkPattern method (removelast segs) true
  else mkPattern method segs false.

(** The literals against the segments of an escaped path; the segments left. *)
Fixpoint match_literals (literals segs : list string) : option (list string) :=
  match literals, segs with
  | [], _ => Some segs
  | l :: literals, x :: segs =>
      if bool_decide (pathUnescape x = l) then match_literals literals segs else None
  | _ :: _, [] => None
  end.

Definition match_path (pt : pattern) (path : string) : bool :=
  match match_literals (pt_Segments pt) (path_segments path) with
  | Some [] => negb (pt_Multi pt)
  | Some (_ :: _) => pt_Multi pt
  | None => false
  end.

(** A pattern for GET also takes HEAD. *)
Definition match_method (pt : pattern) (method : string) : bool :=
  bool_decide (pt_Method pt = "") || bool_decide (pt_Method pt = method)
  || (bool_decide (pt_Method pt = "GET") && bool_decide (method = "HEAD")).

(** The match used up the path: with a subtree, the path is its root. *)
Definition exactMatch (pt : pattern) (path : string) : bool :=
  if pt_Multi pt
  then HasSlashSuffix path && bool_decide (length (path_segments path) = S (length (pt_Segments pt)))
  else true.

Section mux.
Context {H : Type}.

(** The registered patterns; no two of those the program registers match one
    request, so that none has precedence. *)
Definition ServeMux : Type := list (pattern * H).

Definition mux_match (mux : ServeMux) (method path : string) : option (pattern * H) :=
  snd <$> list_find (fun ph => match_method ph.1 method && match_path ph.1 path = true) mux.

(** The handler's entry, or the path to redirect to; [slash] tells whether a
    missing trailing slash is to be made up for, and on which path. *)
Definition matchOrRedirect (mux : ServeMux) (method path : string) (urlPath : string)
  : option (pattern * H) + string :=
  let n := mux_match mux method path in
  let exact := match n with Some (pt, _) => exactMatch pt path | None => false end in
  if negb exact && negb (HasSlashSuffix path) && negb (bool_decide (path = "")) then
    match mux_match mux method (path +:+ "/") with
    | Some (pt, _) => if exactMatch pt (path +:+ "/") then inr (cleanPath urlPath +:+ "/") else inl n
    | None => inl n
    end
  else inl n.

(** The methods of the patterns that match the path, with or without a slash
    after it, sorted. *)
Definition matchingMethods (mux : ServeMux) (path : string) : list string :=
  let matches (ph : pattern * H) := negb (bool_decide (pt_Method ph.1 = "")) &&
    (match_path ph.1 path || (negb (HasSlashSuffix path) && match_path ph.1 (path +:+ "/"))) in
  let ms := (fun ph => pt_Method ph.1) <$> filter (fun ph => matches ph = true) mux in
  merge_sort String.le (remove_dups (ms ++ if bool_decide ("GET" ∈ ms) then ["HEAD"] else [])).

Inductive found :=
| Handled (h : H)
| RedirectTo (path : string)
| NotAllowed (methods : list string)
| NotFound.

Definition findHandler (mux : ServeMux) (r : serverRequest) : found :=
  let escaped := hq_EscapedPath r in
  let connect := bool_decide (hq_Method r = "CONNECT") in
  let path := if connect then escaped else cleanPath escaped in
  match matchOrRedirect mux (hq_Method r) path (URL_Path r) with
  | inr p => RedirectTo p
  | inl n =>
      if bool_decide (path <> escaped) then RedirectTo path
      else
        match n with
        | Some (_, h) => Handled h
        | None => match matchingMethods mux path with [] => NotFound | ms => NotAllowed ms end
        end
  end.
End mux.
Arguments ServeMux H : clear implicits.
Arguments found H : clear implicits.

(** What the server answers: a response, or a redirect to a path, with the query
    the request came with. *)
Inductive served :=
| Wrote (w : response)
| Redirected (path : string).

Definition ServeHTTP (mux : ServeMux http_Handler) (r : serverRequest) : prog served :=
  (if bool_decide (hq_EscapedPath r = "*") then
     Ret (Wrote (mkResponse StatusBadRequest [("Connection", "close")] ""))
   else
     match findHandler mux r with
     | Handled h => let* w := h r in Ret (Wrote w)
     | RedirectTo p => Ret (Redirected p)
     | NotAllowed ms => Ret (Wrote (http_Error [("Allow", Join ms ", ")] "Method Not Allowed" StatusMethodNotAllowed))
     | NotFound => Ret (Wrote http_NotFound)
     end)%prog.
