(* ===== verification/Handler.v ===== *)
(** * The RPC handler and the audit log (auth/handler.go, auth/audit.go)

    Requests and responses of the connect library: a request carries a message,
    the peer's address and headers; a handler answers a message with headers, or
    an error with a code, an error value and headers.  A [Set-Cookie] header is
    kept as the cookie it renders. *)

From S2P Require Import Prelude GoStrings GoTime GoEncoding Errors Entity Ports Contract Validation Token Interfaces Service OAuth Wallet GoNetip ClientIP.

(** ** Connect *)

Record request (M : Type) := mkRequest {
  rq_Msg : M;
  rq_Peer : string;
  rq_Header : Header
}.
Arguments mkRequest {M} _ _ _.
Arguments rq_Msg {M} _.
Arguments rq_Peer {M} _.
Arguments rq_Header {M} _.

Inductive Code :=
| CodeInvalidArgument | CodeNotFound | CodeAlreadyExists | CodePermissionDenied
| CodeResourceExhausted | CodeFailedPrecondition | CodeUnimplemented | CodeInternal
| CodeUnauthenticated.

(** [http.SameSite] and [http.Cookie] *)
Inductive SameSite := SameSiteDefaultMode | SameSiteLaxMode | SameSiteStrictMode | SameSiteNoneMode.

Record Cookie := mkCookie {
  ck_Name : string;
  ck_Value : string;
  ck_Domain : string;
  ck_Path : string;
  ck_Expires : time;
  ck_MaxAge : Z;
  ck_Secure : bool;
  ck_HttpOnly : bool;
  ck_SameSite : SameSite
}.

(** A header line set on a response. *)
Inductive outline :=
| HSet (key value : string)
| HAddCookie (c : Cookie).

Record connectError := mkConnectError {
  cerr_Code : Code;
  cerr_Err : error;
  cerr_Meta : list outline
}.

Definition NewError (code : Code) (err : error) : connectError := mkConnectError code err [].

Inductive answer (M : Type) :=
| Answer (msg : M) (header : list outline)
| Refuse (e : connectError).
Arguments Answer {M} _ _.
Arguments Refuse {M} _.

(** ** The handler *)

Definition AccessTokenCookie : string := "psina_access".
Definition RefreshTokenCookie : string := "psina_refresh".

Record CookieConfig := mkCookieConfig {
  cc_Enabled : bool;
  cc_Domain : string;
  cc_Path : string;
  cc_Secure : bool;
  cc_SameSite : SameSite
}.

Record Handler := mkHandler {
  h_service : Service;
  h_cookieConfig : CookieConfig;
  h_trustedProxies : list Prefix
}.

Definition HandlerOption : Type := Handler -> Handler.
Definition WithCookieConfig (config : CookieConfig) : HandlerOption := fun h =>
  mkHandler (h_service h) config (h_trustedProxies h).
Definition WithTrustedProxies (prefixes : list Prefix) : HandlerOption := fun h =>
  mkHandler (h_service h) (h_cookieConfig h) prefixes.

Definition NewHandler (service : Service) (opts : list HandlerOption) : Handler :=
  foldl (fun h opt => opt h)
    (mkHandler service (mkCookieConfig false "" "" false SameSiteDefaultMode) []) opts.

(** ** Audit records *)

Definition auditEventRegister : string := "register".
Definition auditEventLogin : string := "login".
Definition auditEventOAuthSignIn : string := "oauth.sign_in".
Definition auditEventOAuthLink : string := "oauth.link".
Definition auditEventWalletSignIn : string := "wallet.sign_in".
Definition auditEventUserCreated : string := "user.created".
Definition auditMethodOAuth : string := "oauth".
Definition auditMethodWallet : string := "wallet".
Definition auditResultSuccess : string := "success".
Definition auditResultFailure : string := "failure".
Definition reasonInvalidRequest : string := "invalid_request".
Definition reasonInternalError : string := "internal_error".
Definition maxAuditValue : nat := 256.

Abbreviation attr := (string * attrval)%type (only parsing).

Definition clientAttr (key value : string) : attr :=
  (key, AString (if Z.of_nat maxAuditValue <? Z.of_nat (String.length value)
                 then str_take maxAuditValue value else value)).

Definition accountAttrs (err : error) : list attr :=
  match failedAccount err with
  | Some ac => [("user_id", AString (ac_userID ac))]
  | None => []
  end.

Section audit.
Context {M : Type} (h : Handler) (req : request M).

Definition writeAudit (lvl : level) (event result : string) (attrs : list attr) : prog unit :=
  let all := [("audit", ABool true); ("event", AString event); ("result", AString result);
              ("ip", AString (clientIP (h_trustedProxies h) (rq_Peer req) (rq_Header req)));
              clientAttr "user_agent" (header_Get (rq_Header req) "User-Agent")] in
  log (mkLog true lvl ("audit " +:+ event) (all ++ attrs)).

Definition auditSuccess (event userID : string) (attrs : list attr) : prog unit :=
  writeAudit LevelInfo event auditResultSuccess (attrs ++ [("user_id", AString userID)]).

Definition auditFailure (event reason : string) (attrs : list attr) : prog unit :=
  writeAudit LevelWarn event auditResultFailure (attrs ++ [("reason", AString reason)]).

Definition auditAccountChange (method : string) (change : accountChange) (a : attr) : prog unit :=
  if ac_created change then
    auditSuccess auditEventUserCreated (ac_userID change) [("method", AString method); a]
  else if ac_linked change then
    auditSuccess auditEventOAuthLink (ac_userID change) [a]
  else Ret tt.

Definition auditSignIn (event method : string) (change : accountChange) (a : attr) : prog unit :=
  (auditAccountChange method change a ;;;
   auditSuccess event (ac_userID change) [a; ("new_user", ABool (ac_created change))])%prog.

Definition auditSignInFailure (event method reason : string) (err : error) (a : attr) : prog unit :=
  (match failedAccount err with
   | Some ac =>
       auditAccountChange method ac a ;;;
       auditFailure event reason [a; ("user_id", AString (ac_userID ac))]
   | None => auditFailure event reason [a]
   end)%prog.
End audit.

Definition registerFailureReason (err : error) : string :=
  if errors_Is err auth.ErrUserExists then "user_exists"
  else if errors_Is err auth.ErrInvalidEmail then "invalid_email"
  else if errors_Is err auth.ErrPasswordTooShort then "password_too_short"
  else if errors_Is err auth.ErrPasswordTooLong then "password_too_long"
  else reasonInternalError.

Definition loginFailure (err : error) : string * list attr :=
  match as_credentials err with
  | Some (reason, uid) =>
      let reason := if bool_decide (reason = "") then ReasonInvalidCredentials else reason in
      if bool_decide (uid = "") then (reason, []) else (reason, [("user_id", AString uid)])
  | None =>
      if errors_Is err auth.ErrInvalidCredentials then (ReasonInvalidCredentials, [])
      else (reasonInternalError, accountAttrs err)
  end.

Definition oauthFailureReason (err : error) : string :=
  if errors_Is err auth.ErrOAuthDisabled then "oauth_disabled"
  else if errors_Is err auth.ErrOAuthProviderUnknown then "unknown_provider"
  else if errors_Is err oauth.ErrRedirectURINotAllowed then "redirect_uri_not_allowed"
  else if errors_Is err auth.ErrOAuthStateInvalid then "invalid_state"
  else if errors_Is err auth.ErrOAuthExchangeFailed then "exchange_failed"
  else if errors_Is err auth.ErrOAuthEmailRequired then "email_missing"
  else if errors_Is err auth.ErrOAuthEmailUnverified then "email_unverified"
  else if errors_Is err auth.ErrOAuthLinkDisabled then "link_disabled"
  else if errors_Is err auth.ErrOAuthAccountHasPassword then "account_has_password"
  else reasonInternalError.

Definition walletFailureReason (err : error) : string :=
  if errors_Is err auth.ErrWalletDisabled then "wallet_disabled"
  else if errors_Is err auth.ErrWalletChainUnsupported then "unsupported_chain"
  else if errors_Is err auth.ErrWalletAddressInvalid then "invalid_address"
  else if errors_Is err auth.ErrWalletChallengeInvalid then "invalid_challenge"
  else reasonInternalError.

(** ** Errors for clients *)

Definition internalError (msg : string) (err : error) : prog connectError :=
  (log (mkLog false LevelError msg [("error", AError err)]) ;;;
   Ret (NewError CodeInternal (ENew "internal error")))%prog.

Definition verifyErrorToConnect (err : error) : prog connectError :=
  if errors_Is err auth.ErrInvalidCredentials
  then Ret (NewError CodeUnauthenticated (ENew "invalid token"))
  else internalError "verify failed" err.

Definition errOAuthStateOrCode : error := ENew "invalid oauth state or code".

Definition oauthErrorToConnect (err : error) : prog connectError :=
  (if errors_Is err auth.ErrOAuthDisabled then
     Ret (NewError CodeUnimplemented auth.ErrOAuthDisabled)
   else if errors_Is err auth.ErrOAuthProviderUnknown then
     Ret (NewError CodeInvalidArgument auth.ErrOAuthProviderUnknown)
   else if errors_Is err oauth.ErrRedirectURINotAllowed then
     Ret (NewError CodePermissionDenied oauth.ErrRedirectURINotAllowed)
   else if errors_Is err auth.ErrOAuthStateInvalid then
     Ret (NewError CodeUnauthenticated errOAuthStateOrCode)
   else if errors_Is err auth.ErrOAuthExchangeFailed then
     log (mkLog false LevelWarn "oauth code exchange failed" [("error", AError err)]) ;;;
     Ret (NewError CodeUnauthenticated errOAuthStateOrCode)
   else if errors_Is err auth.ErrOAuthEmailRequired then
     Ret (NewError CodeFailedPrecondition auth.ErrOAuthEmailRequired)
   else if errors_Is err auth.ErrOAuthEmailUnverified then
     Ret (NewError CodeFailedPrecondition auth.ErrOAuthEmailUnverified)
   else if errors_Is err auth.ErrOAuthLinkDisabled then
     Ret (NewError CodeFailedPrecondition auth.ErrOAuthLinkDisabled)
   else if errors_Is err auth.ErrOAuthAccountHasPassword then
     Ret (NewError CodeFailedPrecondition auth.ErrOAuthAccountHasPassword)
   else internalError "oauth sign-in failed" err)%prog.

Definition walletErrorToConnect (err : error) : prog connectError :=
  if errors_Is err auth.ErrWalletDisabled then
    Ret (NewError CodeUnimplemented auth.ErrWalletDisabled)
  else if errors_Is err auth.ErrWalletChainUnsupported then
    Ret (NewError CodeInvalidArgument auth.ErrWalletChainUnsupported)
  else if errors_Is err auth.ErrWalletAddressInvalid then
    Ret (NewError CodeInvalidArgument auth.ErrWalletAddressInvalid)
  else if errors_Is err auth.ErrWalletChallengeInvalid then
    Ret (NewError CodeUnauthenticated auth.ErrWalletChallengeInvalid)
  else internalError "wallet sign-in failed" err.

Definition patErrorToConnect (op : string) (err : error) : prog connectError :=
  if errors_Is err auth.ErrPATDisabled then Ret (NewError CodeUnimplemented err)
  else if errors_Is err auth.ErrPATNameRequired || errors_Is err auth.ErrPATNameTooLong
          || errors_Is err auth.ErrPATExpiryInvalid then Ret (NewError CodeInvalidArgument err)
  else if errors_Is err auth.ErrPATNotFound then Ret (NewError CodeNotFound (ENew "token not found"))
  else if errors_Is err auth.ErrPATLimitReached then Ret (NewError CodeResourceExhausted err)
  else internalError (op +:+ " failed") err.

(** [x, err := p; if err != nil { return nil, <the connect error> }; q] *)
Definition orRefuse {A M} (p : prog (res A)) (h : error -> prog connectError) (k : A -> prog (answer M))
  : prog (answer M) :=
  (let* r := p in
   match r with
   | Ok x => k x
   | Err err => let* e := h err in Ret (Refuse e)
   end)%prog.

(** ** Cookies *)

(** The host names above [host], down to two labels. *)
Definition parentDomains (host : string) : list string :=
  let labels := Split (TrimPrefix host ".") "." in
  (fun i => Join (drop i labels) ".") <$> seq 1 (length labels - 2).

(** A cookie of [config] under [domain]; every cookie is HttpOnly. *)
Definition tokenCookie (config : CookieConfig) (name value domain : string) (expires : time) (maxAge : Z)
  : Cookie :=
  mkCookie name value domain (cc_Path config) expires maxAge (cc_Secure config) true (cc_SameSite config).

Definition clearLegacyScopedCookies (config : CookieConfig) : list outline :=
  if bool_decide (cc_Domain config = "") then []
  else
    let scopes := "" :: parentDomains (cc_Domain config) in
    flat_map (fun name =>
      (fun domain => HAddCookie (tokenCookie config name "" domain (ofUnix 0) (-1))) <$> scopes)
      [AccessTokenCookie; RefreshTokenCookie].

Definition setTokenCookies (config : CookieConfig) (accessToken refreshToken : string)
  : prog (list outline) :=
  (let* now := time_Now in
   let accessCookie := tokenCookie config AccessTokenCookie accessToken (cc_Domain config)
                         (Add now AccessTokenTTL) (Seconds AccessTokenTTL) in
   let* now := time_Now in
   let refreshCookie := tokenCookie config RefreshTokenCookie refreshToken (cc_Domain config)
                          (Add now RefreshTokenTTL) (Seconds RefreshTokenTTL) in
   Ret (HAddCookie accessCookie :: HAddCookie refreshCookie :: clearLegacyScopedCookies config))%prog.

Definition clearTokenCookies (config : CookieConfig) : list outline :=
  HAddCookie (tokenCookie config AccessTokenCookie "" (cc_Domain config) (ofUnix 0) (-1)) ::
  HAddCookie (tokenCookie config RefreshTokenCookie "" (cc_Domain config) (ofUnix 0) (-1)) ::
  clearLegacyScopedCookies config.

Definition oauthBindingCookiePrefix : string := "psina_oauth_".
Definition oauthBindingCookieStateChars : nat := 8.
(** of the generated file authv1connect *)
Definition AuthServiceOAuthCallbackProcedure : string := "/auth.v1.AuthService/OAuthCallback".

(** [str_take] keeps a shorter string whole, as [min] does in the slice. *)
Definition oauthBindingCookieName (state : string) : string :=
  oauthBindingCookiePrefix +:+ str_take oauthBindingCookieStateChars state.

Definition bindingCookie (config : CookieConfig) (state value : string) (maxAge : Z) : Cookie :=
  mkCookie (oauthBindingCookieName state) value (cc_Domain config) AuthServiceOAuthCallbackProcedure
    zeroTime maxAge (cc_Secure config) true SameSiteLaxMode.

Definition setOAuthBindingCookie (config : CookieConfig) (state binding : string) (ttl : duration) : outline :=
  HAddCookie (bindingCookie config state binding (Seconds ttl)).
Definition clearOAuthBindingCookie (config : CookieConfig) (state : string) : outline :=
  HAddCookie (bindingCookie config state "" (-1)).

(** The first cookie of that name with a value. *)
Fixpoint find_cookie (cookies : list string) (name : string) : string :=
  match cookies with
  | [] => ""
  | cookie :: cookies =>
      let '(key, value, found) := Cut (TrimSpace cookie) "=" in
      if found && bool_decide (key = name) && negb (bool_decide (value = "")) then value
      else find_cookie cookies name
  end.

Definition getCookieFromHeader (header : Header) (name : string) : string :=
  let cookieHeader := header_Get header "Cookie" in
  if bool_decide (cookieHeader = "") then "" else find_cookie (Split cookieHeader ";") name.

(** ** Messages (auth.v1) *)

Record CredentialsRequest := mkCredentialsRequest { cr_Email : string; cr_Password : string }.
Record RegisterResponse := mkRegisterResponse {
  rr_UserId : string; rr_Email : string;
  rr_AccessToken : string; rr_RefreshToken : string; rr_ExpiresIn : Z
}.
(** LoginResponse and RefreshResponse *)
Record TokenResponse := mkTokenResponse {
  tr_AccessToken : string; tr_RefreshToken : string; tr_ExpiresIn : Z
}.
Record VerifyResponse := mkVerifyResponse {
  vr_UserId : string; vr_Email : string; vr_Roles : list string
}.
Record GetOAuthURLResponse := mkGetOAuthURLResponse {
  gr_Url : string; gr_State : string; gr_Binding : string
}.
Record OAuthCallbackMsg := mkOAuthCallbackMsg {
  om_Provider : string; om_Code : string; om_State : string; om_RedirectUri : string; om_Binding : string
}.
(** OAuthCallbackResponse and AuthenticateWalletResponse *)
Record SignInResponse := mkSignInResponse {
  sr_UserId : string; sr_Email : string;
  sr_AccessToken : string; sr_RefreshToken : string; sr_ExpiresIn : Z; sr_IsNewUser : bool
}.
Record GetChallengeResponse := mkGetChallengeResponse {
  gc_Nonce : string; gc_Message : string; gc_ExpiresAt : Z
}.
Record PATProto := mkPATProto {
  pp_Id : string; pp_Name : string; pp_Scopes : list string;
  pp_CreatedAt : Z; pp_ExpiresAt : Z; pp_LastUsedAt : Z
}.
Record CreatePATRequest := mkCreatePATRequest {
  cp_Name : string; cp_Scopes : list string; cp_ExpiresAt : Z
}.

Definition patToProto (pat : PersonalAccessToken) : PATProto :=
  mkPATProto (pat_ID pat) (pat_Name pat) (pat_Scopes pat) (Unix (pat_CreatedAt pat))
    (match pat_ExpiresAt pat with Some t => Unix t | None => 0 end)
    (match pat_LastUsedAt pat with Some t => Unix t | None => 0 end).

(** ** The endpoints *)

Section endpoints.
Context `{UnicodeTables} (h : Handler).
Implicit Type header : Header.

Definition cookies_on : bool := cc_Enabled (h_cookieConfig h).

(** The session cookies of a successful sign-in, if cookies are on. *)
Definition sessionCookies (tp : TokenPair) : prog (list outline) :=
  if cookies_on then setTokenCookies (h_cookieConfig h) (tp_AccessToken tp) (tp_RefreshToken tp)
  else Ret [].

Definition Handler_Register (req : request CredentialsRequest) : prog (answer RegisterResponse) :=
  (orRefuse (Service_Register (h_service h) (cr_Email (rq_Msg req)) (cr_Password (rq_Msg req)))
     (fun err =>
        auditFailure h req auditEventRegister (registerFailureReason err) (accountAttrs err) ;;;
        if errors_Is err auth.ErrUserExists then Ret (NewError CodeAlreadyExists err)
        else if errors_Is err auth.ErrInvalidEmail || errors_Is err auth.ErrPasswordTooShort
                || errors_Is err auth.ErrPasswordTooLong then Ret (NewError CodeInvalidArgument err)
        else internalError "register failed" err)
     (fun result =>
        auditSuccess h req auditEventRegister (ar_UserID result) [] ;;;
        let* cookies := sessionCookies (ar_TokenPair result) in
        Ret (Answer (mkRegisterResponse (ar_UserID result) (ar_Email result)
                       (tp_AccessToken (ar_TokenPair result)) (tp_RefreshToken (ar_TokenPair result))
                       (tp_ExpiresIn (ar_TokenPair result))) cookies)))%prog.

Definition tokenResponse (tp : TokenPair) : TokenResponse :=
  mkTokenResponse (tp_AccessToken tp) (tp_RefreshToken tp) (tp_ExpiresIn tp).

Definition Handler_Login (req : request CredentialsRequest) : prog (answer TokenResponse) :=
  (orRefuse (Service_Login (h_service h) (cr_Email (rq_Msg req)) (cr_Password (rq_Msg req)))
     (fun err =>
        let '(reason, attrs) := loginFailure err in
        auditFailure h req auditEventLogin reason attrs ;;;
        if errors_Is err auth.ErrInvalidCredentials
        then Ret (NewError CodeUnauthenticated (ENew "invalid credentials"))
        else internalError "login failed" err)
     (fun result =>
        auditSuccess h req auditEventLogin (ar_UserID result) [] ;;;
        let* cookies := sessionCookies (ar_TokenPair result) in
        Ret (Answer (tokenResponse (ar_TokenPair result)) cookies)))%prog.

(** The refresh token of a request: the body's, else the cookie's. *)
Definition requestToken (body : string) header : string :=
  if bool_decide (body = "") && cookies_on
  then getCookieFromHeader header RefreshTokenCookie else body.

Definition Handler_Refresh (req : request string) : prog (answer TokenResponse) :=
  (let refreshToken := requestToken (rq_Msg req) (rq_Header req) in
   if bool_decide (refreshToken = "") then
     Ret (Refuse (NewError CodeInvalidArgument (ENew "refresh token required")))
   else
     orRefuse (Service_Refresh (h_service h) refreshToken)
       (fun err =>
          match as_token_reuse err with
          | Some uid =>
              log (mkLog false LevelWarn "token reuse detected"
                     [("user_id", AString uid);
                      ("ip", AString (clientIP (h_trustedProxies h) (rq_Peer req) (rq_Header req)));
                      ("user_agent", AString (header_Get (rq_Header req) "User-Agent"))])
          | None => Ret tt
          end ;;;
          if errors_Is err auth.ErrInvalidCredentials
          then Ret (NewError CodeUnauthenticated (ENew "invalid refresh token"))
          else internalError "refresh failed" err)
       (fun tokenPair =>
          let* cookies := sessionCookies tokenPair in
          Ret (Answer (tokenResponse tokenPair) cookies)))%prog.

Definition Handler_Logout (req : request string) : prog (answer bool) :=
  (let refreshToken := requestToken (rq_Msg req) (rq_Header req) in
   let cookies := if cookies_on then clearTokenCookies (h_cookieConfig h) else [] in
   if negb (bool_decide (refreshToken = "")) then
     orRefuse (Service_Logout (h_service h) refreshToken) (internalError "logout failed")
       (fun _ => Ret (Answer true cookies))
   else Ret (Answer true cookies))%prog.

(** The access token of a request: the Bearer token, else the cookie's;
    [None] when the Authorization header is not a Bearer one. *)
Definition bearerToken header : option string :=
  let authz := header_Get header "Authorization" in
  let accessToken := TrimPrefix authz "Bearer " in
  if negb (bool_decide (authz = "")) && bool_decide (accessToken = authz) then None
  else Some (if bool_decide (accessToken = "") && cookies_on
             then getCookieFromHeader header AccessTokenCookie else accessToken).

Definition Handler_Verify (req : request unit) : prog (answer VerifyResponse) :=
  (match bearerToken (rq_Header req) with
   | None => Ret (Refuse (NewError CodeUnauthenticated (ENew "invalid authorization format")))
   | Some accessToken =>
       if bool_decide (accessToken = "") then
         Ret (Refuse (NewError CodeUnauthenticated (ENew "missing authorization")))
       else
         orRefuse (Service_Verify (h_service h) accessToken) verifyErrorToConnect
           (fun claims =>
              Ret (Answer (mkVerifyResponse (claims_UserID claims) (claims_Email claims) (claims_Roles claims))
                     ([HSet "X-User-Id" (claims_UserID claims); HSet "X-User-Email" (claims_Email claims)] ++
                      (if bool_decide (claims_Roles claims = []) then []
                       else [HSet "X-User-Roles" (Join (claims_Roles claims) ",")]))))
   end)%prog.

Definition Handler_GetOAuthURL (req : request (string * string)) : prog (answer GetOAuthURLResponse) :=
  (let '(provider, redirectUri) := rq_Msg req in
   if bool_decide (provider = "") || bool_decide (redirectUri = "") then
     Ret (Refuse (NewError CodeInvalidArgument (ENew "provider and redirect_uri are required")))
   else
     orRefuse (GetOAuthURL (h_service h) provider redirectUri) oauthErrorToConnect
       (fun result =>
          if cookies_on then
            Ret (Answer (mkGetOAuthURLResponse (our_URL result) (our_State result) "")
                   [setOAuthBindingCookie (h_cookieConfig h) (our_State result) (our_Binding result)
                      (oc_StateTTL (oauthConfig (h_service h)))])
          else Ret (Answer (mkGetOAuthURLResponse (our_URL result) (our_State result) (our_Binding result)) [])))%prog.

Definition Handler_OAuthCallback (req : request OAuthCallbackMsg) : prog (answer SignInResponse) :=
  (let msg := rq_Msg req in
   let provider := clientAttr "provider" (om_Provider msg) in
   if bool_decide (om_Provider msg = "") || bool_decide (om_RedirectUri msg = "") then
     auditFailure h req auditEventOAuthSignIn reasonInvalidRequest [provider] ;;;
     Ret (Refuse (NewError CodeInvalidArgument (ENew "provider and redirect_uri are required")))
   else
     let binding := if cookies_on
                    then getCookieFromHeader (rq_Header req) (oauthBindingCookieName (om_State msg))
                    else om_Binding msg in
     orRefuse (Service_OAuthCallback (h_service h)
                 (mkOAuthCallbackRequest (om_Provider msg) (om_Code msg) (om_State msg)
                    (om_RedirectUri msg) binding))
       (fun err =>
          auditSignInFailure h req auditEventOAuthSignIn auditMethodOAuth (oauthFailureReason err) err provider ;;;
          let* cerr := oauthErrorToConnect err in
          Ret (if cookies_on
               then mkConnectError (cerr_Code cerr) (cerr_Err cerr)
                      (cerr_Meta cerr ++ [clearOAuthBindingCookie (h_cookieConfig h) (om_State msg)])
               else cerr))
       (fun result =>
          let change := mkAccountChange (ores_UserID result) (ores_IsNewUser result) (ores_Linked result) in
          auditSignIn h req auditEventOAuthSignIn auditMethodOAuth change provider ;;;
          let* cookies := sessionCookies (ores_TokenPair result) in
          let tp := ores_TokenPair result in
          Ret (Answer (mkSignInResponse (ores_UserID result) (ores_Email result) (tp_AccessToken tp)
                         (tp_RefreshToken tp) (tp_ExpiresIn tp) (ores_IsNewUser result))
                 (if cookies_on
                  then clearOAuthBindingCookie (h_cookieConfig h) (om_State msg) :: cookies
                  else []))))%prog.

Definition Handler_GetChallenge (req : request (string * string)) : prog (answer GetChallengeResponse) :=
  (let '(chain, address) := rq_Msg req in
   if bool_decide (chain = "") || bool_decide (address = "") then
     Ret (Refuse (NewError CodeInvalidArgument (ENew "chain and address are required")))
   else
     orRefuse (Service_GetChallenge (h_service h) chain address) walletErrorToConnect
       (fun result =>
          Ret (Answer (mkGetChallengeResponse (wcr_Nonce result) (wcr_Message result)
                         (Unix (wcr_ExpiresAt result))) [])))%prog.

Definition Handler_AuthenticateWallet (req : request WalletAuthRequest) : prog (answer SignInResponse) :=
  (let msg := rq_Msg req in
   let chain := clientAttr "chain" (war_Chain msg) in
   if bool_decide (war_Chain msg = "") || bool_decide (war_Address msg = "") then
     auditFailure h req auditEventWalletSignIn reasonInvalidRequest [chain] ;;;
     Ret (Refuse (NewError CodeInvalidArgument (ENew "chain and address are required")))
   else
     orRefuse (Service_AuthenticateWallet (h_service h) msg)
       (fun err =>
          auditSignInFailure h req auditEventWalletSignIn auditMethodWallet (walletFailureReason err) err chain ;;;
          walletErrorToConnect err)
       (fun result =>
          auditSignIn h req auditEventWalletSignIn auditMethodWallet
            (mkAccountChange (wres_UserID result) (wres_IsNewUser result) false) chain ;;;
          let* cookies := sessionCookies (wres_TokenPair result) in
          let tp := wres_TokenPair result in
          Ret (Answer (mkSignInResponse (wres_UserID result) (wres_Email result) (tp_AccessToken tp)
                         (tp_RefreshToken tp) (tp_ExpiresIn tp) (wres_IsNewUser result)) cookies)))%prog.

(** The caller's user ID. *)
Definition authenticateSession header : prog (string + connectError) :=
  (match bearerToken header with
   | None => Ret (inr (NewError CodeUnauthenticated (ENew "missing or invalid authorization")))
   | Some accessToken =>
       if bool_decide (accessToken = "") then
         Ret (inr (NewError CodeUnauthenticated (ENew "missing or invalid authorization")))
       else if HasPrefix accessToken PATPrefix then
         Ret (inr (NewError CodePermissionDenied (ENew "personal access tokens cannot manage tokens")))
       else
         let* r := Service_Verify (h_service h) accessToken in
         match r with
         | Ok claims => Ret (inl (claims_UserID claims))
         | Err err => let* e := verifyErrorToConnect err in Ret (inr e)
         end
   end)%prog.

Definition Handler_CreatePAT (req : request CreatePATRequest) : prog (answer (string * PATProto)) :=
  (let* a := authenticateSession (rq_Header req) in
   match a with
   | inr e => Ret (Refuse e)
   | inl userID =>
       let msg := rq_Msg req in
       let expiresAt := if 0 <? cp_ExpiresAt msg then Some (ofUnix (cp_ExpiresAt msg)) else None in
       orRefuse (Service_CreatePAT (h_service h) userID (cp_Name msg) (cp_Scopes msg) expiresAt)
         (patErrorToConnect "create pat")
         (fun result => Ret (Answer (pr_Plaintext result, patToProto (pr_Token result)) []))
   end)%prog.

Definition Handler_ListPATs (req : request unit) : prog (answer (list PATProto)) :=
  (let* a := authenticateSession (rq_Header req) in
   match a with
   | inr e => Ret (Refuse e)
   | inl userID =>
       orRefuse (Service_ListPATs (h_service h) userID) (patErrorToConnect "list pats")
         (fun pats => Ret (Answer (patToProto <$> pats) []))
   end)%prog.

Definition Handler_RevokePAT `{UUIDLib} (req : request string) : prog (answer bool) :=
  (let* a := authenticateSession (rq_Header req) in
   match a with
   | inr e => Ret (Refuse e)
   | inl userID =>
       orRefuse (Service_RevokePAT (h_service h) userID (rq_Msg req)) (patErrorToConnect "revoke pat")
         (fun _ => Ret (Answer true []))
   end)%prog.
End endpoints.
