(* ===== verification/Rpc.v ===== *)
(** * The generated client and server of the API (api/auth/v1/authv1connect/auth.connect.go)

    connectrpc.com/connect and the protobuf runtime are parameters: what decodes a
    request and encodes an answer ([Connect]), with what their documentation
    promises ([ConnectLaws]).  The generated file ties the service's methods to
    URLs: the names of the procedures, a client that calls each procedure and a
    handler that dispatches on the path. *)

From S2P Require Import Prelude GoStrings Errors Ports Contract Service ClientIP OAuth Wallet GoHttp Handler.

(** ** Equality of programs *)

(** Programs no run tells apart, on any store and in any environment. *)
#[export] Instance prog_equiv {A} : Equiv (prog A) := fun p q =>
  forall (S : Type) (impl : StoreImpl S) o (w : world S), run o p w = run o q w.

#[export] Instance prog_equivalence {A} : Equivalence (≡@{prog A}).
Proof.
  split.
  - intros p S impl o w. done.
  - intros p q Hpq S impl o w. by rewrite Hpq.
  - intros p q r Hpq Hqr S impl o w. by rewrite Hpq.
Qed.

#[export] Instance bind_proper {A B} :
  Proper ((≡) ==> pointwise_relation A (≡) ==> (≡)) (@bind A B).
Proof.
  intros p q Hpq f g Hfg S impl o w. rewrite !run_bind, Hpq.
  destruct (run o q w) as [a w1]. apply Hfg.
Qed.

Lemma bind_assoc {A B C} (p : prog A) (f : A -> prog B) (g : B -> prog C) :
  bind (bind p f) g ≡ bind p (fun a => bind (f a) g).
Proof.
  intros S impl o w. rewrite !run_bind. destruct (run o p w) as [a w1]. by rewrite run_bind.
Qed.

(** ** Connect *)

(** What a client's call returns: the message, or the code and the text of an
    error. *)
Inductive reply (M : Type) :=
| Received (msg : M)
| Refused (code : Code) (text : string)
| Failed (err : error).
Arguments Received {M} msg.
Arguments Refused {M} code text.
Arguments Failed {M} err.

(** [connect.HTTPClient]: [Do]. *)
Definition HTTPClient : Type := serverRequest -> prog (res response).

(** A [Message M] is a generated message type; values of it that the runtime
    cannot write, such as a string that is not UTF-8, are not [encodable]. *)
Class Connect := {
  Message : Type -> Type;
  encodable : forall {M}, Message M -> M -> Prop;
  error_text : error -> string;
  NewUnaryHandler : forall {Req Res}, Message Req -> Message Res ->
    string -> (request Req -> prog (answer Res)) -> http_Handler;
  Client : Type -> Type -> Type;
  NewClient : forall {Req Res}, Message Req -> Message Res -> HTTPClient -> string -> Client Req Res;
  CallUnary : forall {Req Res}, Client Req Res -> request Req -> prog (reply Res)
}.

(** What the client of an implementation is told. *)
Definition reply_of `{Connect} {M} (a : answer M) : reply M :=
  match a with
  | Answer msg _ => Received msg
  | Refuse e => Refused (cerr_Code e) (error_text (cerr_Err e))
  end.

Definition encodable_answer `{Connect} {M} (m : Message M) (a : answer M) : Prop :=
  match a with Answer msg _ => encodable m msg | Refuse _ => True end.

(** A host with a port, and the path of a procedure: texts a URL holds as they are. *)
Definition url_byte (c : ascii) : bool :=
  let b := byteval c in
  (48 <=? b) && (b <=? 57) || (65 <=? b) && (b <=? 90) || (97 <=? b) && (b <=? 122) || (b =? 45) || (b =? 46).
Definition plain_host (s : string) : bool :=
  negb (bool_decide (s = "")) && forallb (fun c => url_byte c || (byteval c =? 58)) (String.list_ascii_of_string s).
Definition plain_path (s : string) : bool :=
  HasPrefix s "/" && forallb (fun c => url_byte c || (byteval c =? 47)) (String.list_ascii_of_string s).

(** The request as the server of the connection from [addr] has it. *)
Definition arrive (addr : string) (r : serverRequest) : serverRequest :=
  mkServerRequest (hq_Method r) (hq_Host r) (hq_EscapedPath r) (hq_Header r) addr (hq_Body r).

(** The headers of a request the protocol leaves to the application, of those
    that the service reads. *)
Definition application_headers : list string := ["Authorization"; "Cookie"; "X-Forwarded-For"; "X-Real-IP"].
Definition carries (hdr hdr' : Header) : Prop :=
  forall k, k ∈ application_headers -> header_Values hdr k = header_Values hdr' k.

(** A handler answers without its implementation (the wrong method, a body that
    does not decode) or calls it once and encodes its answer; the implementation
    has the address of the connection and the headers of the HTTP request.  A
    client posts to the URL it was made with; what the handler of that procedure
    does with its request is to call the implementation with its message, and the
    client reads the answer that was encoded. *)
Class ConnectLaws `{Connect} : Prop := {
  unary_decodes {Req Res} (mq : Message Req) (ms : Message Res) procedure r :
    (exists w, forall fn, NewUnaryHandler mq ms procedure fn r = Ret w) \/
    (exists req send, rq_Peer req = hq_RemoteAddr r /\ rq_Header req = hq_Header r /\
       forall fn, NewUnaryHandler mq ms procedure fn r = (let* a := fn req in Ret (send a))%prog);
  unary_call {Req Res} (mq : Message Req) (ms : Message Res) host procedure req :
    plain_host host = true -> plain_path procedure = true -> encodable mq (rq_Msg req) ->
    exists r receive, hq_Method r = "POST" /\ hq_Host r = host /\ hq_EscapedPath r = procedure /\
      carries (hq_Header r) (rq_Header req) /\
      (forall http, CallUnary (NewClient mq ms http ("http://" +:+ host +:+ procedure)) req
         = (let* x := http r in Ret (receive x))%prog) /\
      forall addr, exists send,
        (forall fn, NewUnaryHandler mq ms procedure fn (arrive addr r)
           = (let* a := fn (mkRequest (rq_Msg req) addr (hq_Header r)) in Ret (send a))%prog) /\
        forall a, encodable_answer ms a -> receive (Ok (send a)) = reply_of a
}.

(** The messages of auth.v1, by the types that model them. *)
Class Messages `{Connect} := {
  RegisterRequest_msg : Message CredentialsRequest;
  RegisterResponse_msg : Message RegisterResponse;
  LoginRequest_msg : Message CredentialsRequest;
  LoginResponse_msg : Message TokenResponse;
  RefreshRequest_msg : Message string;
  RefreshResponse_msg : Message TokenResponse;
  LogoutRequest_msg : Message string;
  LogoutResponse_msg : Message bool;
  VerifyRequest_msg : Message unit;
  VerifyResponse_msg : Message VerifyResponse;
  GetOAuthURLRequest_msg : Message (string * string);
  GetOAuthURLResponse_msg : Message GetOAuthURLResponse;
  OAuthCallbackRequest_msg : Message OAuthCallbackMsg;
  OAuthCallbackResponse_msg : Message SignInResponse;
  GetChallengeRequest_msg : Message (string * string);
  GetChallengeResponse_msg : Message GetChallengeResponse;
  AuthenticateWalletRequest_msg : Message WalletAuthRequest;
  AuthenticateWalletResponse_msg : Message SignInResponse;
  CreatePersonalAccessTokenRequest_msg : Message CreatePATRequest;
  CreatePersonalAccessTokenResponse_msg : Message (string * PATProto);
  ListPersonalAccessTokensRequest_msg : Message unit;
  ListPersonalAccessTokensResponse_msg : Message (list PATProto);
  RevokePersonalAccessTokenRequest_msg : Message string;
  RevokePersonalAccessTokenResponse_msg : Message bool
}.

(** ** The procedures *)

Definition AuthServiceName : string := "auth.v1.AuthService".

Definition AuthServiceRegisterProcedure : string := "/auth.v1.AuthService/Register".
Definition AuthServiceLoginProcedure : string := "/auth.v1.AuthService/Login".
Definition AuthServiceRefreshProcedure : string := "/auth.v1.AuthService/Refresh".
Definition AuthServiceLogoutProcedure : string := "/auth.v1.AuthService/Logout".
Definition AuthServiceVerifyProcedure : string := "/auth.v1.AuthService/Verify".
Definition AuthServiceGetOAuthURLProcedure : string := "/auth.v1.AuthService/GetOAuthURL".
Definition AuthServiceGetChallengeProcedure : string := "/auth.v1.AuthService/GetChallenge".
Definition AuthServiceAuthenticateWalletProcedure : string := "/auth.v1.AuthService/AuthenticateWallet".
Definition AuthServiceCreatePersonalAccessTokenProcedure : string := "/auth.v1.AuthService/CreatePersonalAccessToken".
Definition AuthServiceListPersonalAccessTokensProcedure : string := "/auth.v1.AuthService/ListPersonalAccessTokens".
Definition AuthServiceRevokePersonalAccessTokenProcedure : string := "/auth.v1.AuthService/RevokePersonalAccessToken".

(** The paths of the API. *)
Definition procedures : list string :=
  [AuthServiceRegisterProcedure;
   AuthServiceLoginProcedure;
   AuthServiceRefreshProcedure;
   AuthServiceLogoutProcedure;
   AuthServiceVerifyProcedure;
   AuthServiceGetOAuthURLProcedure;
   AuthServiceOAuthCallbackProcedure;
   AuthServiceGetChallengeProcedure;
   AuthServiceAuthenticateWalletProcedure;
   AuthServiceCreatePersonalAccessTokenProcedure;
   AuthServiceListPersonalAccessTokensProcedure;
   AuthServiceRevokePersonalAccessTokenProcedure].

(** ** The service as an interface *)

(** [AuthServiceHandler]; [AuthServiceClient] has the same methods. *)
Record AuthServiceHandler := mkAuthServiceHandler {
  svc_Register : request CredentialsRequest -> prog (answer RegisterResponse);
  svc_Login : request CredentialsRequest -> prog (answer TokenResponse);
  svc_Refresh : request string -> prog (answer TokenResponse);
  svc_Logout : request string -> prog (answer bool);
  svc_Verify : request unit -> prog (answer VerifyResponse);
  svc_GetOAuthURL : request (string * string) -> prog (answer GetOAuthURLResponse);
  svc_OAuthCallback : request OAuthCallbackMsg -> prog (answer SignInResponse);
  svc_GetChallenge : request (string * string) -> prog (answer GetChallengeResponse);
  svc_AuthenticateWallet : request WalletAuthRequest -> prog (answer SignInResponse);
  svc_CreatePersonalAccessToken : request CreatePATRequest -> prog (answer (string * PATProto));
  svc_ListPersonalAccessTokens : request unit -> prog (answer (list PATProto));
  svc_RevokePersonalAccessToken : request string -> prog (answer bool)
}.

Record AuthServiceClient := mkAuthServiceClient {
  cli_Register : request CredentialsRequest -> prog (reply RegisterResponse);
  cli_Login : request CredentialsRequest -> prog (reply TokenResponse);
  cli_Refresh : request string -> prog (reply TokenResponse);
  cli_Logout : request string -> prog (reply bool);
  cli_Verify : request unit -> prog (reply VerifyResponse);
  cli_GetOAuthURL : request (string * string) -> prog (reply GetOAuthURLResponse);
  cli_OAuthCallback : request OAuthCallbackMsg -> prog (reply SignInResponse);
  cli_GetChallenge : request (string * string) -> prog (reply GetChallengeResponse);
  cli_AuthenticateWallet : request WalletAuthRequest -> prog (reply SignInResponse);
  cli_CreatePersonalAccessToken : request CreatePATRequest -> prog (reply (string * PATProto));
  cli_ListPersonalAccessTokens : request unit -> prog (reply (list PATProto));
  cli_RevokePersonalAccessToken : request string -> prog (reply bool)
}.

(** ** The client *)

Section client.
Context `{Connect, !Messages}.

Record authServiceClient := {
  client_register : Client CredentialsRequest RegisterResponse;
  client_login : Client CredentialsRequest TokenResponse;
  client_refresh : Client string TokenResponse;
  client_logout : Client string bool;
  client_verify : Client unit VerifyResponse;
  client_getOAuthURL : Client (string * string) GetOAuthURLResponse;
  client_oAuthCallback : Client OAuthCallbackMsg SignInResponse;
  client_getChallenge : Client (string * string) GetChallengeResponse;
  client_authenticateWallet : Client WalletAuthRequest SignInResponse;
  client_createPersonalAccessToken : Client CreatePATRequest (string * PATProto);
  client_listPersonalAccessTokens : Client unit (list PATProto);
  client_revokePersonalAccessToken : Client string bool
}.

Definition authServiceClient_Register (c : authServiceClient) (req : request CredentialsRequest) : prog (reply RegisterResponse) :=
  CallUnary (client_register c) req.
Definition authServiceClient_Login (c : authServiceClient) (req : request CredentialsRequest) : prog (reply TokenResponse) :=
  CallUnary (client_login c) req.
Definition authServiceClient_Refresh (c : authServiceClient) (req : request string) : prog (reply TokenResponse) :=
  CallUnary (client_refresh c) req.
Definition authServiceClient_Logout (c : authServiceClient) (req : request string) : prog (reply bool) :=
  CallUnary (client_logout c) req.
Definition authServiceClient_Verify (c : authServiceClient) (req : request unit) : prog (reply VerifyResponse) :=
  CallUnary (client_verify c) req.
Definition authServiceClient_GetOAuthURL (c : authServiceClient) (req : request (string * string)) : prog (reply GetOAuthURLResponse) :=
  CallUnary (client_getOAuthURL c) req.
Definition authServiceClient_OAuthCallback (c : authServiceClient) (req : request OAuthCallbackMsg) : prog (reply SignInResponse) :=
  CallUnary (client_oAuthCallback c) req.
Definition authServiceClient_GetChallenge (c : authServiceClient) (req : request (string * string)) : prog (reply GetChallengeResponse) :=
  CallUnary (client_getChallenge c) req.
Definition authServiceClient_AuthenticateWallet (c : authServiceClient) (req : request WalletAuthRequest) : prog (reply SignInResponse) :=
  CallUnary (client_authenticateWallet c) req.
Definition authServiceClient_CreatePersonalAccessToken (c : authServiceClient) (req : request CreatePATRequest) : prog (reply (string * PATProto)) :=
  CallUnary (client_createPersonalAccessToken c) req.
Definition authServiceClient_ListPersonalAccessTokens (c : authServiceClient) (req : request unit) : prog (reply (list PATProto)) :=
  CallUnary (client_listPersonalAccessTokens c) req.
Definition authServiceClient_RevokePersonalAccessToken (c : authServiceClient) (req : request string) : prog (reply bool) :=
  CallUnary (client_revokePersonalAccessToken c) req.

(** The struct as the interface it implements. *)
Definition client_interface (c : authServiceClient) : AuthServiceClient :=
  mkAuthServiceClient (authServiceClient_Register c) (authServiceClient_Login c) (authServiceClient_Refresh c) (authServiceClient_Logout c)
    (authServiceClient_Verify c) (authServiceClient_GetOAuthURL c) (authServiceClient_OAuthCallback c) (authServiceClient_GetChallenge c)
    (authServiceClient_AuthenticateWallet c) (authServiceClient_CreatePersonalAccessToken c)
    (authServiceClient_ListPersonalAccessTokens c) (authServiceClient_RevokePersonalAccessToken c).

(** [strings.TrimRight(s, "/")] *)
Fixpoint TrimRightSlash (s : string) : string :=
  match s with
  | EmptyString => EmptyString
  | String c s' =>
      let t := TrimRightSlash s' in
      if bool_decide (t = "") && Ascii.eqb c "/" then EmptyString else String c t
  end.

Definition NewAuthServiceClient (httpClient : HTTPClient) (baseURL : string) : AuthServiceClient :=
  let baseURL := TrimRightSlash baseURL in
  client_interface {|
    client_register := NewClient RegisterRequest_msg RegisterResponse_msg httpClient (baseURL +:+ AuthServiceRegisterProcedure);
    client_login := NewClient LoginRequest_msg LoginResponse_msg httpClient (baseURL +:+ AuthServiceLoginProcedure);
    client_refresh := NewClient RefreshRequest_msg RefreshResponse_msg httpClient (baseURL +:+ AuthServiceRefreshProcedure);
    client_logout := NewClient LogoutRequest_msg LogoutResponse_msg httpClient (baseURL +:+ AuthServiceLogoutProcedure);
    client_verify := NewClient VerifyRequest_msg VerifyResponse_msg httpClient (baseURL +:+ AuthServiceVerifyProcedure);
    client_getOAuthURL := NewClient GetOAuthURLRequest_msg GetOAuthURLResponse_msg httpClient (baseURL +:+ AuthServiceGetOAuthURLProcedure);
    client_oAuthCallback := NewClient OAuthCallbackRequest_msg OAuthCallbackResponse_msg httpClient (baseURL +:+ AuthServiceOAuthCallbackProcedure);
    client_getChallenge := NewClient GetChallengeRequest_msg GetChallengeResponse_msg httpClient (baseURL +:+ AuthServiceGetChallengeProcedure);
    client_authenticateWallet := NewClient AuthenticateWalletRequest_msg AuthenticateWalletResponse_msg httpClient (baseURL +:+ AuthServiceAuthenticateWalletProcedure);
    client_createPersonalAccessToken := NewClient CreatePersonalAccessTokenRequest_msg CreatePersonalAccessTokenResponse_msg httpClient (baseURL +:+ AuthServiceCreatePersonalAccessTokenProcedure);
    client_listPersonalAccessTokens := NewClient ListPersonalAccessTokensRequest_msg ListPersonalAccessTokensResponse_msg httpClient (baseURL +:+ AuthServiceListPersonalAccessTokensProcedure);
    client_revokePersonalAccessToken := NewClient RevokePersonalAccessTokenRequest_msg RevokePersonalAccessTokenResponse_msg httpClient (baseURL +:+ AuthServiceRevokePersonalAccessTokenProcedure)
  |}.
End client.

(** ** The server *)

Section server.
Context `{Connect, !Messages}.

(** The path to mount the handler on, and the handler. *)
Definition NewAuthServiceHandler (svc : AuthServiceHandler) : string * http_Handler :=
  let authServiceRegisterHandler := NewUnaryHandler RegisterRequest_msg RegisterResponse_msg AuthServiceRegisterProcedure (svc_Register svc) in
  let authServiceLoginHandler := NewUnaryHandler LoginRequest_msg LoginResponse_msg AuthServiceLoginProcedure (svc_Login svc) in
  let authServiceRefreshHandler := NewUnaryHandler RefreshRequest_msg RefreshResponse_msg AuthServiceRefreshProcedure (svc_Refresh svc) in
  let authServiceLogoutHandler := NewUnaryHandler LogoutRequest_msg LogoutResponse_msg AuthServiceLogoutProcedure (svc_Logout svc) in
  let authServiceVerifyHandler := NewUnaryHandler VerifyRequest_msg VerifyResponse_msg AuthServiceVerifyProcedure (svc_Verify svc) in
  let authServiceGetOAuthURLHandler := NewUnaryHandler GetOAuthURLRequest_msg GetOAuthURLResponse_msg AuthServiceGetOAuthURLProcedure (svc_GetOAuthURL svc) in
  let authServiceOAuthCallbackHandler := NewUnaryHandler OAuthCallbackRequest_msg OAuthCallbackResponse_msg AuthServiceOAuthCallbackProcedure (svc_OAuthCallback svc) in
  let authServiceGetChallengeHandler := NewUnaryHandler GetChallengeRequest_msg GetChallengeResponse_msg AuthServiceGetChallengeProcedure (svc_GetChallenge svc) in
  let authServiceAuthenticateWalletHandler := NewUnaryHandler AuthenticateWalletRequest_msg AuthenticateWalletResponse_msg AuthServiceAuthenticateWalletProcedure (svc_AuthenticateWallet svc) in
  let authServiceCreatePersonalAccessTokenHandler := NewUnaryHandler CreatePersonalAccessTokenRequest_msg CreatePersonalAccessTokenResponse_msg AuthServiceCreatePersonalAccessTokenProcedure (svc_CreatePersonalAccessToken svc) in
  let authServiceListPersonalAccessTokensHandler := NewUnaryHandler ListPersonalAccessTokensRequest_msg ListPersonalAccessTokensResponse_msg AuthServiceListPersonalAccessTokensProcedure (svc_ListPersonalAccessTokens svc) in
  let authServiceRevokePersonalAccessTokenHandler := NewUnaryHandler RevokePersonalAccessTokenRequest_msg RevokePersonalAccessTokenResponse_msg AuthServiceRevokePersonalAccessTokenProcedure (svc_RevokePersonalAccessToken svc) in
  ("/auth.v1.AuthService/", fun r =>
     let path := URL_Path r in
     if strEq path AuthServiceRegisterProcedure then authServiceRegisterHandler r
     else if strEq path AuthServiceLoginProcedure then authServiceLoginHandler r
     else if strEq path AuthServiceRefreshProcedure then authServiceRefreshHandler r
     else if strEq path AuthServiceLogoutProcedure then authServiceLogoutHandler r
     else if strEq path AuthServiceVerifyProcedure then authServiceVerifyHandler r
     else if strEq path AuthServiceGetOAuthURLProcedure then authServiceGetOAuthURLHandler r
     else if strEq path AuthServiceOAuthCallbackProcedure then authServiceOAuthCallbackHandler r
     else if strEq path AuthServiceGetChallengeProcedure then authServiceGetChallengeHandler r
     else if strEq path AuthServiceAuthenticateWalletProcedure then authServiceAuthenticateWalletHandler r
     else if strEq path AuthServiceCreatePersonalAccessTokenProcedure then authServiceCreatePersonalAccessTokenHandler r
     else if strEq path AuthServiceListPersonalAccessTokensProcedure then authServiceListPersonalAccessTokensHandler r
     else if strEq path AuthServiceRevokePersonalAccessTokenProcedure then authServiceRevokePersonalAccessTokenHandler r
     else Ret http_NotFound).
End server.

(** [UnimplementedAuthServiceHandler] *)
Definition unimplemented {Req Res} (method : string) (_ : request Req) : prog (answer Res) :=
  Ret (Refuse (NewError CodeUnimplemented (ENew ("auth.v1.AuthService." +:+ method +:+ " is not implemented")))).

Definition UnimplementedAuthServiceHandler : AuthServiceHandler := {|
  svc_Register := unimplemented "Register";
  svc_Login := unimplemented "Login";
  svc_Refresh := unimplemented "Refresh";
  svc_Logout := unimplemented "Logout";
  svc_Verify := unimplemented "Verify";
  svc_GetOAuthURL := unimplemented "GetOAuthURL";
  svc_OAuthCallback := unimplemented "OAuthCallback";
  svc_GetChallenge := unimplemented "GetChallenge";
  svc_AuthenticateWallet := unimplemented "AuthenticateWallet";
  svc_CreatePersonalAccessToken := unimplemented "CreatePersonalAccessToken";
  svc_ListPersonalAccessTokens := unimplemented "ListPersonalAccessTokens";
  svc_RevokePersonalAccessToken := unimplemented "RevokePersonalAccessToken"
|}.

(** ** The handler as the service *)

Definition handler_service `{UnicodeTables, UUIDLib} (h : Handler) : AuthServiceHandler := {|
  svc_Register := Handler_Register h;
  svc_Login := Handler_Login h;
  svc_Refresh := Handler_Refresh h;
  svc_Logout := Handler_Logout h;
  svc_Verify := Handler_Verify h;
  svc_GetOAuthURL := Handler_GetOAuthURL h;
  svc_OAuthCallback := Handler_OAuthCallback h;
  svc_GetChallenge := Handler_GetChallenge h;
  svc_AuthenticateWallet := Handler_AuthenticateWallet h;
  svc_CreatePersonalAccessToken := Handler_CreatePAT h;
  svc_ListPersonalAccessTokens := Handler_ListPATs h;
  svc_RevokePersonalAccessToken := Handler_RevokePAT h
|}.
