(* ===== verification/HandlerFacts.v ===== *)
(** * The RPC handler, verified

    What a client can learn from a refusal, who may manage access tokens, what
    the audit log records, and which cookies are set and evicted. *)

From S2P Require Import Prelude GoStrings GoTime GoEncoding Errors Entity Ports Contract ContractFacts WpRules Histories Validation Token Interfaces Local Service Refresh Accounts OAuth Wallet GoNetip ClientIP Handler.

Lemma wp_orRefuse `{Backend, Reads, Faults} {A M} (p : prog (res A)) hd (k : A -> prog (answer M)) Q a :
  wp p (fun r a' => match r with
                    | Ok x => wp (k x) Q a'
                    | Err err => wp (hd err) (fun e a'' => Q (Refuse e) a'') a'
                    end) a ->
  wp (orRefuse p hd k) Q a.
Proof.
  intros Hp. unfold orRefuse. rewrite wp_bind. eapply wp_mono; [|exact Hp].
  intros [x|err] a' Hr; [done|]. by rewrite wp_bind.
Qed.

Lemma wp_log `{Backend, Reads, Faults} r (Q : unit -> db -> Prop) a : Q tt a -> wp (log r) Q a.
Proof. done. Qed.

(** Every cookie set is a quiet read of the clock. *)
Lemma wp_sessionCookies `{Backend, Reads, Faults} h tp (Q : list outline -> db -> Prop) a :
  (forall l, Q l a) -> wp (sessionCookies h tp) Q a.
Proof. intros HQ. unfold sessionCookies. destruct (cookies_on h); [|apply HQ]. intros t1 _ t2 _. apply HQ. Qed.

(** ** Login *)

Definition refused_login : connectError := NewError CodeUnauthenticated (ENew "invalid credentials").
Definition refused_internal : connectError := NewError CodeInternal (ENew "internal error").

Definition login_answer_spec `{UnicodeTables, Argon2, Backend, Faults} (a : db) (req : request CredentialsRequest)
    (r : answer TokenResponse) (a' : db) : Prop :=
  let email := cr_Email (rq_Msg req) in
  let password := cr_Password (rq_Msg req) in
  match r with
  | Answer _ _ => exists e u, NormalizeEmail email = Ok e /\ password_accepted a e password u
  | Refuse ce =>
      (ce = refused_login /\ a' = a /\
         (password = "" \/ forall e u, NormalizeEmail email = Ok e -> ~ password_accepted a e password u)) \/
      (ce = refused_internal /\ down)
  end.

Section login.
Context `{UnicodeTables, Argon2, Backend, Reads, Faults} (h : Handler) `{!ServiceSpec (h_service h)}.

Lemma wp_HandlerLogin req a :
  db_ok a -> localProvider (h_service h) = Some local_provider ->
  wp (Handler_Login h req) (login_answer_spec a req) a.
Proof.
  intros Hok Hp. unfold Handler_Login. apply wp_orRefuse.
  eapply wp_mono; [|by apply wp_Login]. intros [ar|err] a' Hr; cbn [login_spec] in Hr.
  - destruct Hr as (e & u & now & st & _ & _ & He & Hacc & _). rewrite wp_bind. apply wp_log.
    rewrite wp_bind. apply wp_sessionCookies. intros l. cbn. eauto.
  - destruct (loginFailure err) as [reason attrs]. rewrite wp_bind. apply wp_log.
    destruct Hr as [[Hu Hd]|(-> & (reason' & uid & ->) & Hno)].
    + rewrite (unavailable_Is _ _ Hu). unfold internalError. rewrite wp_bind. apply wp_log. by right.
    + by left.
Qed.
End login.

(** ** Sessions and access tokens *)

(** A session token that the issuer accepts, sent as a Bearer token or cookie. *)
Lemma wp_authenticateSession `{Backend, Reads, Faults} h `{!ServiceSpec (h_service h)} header a :
  wp (authenticateSession h header) (fun r a' => a' = a /\
    match r with
    | inl uid => exists tok, bearerToken h header = Some tok /\ tok <> "" /\ HasPrefix tok PATPrefix = false
    | inr e => True
    end) a.
Proof.
  unfold authenticateSession. destruct (bearerToken h header) as [tok|] eqn:Eb; [|done].
  case_bool_decide as Ht; [done|]. destruct (HasPrefix tok PATPrefix) eqn:Ep; [done|].
  rewrite wp_bind. unfold Service_Verify. rewrite Ep, wp_bind. apply issuer_parse.
  - intros c. cbn. split; [done|]. by exists tok.
  - intros e He. cbn. done.
Qed.

(** ** Refresh and logout *)

Definition refused_refresh : connectError := NewError CodeUnauthenticated (ENew "invalid refresh token").

Section refresh_endpoint.
Context `{Backend, Reads, Faults} (h : Handler) `{!ServiceSpec (h_service h)}.

Definition refresh_answer_spec (a : db) (tok : string) (r : answer TokenResponse) (a' : db) : Prop :=
  exists now, reads now /\
  match r with
  | Answer resp _ => exists tp, resp = tokenResponse tp /\
      refresh_spec (s := h_service h) (refreshReuseLeeway (h_service h)) a (HashToken tok) now (Ok tp) a'
  | Refuse ce => exists err,
      refresh_spec (s := h_service h) (refreshReuseLeeway (h_service h)) a (HashToken tok) now (Err err) a' /\
      ce = if infrastructure err then refused_internal else refused_refresh
  end.

Lemma wp_HandlerRefresh req a :
  db_ok a -> requestToken h (rq_Msg req) (rq_Header req) <> "" ->
  wp (Handler_Refresh h req)
    (refresh_answer_spec a (requestToken h (rq_Msg req) (rq_Header req))) a.
Proof.
  intros Hok Ht. unfold Handler_Refresh. rewrite bool_decide_eq_false_2 by done.
  apply wp_orRefuse. eapply wp_mono; [|by apply wp_Refresh].
  intros [tp|err] a' (now & Hnow & Hr).
  - rewrite wp_bind. apply wp_sessionCookies. intros l. exists now. eauto.
  - pose proof (refresh_spec_error _ _ _ _ _ _ Hr) as He.
    assert (wp (if errors_Is err auth.ErrInvalidCredentials
                then Ret (NewError CodeUnauthenticated (ENew "invalid refresh token"))
                else internalError "refresh failed" err)
              (fun e a'' => refresh_answer_spec a (requestToken h (rq_Msg req) (rq_Header req)) (Refuse e) a'') a') as Hend.
    { rewrite He. destruct (infrastructure err) eqn:Ei; cbn [negb];
        [unfold internalError; rewrite wp_bind; apply wp_log|];
        (exists now; split; [done|]; exists err; rewrite Ei; done). }
    rewrite wp_bind. destruct (as_token_reuse err); [apply wp_log|]; exact Hend.
Qed.

Lemma wp_HandlerLogout req a :
  wp (Handler_Logout h req) (fun r a' =>
    let tok := requestToken h (rq_Msg req) (rq_Header req) in
    match r with
    | Answer _ l => l = (if cookies_on h then clearTokenCookies (h_cookieConfig h) else []) /\
        if bool_decide (tok = "") then a' = a
        else match d_tokens a !! HashToken tok with
             | None => a' = a
             | Some t => exists now, a' = with_tokens a (end_family now (familyRoot t) (d_tokens a))
             end
    | Refuse ce => ce = refused_internal /\ outages = true
    end) a.
Proof.
  unfold Handler_Logout. set (tok := requestToken _ _ _). destruct (bool_decide (tok = "")); [done|].
  apply wp_orRefuse. eapply wp_mono; [|apply wp_Logout]. cbn. intros r a' Hr.
  assert (forall err, outages = true -> wp (internalError "logout failed" err)
    (fun e a'' => e = refused_internal /\ outages = true) a') as Hout.
  { intros err Ho. unfold internalError. rewrite wp_bind. by apply wp_log. }
  destruct (d_tokens a !! HashToken tok) as [t|].
  - destruct Hr as [[-> Ha']|(e & -> & _ & Ho)]; [done|by apply Hout].
  - destruct Hr as [[->|(e & -> & _ & Ho)] ->]; [done|by apply Hout].
Qed.
End refresh_endpoint.

(** ** Cookies *)

Lemma Join_split_at ws sep i :
  (0 < i < length ws)%nat -> Join ws sep = Join (take i ws) sep +:+ sep +:+ Join (drop i ws) sep.
Proof.
  revert ws. induction i as [|i IH]; intros ws Hi; [lia|]. destruct ws as [|w ws]; cbn in Hi; [lia|].
  destruct ws as [|w' ws]; cbn in Hi; [lia|]. destruct i as [|i]; [done|].
  change (Join (w :: w' :: ws) sep) with (w +:+ sep +:+ Join (w' :: ws) sep).
  rewrite (IH (w' :: ws)) by (cbn; lia). cbn [take drop].
  change (Join (w :: w' :: take i ws) sep) with (w +:+ sep +:+ Join (w' :: take i ws) sep).
  by rewrite !str_app_assoc.
Qed.

(** A parent domain is a proper suffix at a dot, and has a dot of its own. *)
Lemma parentDomains_spec host d :
  d ∈ parentDomains host ->
  (exists pre, TrimPrefix host "." = pre +:+ "." +:+ d) /\ (exists x y, d = x +:+ "." +:+ y).
Proof.
  unfold parentDomains. set (labels := Split _ _).
  intros (i & -> & Hi%elem_of_seq)%list_elem_of_fmap. split.
  - exists (Join (take i labels) "."). rewrite <- Join_split_at by lia. symmetry. apply (Join_Split _ ".").
  - exists (Join (take 1 (drop i labels)) "."), (Join (drop 1 (drop i labels)) ".").
    apply Join_split_at. rewrite length_drop. lia.
Qed.

Definition same_attributes (cfg : CookieConfig) (c : Cookie) : Prop :=
  ck_HttpOnly c = true /\ ck_Secure c = cc_Secure cfg /\ ck_SameSite c = cc_SameSite cfg /\
  ck_Path c = cc_Path cfg.

(** A cookie that makes the browser forget the one of that name and scope. *)
Definition evicts (c : Cookie) : Prop := ck_Value c = "" /\ ck_MaxAge c < 0.

(** The line expires a cookie left under another scope than the configured one:
    the host itself or a parent domain. *)
Definition evicts_elsewhere (cfg : CookieConfig) (l : outline) : Prop :=
  exists c, l = HAddCookie c /\ same_attributes cfg c /\ evicts c /\ cc_Domain cfg <> "" /\
    (ck_Name c = AccessTokenCookie \/ ck_Name c = RefreshTokenCookie) /\
    (ck_Domain c = "" \/
     (exists pre, TrimPrefix (cc_Domain cfg) "." = pre +:+ "." +:+ ck_Domain c)).

Lemma clearLegacy_elsewhere cfg : Forall (evicts_elsewhere cfg) (clearLegacyScopedCookies cfg).
Proof.
  unfold clearLegacyScopedCookies. case_bool_decide as Hd; [constructor|].
  apply Forall_forall. intros l. rewrite list_elem_of_In, in_flat_map. intros (name & Hn & Hl).
  rewrite <- list_elem_of_In in Hl. apply list_elem_of_fmap in Hl as (dom & -> & Hdom).
  exists (tokenCookie cfg name "" dom (ofUnix 0) (-1)). split_and!; try done.
  - cbn in Hn. cbn. destruct Hn as [<-|[<-|[]]]; auto.
  - cbn. apply elem_of_cons in Hdom as [->|[? _]%parentDomains_spec]; auto.
Qed.

(** ** Audit records *)

Definition audits (l : list logrec) : list logrec := filter (fun r => log_audit r = true) l.

Lemma audits_app l k : audits (l ++ k) = audits l ++ audits k.
Proof. apply filter_app. Qed.

(** A program that writes no audit record, whatever happens. *)
Fixpoint quiet {A} (p : prog A) : Prop :=
  match p with
  | Ret _ => True
  | Vis e k =>
      match e in eff X return (X -> Prop) -> Prop with
      | Log r => fun K => log_audit r = false /\ K tt
      | _ => fun K => forall x, K x
      end (fun x => quiet (k x))
  end.

Lemma quiet_bind {A B} (p : prog A) (f : A -> prog B) :
  quiet p -> (forall x, quiet (f x)) -> quiet (bind p f).
Proof.
  intros Hp Hf. induction p as [x|X e k IH]; [apply Hf|]. destruct e; cbn in *; eauto.
  destruct Hp; eauto.
Qed.

Lemma run_quiet {S} `{!StoreImpl S} o {A} (p : prog A) (w : world S) :
  quiet p -> audits (w_log (run o p w).2) = audits (w_log w).
Proof.
  revert w. induction p as [x|X e k IH]; intros w; [done|]. intros Hq. cbn [run].
  destruct e; cbn in Hq |- *; try (rewrite IH; [done|apply Hq]).
  - destruct (store_call _ _ _). by rewrite IH.
  - destruct Hq as [Hr Hq]. rewrite IH by done. cbn. rewrite audits_app. unfold audits at 2.
    rewrite filter_cons_False by congruence. by rewrite filter_nil, app_nil_r.
Qed.

Create HintDb quiet.
Ltac quiet :=
  repeat first
    [ done
    | progress intros
    | solve [eauto with quiet]
    | apply quiet_bind
    | match goal with
      | |- quiet (match ?x with _ => _ end) => destruct x
      | |- quiet (perform _) => first [split; done | intros ?; done]
      | |- quiet (call _) => intros ?; done
      end
    | progress cbn beta iota zeta ].

(** The collaborators write no audit records of their own. *)
Class QuietService (s : Service) : Prop := {
  quiet_clock : quiet (svc_now s);
  quiet_generate : forall u e r, quiet (ti_GenerateTokens (issuer s) u e r);
  quiet_parse : forall t, quiet (ti_ParseToken (issuer s) t);
  quiet_authenticate : forall p r, localProvider s = Some p -> quiet (p_Authenticate p r);
  quiet_register : forall p r, localProvider s = Some p -> quiet (p_Register p r)
}.

#[export] Hint Resolve quiet_clock quiet_generate quiet_parse : quiet.

Lemma quiet_issueTokens s `{!QuietService s} u e r p : quiet (issueTokens s u e r p).
Proof.
  unfold issueTokens. apply quiet_bind; [apply quiet_generate|]. intros [[tp h]|err]; [|done].
  apply quiet_bind; [apply quiet_clock|]. intros now. apply quiet_bind; [by intros ?|]. by intros [].
Qed.

#[export] Hint Resolve quiet_issueTokens : quiet.

Lemma quiet_Login `{UnicodeTables} s `{!QuietService s} email password :
  quiet (Service_Login s email password).
Proof.
  unfold Service_Login. destruct (localProvider s) as [p|] eqn:Ep; [|done].
  destruct (NormalizeEmail email); [|done]. apply quiet_bind; [by apply quiet_authenticate|].
  intros [i|err]; [|repeat case_match; done]. quiet.
Qed.

(** The password provider writes no audit records. *)
Lemma quiet_Authenticate `{Argon2} r : quiet (Authenticate r).
Proof.
  unfold Authenticate. destruct (_ || _); [done|].
  apply quiet_bind; [by intros ?|]. intros [u|err]; [|by case_match].
  apply quiet_bind; [by intros ?|]. intros [k|err]; by case_match.
Qed.

Lemma quiet_LocalRegister `{Argon2} r : quiet (Register r).
Proof.
  unfold Register. do 2 (destruct (strEq _ _); [done|]).
  apply quiet_bind; [by intros ?|]. intros [u|err]; [done|]. destruct (negb _); [done|].
  apply quiet_bind; [unfold hashPassword; apply quiet_bind; [by intros ?|by intros []]|].
  intros [k|err']; [|done].
  apply quiet_bind; [unfold generateUserID; apply quiet_bind; [by intros ?|by intros []]|]. intros id.
  apply quiet_bind; [by intros ?|]. intros [u|err']; [|done].
  apply quiet_bind; [by intros ?|]. intros [x|err']; [done|].
  apply quiet_bind; [by intros ?|]. intros d. apply quiet_bind; [by destruct d|done].
Qed.

Lemma quiet_sessionCookies h tp : quiet (sessionCookies h tp).
Proof. unfold sessionCookies. by destruct (cookies_on h). Qed.

Lemma quiet_login_refusal err :
  quiet (if errors_Is err auth.ErrInvalidCredentials
         then Ret (NewError CodeUnauthenticated (ENew "invalid credentials"))
         else internalError "login failed" err).
Proof. by destruct (errors_Is _ _). Qed.

Definition log_to {S} (w : world S) (r : logrec) : world S :=
  mkWorld (w_store w) (w_tick w) (w_log w ++ [r]).

Lemma run_log {S} `{!StoreImpl S} o {A} r (k : unit -> prog A) (w : world S) :
  run o (bind (log r) k) w = run o (k tt) (log_to w r).
Proof. done. Qed.

Lemma audits_log {S} (w : world S) r : log_audit r = true -> audits (w_log (log_to w r)) = audits (w_log w) ++ [r].
Proof.
  intros Hr. cbn. rewrite audits_app. unfold audits at 2. by rewrite filter_cons_True, filter_nil.
Qed.

Section theorems.
Context `{UnicodeTables}.
Context {S : Type} `{!StoreImpl S, !StoreContract S, Faults} (o : oracle) (h : Handler).

(** The login endpoint answers by the credentials and tells nothing else: a
    session is opened only for an account that accepts the password; every
    refusal is one of two fixed answers, "invalid credentials" exactly when no
    account accepts them (an unknown email, a missing password and a wrong one
    look the same, and nothing changed), or "internal error" without detail. *)
Theorem Login_endpoint `{Argon2, !ServiceSpec (h_service h)} req w r w' :
  oracle_ok o -> sc_inv (w_store w) -> localProvider (h_service h) = Some local_provider ->
  run o (Handler_Login h req) w = (r, w') ->
  login_answer_spec (sc_view (w_store w)) req r (sc_view (w_store w')).
Proof.
  intros Ho Hinv Hp Hrun.
  exact (proj1 (wp_sound o _ _ _ _ _ Ho Hinv (wp_HandlerLogin h req _ (sc_ok _ Hinv) Hp) Hrun)).
Qed.

(** Only a session manages access tokens: the endpoints that create, list
    and revoke them resolve the caller from a Bearer token or session cookie that
    is not itself a personal access token, and doing so changes nothing, so a
    leaked token cannot mint replacements or revoke its siblings. *)
Theorem authenticateSession_needs_session `{!ServiceSpec (h_service h)} header w uid w' :
  oracle_ok o -> sc_inv (w_store w) ->
  run o (authenticateSession h header) w = (inl uid, w') ->
  sc_view (w_store w') = sc_view (w_store w) /\
  exists tok, bearerToken h header = Some tok /\ tok <> "" /\ HasPrefix tok PATPrefix = false.
Proof.
  intros Ho Hinv Hrun.
  exact (proj1 (wp_sound o _ _ _ _ _ Ho Hinv (wp_authenticateSession h header _) Hrun)).
Qed.

(** C33. The refresh endpoint answers as the service decides, and tells the client
    to sign in again only for a rejected token: 401 goes with a rejection, and
    an infrastructure failure is always an internal error, so an outage does
    not end the client's session. *)
Theorem Refresh_endpoint `{!ServiceSpec (h_service h)} req w r w' :
  oracle_ok o -> sc_inv (w_store w) -> requestToken h (rq_Msg req) (rq_Header req) <> "" ->
  run o (Handler_Refresh h req) w = (r, w') ->
  let _ : Reads := read_during o w w' in
  refresh_answer_spec h (sc_view (w_store w)) (requestToken h (rq_Msg req) (rq_Header req)) r
    (sc_view (w_store w')).
Proof.
  intros Ho Hinv Ht Hrun R.
  exact (proj1 (wp_sound o _ _ _ _ _ Ho Hinv (wp_HandlerRefresh h req _ (sc_ok _ Hinv) Ht) Hrun)).
Qed.

(** The logout endpoint reports success only for a session that has ended:
    after a successful answer for a stored token every token of its family is
    revoked and ended, and the session cookies are expired when cookies are on;
    it fails only when the store does, and then expires no cookie. *)
Theorem Logout_endpoint req w r w' :
  oracle_ok o -> sc_inv (w_store w) -> run o (Handler_Logout h req) w = (r, w') ->
  let tok := requestToken h (rq_Msg req) (rq_Header req) in
  match r with
  | Answer _ l =>
      l = (if cookies_on h then clearTokenCookies (h_cookieConfig h) else []) /\
      (forall t, tok <> "" -> d_tokens (sc_view (w_store w)) !! HashToken tok = Some t ->
         ended (familyRoot t) (sc_view (w_store w')))
  | Refuse ce => ce = refused_internal /\ outages = true
  end.
Proof.
  intros Ho Hinv Hrun tok. pose proof (sc_ok _ Hinv) as Hok.
  pose proof (proj1 (wp_sound o _ _ _ _ _ Ho Hinv
    (@wp_HandlerLogout _ (read_during o w w') _ h req _) Hrun)) as Hr. cbn in Hr.
  fold tok in Hr. destruct r as [x l|ce]; [|done]. destruct Hr as [-> Hr]. split; [done|].
  intros t Ht Hl. rewrite bool_decide_eq_false_2, Hl in Hr by done. destruct Hr as [now ->].
  by apply end_family_ended.
Qed.

(** Session cookies: a sign-in sets the two tokens under the configured
    scope, with their lifetimes and out of reach of scripts, and besides only
    expires cookies left under other scopes, the host's own or a parent
    domain's, never the live ones. *)
Theorem session_cookies tp w l w' :
  run o (sessionCookies h tp) w = (l, w') ->
  if cookies_on h then
    exists t1 t2 legacy, read_during o w w' t1 /\ read_during o w w' t2 /\
      let cfg := h_cookieConfig h in
      l = HAddCookie (tokenCookie cfg AccessTokenCookie (tp_AccessToken tp) (cc_Domain cfg)
                        (Add t1 AccessTokenTTL) 900) ::
          HAddCookie (tokenCookie cfg RefreshTokenCookie (tp_RefreshToken tp) (cc_Domain cfg)
                        (Add t2 RefreshTokenTTL) 604800) :: legacy /\
      Forall (evicts_elsewhere cfg) legacy
  else l = [].
Proof.
  unfold sessionCookies. destruct (cookies_on h); [|by intros [= <- _]].
  unfold setTokenCookies. cbn. intros [= <- <-]. eexists _, _, _. split_and!; [| |done|].
  - exists (w_tick w). cbn. split; [lia|done].
  - exists (Datatypes.S (w_tick w)). cbn. split; [lia|done].
  - apply clearLegacy_elsewhere.
Qed.

(** The attributes every audit record starts with. *)
Definition audit_head {M} (req : request M) (event result : string) : list attr :=
  [("audit", ABool true); ("event", AString event); ("result", AString result);
   ("ip", AString (clientIP (h_trustedProxies h) (rq_Peer req) (rq_Header req)));
   clientAttr "user_agent" (header_Get (rq_Header req) "User-Agent")].

(** Every login attempt is audited, once: whatever the store, the provider
    and the client do, the login endpoint appends exactly one audit record, a
    success naming the user or a failure naming the reason, carrying the client
    address and nothing the client typed but its user agent. *)
Theorem Login_audited_once `{!QuietService (h_service h)} req w r w' :
  run o (Handler_Login h req) w = (r, w') ->
  exists rec, audits (w_log w') = audits (w_log w) ++ [rec] /\
    match r with
    | Answer _ _ => exists uid, log_level rec = LevelInfo /\
        log_attrs rec = audit_head req auditEventLogin auditResultSuccess ++ [("user_id", AString uid)]
    | Refuse _ => exists err, log_level rec = LevelWarn /\
        log_attrs rec = audit_head req auditEventLogin auditResultFailure ++
                        ((loginFailure err).2 ++ [("reason", AString (loginFailure err).1)])
    end.
Proof.
  unfold Handler_Login, orRefuse. rewrite run_bind.
  pose proof (run_quiet o _ w (quiet_Login (h_service h) (cr_Email (rq_Msg req)) (cr_Password (rq_Msg req)))) as Hq.
  destruct (run o (Service_Login _ _ _) w) as [[ar|err] w1]; cbn [snd] in Hq; rewrite <- Hq.
  - unfold auditSuccess, writeAudit. rewrite run_log, run_bind.
    pose proof (run_quiet o _ (log_to w1 (mkLog true LevelInfo ("audit " +:+ auditEventLogin)
      (audit_head req auditEventLogin auditResultSuccess ++ [("user_id", AString (ar_UserID ar))])))
      (quiet_sessionCookies h (ar_TokenPair ar))) as Hc.
    destruct (run o (sessionCookies _ _) _) as [l w2]. intros [= <- <-].
    cbn [snd] in Hc. rewrite Hc, audits_log by done. eexists. split; [done|]. by exists (ar_UserID ar).
  - destruct (loginFailure err) as [reason attrs] eqn:El. unfold auditFailure, writeAudit.
    rewrite run_bind, run_log.
    set (rec := mkLog true _ _ _).
    pose proof (run_quiet o _ (log_to w1 rec) (quiet_login_refusal err)) as Hc.
    destruct (run o (if errors_Is err _ then _ else _) (log_to w1 rec)) as [e w2].
    intros [= <- <-]. cbn [snd] in Hc. rewrite Hc, audits_log by done. eexists. split; [done|].
    exists err. rewrite El. done.
Qed.
End theorems.
