(* ===== verification/Config.v ===== *)
(** * The program's configuration (cmd/psina/config.go)

    Defaults, a YAML file, environment variables and a command line are merged
    by the library koanf, which is a parameter; what the program does around it
    - the file's keys, lists, validation, the parsing of chains and proxies - is
    written out.  A Go map is the list of its entries in the order in which a
    [range] meets them, which is any order. *)

From S2P Require Import Prelude GoStrings GoTime GoFormat Errors Ports Contract Service Wallet GoNetip.

(** ** The configuration *)

Record LoggerConfig := mkLoggerConfig { logger_Level : string; logger_Format : string }.
Record ServerConfig := mkServerConfig { server_Port : Z; server_TrustedProxies : list string }.
Record DBConfig := mkDBConfig { db_URL : string; db_TablePrefix : string }.
Record JWTConfig := mkJWTConfig {
  jwt_PrivateKeyPath : string;
  jwt_PrivateKey : string;
  jwt_Algorithm : string
}.
Record TokenConfig := mkTokenConfig { token_RefreshReuseLeeway : duration }.
Record CookieSettings := mkCookieSettings {
  cookie_Enabled : bool;
  cookie_Domain : string;
  cookie_Secure : bool;
  cookie_SameSite : string;
  cookie_Path : string
}.
Record PATSettings := mkPATSettings {
  pat_Enabled : bool;
  pat_MaxPerUser : Z;
  pat_MaxTTL : duration;
  pat_TouchInterval : duration
}.
Record OAuthClientConfig := mkOAuthClientConfig {
  oauth_ClientID : string;
  oauth_ClientSecret : string;
  oauth_RedirectURIs : list string
}.
Record OAuthSettings := mkOAuthSettings {
  oauth_AutoLinkEmail : bool;
  oauth_Google : OAuthClientConfig;
  oauth_GitHub : OAuthClientConfig
}.
Record WalletSettings := mkWalletSettings {
  wallet_Domain : string;
  wallet_URI : string;
  wallet_Statement : string;
  wallet_ChallengeTTL : duration;
  wallet_EVMChains : list string
}.

Record Config := mkConfig {
  Dev : bool;
  Logger : LoggerConfig;
  Server : ServerConfig;
  DB : DBConfig;
  JWT : JWTConfig;
  Token : TokenConfig;
  Cookie : CookieSettings;
  PAT : PATSettings;
  OAuth : OAuthSettings;
  Wallet : WalletSettings
}.

(** ** Lists and chains *)

(** [splitList]: one comma-separated string or many items, trimmed, none empty. *)
Definition splitList (values : list string) : list string :=
  flat_map (fun v => filter (fun item => item <> "") (TrimSpace <$> Split v ",")) values.

Record evmChain := mkEvmChain { chain_Name : string; chain_ID : Z }.

(** The loop of [parseEVMChains]. *)
Fixpoint parse_chains (entries : list string) (seen : gset string) (seenID : gset Z)
    (chains : list evmChain) : res (list evmChain) :=
  match entries with
  | [] => Ok chains
  | entry :: entries =>
      let '(name, rawID, ok) := Cut entry "=" in
      let name := TrimSpace name in
      let malformed := Err (EErrorf [Lit "wallet.evmchains: "; ArgQ entry; Lit " is not name=chainID"]) in
      match Atoi (TrimSpace rawID) with
      | None => malformed
      | Some id =>
          if negb ok || bool_decide (name = "") || (id <=? 0) then malformed
          else if bool_decide (name ∈ seen) then
            Err (EErrorf [Lit "wallet.evmchains: duplicate chain "; ArgQ name])
          else if bool_decide (id ∈ seenID) then
            Err (EErrorf [Lit "wallet.evmchains: duplicate chain id "; ArgD id])
          else parse_chains entries ({[name]} ∪ seen) ({[id]} ∪ seenID) (chains ++ [mkEvmChain name id])
      end
  end.

Definition parseEVMChains (entries : list string) : res (list evmChain) :=
  match entries with
  | [] => Err (EErrorf [Lit "wallet.evmchains is empty"])
  | _ => parse_chains entries ∅ ∅ []
  end.

(** ** Trusted proxies *)

(** An entry as a prefix: masked, and unmapped when it is IPv4-mapped. *)
Definition normal_prefix (p : Prefix) : Prefix :=
  let p := Masked p in
  if Is4In6 (pfx_Addr p) then PrefixFrom (Unmap (pfx_Addr p)) (pfx_Bits p - 96) else p.

Fixpoint parseTrustedProxies (entries : list string) : res (list Prefix) :=
  match entries with
  | [] => Ok []
  | e :: entries =>
      match (match ParsePrefix e with
             | Some p => Some p
             | None => (fun a => PrefixFrom a (BitLen a)) <$> ParseAddr e
             end) with
      | None => Err (EErrorf [Lit "server.trustedproxies: "; ArgQ e; Lit " is not a CIDR or IP"])
      | Some p =>
          match parseTrustedProxies entries with
          | Ok ps => Ok (normal_prefix p :: ps)
          | Err err => Err err
          end
      end
  end.

(** ** Validation *)

Section validation.
Context `{UnicodeTables}.

(** An unknown level is an error and also yields info. *)
Definition parseLogLevel (lvl : string) : level * option error :=
  let l := ToLower lvl in
  if strEq l "debug" then (LevelDebug, None)
  else if strEq l "info" || strEq l "" then (LevelInfo, None)
  else if strEq l "warn" then (LevelWarn, None)
  else if strEq l "error" then (LevelError, None)
  else (LevelInfo, Some (EErrorf [Lit "invalid logger.level: "; ArgS lvl;
                                  Lit " (supported: debug, info, warn, error)"])).

Definition validateDevFallbacks (c : Config) : option error :=
  if Dev c then None
  else if strEq (db_URL (DB c)) "" then
    Some (EErrorf [Lit "db.url is empty: set it, or set dev: true (PSINA_DEV) to use the in-memory store"])
  else if strEq (jwt_PrivateKey (JWT c)) "" && strEq (jwt_PrivateKeyPath (JWT c)) "" then
    Some (EErrorf [Lit "no jwt key: set jwt.privatekeypath or jwt.privatekey, or set dev: true (PSINA_DEV) to use an ephemeral key"])
  else None.

Definition validateOAuthClient (name : string) (o : OAuthClientConfig) : option error :=
  let no_uris := match oauth_RedirectURIs o with [] => true | _ => false end in
  if negb (strEq (oauth_ClientID o) "") || negb (strEq (oauth_ClientSecret o) "") || negb no_uris then
    if strEq (oauth_ClientID o) "" || strEq (oauth_ClientSecret o) "" || no_uris then
      Some (EErrorf [Lit "oauth."; ArgS name; Lit " needs clientid, clientsecret and redirecturis together"])
    else None
  else None.

Definition validateWallet (c : Config) : option error :=
  let w := Wallet c in
  match parseEVMChains (wallet_EVMChains w) with
  | Err err => Some err
  | Ok _ =>
      if strEq (wallet_Domain w) "" && strEq (wallet_URI w) "" then None
      else if strEq (wallet_Domain w) "" || strEq (wallet_URI w) "" then
        Some (EErrorf [Lit "wallet needs domain and uri together"])
      else if ContainsAny (wallet_Domain w +:+ wallet_URI w +:+ wallet_Statement w)
                [ascii_of_nat 13; ascii_of_nat 10] then
        Some (EErrorf [Lit "wallet.domain, wallet.uri and wallet.statement must be single-line"])
      else if wallet_ChallengeTTL w <? 0 then
        Some (EErrorf [Lit "wallet.challengettl must not be negative: "; ArgDur (wallet_ChallengeTTL w)])
      else None
  end.

(** [None] is a valid configuration. *)
Definition validateConfig (c : Config) : option error :=
  match validateDevFallbacks c with
  | Some err => Some err
  | None =>
  match parseLogLevel (logger_Level (Logger c)) with
  | (_, Some err) => Some err
  | (_, None) =>
  let format := ToLower (logger_Format (Logger c)) in
  if negb (strEq format "json" || strEq format "text" || strEq format "") then
    Some (EErrorf [Lit "invalid logger.format: "; ArgS (logger_Format (Logger c)); Lit " (supported: json, text)"])
  else if negb (strEq (jwt_Algorithm (JWT c)) "RS256" || strEq (jwt_Algorithm (JWT c)) "ES256") then
    Some (EErrorf [Lit "unsupported JWT algorithm: "; ArgS (jwt_Algorithm (JWT c)); Lit " (supported: RS256, ES256)"])
  else
  match parseTrustedProxies (server_TrustedProxies (Server c)) with
  | Err err => Some err
  | Ok _ =>
  if token_RefreshReuseLeeway (Token c) <? 0 then
    Some (EErrorf [Lit "token.refreshreuseleeway must not be negative: "; ArgDur (token_RefreshReuseLeeway (Token c))])
  else
  let samesite := ToLower (cookie_SameSite (Cookie c)) in
  if negb (strEq samesite "strict" || strEq samesite "lax" || strEq samesite "none" || strEq samesite "") then
    Some (EErrorf [Lit "invalid cookie.samesite: "; ArgS (cookie_SameSite (Cookie c)); Lit " (supported: strict, lax, none)"])
  else if cookie_Enabled (Cookie c) && strEq (cookie_Domain (Cookie c)) "" then
    Some (EErrorf [Lit "cookie.domain is required when cookies are enabled"])
  else
  match validateOAuthClient "google" (oauth_Google (OAuth c)) with
  | Some err => Some err
  | None =>
  match validateOAuthClient "github" (oauth_GitHub (OAuth c)) with
  | Some err => Some err
  | None => validateWallet c
  end end end end end.
End validation.

(** ** The configuration file *)

(** A value of a [map[string]any] as the YAML parser makes it. *)
Inductive value :=
| VNil
| VMap (section : list (string * value))
| VString (s : string)
| VBool (b : bool)
| VInt (z : Z)
| VStrings (l : list string)
| VList (l : list value)
| VOther (text : string).   (* a float or a timestamp *)

(** The two maps [flattenConfig] fills. *)
Record flatMaps := mkFlatMaps { fm_flat : gmap string value; fm_spelling : gmap string string }.

(** The spellings in the order of their bytes. *)
Definition duplicateKeyError (a b : string) : error :=
  let '(a, b) := if String.ltb b a then (b, a) else (a, b) in
  EErrorf [Lit "load config file: duplicate key "; ArgQ a; Lit " and "; ArgQ b].

(** [for key, value := range m { ... }] with a body that may return an error. *)
Definition range_map {A S} (body : string -> A -> S -> res S) : list (string * A) -> S -> res S :=
  fix range (m : list (string * A)) (st : S) : res S :=
    match m with
    | [] => Ok st
    | (key, value) :: m =>
        match body key value st with
        | Ok st => range m st
        | Err err => Err err
        end
    end.

Section file.
Context `{UnicodeTables}.

Definition isNil (v : value) : bool := match v with VNil => true | _ => false end.

(** A leaf, under its path. *)
Definition flatten_leaf (path : string) (v : value) (st : flatMaps) : res flatMaps :=
  let lower := ToLower path in
  match fm_spelling st !! lower with
  | Some prev => Err (duplicateKeyError prev path)
  | None =>
      Ok (mkFlatMaps (if isNil v then fm_flat st else <[lower := v]> (fm_flat st))
            (<[lower := path]> (fm_spelling st)))
  end.

(** One entry: a section is flattened under its path and a dot. *)
Fixpoint flatten_entry (path : string) (v : value) (st : flatMaps) : res flatMaps :=
  match v with
  | VMap section => range_map (fun key => flatten_entry ((path +:+ ".") +:+ key)) section st
  | _ => flatten_leaf path v st
  end.

Definition flattenConfig (m : list (string * value)) (prefix : string) (st : flatMaps) : res flatMaps :=
  range_map (fun key => flatten_entry (prefix +:+ key)) m st.

(** [None] is -1. *)
Definition nextDot (key : string) (i : nat) : option nat :=
  match IndexByte (str_drop (i + 1) key) "." with
  | None => None
  | Some j => Some (i + 1 + j)%nat
  end.

(** The loop over the dots of a key, which looks for a section that is itself a
    key; every round moves on in the key, so its length bounds the rounds. *)
Fixpoint key_section (fuel : nat) (flat : gmap string value) (key : string) (i : option nat) : option string :=
  match i, fuel with
  | Some i, S fuel =>
      match flat !! str_take i key with
      | Some _ => Some (str_take i key)
      | None => key_section fuel flat key (nextDot key i)
      end
  | _, _ => None
  end.

(** The loop over the flat keys. *)
Definition check_sections (keys : list string) (st : flatMaps) : option error :=
  foldr (fun key later =>
    match key_section (String.length key) (fm_flat st) key (IndexByte key ".") with
    | Some section =>
        Some (duplicateKeyError (default "" (fm_spelling st !! section)) (default "" (fm_spelling st !! key)))
    | None => later
    end) None keys.

(** koanf, its parsers and providers, and pflag.  [flag_range] is the order in
    which Go ranges over the flat keys. *)
Class Koanf := {
  koanf : Type;
  koanf_New : koanf;
  Load_confmap : koanf -> gmap string value -> res koanf;
  Load_env : koanf -> string (* prefix *) -> (string -> string) -> res koanf;
  Unmarshal : koanf -> res Config;
  flag_Parse : list string -> res string;        (* the value of --config *)
  file_ReadBytes : string -> res string;
  yaml_Unmarshal : string -> res (list (string * value));
  range_keys : gmap string value -> list string;
  range_keys_perm : forall m, range_keys m ≡ₚ (map_to_list m).*1
}.

Context `{Koanf}.

Definition loadConfigFile (path : string) : res (gmap string value) :=
  match file_ReadBytes path with
  | Err err => Err (wrap "load config file" err)
  | Ok data =>
      match yaml_Unmarshal data with
      | Err err => Err (wrap "load config file" err)
      | Ok raw =>
          match flattenConfig raw "" (mkFlatMaps ∅ ∅) with
          | Err err => Err err
          | Ok st =>
              match check_sections (range_keys (fm_flat st)) st with
              | Some err => Err err
              | None => Ok (fm_flat st)
              end
          end
      end
  end.

Definition defaults : gmap string value := list_to_map [
  ("dev", VBool false);
  ("logger.level", VString "info");
  ("logger.format", VString "json");
  ("server.port", VInt 8080);
  ("db.tableprefix", VString "");
  ("jwt.algorithm", VString "RS256");
  ("token.refreshreuseleeway", VString (Duration_String DefaultRefreshReuseLeeway));
  ("cookie.enabled", VBool false);
  ("cookie.secure", VBool true);
  ("cookie.samesite", VString "strict");
  ("cookie.path", VString "/");
  ("pat.enabled", VBool true);
  ("pat.maxperuser", VInt DefaultPATMaxPerUser);
  ("pat.maxttl", VString "0s");
  ("pat.touchinterval", VString (Duration_String DefaultPATTouchInterval));
  ("oauth.autolinkemail", VBool true);
  ("wallet.challengettl", VString (Duration_String DefaultWalletChallengeTTL));
  ("wallet.evmchains", VStrings ["ethereum=1"])].

(** [strings.ReplaceAll(s, "_", ".")] *)
Definition underscores_to_dots : string -> string :=
  str_map (fun c => if Ascii.eqb c "_" then "."%char else c).

(** PSINA_SERVER_PORT is server.port. *)
Definition env_key (s : string) : string := underscores_to_dots (ToLower (TrimPrefix s "PSINA_")).

(** The list settings, normalized. *)
Definition split_lists (c : Config) : Config :=
  let client o := mkOAuthClientConfig (oauth_ClientID o) (oauth_ClientSecret o) (splitList (oauth_RedirectURIs o)) in
  mkConfig (Dev c) (Logger c)
    (mkServerConfig (server_Port (Server c)) (splitList (server_TrustedProxies (Server c))))
    (DB c) (JWT c) (Token c) (Cookie c) (PAT c)
    (mkOAuthSettings (oauth_AutoLinkEmail (OAuth c)) (client (oauth_Google (OAuth c))) (client (oauth_GitHub (OAuth c))))
    (mkWalletSettings (wallet_Domain (Wallet c)) (wallet_URI (Wallet c)) (wallet_Statement (Wallet c))
       (wallet_ChallengeTTL (Wallet c)) (splitList (wallet_EVMChains (Wallet c)))).

Definition loadConfig (args : list string) : res Config :=
  match Load_confmap koanf_New defaults with
  | Err err => Err (wrap "load defaults" err)
  | Ok k =>
      match flag_Parse args with
      | Err err => Err (wrap "parse flags" err)
      | Ok configFile =>
          match (if strEq configFile "" then Ok k
                 else match loadConfigFile configFile with
                      | Err err => Err err
                      | Ok fileConf =>
                          match Load_confmap k fileConf with
                          | Err err => Err (wrap "load config file" err)
                          | Ok k => Ok k
                          end
                      end) with
          | Err err => Err err
          | Ok k =>
              match Load_env k "PSINA_" env_key with
              | Err err => Err (wrap "load env" err)
              | Ok k =>
                  match Unmarshal k with
                  | Err err => Err (wrap "unmarshal config" err)
                  | Ok config =>
                      let config := split_lists config in
                      match validateConfig config with
                      | Some err => Err (wrap "validate config" err)
                      | None => Ok config
                      end
                  end
              end
          end
      end
  end.
End file.
