(* ===== verification/ConfigFacts.v ===== *)
(** * What the configuration means

    Trusted proxies match exactly the networks the entries write; lists read
    alike from a file and from the environment; chains are named once; a
    configuration file is read the same in every order of its keys. *)

From S2P Require Import Prelude GoStrings GoTime GoFormat Errors Ports Contract ContractFacts Service Wallet GoNetip NetipFacts ClientIP Config.

(** ** Trusted proxies *)

(** A network: the 128 bits of an address of it, and how many of them count. *)
Definition network : Type := Z * Z.

(** The network an entry writes; an IPv4 prefix is one of the IPv4-mapped range. *)
Definition entry_network (e : string) : option network :=
  match ParsePrefix e with
  | Some p => Some (addr128 (pfx_Addr p), pfx_Bits p + (128 - BitLen (pfx_Addr p)))
  | None => (fun a => (addr128 a, 128)) <$> ParseAddr e
  end.

(** An address is of a network when its first bits are; one too wide to be of
    IPv4 addresses has none of them. *)
Definition in_network (n : network) (a : Addr) : Prop :=
  Z.shiftr (addr128 a) (128 - n.2) = Z.shiftr n.1 (128 - n.2) /\ (is4 a = true -> 96 <= n.2).

(** An address as requests show it: parsed, unmapped, without a zone. *)
Definition plain_addr (a : Addr) : Prop := addr_wf a /\ Is4In6 a = false /\ zone a = "".

Lemma parseAddr_plain s a : parseAddr s = Some a -> addr_wf a /\ Is4In6 a = false.
Proof.
  assert (forall x, addr_wf x -> addr_wf (Unmap x) /\ Is4In6 (Unmap x) = false) as Hu.
  { intros x Hx. split; [by apply Unmap_wf|apply Is4In6_Unmap]. }
  unfold parseAddr. destruct (ParseAddrPort (TrimSpace s)) as [[x port]|] eqn:E.
  - intros [= <-]. apply Hu. revert E. unfold ParseAddrPort. destruct (LastIndexByte _ _) as [i|]; [|done].
    destruct (_ || _); [done|]. destruct (_ && _); [done|]. destruct (parse_port _) as [p|]; [|done].
    destruct (ParseAddr _) as [[b|g z]|] eqn:E; [| |done]; apply ParseAddr_wf in E;
      by destruct (HasPrefix _ _); intros [= <- _].
  - destruct (ParseAddr (TrimSpace s)) as [x|] eqn:Ex; [|done]. intros [= <-]. apply Hu. by eapply ParseAddr_wf.
Qed.

Lemma ParsePrefix_wf s p : ParsePrefix s = Some p -> prefix_wf p.
Proof.
  unfold ParsePrefix. destruct (LastIndexByte s "/") as [i|]; [|done].
  destruct (ParseAddr _) as [ip|] eqn:E; [|done]. destruct (negb _); [done|].
  destruct (match str_drop (i + 1) s with EmptyString => _ | String _ _ => _ end); [done|].
  destruct (Atoi _) as [bits|]; [|done]. destruct (_ || _) eqn:Eb; [done|]. intros [= <-].
  apply ParseAddr_wf in E. apply PrefixFrom_wf; [done|]. apply orb_false_elim in Eb. lia.
Qed.

(** The top bits of a number with the IPv4-mapped prefix. *)
Lemma mapped_prefix m k : 0 <= k <= 32 -> m / 2 ^ 32 = 65535 <-> Z.shiftr m k / 2 ^ (32 - k) = 65535.
Proof.
  intros Hk. rewrite Z.shiftr_div_pow2, Z.div_div by (try apply Z.pow_nonzero; lia || apply Z.pow_pos_nonneg; lia).
  rewrite <- Z.pow_add_r by lia. by replace (k + (32 - k)) with 32 by lia.
Qed.

(** A number whose low bits are clear beyond the 32nd is not IPv4-mapped. *)
Lemma mapped_width t k : 32 < k -> t * 2 ^ k / 2 ^ 32 = 65535 -> False.
Proof.
  intros Hk. replace k with (1 + (k - 33) + 32) by lia. rewrite !Z.pow_add_r by lia.
  rewrite Z.mul_assoc, Z.div_mul by done. intros E.
  assert (2 * (t * 2 ^ (k - 33)) = 65535) by (rewrite <- E; change (2 ^ 1) with 2; lia). lia.
Qed.

Lemma plain_mapped a : plain_addr a -> addr128 a / 2 ^ 32 = 65535 <-> is4 a = true.
Proof.
  intros (Hw & Hm & _). destruct (is4 a) eqn:E.
  - destruct a; [|done]. split; [done|]. intros _. by apply addr128_4.
  - rewrite <- (addr128_mapped a Hw E), Hm. done.
Qed.

(** An IPv4 prefix matches by the bits of the IPv4-mapped range. *)
Lemma v4_prefix_contains q a : prefix_wf q -> is4 (pfx_Addr q) = true -> plain_addr a ->
  Prefix_Contains q a = true <->
    Z.shiftr (addr128 a) (free_bits q) = Z.shiftr (addr128 (pfx_Addr q)) (free_bits q).
Proof.
  intros Hq H4 Ha. rewrite Prefix_Contains_top by (done || apply Ha). rewrite H4.
  split; [by intros [_ ->]|]. intros Heq. split; [|done]. symmetry. apply (plain_mapped a Ha).
  destruct Hq as [Hw Hb]. unfold free_bits in *. destruct (pfx_Addr q) as [b|]; [|done]. cbn [BitLen] in *.
  pose proof (addr128_4 b Hw) as HM. rewrite (mapped_prefix _ (32 - pfx_Bits q)) in HM by lia.
  rewrite (mapped_prefix _ (32 - pfx_Bits q)) by lia. by rewrite Heq.
Qed.

(** A masked IPv6 prefix in the IPv4-mapped range has all its marker. *)
Lemma masked_mapped p : prefix_wf p -> is4 (pfx_Addr p) = false ->
  addr128 (pfx_Addr (Masked p)) / 2 ^ 32 = 65535 -> 96 <= pfx_Bits p.
Proof.
  intros Hp H4 HM. destruct (Masked_spec p Hp) as (_ & _ & _ & _ & Hlow). rewrite (Hlow H4) in HM.
  assert (BitLen (pfx_Addr p) = 128) as Hl by by destruct (pfx_Addr p). unfold free_bits in HM. rewrite Hl in HM.
  destruct (Z_le_gt_dec 96 (pfx_Bits p)); [done|]. apply mapped_width in HM; [done|lia].
Qed.

(** The normalized prefix matches the network that was written. *)
Lemma normal_prefix_spec p a : prefix_wf p -> plain_addr a ->
  Prefix_Contains (normal_prefix p) a = true <->
  in_network (addr128 (pfx_Addr p), pfx_Bits p + (128 - BitLen (pfx_Addr p))) a.
Proof.
  intros Hp Ha. destruct (Masked_spec p Hp) as (Hmw & Hm4 & Hmb & Htop & _).
  assert (BitLen (pfx_Addr (Masked p)) = BitLen (pfx_Addr p)) as Hlen.
  { destruct (pfx_Addr p), (pfx_Addr (Masked p)); done. }
  assert (free_bits (Masked p) = free_bits p) as Hfree by (unfold free_bits; rewrite Hlen, Hmb; done).
  unfold in_network. cbn [fst snd].
  replace (128 - (pfx_Bits p + (128 - BitLen (pfx_Addr p)))) with (free_bits p) by (unfold free_bits; lia).
  rewrite <- Htop. unfold normal_prefix. pose proof Hp as [Hpw Hpb].
  destruct (is4 (pfx_Addr p)) eqn:E4.
  - assert (Is4In6 (pfx_Addr (Masked p)) = false) as -> by by destruct (pfx_Addr (Masked p)).
    assert (BitLen (pfx_Addr p) = 32) as Hl by by destruct (pfx_Addr p).
    rewrite v4_prefix_contains, Hfree by done. intuition lia.
  - assert (BitLen (pfx_Addr p) = 128) as Hl by by destruct (pfx_Addr p).
    pose proof (masked_mapped p Hp E4) as Hwide. pose proof (addr128_mapped _ (proj1 Hmw) Hm4) as Hmap.
    destruct (Is4In6 (pfx_Addr (Masked p))) eqn:Em.
    + specialize (Hwide (proj1 Hmap eq_refl)).
      pose proof (Unmap_is4 (pfx_Addr (Masked p))) as Hu4. rewrite Em, orb_true_r in Hu4.
      assert (BitLen (Unmap (pfx_Addr (Masked p))) = 32) as HuL by by destruct (Unmap _).
      destruct (PrefixFrom_wf (Unmap (pfx_Addr (Masked p))) (pfx_Bits (Masked p) - 96)) as (Hqw & Hq & Hq4 & Hqb).
      { apply Unmap_wf, Hmw. } { rewrite HuL, Hmb. lia. }
      rewrite v4_prefix_contains by (done || by rewrite Hq4). rewrite Hq, addr128_Unmap by apply Hmw.
      assert (free_bits (PrefixFrom (Unmap (pfx_Addr (Masked p))) (pfx_Bits (Masked p) - 96)) = free_bits p) as ->.
      { unfold free_bits. rewrite Hqb, Hmb, Hl. cbn [PrefixFrom pfx_Addr]. destruct (Unmap _); [|done]. cbn. lia. }
      intuition lia.
    + rewrite Prefix_Contains_top by (done || apply Ha). rewrite Hm4, Hfree. split; [by intros [<- ->]|].
      intros [Heq Hw4]. split; [|done]. destruct (is4 a) eqn:Ea; [|done]. exfalso.
      specialize (Hw4 eq_refl). pose proof (proj2 (plain_mapped a Ha) Ea) as HA.
      rewrite (mapped_prefix _ (free_bits p)), Heq, <- mapped_prefix in HA by (unfold free_bits; lia).
      by apply Hmap in HA.
Qed.

Lemma entry_prefix e :
  match (match ParsePrefix e with
         | Some p => Some p
         | None => (fun a => PrefixFrom a (BitLen a)) <$> ParseAddr e
         end) with
  | Some p => prefix_wf p /\ entry_network e = Some (addr128 (pfx_Addr p), pfx_Bits p + (128 - BitLen (pfx_Addr p)))
  | None => entry_network e = None
  end.
Proof.
  unfold entry_network. destruct (ParsePrefix e) as [p|] eqn:E; [by apply ParsePrefix_wf in E|].
  destruct (ParseAddr e) as [a|] eqn:Ea; [|done]. cbn [fmap option_fmap option_map].
  apply ParseAddr_wf in Ea. assert (0 <= BitLen a <= BitLen a) as Hb by (destruct a; cbn; lia).
  destruct (PrefixFrom_wf a (BitLen a) Ea Hb) as (Hw & -> & _ & ->). split; [done|]. do 2 f_equal.
  cbn. destruct (withoutZone_same a) as (_ & _ & -> & _). lia.
Qed.

Lemma zoned_not_contained p a : zone a <> "" -> Prefix_Contains p a = false.
Proof.
  intros Hz. unfold Prefix_Contains. destruct (_ <? 0); [done|].
  destruct (pfx_Addr p), a as [|g z]; try done. by destruct z.
Qed.

(** C37. The trusted proxies are the ones written: an address taken from a request
    is trusted exactly when it has no zone and lies in the network of an entry,
    a CIDR or a single address, IPv4 in either spelling; the list is refused for
    its first entry that is neither. *)
Theorem parseTrustedProxies_exact entries :
  match parseTrustedProxies entries with
  | Ok ps =>
      Forall (fun e => is_Some (entry_network e)) entries /\
      forall s a, parseAddr s = Some a ->
        trusted ps a = true <-> zone a = "" /\ exists e n, e ∈ entries /\ entry_network e = Some n /\ in_network n a
  | Err err =>
      exists before e after, entries = before ++ e :: after /\ entry_network e = None /\
        Forall (fun e => is_Some (entry_network e)) before /\
        err = EErrorf [Lit "server.trustedproxies: "; ArgQ e; Lit " is not a CIDR or IP"]
  end.
Proof.
  induction entries as [|e es IH]; cbn.
  { split; [done|]. intros s a _. split; [done|]. by intros (_ & e & n & He%elem_of_nil & _). }
  pose proof (entry_prefix e) as He. destruct (match ParsePrefix e with Some p => Some p | None => _ end) as [p|].
  - destruct He as [Hp Hn]. destruct (parseTrustedProxies es) as [ps|err].
    + destruct IH as [Hall IH]. split; [by constructor; [eexists|]|]. intros s a Hs. cbn.
      pose proof (parseAddr_plain s a Hs) as [Hw Hm]. unfold trusted in *. rewrite orb_true_iff, (IH s a Hs).
      destruct (decide (zone a = "")) as [Hz|Hz].
      * rewrite (normal_prefix_spec p a Hp) by by split_and!. setoid_rewrite elem_of_cons. naive_solver.
      * rewrite zoned_not_contained by done. naive_solver.
    + destruct IH as (before & e' & after & -> & He' & Hb & ->). exists (e :: before), e', after.
      split_and!; [done..| |done]. by constructor; [eexists|].
  - exists [], e, es. split_and!; done.
Qed.

Lemma parseTrustedProxies_exact_witness :
  parseAddr "192.168.3.4" = Some (Addr4 [192; 168; 3; 4]) /\
  exists e n, e ∈ ["10.0.0.0/8"; "::ffff:192.168.0.0/112"] /\ entry_network e = Some n /\
    in_network n (Addr4 [192; 168; 3; 4]).
Proof.
  split; [reflexivity|]. pose proof (parseTrustedProxies_exact ["10.0.0.0/8"; "::ffff:192.168.0.0/112"]) as [_ H].
  apply (H "192.168.3.4"); reflexivity.
Defined.

(** ** Lists *)

Lemma Split_app_sep a b c : Split (a +:+ String c b) c = Split a c ++ Split b c.
Proof.
  induction a as [|d a IH]; cbn; [by rewrite Ascii.eqb_refl|].
  destruct (Ascii.eqb d c); [by rewrite IH|]. rewrite IH.
  pose proof (Split_nonempty a c). by destruct (Split a c).
Qed.

Lemma Split_Join l c : l <> [] -> Split (Join l (String c "")) c = flat_map (fun s => Split s c) l.
Proof.
  intros Hl. induction l as [|x l IH]; [done|]. destruct l as [|y l]; [cbn; by rewrite app_nil_r|].
  change (Join (x :: y :: l) (String c "")) with (x +:+ String c (Join (y :: l) (String c ""))).
  rewrite Split_app_sep, IH by done. done.
Qed.

Lemma Split_pieces s c w : w ∈ Split s c -> ContainsByte w c = false.
Proof.
  revert w. induction s as [|d s IH]; intros w; cbn; [by intros ->%list_elem_of_singleton|].
  destruct (Ascii.eqb d c) eqn:E; [intros [->|?]%elem_of_cons; auto|].
  pose proof (Split_nonempty s c). destruct (Split s c) as [|x l]; [done|].
  intros [->|Hw]%elem_of_cons; [cbn; rewrite E; apply IH; left|]. apply IH. by right.
Qed.

Lemma TrimSpace_infix s : exists a b, s = a +:+ TrimSpace s +:+ b.
Proof.
  destruct (trim_segments_infix (segments s)) as (k1 & k2 & E). exists (unsegment k1), (unsegment k2).
  unfold TrimSpace. rewrite <- !unsegment_app, <- E. by rewrite unsegment_segments.
Qed.

Lemma TrimSpace_no_byte s c : ContainsByte s c = false -> ContainsByte (TrimSpace s) c = false.
Proof.
  destruct (TrimSpace_infix s) as (a & b & E). rewrite E at 1. rewrite !ContainsByte_app.
  intros [_ [H _]%orb_false_elim]%orb_false_elim. done.
Qed.

Lemma elem_of_splitList l item : item ∈ splitList l <-> exists v w, v ∈ l /\ w ∈ Split v "," /\ item = TrimSpace w /\ item <> "".
Proof.
  unfold splitList. rewrite list_elem_of_In, in_flat_map. setoid_rewrite <- list_elem_of_In.
  setoid_rewrite list_elem_of_filter. setoid_rewrite list_elem_of_fmap. naive_solver.
Qed.

Definition list_item (item : string) : Prop :=
  item <> "" /\ TrimSpace item = item /\ ContainsByte item "," = false.

Lemma splitList_item l item : item ∈ splitList l -> list_item item.
Proof.
  intros (v & w & _ & Hw & -> & Hne)%elem_of_splitList. split_and!; [done|apply TrimSpace_idemp|].
  by eapply TrimSpace_no_byte, Split_pieces.
Qed.

Lemma splitList_items l : Forall list_item l -> splitList l = l.
Proof.
  induction 1 as [|x l (Hne & Ht & Hc) _ IH]; [done|]. unfold splitList in *. cbn [flat_map].
  rewrite IH, Split_no_sep by done. rewrite fmap_cons, fmap_nil, Ht. by rewrite filter_cons_True, filter_nil by done.
Qed.

(** A list setting reads alike from the environment and from a file: the
    items joined by commas mean what the items mean one by one; the result holds
    trimmed, non-empty items without commas, and is left as it is. *)
Theorem splitList_forms l :
  splitList [Join l ","] = splitList l /\ Forall list_item (splitList l) /\
  splitList (splitList l) = splitList l /\
  forall item, item ∈ splitList l <-> exists v w, v ∈ l /\ w ∈ Split v "," /\ item = TrimSpace w /\ item <> "".
Proof.
  assert (Forall list_item (splitList l)) as Hi by (apply Forall_forall; intros x; apply splitList_item).
  split_and!; [|done|by apply splitList_items|apply elem_of_splitList].
  destruct (decide (l = [])) as [->|Hl]; [reflexivity|].
  unfold splitList. cbn [flat_map]. rewrite app_nil_r, Split_Join by done. clear Hi Hl.
  induction l as [|x l IH]; [done|]. cbn [flat_map]. rewrite fmap_app, filter_app, IH. done.
Qed.

(** ** Chains *)

(** What an entry writes: name=chainID. *)
Definition names_chain (entry : string) (c : evmChain) : Prop :=
  exists name rawID, entry = name +:+ "=" +:+ rawID /\ ContainsByte name "=" = false /\
    chain_Name c = TrimSpace name /\ chain_Name c <> "" /\ Atoi (TrimSpace rawID) = Some (chain_ID c) /\ 0 < chain_ID c.

Lemma Cut_spec s c : match Cut s c with
  | (a, b, true) => s = a +:+ String c b /\ ContainsByte a c = false
  | (a, b, false) => a = s /\ b = "" /\ ContainsByte s c = false
  end.
Proof.
  induction s as [|d s IH]; cbn; [done|]. destruct (Ascii.eqb d c) eqn:E.
  - apply Ascii.eqb_eq in E as ->. done.
  - destruct (Cut s c) as [[a b] []]; cbn; rewrite ?E; naive_solver.
Qed.

Lemma Cut_first a b c : ContainsByte a c = false -> Cut (a +:+ String c b) c = (a, b, true).
Proof.
  induction a as [|d a IH]; cbn; [by rewrite Ascii.eqb_refl|]. intros [-> Ha]%orb_false_elim. by rewrite IH.
Qed.

(** An entry is read as the chain it names, or refused. *)
Lemma names_chain_read e c name rawID ok : Cut e "=" = (name, rawID, ok) ->
  names_chain e c <-> ok = true /\ chain_Name c = TrimSpace name /\ chain_Name c <> "" /\
    Atoi (TrimSpace rawID) = Some (chain_ID c) /\ 0 < chain_ID c.
Proof.
  intros E. pose proof (Cut_spec e "=") as Hc. rewrite E in Hc. split.
  - intros (n & r & -> & Hno & Hn). pose proof (Cut_first n r "=" Hno) as H1.
    change (n +:+ "=" +:+ r) with (n +:+ String "=" r) in E. rewrite H1 in E. injection E as -> -> <-. tauto.
  - intros (-> & Hn). destruct Hc as [-> Hno]. exists name, rawID. tauto.
Qed.

(** The chains an accepted list adds to those already read. *)
Definition fresh_chains (entries : list string) (seen : gset string) (seenID : gset Z) (cs : list evmChain) : Prop :=
  Forall2 names_chain entries cs /\ NoDup (chain_Name <$> cs) /\ NoDup (chain_ID <$> cs) /\
  forall c, c ∈ cs -> chain_Name c ∉ seen /\ chain_ID c ∉ seenID.

Lemma fresh_chains_cons e es seen seenID cs : fresh_chains (e :: es) seen seenID cs <->
  exists c cs', cs = c :: cs' /\ names_chain e c /\ chain_Name c ∉ seen /\ chain_ID c ∉ seenID /\
    fresh_chains es ({[chain_Name c]} ∪ seen) ({[chain_ID c]} ∪ seenID) cs'.
Proof.
  unfold fresh_chains. split.
  - intros ((c & cs' & He & HF & ->)%Forall2_cons_inv_l & [Hn Hn']%NoDup_cons & [Hi Hi']%NoDup_cons & Hd).
    exists c, cs'. destruct (Hd c ltac:(left)) as [Hs Hs']. split_and!; [done..|].
    intros d Hd'. destruct (Hd d ltac:(by right)). rewrite !not_elem_of_union, !not_elem_of_singleton.
    split_and!; [|done| |done]; intros E; [apply Hn|apply Hi]; rewrite <- E; by apply list_elem_of_fmap_2.
  - intros (c & cs' & -> & He & Hs & Hs' & HF & Hn & Hi & Hd). split_and!; [by constructor| | |].
    + cbn. constructor; [|done]. intros (d & Hc & Hd')%list_elem_of_fmap. destruct (Hd d Hd'). set_solver.
    + cbn. constructor; [|done]. intros (d & Hc & Hd')%list_elem_of_fmap. destruct (Hd d Hd'). set_solver.
    + intros d [->|Hd']%elem_of_cons; [done|]. destruct (Hd d Hd'). set_solver.
Qed.

Lemma parse_chains_spec entries seen seenID acc chains :
  parse_chains entries seen seenID acc = Ok chains <->
  exists cs, chains = acc ++ cs /\ fresh_chains entries seen seenID cs.
Proof.
  revert seen seenID acc. induction entries as [|e es IH]; intros seen seenID acc; cbn [parse_chains].
  { split; [intros [= <-]|intros (cs & -> & Hcs & _); inversion Hcs; by rewrite app_nil_r].
    exists []. rewrite app_nil_r. split; [done|]. split_and!; [constructor..|]. by intros c Hc%elem_of_nil. }
  setoid_rewrite fresh_chains_cons. destruct (Cut e "=") as [[name rawID] ok] eqn:Ec.
  assert (forall c, names_chain e c -> ok = true /\ chain_Name c = TrimSpace name /\ chain_Name c <> "" /\
    Atoi (TrimSpace rawID) = Some (chain_ID c) /\ 0 < chain_ID c) as Hr by (intros c; by eapply names_chain_read).
  destruct (Atoi (TrimSpace rawID)) as [id|] eqn:Ei.
  2:{ split; [done|]. intros (_ & _ & c & _ & _ & (_ & _ & _ & ? & _)%Hr & _). done. }
  destruct (negb ok || _ || _) eqn:Eb.
  { split; [done|]. intros (_ & _ & c & _ & _ & (-> & Hn & Hne & [= Hid] & Hp)%Hr & _).
    rewrite bool_decide_eq_false_2 in Eb by congruence. cbn in Eb. lia. }
  apply orb_false_elim in Eb as [[Hok Hne]%orb_false_elim Hp]. apply negb_false_iff in Hok as ->.
  apply bool_decide_eq_false in Hne.
  case_bool_decide as Hs.
  { split; [done|]. intros (_ & _ & c & _ & _ & (_ & Hn & _)%Hr & Hs' & _). congruence. }
  case_bool_decide as Hs'.
  { split; [done|]. intros (_ & _ & c & _ & _ & (_ & _ & _ & [= Hid] & _)%Hr & _ & Hi & _). congruence. }
  rewrite IH. split.
  - intros (cs & -> & Hf). exists (mkEvmChain (TrimSpace name) id :: cs). rewrite <- app_assoc. split; [done|].
    eexists _, cs. split_and!; [done| |done..]. apply (names_chain_read _ _ _ _ _ Ec). cbn. split_and!; done || lia.
  - intros (_ & -> & [cn ci] & cs & -> & (_ & HN & _ & [= ->] & _)%Hr & _ & _ & Hf). cbn in HN, Hf. subst cn.
    exists cs. by rewrite <- app_assoc.
Qed.

Lemma parseEVMChains_spec entries chains : parseEVMChains entries = Ok chains <->
  entries <> [] /\ Forall2 names_chain entries chains /\
  NoDup (chain_Name <$> chains) /\ NoDup (chain_ID <$> chains).
Proof.
  unfold parseEVMChains. destruct entries as [|e es] eqn:E; [naive_solver|].
  rewrite <- E, parse_chains_spec. split.
  - intros (cs & -> & ? & ? & ? & _). split_and!; [by subst|done..].
  - intros (_ & ? & ? & ?). exists chains. split; [done|]. split_and!; [done..|]. intros c _. set_solver.
Qed.

(** C39. The chains are the ones written, each once: a list is accepted exactly
    when it is not empty, every entry is a name, an equals sign and an id that
    is a positive int, and no name and no id appears twice. Chains written out
    as name=id, with distinct trimmed names and distinct ids, are read back. *)
Theorem parseEVMChains_exact entries :
  (forall chains, parseEVMChains entries = Ok chains <->
     entries <> [] /\ Forall2 names_chain entries chains /\
     NoDup (chain_Name <$> chains) /\ NoDup (chain_ID <$> chains)) /\
  (forall chains c, parseEVMChains entries = Ok chains -> c ∈ chains -> 0 < chain_ID c <= MaxInt) /\
  (forall chains, chains <> [] -> NoDup (chain_Name <$> chains) -> NoDup (chain_ID <$> chains) ->
     Forall (fun c => list_item (chain_Name c) /\ ContainsByte (chain_Name c) "=" = false /\
                      0 < chain_ID c <= MaxInt) chains ->
     parseEVMChains ((fun c => chain_Name c +:+ "=" +:+ Itoa (chain_ID c)) <$> chains) = Ok chains).
Proof.
  split; [apply parseEVMChains_spec|split].
  - intros chains c (_ & HF & _)%parseEVMChains_spec [i Hi]%list_elem_of_lookup.
    destruct (Forall2_lookup_r _ _ _ _ _ HF Hi) as (e & _ & n & r & _ & _ & _ & _ & Ha & Hp).
    apply Atoi_bounds in Ha. lia.
  - intros chains Hne Hn Hi Hw. apply parseEVMChains_spec. split_and!; [by destruct chains| |done..]. apply Forall2_fmap_l.
    clear Hne Hn Hi. induction Hw as [|c cs ((Hne & Ht & _) & He & Hb) _ IH]; constructor; [|done].
    exists (chain_Name c), (Itoa (chain_ID c)).
    rewrite Ht, TrimSpace_Itoa, Atoi_Itoa by (unfold MinInt; lia). split_and!; done || lia.
Qed.

Lemma parseEVMChains_exact_witness :
  parseEVMChains ["ethereum=1"; "polygon=137"] = Ok [mkEvmChain "ethereum" 1; mkEvmChain "polygon" 137] /\
  0 < 137 <= MaxInt.
Proof.
  assert (parseEVMChains ["ethereum=1"; "polygon=137"] = Ok [mkEvmChain "ethereum" 1; mkEvmChain "polygon" 137]) as Hp
    by reflexivity.
  split; [exact Hp|]. destruct (parseEVMChains_exact ["ethereum=1"; "polygon=137"]) as (_ & Hb & _).
  apply (Hb _ (mkEvmChain "polygon" 137) Hp). set_solver.
Defined.
