(* ===== verification/ConfigFile.v ===== *)
(** * Reading a configuration file

    A file is a tree of maps; it is read as its leaves, keyed by their
    lowercased paths, whatever the order in which Go ranges over the maps. *)

From S2P Require Import Prelude GoStrings GoFormat Errors Ports Contract Config.

(** ** Leaves *)

Section leaves.
Context `{UnicodeTables}.

(** The leaves at and below an entry, under their paths as written. *)
Fixpoint entry_leaves (path : string) (v : value) : list (string * value) :=
  match v with
  | VMap section => flat_map (fun kv => entry_leaves ((path +:+ ".") +:+ kv.1) kv.2) section
  | _ => [(path, v)]
  end.

Definition leaves (m : list (string * value)) (prefix : string) : list (string * value) :=
  flat_map (fun kv => entry_leaves (prefix +:+ kv.1) kv.2) m.

(** Two maps with the same entries, in any order at any depth. *)
Inductive reordered : list (string * value) -> list (string * value) -> Prop :=
| reordered_perm m m' : m ≡ₚ m' -> reordered m m'
| reordered_section key s s' m : reordered s s' -> reordered ((key, VMap s) :: m) ((key, VMap s') :: m)
| reordered_trans m1 m2 m3 : reordered m1 m2 -> reordered m2 m3 -> reordered m1 m3.

Lemma reordered_leaves m m' prefix : reordered m m' -> leaves m prefix ≡ₚ leaves m' prefix.
Proof.
  intros Hr. revert prefix. induction Hr as [m m' Hp|key s s' m _ IH|m1 m2 m3 _ IH1 _ IH2]; intros prefix.
  - by apply Permutation_flat_map.
  - unfold leaves in *. cbn [flat_map fst snd entry_leaves]. by rewrite IH.
  - by rewrite IH1.
Qed.

(** Induction on values, with the values of a section. *)
Lemma value_nested_ind (P : value -> Prop) :
  (forall m, Forall (fun kv => P kv.2) m -> P (VMap m)) ->
  (forall v, (forall m, v <> VMap m) -> P v) -> forall v, P v.
Proof.
  intros Hm Hl. fix IH 1. intros v. destruct v as [|m| | | | | |]; try by apply Hl.
  apply Hm. induction m as [|[k v] m IHm]; constructor; [apply IH|apply IHm].
Qed.

Lemma range_map_app {A S} (body : string -> A -> S -> res S) m m' st :
  range_map body (m ++ m') st = match range_map body m st with Ok st => range_map body m' st | Err e => Err e end.
Proof.
  revert st. induction m as [|[k v] m IH]; intros st; [done|]. cbn. destruct (body k v st); [apply IH|done].
Qed.

(** Flattening adds the leaves, one after the other. *)
Lemma range_map_leaves (path : string -> string) m :
  Forall (fun kv => forall p st, flatten_entry p kv.2 st = range_map flatten_leaf (entry_leaves p kv.2) st) m ->
  forall st, range_map (fun key => flatten_entry (path key)) m st =
             range_map flatten_leaf (flat_map (fun kv => entry_leaves (path kv.1) kv.2) m) st.
Proof.
  induction 1 as [|[k v] m Hv _ IH]; intros st; [done|]. cbn in *. rewrite range_map_app, Hv.
  destruct (range_map _ _ _); [apply IH|done].
Qed.

Lemma flatten_entry_leaves v path st : flatten_entry path v st = range_map flatten_leaf (entry_leaves path v) st.
Proof.
  revert path st. induction v as [m IH|v Hv] using value_nested_ind; intros path st.
  - cbn [flatten_entry entry_leaves]. by rewrite (range_map_leaves (fun k => (path +:+ ".") +:+ k)).
  - destruct v as [|m| | | | | |]; try by cbn; destruct (flatten_leaf _ _ _). by destruct (Hv m).
Qed.

Lemma flattenConfig_leaves m prefix st : flattenConfig m prefix st = range_map flatten_leaf (leaves m prefix) st.
Proof.
  unfold flattenConfig, leaves. rewrite (range_map_leaves (fun k => prefix +:+ k)); [done|].
  apply Forall_true. intros kv p st'. apply flatten_entry_leaves.
Qed.

(** ** The two maps *)

(** The maps hold the leaves [ls]. *)
Definition holds (ls : list (string * value)) (st : flatMaps) : Prop :=
  NoDup (ToLower <$> ls.*1) /\
  (forall k p, fm_spelling st !! k = Some p <-> p ∈ ls.*1 /\ ToLower p = k) /\
  (forall k v, fm_flat st !! k = Some v <-> isNil v = false /\ exists p, (p, v) ∈ ls /\ ToLower p = k).

Lemma flatten_leaf_spec ls st path v : holds ls st ->
  match flatten_leaf path v st with
  | Ok st' => holds (ls ++ [(path, v)]) st'
  | Err e => exists prev, prev ∈ ls.*1 /\ ToLower prev = ToLower path /\ e = duplicateKeyError prev path
  end.
Proof.
  intros (Hnd & Hs & Hf). unfold flatten_leaf. destruct (fm_spelling st !! ToLower path) as [prev|] eqn:E.
  { apply Hs in E as [Hp Hl]. by exists prev. }
  assert (ToLower path ∉ ToLower <$> ls.*1) as Hfresh.
  { intros (p & Hl & Hp)%list_elem_of_fmap. assert (fm_spelling st !! ToLower path = Some p) by by apply Hs. congruence. }
  assert (fm_flat st !! ToLower path = None) as Hnone.
  { apply eq_None_not_Some. intros [w (_ & p & Hp & Hl)%Hf]. apply Hfresh. rewrite <- Hl.
    apply list_elem_of_fmap_2. by apply (list_elem_of_fmap_2 fst) in Hp. }
  unfold holds. rewrite !fmap_app. cbn [fm_flat fm_spelling fmap list_fmap]. split_and!.
  - apply NoDup_app. split_and!; [done| |apply NoDup_singleton]. intros x Hx Hx'.
    apply list_elem_of_singleton in Hx' as ->. done.
  - intros k p. rewrite lookup_insert_Some, Hs, elem_of_app, list_elem_of_singleton. cbn. split; [naive_solver|].
    intros [[Hp| ->] <-]; [|by left]. right. split; [|done]. intros Heq. apply Hfresh. rewrite Heq. by apply list_elem_of_fmap_2.
  - intros k w. setoid_rewrite elem_of_app. setoid_rewrite list_elem_of_singleton. destruct (isNil v) eqn:En.
    + rewrite Hf. split; intros (Hw & p & Hp & Hk); split; [done| |done|].
      * exists p. by split; [left|].
      * destruct Hp as [Hp|[= -> ->]]; [by exists p|congruence].
    + rewrite lookup_insert_Some, Hf. split.
      { intros [[<- <-]|[_ (Hw & p & Hp & Hk)]]; [by eauto|]. split; [done|]. exists p. by split; [left|]. }
      intros (Hw & p & [Hp|[= -> ->]] & <-); [|by left].
      right. split; [|by eauto]. intros Heq. apply Hfresh. rewrite Heq. apply list_elem_of_fmap_2.
      by apply (list_elem_of_fmap_2 fst) in Hp.
Qed.

Lemma flatten_leaves_spec ls done st : holds done st ->
  match range_map flatten_leaf ls st with
  | Ok st' => holds (done ++ ls) st'
  | Err e => exists l1 path v l2 prev, ls = l1 ++ (path, v) :: l2 /\ prev ∈ (done ++ l1).*1 /\
               ToLower prev = ToLower path /\ e = duplicateKeyError prev path
  end.
Proof.
  revert done st. induction ls as [|[path v] ls IH]; intros done st Hd; cbn [range_map]; [by rewrite app_nil_r|].
  pose proof (flatten_leaf_spec done st path v Hd) as Hl. destruct (flatten_leaf path v st) as [st'|e].
  - specialize (IH _ _ Hl). destruct (range_map _ _ _) as [st''|e]; [by rewrite <- app_assoc in IH|].
    destruct IH as (l1 & q & w & l2 & prev & -> & Hp & Heq & ->). rewrite <- app_assoc in Hp.
    by exists ((path, v) :: l1), q, w, l2, prev.
  - destruct Hl as (prev & Hp & Heq & ->). exists [], path, v, ls, prev. by rewrite app_nil_r.
Qed.

(** ** Keys that are also sections *)

Lemma IndexByte_spec s c :
  match IndexByte s c with
  | Some n => exists a b, s = a +:+ String c b /\ String.length a = n /\ ContainsByte a c = false
  | None => ContainsByte s c = false
  end.
Proof.
  induction s as [|d s IH]; cbn; [done|]. destruct (Ascii.eqb d c) eqn:E.
  - apply Ascii.eqb_eq in E as ->. by exists "", s.
  - destruct (IndexByte s c) as [n|]; cbn; [|done]. destruct IH as (a & b & -> & <- & Ha).
    exists (String d a), b. cbn. by rewrite E.
Qed.

(** Two places of a byte in one string. *)
Lemma two_places a b s t c : a +:+ String c b = s +:+ String c t -> (String.length a <= String.length s)%nat ->
  s = a \/ exists s', s = a +:+ String c s' /\ b = s' +:+ String c t.
Proof.
  revert s. induction a as [|d a IH]; intros [|e s]; cbn; intros E Hl; [by left| |lia|].
  - injection E as <- ->. right. by exists s.
  - injection E as <- E. destruct (IH s E ltac:(lia)) as [-> |(s' & -> & ->)]; [by left|right; by exists s'].
Qed.

Definition section_of (s key : string) : Prop := exists t, key = s +:+ "." +:+ t.

Lemma key_section_spec fuel flat a b : (String.length b < fuel)%nat ->
  match key_section fuel flat (a +:+ "." +:+ b) (Some (String.length a)) with
  | Some s => section_of s (a +:+ "." +:+ b) /\ is_Some (flat !! s)
  | None => forall s t, a +:+ "." +:+ b = s +:+ "." +:+ t -> (String.length a <= String.length s)%nat -> flat !! s = None
  end.
Proof.
  revert a b. induction fuel as [|fuel IH]; intros a b Hf; [lia|]. cbn [key_section].
  change (a +:+ "." +:+ b) with (a +:+ String "." b). rewrite str_take_app.
  destruct (flat !! a) as [v|] eqn:Ea; [split; [by exists b|by rewrite Ea]|].
  assert (nextDot (a +:+ String "." b) (String.length a) =
          option_map (fun j => String.length a + 1 + j)%nat (IndexByte b ".")) as ->.
  { unfold nextDot. replace (String.length a + 1)%nat with (String.length (a +:+ ".")) by by rewrite str_length_app.
    change (a +:+ String "." b) with (a +:+ ("." +:+ b)). rewrite str_app_assoc, str_drop_app.
    by destruct (IndexByte b "."). }
  pose proof (IndexByte_spec b ".") as Hi. destruct (IndexByte b ".") as [j|]; cbn [option_map].
  - destruct Hi as (b1 & b2 & -> & <- & Hno).
    replace (String.length a + 1 + String.length b1)%nat with (String.length (a +:+ "." +:+ b1))
      by (rewrite !str_length_app; cbn; lia).
    replace (a +:+ String "." (b1 +:+ String "." b2)) with ((a +:+ "." +:+ b1) +:+ "." +:+ b2)
      by by rewrite <- !str_app_assoc.
    rewrite str_length_app in Hf. cbn in Hf. specialize (IH (a +:+ "." +:+ b1) b2 ltac:(lia)).
    destruct (key_section _ _ _ _) as [s|]; [done|]. intros s t E Hl.
    rewrite <- !str_app_assoc in E. destruct (two_places a _ s t "." E Hl) as [-> |(s' & -> & E')]; [done|].
    change (b1 +:+ String "." b2 = s' +:+ String "." t) in E'.
    apply (IH _ t); [|rewrite !str_length_app; cbn].
    + change (a +:+ String "." s') with (a +:+ "." +:+ s'). rewrite <- !str_app_assoc.
      change (a +:+ "." +:+ (b1 +:+ String "." b2) = a +:+ "." +:+ (s' +:+ String "." t)). by rewrite E'.
    + destruct (le_lt_dec (String.length b1) (String.length s')); [lia|]. exfalso.
      symmetry in E'. destruct (two_places s' t b1 b2 "." E' ltac:(lia)) as [-> |(u & -> & _)]; [lia|].
      rewrite ContainsByte_app in Hno. cbn in Hno. by rewrite orb_true_r in Hno.
  - assert (forall k, key_section fuel flat k None = None) as -> by by destruct fuel.
    intros s t E Hl. destruct (two_places a b s t "." E Hl) as [-> |(s' & -> & ->)]; [done|].
    rewrite ContainsByte_app in Hi. cbn in Hi. by rewrite orb_true_r in Hi.
Qed.

(** A key has a section among the keys, or none of its prefixes at a dot is one. *)
Lemma key_section_enough flat key :
  match key_section (String.length key) flat key (IndexByte key ".") with
  | Some s => section_of s key /\ is_Some (flat !! s)
  | None => forall s, section_of s key -> flat !! s = None
  end.
Proof.
  pose proof (IndexByte_spec key ".") as Hi. destruct (IndexByte key ".") as [n|].
  - destruct Hi as (a & b & -> & <- & Hno). change (a +:+ String "." b) with (a +:+ "." +:+ b).
    assert (String.length b < String.length (a +:+ "." +:+ b))%nat as Hlt by (rewrite !str_length_app; cbn; lia).
    pose proof (key_section_spec (String.length (a +:+ "." +:+ b)) flat a b Hlt) as Hk.
    destruct (key_section _ _ _ _) as [s|]; [done|].
    intros s [t E]. apply (Hk s t E).
    destruct (le_lt_dec (String.length a) (String.length s)); [done|]. symmetry in E.
    destruct (two_places s t a b "." E ltac:(lia)) as [<- |(u & -> & _)]; [done|].
    rewrite ContainsByte_app in Hno. cbn in Hno. by rewrite orb_true_r in Hno.
  - assert (forall s, ~ section_of s key) as Hno.
    { intros s [t ->]. rewrite ContainsByte_app in Hi. cbn in Hi. by rewrite orb_true_r in Hi. }
    assert (key_section (String.length key) flat key None = None) as -> by by destruct key.
    intros s Hs. by destruct (Hno s).
Qed.

Lemma check_sections_spec keys st :
  match check_sections keys st with
  | Some e => exists key s, key ∈ keys /\ section_of s key /\ is_Some (fm_flat st !! s) /\
                e = duplicateKeyError (default "" (fm_spelling st !! s)) (default "" (fm_spelling st !! key))
  | None => forall key s, key ∈ keys -> section_of s key -> fm_flat st !! s = None
  end.
Proof.
  induction keys as [|key keys IH]; cbn; [by intros ? ? ?%elem_of_nil|].
  pose proof (key_section_enough (fm_flat st) key) as Hk. destruct (key_section _ _ _ _) as [s|].
  - destruct Hk as [Hs Hf]. exists key, s. split_and!; [left|done..].
  - fold (check_sections keys st). destruct (check_sections keys st) as [e|].
    + destruct IH as (k & s & Hk' & ?). exists k, s. split; [by right|done].
    + intros k s [->|?]%elem_of_cons; [apply Hk|by apply IH].
Qed.
End leaves.

(** ** The file *)

Section file.
Context `{UnicodeTables, Koanf}.

(** The keys a tree sets and their values: no two leaves have one spelling in
    small letters, and none that is set is a section of another. *)
Definition well_spelled (ls : list (string * value)) : Prop :=
  NoDup (ToLower <$> ls.*1) /\
  forall p v q w, (p, v) ∈ ls -> isNil v = false -> (q, w) ∈ ls -> isNil w = false ->
    ~ section_of (ToLower p) (ToLower q).

Definition reads_as (ls : list (string * value)) (flat : gmap string value) : Prop :=
  forall k v, flat !! k = Some v <-> isNil v = false /\ exists p, (p, v) ∈ ls /\ ToLower p = k.

Lemma loadConfigFile_leaves path data raw :
  file_ReadBytes path = Ok data -> yaml_Unmarshal data = Ok raw ->
  match loadConfigFile path with
  | Ok flat => well_spelled (leaves raw "") /\ reads_as (leaves raw "") flat
  | Err e => ~ well_spelled (leaves raw "") /\
      exists p q, p ∈ (leaves raw "").*1 /\ q ∈ (leaves raw "").*1 /\ e = duplicateKeyError p q /\
        (ToLower p = ToLower q \/ section_of (ToLower p) (ToLower q))
  end.
Proof.
  intros Hd Hr. unfold loadConfigFile. rewrite Hd, Hr, flattenConfig_leaves.
  assert (holds [] (mkFlatMaps ∅ ∅)) as Hempty.
  { split; [constructor|]. split; intros k x; cbn; rewrite lookup_empty; set_solver. }
  pose proof (flatten_leaves_spec (leaves raw "") [] _ Hempty) as Hl. generalize dependent (leaves raw ""). intros ls Hl.
  destruct (range_map flatten_leaf ls _) as [st|e].
  - destruct Hl as (Hnd & Hs & Hf). pose proof (check_sections_spec (range_keys (fm_flat st)) st) as Hc.
    assert (forall k, k ∈ range_keys (fm_flat st) <-> is_Some (fm_flat st !! k)) as Hk.
    { intros k. rewrite range_keys_perm, list_elem_of_fmap. split.
      - intros ([? v] & -> & Hv%elem_of_map_to_list). by exists v.
      - intros [v Hv%elem_of_map_to_list]. by exists (k, v). }
    assert (forall k, is_Some (fm_flat st !! k) -> exists p v, (p, v) ∈ ls /\ isNil v = false /\ ToLower p = k /\
      fm_spelling st !! k = Some p) as Hset.
    { intros k [v (Hv & p & Hp & Hl)%Hf]. exists p, v. split_and!; [done..|]. apply Hs. split; [|done].
      by apply (list_elem_of_fmap_2 fst) in Hp. }
    destruct (check_sections _ st) as [e|].
    + destruct Hc as (key & s & Hkey%Hk & Hsec & Hss & ->).
      destruct (Hset s Hss) as (p & v & Hp & Hv & <- & ->). destruct (Hset key Hkey) as (q & w & Hq & Hw & <- & ->).
      split; [intros [_ Hno]; by apply (Hno p v q w)|]. exists p, q. split_and!; [..|done|by right].
      * by apply (list_elem_of_fmap_2 fst) in Hp.
      * by apply (list_elem_of_fmap_2 fst) in Hq.
    + split; [|done]. split; [done|]. intros p v q w Hp Hv Hq Hw Hsec.
      assert (fm_flat st !! ToLower p = Some v) as Hfp by (apply Hf; eauto).
      assert (fm_flat st !! ToLower q = Some w) as Hfq by (apply Hf; eauto).
      rewrite (Hc (ToLower q) (ToLower p)) in Hfp; [done| |done]. apply Hk. eauto.
  - destruct Hl as (l1 & q & v & l2 & p & -> & Hp & Heq & ->). split.
    + intros [Hnd _]. rewrite !fmap_app, !fmap_cons in Hnd. apply NoDup_app in Hnd as (_ & Hx & _).
      apply (Hx (ToLower p)); [by apply list_elem_of_fmap_2|]. rewrite Heq. left.
    + exists p, q. rewrite !fmap_app, fmap_cons. split_and!; [set_solver|set_solver|done|by left].
Qed.

(** C38. A configuration file means its leaves: it is refused exactly when two
    leaves are spelled alike up to case or a key that is set is also a section of
    one, the error naming two such spellings; else it sets the leaves that are
    not null, under their lowercased paths. The order in which Go ranges over
    the maps, at any depth, makes no difference to what is read. *)
Theorem loadConfigFile_exact path data raw :
  file_ReadBytes path = Ok data -> yaml_Unmarshal data = Ok raw ->
  (forall flat, loadConfigFile path = Ok flat <-> well_spelled (leaves raw "") /\ reads_as (leaves raw "") flat) /\
  (forall e, loadConfigFile path = Err e ->
     exists p q, p ∈ (leaves raw "").*1 /\ q ∈ (leaves raw "").*1 /\ e = duplicateKeyError p q /\
       (ToLower p = ToLower q \/ section_of (ToLower p) (ToLower q))) /\
  (forall path' data' raw' flat, file_ReadBytes path' = Ok data' -> yaml_Unmarshal data' = Ok raw' ->
     reordered raw raw' -> loadConfigFile path = Ok flat <-> loadConfigFile path' = Ok flat).
Proof.
  assert (forall path data raw, file_ReadBytes path = Ok data -> yaml_Unmarshal data = Ok raw ->
    forall flat, loadConfigFile path = Ok flat <-> well_spelled (leaves raw "") /\ reads_as (leaves raw "") flat) as Hs.
  { clear. intros path data raw Hd Hr flat. pose proof (loadConfigFile_leaves path data raw Hd Hr) as Hl.
    destruct (loadConfigFile path) as [flat'|e]; [|by split; [|intros []; destruct Hl]].
    split; [by intros [= <-]|]. intros [_ Hf]. destruct Hl as [_ Hf']. f_equal. apply map_eq. intros k.
    apply option_eq. intros v. by rewrite (Hf k v), (Hf' k v). }
  intros Hd Hr. split; [by eapply Hs|split].
  - intros e He. pose proof (loadConfigFile_leaves path data raw Hd Hr) as Hl. rewrite He in Hl. apply Hl.
  - intros path' data' raw' flat Hd' Hr' Hp%(fun m m' => reordered_leaves m m' ""). rewrite (Hs _ _ _ Hd Hr), (Hs _ _ _ Hd' Hr').
    unfold well_spelled, reads_as. setoid_rewrite Hp. done.
Qed.
End file.

(** ** A file at work *)

Module Example.
#[local] Instance ascii_tables : UnicodeTables := fun r => r.

(** Two files with the same entries in different orders. *)
#[local] Program Instance two_files : Koanf := {|
  koanf := gmap string value;
  koanf_New := ∅;
  Load_confmap k m := Ok (m ∪ k);
  Load_env k _ _ := Ok k;
  Unmarshal _ := Err (EForeign "not decoded here");
  flag_Parse args := Ok (default "" (head args));
  file_ReadBytes path := Ok path;
  yaml_Unmarshal data :=
    if strEq data "a.yaml" then Ok [("tablePrefix", VString "t_"); ("cookie", VMap [("Secure", VBool false); ("path", VNil)])]
    else Ok [("cookie", VMap [("path", VNil); ("Secure", VBool false)]); ("tablePrefix", VString "t_")];
  range_keys m := (map_to_list m).*1
|}.
Next Obligation. done. Qed.

Lemma loadConfigFile_exact_witness :
  file_ReadBytes "a.yaml" = Ok "a.yaml" /\ file_ReadBytes "b.yaml" = Ok "b.yaml" /\
  loadConfigFile "b.yaml" = Ok {["tableprefix" := VString "t_"; "cookie.secure" := VBool false]}.
Proof.
  split; [reflexivity|]. split; [reflexivity|].
  destruct (loadConfigFile_exact "a.yaml" "a.yaml"
    [("tablePrefix", VString "t_"); ("cookie", VMap [("Secure", VBool false); ("path", VNil)])]) as (_ & _ & Hr);
    [reflexivity..|].
  refine (proj1 (Hr "b.yaml" "b.yaml" [("cookie", VMap [("path", VNil); ("Secure", VBool false)]); ("tablePrefix", VString "t_")]
    _ _ _ _) _); [reflexivity..| |vm_compute; reflexivity].
  eapply reordered_trans; [apply reordered_perm, perm_swap|]. apply reordered_section, reordered_perm, perm_swap.
Defined.

(** Two spellings of one key are refused, by name and in a stable order. *)
Example duplicate_spelling :
  flattenConfig [("db", VMap [("tablePrefix", VString "a"); ("tableprefix", VString "b")])] "" (mkFlatMaps ∅ ∅) =
  Err (duplicateKeyError "db.tableprefix" "db.tablePrefix").
Proof. reflexivity. Qed.

Example keys_of_environment : env_key "PSINA_OAUTH_GOOGLE_CLIENTID" = "oauth.google.clientid".
Proof. reflexivity. Qed.
End Example.
