(* ===== verification/Main.v ===== *)
(** * The program (cmd/psina/main.go)

    [start] is the part of [run] from the configuration to a service ready to
    listen: which store, which key, which providers, how the service and the
    handler are put together.  The HTTP endpoints beside the RPC handler follow,
    and the shutdown of the server as a step relation. *)

From S2P Require Import Prelude GoStrings GoTime GoFormat Errors Entity Ports Contract Token Interfaces Local Service OAuth OAuth2 GitHub Google Wallet Evm GoNetip ClientIP GoHttp Postgres Handler Rpc Config.

(** ** Small conversions *)

Section conversions.
Context `{UnicodeTables}.

Definition parseSameSite (s : string) : SameSite :=
  let l := ToLower s in
  if strEq l "strict" then SameSiteStrictMode
  else if strEq l "lax" then SameSiteLaxMode
  else if strEq l "none" then SameSiteNoneMode
  else SameSiteStrictMode.

(** A [slog.Handler] of the program: its format and its level. *)
Record LogHandler := mkLogHandler { lh_text : bool; lh_level : level }.

(** [strings.EqualFold] with an ASCII text that has no k and no s, whose letters
    fold with no rune but their other case. *)
Definition EqualFold (s text : string) : bool := strEq (str_map lower_byte s) (str_map lower_byte text).

Definition newLogHandler (config : Config.Config) (lvl : level) : LogHandler :=
  mkLogHandler (EqualFold (logger_Format (Config.Logger config)) "text") lvl.

Definition setupLogger (config : Config.Config) : LogHandler :=
  newLogHandler config (parseLogLevel (logger_Level (Config.Logger config))).1.

Definition setupAuditLogger (config : Config.Config) : LogHandler := newLogHandler config LevelInfo.
End conversions.

(** [slog.Level] as a number, and [Enabled] of a handler. *)
Definition level_number (l : level) : Z :=
  match l with LevelDebug => -4 | LevelInfo => 0 | LevelWarn => 4 | LevelError => 8 end.
Definition Enabled (h : LogHandler) (l : level) : bool := level_number (lh_level h) <=? level_number l.

(** ** Keys *)

Inductive pkcs8_key (K : Type) := RSAKey (k : K) | ECDSAKey (k : K) | OtherKey.
Arguments RSAKey {K} k.
Arguments ECDSAKey {K} k.
Arguments OtherKey {K}.

(** [os.ReadFile], encoding/pem and crypto/x509. *)
Class KeyFiles `{Jose} := {
  os_ReadFile : string -> res string;
  pem_Decode : string -> option string;
  ParsePKCS1PrivateKey : string -> res PrivateKey;
  ParseECPrivateKey : string -> res PrivateKey;
  ParsePKCS8PrivateKey : string -> res (pkcs8_key PrivateKey)
}.

Definition info (msg : string) (attrs : list (string * attrval)) : prog unit :=
  log (mkLog false LevelInfo msg attrs).
Definition warn (msg : string) (attrs : list (string * attrval)) : prog unit :=
  log (mkLog false LevelWarn msg attrs).

Section keys.
Context `{KeyFiles}.

Definition parseRSAPrivateKey (keyData : string) : res PrivateKey :=
  match pem_Decode keyData with
  | None => Err (EErrorf [Lit "no PEM block found"])
  | Some block =>
      match ParsePKCS1PrivateKey block with
      | Ok key => Ok key
      | Err _ =>
          match ParsePKCS8PrivateKey block with
          | Err err => Err (wrap "parse private key" err)
          | Ok (RSAKey key) => Ok key
          | Ok _ => Err (EErrorf [Lit "key is not RSA"])
          end
      end
  end.

Definition parseECDSAPrivateKey (keyData : string) : res PrivateKey :=
  match pem_Decode keyData with
  | None => Err (EErrorf [Lit "no PEM block found"])
  | Some block =>
      match ParseECPrivateKey block with
      | Ok key => Ok key
      | Err _ =>
          match ParsePKCS8PrivateKey block with
          | Err err => Err (wrap "parse private key" err)
          | Ok (ECDSAKey key) => Ok key
          | Ok _ => Err (EErrorf [Lit "key is not ECDSA"])
          end
      end
  end.

(** [token.Algorithm(s)] *)
Definition Algorithm_of (s : string) : Algorithm :=
  if strEq s "RS256" then RS256 else if strEq s "ES256" then ES256 else OtherAlgorithm s.

(** The issuer of a configured key. *)
Definition issuer_from_key (algorithm keyData : string) : res Issuer :=
  if strEq algorithm "ES256" then
    match parseECDSAPrivateKey keyData with
    | Err err => Err (wrap "parse ecdsa key" err)
    | Ok key => NewWithECDSAKey key
    end
  else
    match parseRSAPrivateKey keyData with
    | Err err => Err (wrap "parse rsa key" err)
    | Ok key => NewWithRSAKey key
    end.

Definition createTokenIssuer (config : Config.Config) : prog (res Issuer) :=
  (let jwt := Config.JWT config in
   if negb (strEq (jwt_PrivateKey jwt) "") then
     info "using jwt key from environment/config" [] ;;;
     Ret (issuer_from_key (jwt_Algorithm jwt) (jwt_PrivateKey jwt))
   else if negb (strEq (jwt_PrivateKeyPath jwt) "") then
     match os_ReadFile (jwt_PrivateKeyPath jwt) with
     | Err err => Ret (Err (wrap "read jwt key file" err))
     | Ok keyData =>
         info "using jwt key from file" [("path", AString (jwt_PrivateKeyPath jwt))] ;;;
         Ret (issuer_from_key (jwt_Algorithm jwt) keyData)
     end
   else
     warn "no JWT key configured, generating ephemeral key (tokens will invalidate on restart)" [] ;;;
     NewWithAlgorithm (Algorithm_of (jwt_Algorithm jwt)))%prog.
End keys.

(** ** Providers *)

Section providers.
Context `{OAuth2, GitHub.RequestURL, GitHub.Endpoints, Google.IdTokens}.

Definition google_settings (c : OAuthClientConfig) : Google.Config :=
  Google.mkConfig (oauth_ClientID c) (oauth_ClientSecret c) (oauth_RedirectURIs c).
Definition github_settings (c : OAuthClientConfig) : GitHub.Config :=
  GitHub.mkConfig (oauth_ClientID c) (oauth_ClientSecret c) (oauth_RedirectURIs c).

(** The providers that have credentials configured. *)
Definition createOAuthProviders (config : Config.Config) : res (list OAuthProvider) :=
  let g := oauth_Google (Config.OAuth config) in
  match (if strEq (oauth_ClientID g) "" then Ok []
         else match Google.New (google_settings g) with
              | Err err => Err err
              | Ok p => Ok [google_provider p]
              end) with
  | Err err => Err err
  | Ok providers =>
      let g := oauth_GitHub (Config.OAuth config) in
      if strEq (oauth_ClientID g) "" then Ok providers
      else match GitHub.New (github_settings g) with
           | Err err => Err err
           | Ok p => Ok (providers ++ [github_provider p])
           end
  end.
End providers.

(** What starting ends in: a running program, an error, a panic. *)
Inductive outcome (A : Type) := Running (a : A) | Fails (err : error) | Panics.
Arguments Running {A} a.
Arguments Fails {A} err.
Arguments Panics {A}.

Section chains.
Context `{Keccak, UnicodeTables, UpperTables, Secp256k1}.

Definition chain_provider (c : evmChain) : WalletProvider := evm_provider (Evm.New (chain_Name c) (chain_ID c)).

(** One EVM provider per chain; [None] when wallet sign-in is off. *)
Definition createWalletDispatcher (config : Config.Config) : outcome (option Dispatcher) :=
  if strEq (wallet_Domain (Config.Wallet config)) "" then Running None
  else
    match parseEVMChains (wallet_EVMChains (Config.Wallet config)) with
    | Err err => Fails err
    | Ok chains =>
        match NewDispatcher (chain_provider <$> chains) with
        | None => Panics
        | Some d => Running (Some d)
        end
    end.
End chains.

(** ** Starting *)

Section start.
Context `{UnicodeTables, Argon2, KeyFiles, OAuth2, GitHub.RequestURL, GitHub.Endpoints, Google.IdTokens}.
Context `{Keccak, UpperTables, Secp256k1, Pgxpool}.

(** The store behind every interface. *)
Inductive storage :=
| InMemory
| OnPostgres (p : pool) (s : Postgres.Store).

Record App := mkApp {
  app_storage : storage;
  app_issuer : Issuer;
  app_service : Service;
  app_handler : Handler;
  app_addr : string
}.

Definition openStore (config : Config.Config) : prog (res storage) :=
  (let db := Config.DB config in
   if negb (strEq (db_URL db) "") then
     info "using postgresql store" [("table_prefix", AString (db_TablePrefix db))] ;;;
     match NewWithDSN (db_URL db) [WithTablePrefix (db_TablePrefix db)] with
     | Err err => Ret (Err (wrap "connect to postgres" err))
     | Ok (p, s) => Ret (Ok (OnPostgres p s))
     end
   else
     warn "using in-memory store (data will not persist)" [] ;;;
     Ret (Ok InMemory))%prog.

(** [dbPing], nil for the in-memory store. *)
Definition dbPing (st : storage) : option (option error) :=
  match st with InMemory => None | OnPostgres p _ => Some (pool_Ping p) end.

(** The options of the service, in the order in which they are appended; each
    of [WithOAuth] and [WithWallet] may panic. *)
Definition patOptions (config : Config.Config) : list ServiceOption :=
  let pat := Config.PAT config in
  if pat_Enabled pat
  then [WithPAT (mkPATConfig (pat_MaxPerUser pat) (pat_MaxTTL pat) (pat_TouchInterval pat))] else [].

Definition oauthOptions (config : Config.Config) (providers : list OAuthProvider) : option (list ServiceOption) :=
  match providers with
  | [] => Some []
  | _ => (fun opt => [opt]) <$>
           WithOAuth providers (mkOAuthConfig (negb (oauth_AutoLinkEmail (Config.OAuth config))) 0)
  end.

Definition walletOptions (config : Config.Config) (d : option Dispatcher) : option (list ServiceOption) :=
  match d with
  | None => Some []
  | Some d =>
      let w := Config.Wallet config in
      (fun opt => [opt]) <$>
        WithWallet d (mkWalletConfig (wallet_Domain w) (wallet_URI w) (wallet_Statement w) (wallet_ChallengeTTL w))
  end.

Definition cookieConfig (config : Config.Config) : CookieConfig :=
  let c := Config.Cookie config in
  mkCookieConfig (cookie_Enabled c) (cookie_Domain c) (cookie_Path c) (cookie_Secure c)
    (parseSameSite (cookie_SameSite c)).

(** The handler, once the service is made. *)
Definition startHandler (config : Config.Config) (st : storage) (issuer : Issuer) (service : Service)
  : prog (outcome App) :=
  (match parseTrustedProxies (server_TrustedProxies (Config.Server config)) with
   | Err err => Ret (Fails err)
   | Ok trustedProxies =>
       match trustedProxies with
       | [] => info "no trusted proxies: client IP is the connection peer, X-Forwarded-For is ignored" []
       | _ => Ret tt
       end ;;;
       let handler := NewHandler service
         [WithCookieConfig (cookieConfig config); WithTrustedProxies trustedProxies] in
       Ret (Running (mkApp st issuer service handler (":" +:+ Itoa (server_Port (Config.Server config)))))
   end)%prog.

(** The service, once the store and the issuer are there. *)
Definition startService (config : Config.Config) (st : storage) (issuer : Issuer) : prog (outcome App) :=
  (match createOAuthProviders config with
   | Err err => Ret (Fails (wrap "create oauth providers" err))
   | Ok oauthProviders =>
       match oauthOptions config oauthProviders with
       | None => Ret Panics
       | Some oauthOpts =>
           match oauthProviders with
           | [] => Ret tt
           | _ => info "oauth sign-in enabled" [("providers", AInt (Z.of_nat (length oauthProviders)));
                                                ("auto_link_email", ABool (oauth_AutoLinkEmail (Config.OAuth config)))]
           end ;;;
           match createWalletDispatcher config with
           | Fails err => Ret (Fails (wrap "create wallet providers" err))
           | Panics => Ret Panics
           | Running walletProviders =>
               match walletOptions config walletProviders with
               | None => Ret Panics
               | Some walletOpts =>
                   match walletProviders with
                   | None => Ret tt
                   | Some d => info "wallet sign-in enabled"
                       [("domain", AString (wallet_Domain (Config.Wallet config)));
                        ("chains", AString (Join (Dispatcher_Chains d) " "))]
                   end ;;;
                   let serviceOpts := WithRefreshReuseLeeway (token_RefreshReuseLeeway (Config.Token config)) ::
                     patOptions config ++ oauthOpts ++ walletOpts in
                   match NewService (issuer_interface issuer) [local_provider] serviceOpts with
                   | None => Ret Panics
                   | Some service => startHandler config st issuer service
                   end
               end
           end
       end
   end)%prog.

(** [run], up to the server. *)
Definition start (version : string) (config : Config.Config) : prog (outcome App) :=
  (info "starting psina" [("version", AString version);
                          ("port", AInt (server_Port (Config.Server config)));
                          ("jwt_algorithm", AString (jwt_Algorithm (Config.JWT config)));
                          ("cookies_enabled", ABool (cookie_Enabled (Config.Cookie config)));
                          ("pat_enabled", ABool (pat_Enabled (Config.PAT config)))] ;;;
   let* r := openStore config in
   match r with
   | Err err => Ret (Fails err)
   | Ok st =>
       let* r := createTokenIssuer config in
       match r with
       | Err err => Ret (Fails (wrap "create token issuer" err))
       | Ok issuer =>
           info "token issuer initialized" [("algorithm", AString (Issuer_Algorithm issuer))] ;;;
           startService config st issuer
       end
   end)%prog.
End start.

(** ** HTTP endpoints *)

(** The JWKS endpoint; [encode] is [json.NewEncoder(w).Encode]. *)
Definition jwksEndpoint `{Jose} (encode : list (JSONWebKey Token.PublicKey) -> res string) (issuer : Issuer)
  : prog response :=
  (let h := [("Content-Type", "application/json"); ("Cache-Control", "public, max-age=3600")] in
   match encode (Issuer_JWKS issuer) with
   | Ok body => Ret (mkResponse StatusOK h body)
   | Err err =>
       log (mkLog false LevelError "encode jwks" [("error", AError err)]) ;;;
       Ret (http_Error h "internal error" StatusInternalServerError)
   end)%prog.

(** A JSON text, in which the program writes quotes as they are. *)
Definition quote : string := String (ascii_of_nat 34) "".
Definition json_field (key value : string) : string :=
  quote +:+ key +:+ quote +:+ ":" +:+ quote +:+ value +:+ quote.
Definition json_object (fields : list (string * string)) : string :=
  "{" +:+ Join ((fun kv => json_field kv.1 kv.2) <$> fields) "," +:+ "}".

Definition json_type : list (string * string) := [("Content-Type", "application/json")].

Definition healthz : response := mkResponse StatusOK json_type (json_object [("status", "ok")]).

(** [ping] is the outcome of [dbPing], when there is one. *)
Definition readyz (ping : option (option error)) : prog response :=
  (match ping with
   | Some (Some err) =>
       warn "readiness check failed" [("error", AError err)] ;;;
       Ret (mkResponse StatusServiceUnavailable json_type
              (json_object [("status", "not_ready"); ("reason", "database_unavailable")]))
   | _ => Ret (mkResponse StatusOK json_type (json_object [("status", "ready")]))
   end)%prog.

Definition health (version : string) (ping : option (option error)) : prog response :=
  (let answer httpStatus status dbStatus :=
     Ret (mkResponse httpStatus json_type
            (json_object [("status", status); ("service", "psina"); ("version", version); ("db", dbStatus)])) in
   match ping with
   | None => answer StatusOK "ok" "not_configured"
   | Some None => answer StatusOK "ok" "connected"
   | Some (Some err) =>
       warn "health check: db ping failed" [("error", AError err)] ;;;
       answer StatusServiceUnavailable "degraded" "error"
   end)%prog.

(** *** The cookies of a request (net/http) *)

Definition trim_ascii (s : string) : string :=
  let blank c := (byteval c =? 32) || (byteval c =? 9) || (byteval c =? 10) || (byteval c =? 13) in
  String.string_of_list_ascii (rev (drop_while blank (rev (drop_while blank (String.list_ascii_of_string s))))).

Definition validCookieValueByte (c : ascii) : bool :=
  (32 <=? byteval c) && (byteval c <? 127) && negb (byteval c =? 34) && negb (byteval c =? 59) && negb (byteval c =? 92).

(** [parseCookieValue(raw, true)]: quotes around the value are dropped. *)
Definition parseCookieValue (raw : string) : option string :=
  let n := String.length raw in
  let raw := if (1 <? Z.of_nat n) && HasPrefix raw quote && bool_decide (str_drop (n - 1) raw = quote)
             then str_take (n - 2) (str_drop 1 raw) else raw in
  if forallb validCookieValueByte (String.list_ascii_of_string raw) then Some raw else None.

(** [readCookies], for a name that is a token. *)
Definition readCookies (h : Header) (name : string) : list string :=
  flat_map (fun line =>
    omap (fun part =>
      let '(key, val, _) := Cut (trim_ascii part) "=" in
      if bool_decide (trim_ascii key = name) then parseCookieValue val else None)
      (Split (trim_ascii line) ";"))
    (header_Values h "Cookie").

(** [r.Cookie(name)]: the first one. *)
Definition r_Cookie (h : Header) (name : string) : option string := head (readCookies h name).

(** *** ForwardAuth *)

(** The credential of a request; an error is the text of the refusal. *)
Definition forwardCredential (cookies_enabled : bool) (h : Header) : string + string :=
  let authHeader := header_Get h "Authorization" in
  let accessToken := if strEq authHeader "" then "" else TrimPrefix authHeader "Bearer " in
  if negb (strEq authHeader "") && strEq accessToken authHeader then inr "invalid authorization format"
  else
    let accessToken := if strEq accessToken "" && cookies_enabled
                       then default accessToken (r_Cookie h "psina_access") else accessToken in
    if strEq accessToken "" then inr "missing authorization" else inl accessToken.

Definition verifyEndpoint (service : Service) (cookies_enabled : bool) (h : Header) : prog response :=
  (match forwardCredential cookies_enabled h with
   | inr msg => Ret (http_Error [] msg StatusUnauthorized)
   | inl accessToken =>
       let* r := Service_Verify service accessToken in
       match r with
       | Err err =>
           if errors_Is err auth.ErrInvalidCredentials then
             Ret (http_Error [] "invalid token" StatusUnauthorized)
           else
             log (mkLog false LevelError "verify failed" [("error", AError err)]) ;;;
             Ret (http_Error [] "internal error" StatusInternalServerError)
       | Ok claims =>
           Ret (mkResponse StatusOK
                  ([("X-User-Id", claims_UserID claims); ("X-User-Email", claims_Email claims)] ++
                   match claims_Roles claims with
                   | [] => []
                   | roles => [("X-User-Roles", Join roles ",")]
                   end) "")
       end
   end)%prog.

(** ** The multiplexer *)

Section mux.
Context `{Connect, !Messages, UnicodeTables, UUIDLib, Jose, Pgxpool}.

(** The endpoints of [run]; [encode] is the JSON encoding of the key set. *)
Definition newMux (encode : list (JSONWebKey Token.PublicKey) -> res string) (version : string)
    (config : Config.Config) (app : App) : ServeMux http_Handler :=
  let '(path, rpcHandler) := NewAuthServiceHandler (handler_service (app_handler app)) in
  [(parsePattern path, rpcHandler);
   (parsePattern "GET /.well-known/jwks.json", fun _ => jwksEndpoint encode (app_issuer app));
   (parsePattern "GET /healthz", fun _ => Ret healthz);
   (parsePattern "GET /readyz", fun _ => readyz (dbPing (app_storage app)));
   (parsePattern "GET /health", fun _ => health version (dbPing (app_storage app)));
   (parsePattern "/verify", fun r =>
      verifyEndpoint (app_service app) (cookie_Enabled (Config.Cookie config)) (hq_Header r))].

(** The [Handler] of the server. *)
Definition server_Handler encode version config app : serverRequest -> prog served :=
  ServeHTTP (newMux encode version config app).
End mux.
