(* ===== verification/Serve.v ===== *)
(** * Serving and shutting down (serve and run of cmd/psina/main.go)

    [serve] starts [http.Server.Serve] in a goroutine, waits for it or for a
    signal, and then drains the server with [Shutdown]; [run] closes the store
    once [serve] has returned.  The main goroutine, the server and the requests
    it runs take steps of their own, in any order. *)

From S2P Require Import Prelude Errors.

(** Where [run] is. *)
Inductive phase :=
| Waiting                               (* in the select of serve *)
| Draining (serveErr : option error)    (* in server.Shutdown *)
| Returned (err : option error)         (* serve has returned *)
| Closed (err : option error).          (* the deferred cleanup has closed the store *)

Record server := mkServer {
  sv_phase : phase;
  sv_accepting : bool;             (* the listener is open *)
  sv_served : option error;        (* the channel [served] *)
  sv_signal : bool;                (* ctx is done *)
  sv_running : gset nat            (* the requests being handled *)
}.

(** [errors.Join], where nil errors are dropped. *)
Definition errors_Join (e : option error) (e' : error) : error :=
  match e with Some e => EJoin e e' | None => EWrap [] e' [] end.

Definition ErrServerClosed : error := ENew "http: Server closed".

Definition serving : server := mkServer Waiting true None false ∅.

(** [Shutdown] closes the listener at once, which makes [Serve] return, and
    returns when no request is running or its deadline has passed. *)
Inductive step : server -> server -> Prop :=
| accept r p served signal running :
    r ∉ running ->
    step (mkServer p true served signal running) (mkServer p true served signal ({[r]} ∪ running))
| finish r p accepting served signal running :
    r ∈ running ->
    step (mkServer p accepting served signal running) (mkServer p accepting served signal (running ∖ {[r]}))
| serve_fails err p signal running :
    step (mkServer p true None signal running) (mkServer p false (Some err) signal running)
| signalled p accepting served running :
    step (mkServer p accepting served false running) (mkServer p accepting served true running)
| select_served err accepting signal running :
    step (mkServer Waiting accepting (Some err) signal running)
         (mkServer (Draining (Some (wrap "serve" err))) false None signal running)
| select_done accepting served running :
    step (mkServer Waiting accepting served true running)
         (mkServer (Draining None) false (Some (default ErrServerClosed served)) true running)
| drained e accepting served signal :
    step (mkServer (Draining e) accepting served signal ∅)
         (mkServer (Returned e) accepting served signal ∅)
| drain_timeout e err accepting served signal running :
    step (mkServer (Draining e) accepting served signal running)
         (mkServer (Returned (Some (errors_Join e (wrap "shutdown" err)))) accepting served signal running)
| cleanup e accepting served signal running :
    step (mkServer (Returned e) accepting served signal running)
         (mkServer (Closed e) accepting served signal running).

Definition reachable (s : server) : Prop := rtc step serving s.

(** The store is closed. *)
Definition store_closed (s : server) : Prop := exists e, sv_phase s = Closed e.

(** The outcomes of a [serve] whose drain ran out of time. *)
Definition cut_short (e : option error) : Prop := exists e0 err, e = Some (errors_Join e0 (wrap "shutdown" err)).

(** What [serve] has to report: nothing after a signal, else the failure of
    [Serve]. *)
Definition serve_result (s : server) (e : option error) : Prop :=
  match e with None => sv_signal s = true | Some err => exists cause, err = wrap "serve" cause end.

Definition serve_inv (s : server) : Prop :=
  match sv_phase s with
  | Waiting => True
  | Draining e => sv_accepting s = false /\ serve_result s e
  | Returned e | Closed e =>
      sv_accepting s = false /\ (cut_short e \/ sv_running s = ∅ /\ serve_result s e)
  end.

Lemma step_inv s s' : serve_inv s -> step s s' -> serve_inv s'.
Proof.
  intros Hi Hs. destruct Hs as [r p served signal running Hr|r p accepting served signal running Hr|err p signal running
    |p accepting served running|err accepting signal running|accepting served running|e accepting served signal
    |e err accepting served signal running|e accepting served signal running]; unfold serve_inv in *; cbn in *.
  - destruct p; naive_solver.
  - destruct p; [done|done|..]; destruct Hi as [Ha [Hc|[-> Hr']]]; auto; set_solver.
  - destruct p; naive_solver.
  - destruct p as [|[]|[]|[]]; cbn in *; naive_solver.
  - split; [done|]. by exists err.
  - done.
  - destruct Hi. by auto.
  - destruct Hi. split; [done|]. left. by exists e, err.
  - done.
Qed.

Lemma reachable_inv s : reachable s -> serve_inv s.
Proof.
  unfold reachable. intros Hr. assert (serve_inv serving) as Hi by done. revert Hi.
  induction Hr; eauto using step_inv.
Qed.

(** Requests that finish empty the server. *)
Lemma finish_all p accepting served signal running :
  rtc step (mkServer p accepting served signal running) (mkServer p accepting served signal ∅).
Proof.
  induction running as [|r running Hr IH] using set_ind_L; [done|].
  eapply rtc_l; [apply (finish r); set_solver|]. by replace (({[r]} ∪ running) ∖ {[r]}) with running by set_solver.
Qed.

(** C23. Shutting down loses no request: once the drain has begun no request is
    accepted, and the store is closed only when none is running, or after the
    drain ran out of time, which is reported; a silent end follows a signal. From
    every state of a drain the requests can finish, and then it ends by itself
    with what there is to report; a signal or the end of [Serve] starts one. *)
Theorem serve_drains s : reachable s ->
  (sv_phase s <> Waiting -> sv_accepting s = false) /\
  (forall e, sv_phase s = Returned e \/ sv_phase s = Closed e ->
     cut_short e \/ sv_running s = ∅ /\ serve_result s e) /\
  (forall e, sv_phase s = Draining e ->
     exists s', rtc step s s' /\ sv_phase s' = Closed e /\ sv_running s' = ∅) /\
  (sv_phase s = Waiting -> sv_signal s = true \/ sv_served s <> None ->
     exists s' e, step s s' /\ sv_phase s' = Draining e).
Proof.
  intros Hi%reachable_inv. destruct s as [p accepting served signal running]. unfold serve_inv in Hi; cbn in *.
  split_and!.
  - destruct p; [done|intros _; apply Hi..].
  - intros e [->| ->]; apply Hi.
  - intros e ->. exists (mkServer (Closed e) accepting served signal ∅). split; [|done].
    etransitivity; [apply finish_all|]. eapply rtc_l; [apply drained|]. eapply rtc_l; [apply cleanup|]. done.
  - intros -> [->|Hs]; [by eexists _, _; split; [apply select_done|]|].
    destruct served as [err|]; [|done]. by eexists _, _; split; [apply select_served|].
Qed.

Lemma serve_drains_witness :
  reachable (mkServer (Draining None) false (Some ErrServerClosed) true {[7%nat]}) /\
  exists s', rtc step (mkServer (Draining None) false (Some ErrServerClosed) true {[7%nat]}) s' /\
    sv_phase s' = Closed None /\ sv_running s' = ∅.
Proof.
  assert (reachable (mkServer (Draining None) false (Some ErrServerClosed) true {[7%nat]})) as Hr.
  { unfold reachable, serving. eapply rtc_l; [apply (accept 7); set_solver|].
    replace ({[7%nat]} ∪ ∅ : gset nat) with ({[7%nat]} : gset nat) by set_solver.
    eapply rtc_l; [apply signalled|]. eapply rtc_l; [apply select_done|]. done. }
  split; [exact Hr|]. apply (serve_drains _ Hr). reflexivity.
Defined.
