(* ===== verification/MainFacts.v ===== *)
(** * What starting the program makes

    A validated configuration starts a service to which every theorem about the
    service applies, wired as the configuration says; the ForwardAuth endpoint
    lets through what the service verifies. *)

From S2P Require Import Prelude GoStrings GoTime GoFormat Errors Entity Ports Contract ContractFacts Histories Token Interfaces Local Service Refresh AccessTokens OAuth OAuth2 GitHub Google Wallet Evm GoNetip ClientIP GoHttp Postgres Handler Rpc Config ConfigFacts Main.

(** ** What validation promises *)

Section valid.
Context `{UnicodeTables}.

Definition full_client (o : OAuthClientConfig) : Prop :=
  oauth_ClientID o <> "" /\ oauth_ClientSecret o <> "" /\ oauth_RedirectURIs o <> [].

Record valid_config (c : Config.Config) : Prop := mkValid {
  valid_store : Dev c = true \/ db_URL (DB c) <> "";
  valid_proxies : exists ps, parseTrustedProxies (server_TrustedProxies (Server c)) = Ok ps;
  valid_algorithm : jwt_Algorithm (JWT c) = "RS256" \/ jwt_Algorithm (JWT c) = "ES256";
  valid_leeway : 0 <= token_RefreshReuseLeeway (Config.Token c);
  valid_google : oauth_ClientID (oauth_Google (Config.OAuth c)) = "" \/ full_client (oauth_Google (Config.OAuth c));
  valid_github : oauth_ClientID (oauth_GitHub (Config.OAuth c)) = "" \/ full_client (oauth_GitHub (Config.OAuth c));
  valid_chains : exists cs, parseEVMChains (wallet_EVMChains (Config.Wallet c)) = Ok cs;
  valid_wallet : wallet_Domain (Config.Wallet c) = "" \/
    wallet_URI (Config.Wallet c) <> "" /\ 0 <= wallet_ChallengeTTL (Config.Wallet c) /\
    ContainsAny (wallet_Domain (Config.Wallet c) +:+ wallet_URI (Config.Wallet c) +:+ wallet_Statement (Config.Wallet c))
      [ascii_of_nat 13; ascii_of_nat 10] = false
}.

Lemma validateOAuthClient_full name o : validateOAuthClient name o = None ->
  oauth_ClientID o = "" \/ full_client o.
Proof.
  unfold validateOAuthClient, full_client. destruct (decide (oauth_ClientID o = "")) as [?|Hid]; [by left|].
  rewrite (proj2 (strEq_false (oauth_ClientID o) "")) by done. cbn [negb orb]. destruct (strEq (oauth_ClientSecret o) "") eqn:Es; [done|].
  apply strEq_false in Es. destruct (oauth_RedirectURIs o); [done|]. by right.
Qed.

Lemma validateWallet_valid c : validateWallet c = None ->
  (exists cs, parseEVMChains (wallet_EVMChains (Config.Wallet c)) = Ok cs) /\
  (wallet_Domain (Config.Wallet c) = "" \/
   wallet_URI (Config.Wallet c) <> "" /\ 0 <= wallet_ChallengeTTL (Config.Wallet c) /\
   ContainsAny (wallet_Domain (Config.Wallet c) +:+ wallet_URI (Config.Wallet c) +:+ wallet_Statement (Config.Wallet c))
     [ascii_of_nat 13; ascii_of_nat 10] = false).
Proof.
  unfold validateWallet. destruct (parseEVMChains _) as [cs|e]; [|done]. intros Hv. split; [by exists cs|].
  destruct (decide (wallet_Domain (Config.Wallet c) = "")) as [?|Hd]; [by left|]. right.
  rewrite (proj2 (strEq_false (wallet_Domain (Config.Wallet c)) "")) in Hv by done. cbn [andb orb] in Hv.
  destruct (strEq (wallet_URI _) "") eqn:Eu; [done|]. apply strEq_false in Eu.
  destruct (ContainsAny _ _); [done|]. destruct (_ <? 0) eqn:E; [done|]. split_and!; done || lia.
Qed.

Lemma validateConfig_valid c : validateConfig c = None -> valid_config c.
Proof.
  unfold validateConfig. cbv zeta. destruct (validateDevFallbacks c) eqn:Ed; [done|].
  destruct (parseLogLevel _) as [? []]; [done|]. destruct (negb _); [done|]. destruct (negb _) eqn:Ea; [done|].
  destruct (parseTrustedProxies _) as [ps|] eqn:Ep; [|done]. destruct (_ <? 0) eqn:El; [done|].
  destruct (negb (_ || strEq _ "none" || _)); [done|]. destruct (cookie_Enabled _ && _); [done|].
  destruct (validateOAuthClient "google" _) eqn:Eg; [done|]. destruct (validateOAuthClient "github" _) eqn:Eh; [done|].
  intros (Hc & Hw)%validateWallet_valid. constructor; eauto using validateOAuthClient_full; [| |lia].
  2:{ apply negb_false_iff, orb_true_iff in Ea. by rewrite !strEq_true in Ea. }
  unfold validateDevFallbacks in Ed. destruct (Dev c); [by left|]. right.
  destruct (strEq _ "") eqn:E; [done|]. by apply strEq_false in E.
Qed.
End valid.

(** ** Wiring *)

Section wiring.
Context `{UnicodeTables, Argon2, KeyFiles, OAuth2, GitHub.RequestURL, GitHub.Endpoints, Google.IdTokens}.
Context `{Keccak, UpperTables, Secp256k1, Pgxpool}.

Definition google_of (c : Config.Config) : OAuthProvider :=
  let g := oauth_Google (Config.OAuth c) in
  google_provider (Google.mkProvider (Google.mkConfig (oauth_ClientID g) (oauth_ClientSecret g) (oauth_RedirectURIs g))
    Google.endpoint_default).
Definition github_of (c : Config.Config) : OAuthProvider :=
  let g := oauth_GitHub (Config.OAuth c) in
  github_provider (GitHub.mkProvider (GitHub.mkConfig (oauth_ClientID g) (oauth_ClientSecret g) (oauth_RedirectURIs g))
    GitHub.endpoints_GitHub GitHub.apiURL_default).

Definition oauth_list (c : Config.Config) : list OAuthProvider :=
  (if strEq (oauth_ClientID (oauth_Google (Config.OAuth c))) "" then [] else [google_of c]) ++
  (if strEq (oauth_ClientID (oauth_GitHub (Config.OAuth c))) "" then [] else [github_of c]).

Lemma createOAuthProviders_valid c : valid_config c -> createOAuthProviders c = Ok (oauth_list c).
Proof.
  intros Hv. unfold createOAuthProviders, oauth_list.
  destruct (valid_google _ Hv) as [->|(Hg1 & Hg2 & Hg3)];
    [rewrite strEq_refl|unfold Google.New, Google.newWithEndpoint; cbn [Google.ClientID Google.ClientSecret google_settings Google.RedirectURIs];
       rewrite !(proj2 (strEq_false _ "")) by done; destruct (oauth_RedirectURIs (oauth_Google _)) eqn:Eg; [done|]];
    (destruct (valid_github _ Hv) as [->|(Hh1 & Hh2 & Hh3)];
      [rewrite strEq_refl|unfold GitHub.New, GitHub.newWithEndpoint; cbn [GitHub.ClientID GitHub.ClientSecret github_settings GitHub.RedirectURIs];
         rewrite !(proj2 (strEq_false _ "")) by done; destruct (oauth_RedirectURIs (oauth_GitHub _)) eqn:Eh; [done|]]); done.
Qed.

Lemma oauth_list_names c : NoDup (op_ProviderName <$> oauth_list c).
Proof.
  unfold oauth_list. destruct (strEq _ ""), (strEq _ ""); apply (bool_decide_unpack _); vm_compute; exact I.
Qed.

Lemma register_some {P} (key : P -> string) ps : NoDup (key <$> ps) ->
  exists m, register key ps ∅ = Some m /\ forall n p, m !! n = Some p <-> p ∈ ps /\ key p = n.
Proof.
  intros Hnd. destruct (register key ps ∅) as [m|] eqn:E.
  - exists m. split; [done|]. intros n p. rewrite (register_lookup key _ _ _ n p E), lookup_empty. naive_solver.
  - apply register_panics in E. destruct E. split; [done|]. intros p _. apply lookup_empty.
Qed.

(** The dispatcher serves the configured chains. *)
Definition serves_chains (c : Config.Config) (d : Dispatcher) : Prop :=
  forall name p, disp_providers d !! name = Some p <->
    exists cs ch, parseEVMChains (wallet_EVMChains (Config.Wallet c)) = Ok cs /\ ch ∈ cs /\
      chain_Name ch = name /\ p = evm_provider (Evm.New (chain_Name ch) (chain_ID ch)).

Lemma createWalletDispatcher_valid c : valid_config c ->
  wallet_Domain (Config.Wallet c) = "" /\ createWalletDispatcher c = Running None \/
  wallet_Domain (Config.Wallet c) <> "" /\ exists d, createWalletDispatcher c = Running (Some d) /\ serves_chains c d.
Proof.
  intros Hv. unfold createWalletDispatcher. destruct (strEq _ "") eqn:Ed; [left; by apply strEq_true in Ed|right].
  apply strEq_false in Ed. split; [done|]. destruct (valid_chains _ Hv) as [cs Hcs]. rewrite Hcs.
  pose proof (proj1 (parseEVMChains_spec _ _) Hcs) as (_ & _ & Hn & _).
  destruct (register_some wp_Chain (chain_provider <$> cs)) as (m & Hm & Hl); [by rewrite <- list_fmap_compose|].
  unfold NewDispatcher. rewrite Hm. exists (mkDispatcher m). split; [done|]. intros name p. cbn. rewrite Hl. split.
  - intros [(ch & -> & Hch)%list_elem_of_fmap <-]. exists cs, ch. done.
  - intros (cs' & ch & Hcs' & Hch & <- & ->). rewrite Hcs in Hcs'. injection Hcs' as <-. split; [|done].
    by apply (list_elem_of_fmap_2 chain_provider).
Qed.

(** *** The program as wired *)

(** A setting that may be left at zero. *)
Definition setting (default n : Z) : Z := if decide (n = 0) then default else n.

(** The store: the memory without a database URL, else a pool opened from the URL,
    whose queries have a timeout and which answered a ping, with the tables under
    the configured prefix. *)
Definition configured_store (c : Config.Config) (st : storage) : Prop :=
  match st with
  | InMemory => db_URL (DB c) = ""
  | OnPostgres p tables =>
      db_URL (DB c) <> "" /\ tables = initTableNames (db_TablePrefix (DB c)) /\
      exists params rest,
        ParseConfig (db_URL (DB c)) = Ok (params, rest) /\
        NewWithConfig (<["statement_timeout" := default DefaultQueryTimeout (params !! "statement_timeout")]> params, rest) = Ok p /\
        pool_Ping p = None
  end.

(** The text of the key: the configured one, else the file's. *)
Definition key_text (c : Config.Config) (text : string) : Prop :=
  jwt_PrivateKey (JWT c) <> "" /\ text = jwt_PrivateKey (JWT c) \/
  jwt_PrivateKey (JWT c) = "" /\ jwt_PrivateKeyPath (JWT c) <> "" /\ os_ReadFile (jwt_PrivateKeyPath (JWT c)) = Ok text.

(** The PEM block of the text holds the key, in either of the two forms. *)
Definition key_in (algorithm text : string) (key : PrivateKey) : Prop :=
  exists block, pem_Decode text = Some block /\
    if decide (algorithm = "ES256") then ParseECPrivateKey block = Ok key \/ ParsePKCS8PrivateKey block = Ok (ECDSAKey key)
    else ParsePKCS1PrivateKey block = Ok key \/ ParsePKCS8PrivateKey block = Ok (RSAKey key).

Definition configured_key (c : Config.Config) (i : Issuer) : Prop :=
  exists alg key, issuer_for i alg key /\ algName alg = jwt_Algorithm (JWT c) /\
    forall text, key_text c text -> key_in (jwt_Algorithm (JWT c)) text key.

Definition configured_cookies (c : Config.Config) (cc : CookieConfig) : Prop :=
  cc_Enabled cc = cookie_Enabled (Cookie c) /\ cc_Domain cc = cookie_Domain (Cookie c) /\
  cc_Path cc = cookie_Path (Cookie c) /\ cc_Secure cc = cookie_Secure (Cookie c) /\
  (cc_SameSite cc = SameSiteLaxMode <-> ToLower (cookie_SameSite (Cookie c)) = "lax") /\
  (cc_SameSite cc = SameSiteNoneMode <-> ToLower (cookie_SameSite (Cookie c)) = "none") /\
  cc_SameSite cc <> SameSiteDefaultMode.

Record wired (c : Config.Config) (app : App) : Prop := mkWired {
  wired_storage : configured_store c (app_storage app);
  wired_key : configured_key c (app_issuer app);
  wired_issuer : issuer (app_service app) = issuer_interface (app_issuer app);
  wired_clock : svc_now (app_service app) = time_Now;
  wired_local : localProvider (app_service app) = Some local_provider;
  wired_leeway : refreshReuseLeeway (app_service app) = token_RefreshReuseLeeway (Config.Token c);
  wired_pat : patStore (app_service app) = pat_Enabled (PAT c);
  wired_pat_config : pat_Enabled (PAT c) = true ->
    pc_MaxPerUser (patConfig (app_service app)) = setting 50 (pat_MaxPerUser (PAT c)) /\
    pc_MaxTTL (patConfig (app_service app)) = pat_MaxTTL (PAT c) /\
    pc_TouchInterval (patConfig (app_service app)) = setting Minute (pat_TouchInterval (PAT c));
  wired_oauth : forall name p, oauthProvider (app_service app) name = Ok p <->
    name = ProviderTypeGoogle /\ oauth_ClientID (oauth_Google (Config.OAuth c)) <> "" /\ p = google_of c \/
    name = ProviderTypeGitHub /\ oauth_ClientID (oauth_GitHub (Config.OAuth c)) <> "" /\ p = github_of c;
  wired_oauth_config : (exists name p, oauthProvider (app_service app) name = Ok p) ->
    oc_DisableAutoLinkEmail (Service.oauthConfig (app_service app)) = negb (oauth_AutoLinkEmail (Config.OAuth c)) /\
    oc_StateTTL (Service.oauthConfig (app_service app)) = 15 * Minute;
  wired_wallet_off : walletProviders (app_service app) = None <-> wallet_Domain (Config.Wallet c) = "";
  wired_chains : forall d, walletProviders (app_service app) = Some d -> serves_chains c d;
  wired_message : wallet_Domain (Config.Wallet c) <> "" ->
    wc_Domain (walletConfig (app_service app)) = wallet_Domain (Config.Wallet c) /\
    wc_URI (walletConfig (app_service app)) = wallet_URI (Config.Wallet c) /\
    wc_Statement (walletConfig (app_service app)) = wallet_Statement (Config.Wallet c) /\
    wc_ChallengeTTL (walletConfig (app_service app)) = setting (5 * Minute) (wallet_ChallengeTTL (Config.Wallet c));
  wired_handler : h_service (app_handler app) = app_service app;
  wired_cookies : configured_cookies c (h_cookieConfig (app_handler app));
  wired_proxies : parseTrustedProxies (server_TrustedProxies (Server c)) = Ok (h_trustedProxies (app_handler app));
  wired_addr : app_addr app = ":" +:+ Itoa (server_Port (Server c))
}.

Lemma setting_default default n : (if n =? 0 then default else n) = setting default n.
Proof. unfold setting. destruct (n =? 0) eqn:E, (decide (n = 0)); lia. Qed.

Lemma cookieConfig_configured c : configured_cookies c (cookieConfig c).
Proof.
  unfold configured_cookies, cookieConfig, parseSameSite. cbn. set (l := ToLower (cookie_SameSite (Cookie c))).
  destruct (strEq l "strict") eqn:E1, (strEq l "lax") eqn:E2, (strEq l "none") eqn:E3;
    rewrite ?strEq_true, ?strEq_false in E1; rewrite ?strEq_true, ?strEq_false in E2; rewrite ?strEq_true, ?strEq_false in E3;
    split_and!; try done; split; congruence.
Qed.

(** What an option leaves of the fields that are not its own. *)
Definition same_core (s s' : Service) : Prop :=
  issuer s' = issuer s /\ svc_now s' = svc_now s /\ localProvider s' = localProvider s /\
  refreshReuseLeeway s' = refreshReuseLeeway s /\ patStore s' = patStore s /\ patConfig s' = patConfig s.

Definition apply_options (s : Service) (opts : list ServiceOption) : Service := foldl (fun s opt => opt s) s opts.

Lemma oauthOptions_valid c : exists opts, oauthOptions c (oauth_list c) = Some opts /\
  forall s, oauthProviders s = None ->
    same_core s (apply_options s opts) /\ walletProviders (apply_options s opts) = walletProviders s /\
    (oauth_list c <> [] -> Service.oauthConfig (apply_options s opts) =
       mkOAuthConfig (negb (oauth_AutoLinkEmail (Config.OAuth c))) (15 * Minute)) /\
    forall name p, oauthProvider (apply_options s opts) name = Ok p <-> p ∈ oauth_list c /\ op_ProviderName p = name.
Proof.
  destruct (register_some op_ProviderName (oauth_list c) (oauth_list_names c)) as (m & Hm & Hl).
  unfold oauthOptions, oauthProvider. destruct (oauth_list c) as [|q qs] eqn:E.
  - exists []. split; [done|]. intros s Hs. cbn. rewrite Hs. split_and!; [done..|].
    intros name p. split; [done|]. by intros [?%elem_of_nil _].
  - unfold WithOAuth. rewrite Hm. eexists. split; [reflexivity|]. intros s Hs. split_and!; [done..|].
    intros name p. cbn. rewrite <- Hl. destruct (m !! name); naive_solver.
Qed.

Lemma walletOptions_valid c d : valid_config c -> createWalletDispatcher c = Running d ->
  exists opts, walletOptions c d = Some opts /\
  forall s, walletProviders s = None ->
    same_core s (apply_options s opts) /\ oauthProviders (apply_options s opts) = oauthProviders s /\
    Service.oauthConfig (apply_options s opts) = Service.oauthConfig s /\ walletProviders (apply_options s opts) = d /\
    (d <> None -> let wc := walletConfig (apply_options s opts) in
       wc_Domain wc = wallet_Domain (Config.Wallet c) /\ wc_URI wc = wallet_URI (Config.Wallet c) /\
       wc_Statement wc = wallet_Statement (Config.Wallet c) /\
       wc_ChallengeTTL wc = setting (5 * Minute) (wallet_ChallengeTTL (Config.Wallet c))).
Proof.
  intros Hv Hd. destruct d as [d|]; [|exists []; by split].
  destruct (createWalletDispatcher_valid c Hv) as [[_ Hn]|[Hdom _]]; [congruence|].
  destruct (valid_wallet _ Hv) as [?|(Huri & _ & Hline)]; [done|].
  unfold walletOptions, WithWallet. cbn [wc_Domain wc_URI wc_Statement].
  rewrite !(proj2 (strEq_false _ "")), Hline by done. cbn [orb wc_ChallengeTTL]. rewrite setting_default.
  eexists. split; [reflexivity|]. intros s Hs. by split_and!.
Qed.

(** The options of the program, applied in their order. *)
Lemma service_options_valid c d issuer : valid_config c -> createWalletDispatcher c = Running d ->
  exists oauthOpts walletOpts s, oauthOptions c (oauth_list c) = Some oauthOpts /\ walletOptions c d = Some walletOpts /\
    NewService (issuer_interface issuer) [local_provider]
      (WithRefreshReuseLeeway (token_RefreshReuseLeeway (Config.Token c)) :: patOptions c ++ oauthOpts ++ walletOpts) = Some s /\
    Service.issuer s = issuer_interface issuer /\ svc_now s = time_Now /\ localProvider s = Some local_provider /\
    refreshReuseLeeway s = token_RefreshReuseLeeway (Config.Token c) /\ patStore s = pat_Enabled (PAT c) /\
    (pat_Enabled (PAT c) = true -> patConfig s =
       mkPATConfig (setting 50 (pat_MaxPerUser (PAT c))) (pat_MaxTTL (PAT c)) (setting Minute (pat_TouchInterval (PAT c)))) /\
    (forall name p, oauthProvider s name = Ok p <-> p ∈ oauth_list c /\ op_ProviderName p = name) /\
    (oauth_list c <> [] -> Service.oauthConfig s = mkOAuthConfig (negb (oauth_AutoLinkEmail (Config.OAuth c))) (15 * Minute)) /\
    walletProviders s = d /\
    (d <> None -> wc_Domain (walletConfig s) = wallet_Domain (Config.Wallet c) /\
       wc_URI (walletConfig s) = wallet_URI (Config.Wallet c) /\
       wc_Statement (walletConfig s) = wallet_Statement (Config.Wallet c) /\
       wc_ChallengeTTL (walletConfig s) = setting (5 * Minute) (wallet_ChallengeTTL (Config.Wallet c))).
Proof.
  intros Hv Hd. destruct (oauthOptions_valid c) as (oo & Hoo & Ho).
  destruct (walletOptions_valid c d Hv Hd) as (wo & Hwo & Hw). exists oo, wo.
  unfold NewService. cbn [register p_Type local_provider]. rewrite lookup_empty.
  set (base := mkService _ _ _ _ _ _ _ _ _ _ _). rewrite app_comm_cons, app_assoc.
  set (first := _ :: patOptions c). exists (apply_options (apply_options (apply_options base first) oo) wo).
  split; [done|]. split; [done|]. split; [unfold apply_options; by rewrite !foldl_app|].
  assert (oauthProviders (apply_options base first) = None /\ walletProviders (apply_options base first) = None /\
    Service.issuer (apply_options base first) = issuer_interface issuer /\ svc_now (apply_options base first) = time_Now /\
    localProvider (apply_options base first) = Some local_provider /\
    refreshReuseLeeway (apply_options base first) = token_RefreshReuseLeeway (Config.Token c) /\
    patStore (apply_options base first) = pat_Enabled (PAT c) /\
    (pat_Enabled (PAT c) = true -> patConfig (apply_options base first) =
       mkPATConfig (setting 50 (pat_MaxPerUser (PAT c))) (pat_MaxTTL (PAT c)) (setting Minute (pat_TouchInterval (PAT c)))))
    as (Hn & Hn' & Hb1 & Hb2 & Hb3 & Hb4 & Hb5 & Hb6).
  { pose proof (valid_leeway _ Hv). unfold first, patOptions, apply_options.
    destruct (pat_Enabled (PAT c)); cbn; rewrite ?setting_default; split_and!; done || lia. }
  destruct (Ho _ Hn) as ((Hi & Hc & Hl & Hr & Hp & Hpc) & Hwn & Hoc & Hlook).
  destruct (Hw (apply_options (apply_options base first) oo))
    as ((Hi' & Hc' & Hl' & Hr' & Hp' & Hpc') & Hkeep & Hoc' & Hd' & Hm); [congruence|].
  split_and!; [congruence..|intros E; rewrite Hpc', Hpc; by apply Hb6| |intros E; rewrite Hoc'; by apply Hoc|done|done].
  intros name p. rewrite <- Hlook. unfold oauthProvider. by rewrite Hkeep.
Qed.

(** *** Running [start] *)

Context {S : Type} `{!StoreImpl S, Faults, !JoseLaws} (o : oracle).

Lemma run_said {A} r (k : unit -> prog A) (w : world S) :
  run o (bind (log r) k) w = run o (k tt) (mkWorld (w_store w) (w_tick w) (w_log w ++ [r])).
Proof. done. Qed.

Lemma parsed_ecdsa text key : parseECDSAPrivateKey text = Ok key -> key_in "ES256" text key.
Proof.
  unfold parseECDSAPrivateKey, key_in. destruct (pem_Decode text) as [block|]; [|done].
  destruct (ParseECPrivateKey block) as [k|] eqn:E; [intros Heq; injection Heq as <-; exists block; split; [done|]; case_decide; first [done|auto]|].
  destruct (ParsePKCS8PrivateKey block) as [[]|] eqn:E'; try done. intros Heq. injection Heq as <-. exists block. split; [done|]. case_decide; first [done|auto].
Qed.

Lemma parsed_rsa text key : parseRSAPrivateKey text = Ok key -> key_in "RS256" text key.
Proof.
  unfold parseRSAPrivateKey, key_in. destruct (pem_Decode text) as [block|]; [|done].
  destruct (ParsePKCS1PrivateKey block) as [k|] eqn:E; [intros Heq; injection Heq as <-; exists block; split; [done|]; case_decide; first [done|auto]|].
  destruct (ParsePKCS8PrivateKey block) as [[]|] eqn:E'; try done. intros Heq. injection Heq as <-. exists block. split; [done|]. case_decide; first [done|auto].
Qed.

Lemma issuer_from_key_made algorithm data i : algorithm = "RS256" \/ algorithm = "ES256" ->
  issuer_from_key algorithm data = Ok i ->
  exists alg key, issuer_for i alg key /\ algName alg = algorithm /\ key_in algorithm data key.
Proof.
  intros Ha. unfold issuer_from_key. destruct Ha as [-> | ->]; cbn.
  - destruct (parseRSAPrivateKey data) as [key|] eqn:E; [|done]. intros Hi. exists RS256, key.
    split_and!; [done..|by apply parsed_rsa].
  - destruct (parseECDSAPrivateKey data) as [key|] eqn:E; [|done]. intros Hi. exists ES256, key.
    split_and!; [done..|by apply parsed_ecdsa].
Qed.

Lemma run_createTokenIssuer c (w w' : world S) i : valid_config c ->
  run o (createTokenIssuer c) w = (Ok i, w') -> configured_key c i.
Proof.
  intros Hv. pose proof (valid_algorithm _ Hv) as Ha. unfold createTokenIssuer, configured_key, key_text. cbv zeta.
  destruct (strEq (jwt_PrivateKey (JWT c)) "") eqn:E1; cbn [negb];
    [apply strEq_true in E1; destruct (strEq (jwt_PrivateKeyPath (JWT c)) "") eqn:E2; cbn [negb]|apply strEq_false in E1].
  - apply strEq_true in E2. unfold warn. rewrite run_said. intros Hrun.
    assert (exists alg key, issuer_for i alg key /\ algName alg = jwt_Algorithm (JWT c)) as (alg & key & Hi & Hn);
      [|exists alg, key; split_and!; [done..|]; intros text [[? _]|(_ & ? & _)]; done].
    destruct Ha as [Ha|Ha]; rewrite Ha in Hrun |- *;
      [change (Algorithm_of "RS256") with RS256 in Hrun|change (Algorithm_of "ES256") with ES256 in Hrun];
      unfold NewWithAlgorithm in Hrun; rewrite run_bind in Hrun;
      destruct (run o (GenerateKey _) _) as [[key|e] w1]; cbn in Hrun; try done;
      injection Hrun as Hi _; eexists _, key; (split; [exact Hi|done]).
  - apply strEq_false in E2. destruct (os_ReadFile _) as [data|] eqn:Er; [|done]. intros [= Hi _].
    apply issuer_from_key_made in Hi as (alg & key & Hi & Hn & Hk); [|done]. exists alg, key. split_and!; [done..|].
    intros text [[? _]|(_ & _ & [= <-])]; done.
  - intros [= Hi _]. apply issuer_from_key_made in Hi as (alg & key & Hi & Hn & Hk); [|done].
    exists alg, key. split_and!; [done..|]. intros text [[_ ->]|[? _]]; done.
Qed.

Lemma run_startHandler c st i s (w : world S) : valid_config c ->
  exists tp app w', parseTrustedProxies (server_TrustedProxies (Server c)) = Ok tp /\
    run o (startHandler c st i s) w = (Running app, w') /\
    app_storage app = st /\ app_issuer app = i /\ app_service app = s /\
    h_service (app_handler app) = s /\ configured_cookies c (h_cookieConfig (app_handler app)) /\
    h_trustedProxies (app_handler app) = tp /\ app_addr app = ":" +:+ Itoa (server_Port (Server c)).
Proof.
  intros Hv. destruct (valid_proxies _ Hv) as [tp Htp]. unfold startHandler. rewrite Htp.
  exists tp. destruct tp as [|p tp]; cbn; eexists _, _;
    (split; [done|split; [reflexivity|]]); split_and!; try done; apply cookieConfig_configured.
Qed.

Lemma run_startService c st i (w : world S) : valid_config c -> configured_key c i -> configured_store c st ->
  exists app w', run o (startService c st i) w = (Running app, w') /\ wired c app /\ app_issuer app = i.
Proof.
  intros Hv Hkey Hst. unfold startService. rewrite createOAuthProviders_valid by done.
  assert (exists d, createWalletDispatcher c = Running d /\ (d = None <-> wallet_Domain (Config.Wallet c) = "") /\
    forall d', d = Some d' -> serves_chains c d') as (d & Hd & Hoff & Hserve).
  { destruct (createWalletDispatcher_valid c Hv) as [[? ?]|[? (d & ? & ?)]]; [by exists None|]. exists (Some d).
    split_and!; [done|done|]. by intros d' [= <-]. }
  destruct (service_options_valid c d i Hv Hd) as (oo & wo & s & -> & Hwo & Hs & Hi & Hc & Hl & Hr & Hp & Hpc & Ho & Hoc & Hw & Hm).
  rewrite run_bind. destruct (run o (match oauth_list c with [] => _ | _ => _ end) w) as [? w1].
  rewrite Hd, Hwo, run_bind. destruct (run o (match d with Some _ => _ | None => _ end) w1) as [? w2]. rewrite Hs.
  destruct (run_startHandler c st i s w2 Hv) as (tp & app & w3 & Htp & -> & Hast & Hai & Has & Hhs & Hhc & Hht & Hadr).
  exists app, w3. split; [done|]. split; [|done]. constructor; rewrite ?Has, ?Hast, ?Hai; try done.
  - intros E. rewrite Hpc by done. done.
  - intros name p. rewrite Ho. unfold oauth_list. rewrite elem_of_app.
    destruct (strEq _ "") eqn:E1, (strEq (oauth_ClientID (oauth_GitHub _)) "") eqn:E2;
      rewrite ?strEq_true, ?strEq_false in E1; rewrite ?strEq_true, ?strEq_false in E2;
      rewrite ?elem_of_nil, ?list_elem_of_singleton; split; intros; destruct_or?; destruct_and?; destruct_or?; subst; try done; auto.
  - intros (name & p & (Hin & _)%Ho). rewrite Hoc; [done|]. intros E; rewrite E in Hin; by apply elem_of_nil in Hin.
  - by rewrite Hw.
  - intros d' Hd'. apply Hserve. congruence.
  - intros Hdom. apply Hm. intros Hn. by apply Hdom, Hoff.
  - by rewrite Hht.
Qed.

Lemma run_openStore c (w : world S) : match run o (openStore c) w with
  | (Ok st, _) => configured_store c st
  | (Err e, _) => exists e', NewWithDSN (db_URL (DB c)) [WithTablePrefix (db_TablePrefix (DB c))] = Err e' /\
                    e = wrap "connect to postgres" e'
  end.
Proof.
  unfold openStore. cbv zeta. destruct (strEq _ "") eqn:E; cbn [negb].
  - by apply strEq_true in E.
  - apply strEq_false in E. unfold info. rewrite run_said. destruct (NewWithDSN _ _) as [[p s]|e] eqn:En; cbn; [|eauto].
    unfold NewWithDSN in En. destruct (ParseConfig _) as [[params rest]|] eqn:Ep; [|done].
    destruct (NewWithConfig _) as [p'|] eqn:Ec; [|done]. destruct (pool_Ping p') eqn:Eping; [done|].
    injection En as <- <-. split_and!; [done..|]. exists params, rest. split_and!; [done| |done].
    destruct (params !! _) eqn:Et; cbn [default from_option id] in *; [by rewrite insert_id|done].
Qed.

(** Starting, step by step. *)
Lemma run_start version c (w w' : world S) r :
  validateConfig c = None -> run o (start version c) w = (r, w') ->
  match r with
  | Running app => wired c app
  | Fails e =>
      (exists e', NewWithDSN (db_URL (DB c)) [WithTablePrefix (db_TablePrefix (DB c))] = Err e' /\
         e = wrap "connect to postgres" e') \/
      (exists e' w1 w2, run o (createTokenIssuer c) w1 = (Err e', w2) /\ e = wrap "create token issuer" e')
  | Panics => False
  end.
Proof.
  intros Hv%validateConfig_valid. unfold start, info. rewrite run_said, run_bind.
  match goal with |- context [run o (openStore c) ?x] => pose proof (run_openStore c x) as Hst; destruct (run o (openStore c) x) as [[st|e] w1] end;
    [|intros [= <- <-]; by left].
  rewrite run_bind. destruct (run o (createTokenIssuer c) w1) as [[i|e] w2] eqn:Hi; [|intros [= <- <-]; right; by eexists _, _, _].
  pose proof (run_createTokenIssuer c w1 w2 i Hv Hi) as Hkey. rewrite run_said.
  match goal with |- context [run o (startService c st i) ?x] => destruct (run_startService c st i x Hv Hkey Hst) as (app & w3 & -> & Hw & Hai) end.
  by intros [= <- <-].
Qed.

(** C15. A configuration that passes validation starts: building the service never
    panics and fails only for the database or the key; what runs is wired as the
    configuration says, setting by setting - the store and its table prefix, the
    signing key, the cookies, the trusted proxies, the port, the limits of access
    tokens, automatic linking, the OAuth clients, the wallet chains and what their
    messages carry - and is a service to which every theorem about the service
    applies. *)
Theorem start_valid version c (w w' : world S) r :
  validateConfig c = None -> run o (start version c) w = (r, w') ->
  match r with
  | Running app => wired c app /\ inhabited (ServiceSpec (app_service app))
  | Fails e =>
      (exists e', NewWithDSN (db_URL (DB c)) [WithTablePrefix (db_TablePrefix (DB c))] = Err e' /\
         e = wrap "connect to postgres" e') \/
      (exists e' w1 w2, run o (createTokenIssuer c) w1 = (Err e', w2) /\ e = wrap "create token issuer" e')
  | Panics => False
  end.
Proof.
  intros Hv Hr. pose proof (run_start version c w w' r Hv Hr) as Hs. destruct r as [app|e|]; [|done..].
  split; [done|]. destruct (wired_key _ _ Hs) as (alg & key & Hi & _). constructor. constructor.
  - rewrite (wired_issuer _ _ Hs). by eapply issuer_spec.
  - intros O R Q a HQ. rewrite (wired_clock _ _ Hs). intros t Ht. by apply HQ.
Qed.
End wiring.

(** ** The ForwardAuth endpoint *)

(** The audit log keeps every event of the handler, whatever logger.level says. *)
Lemma audit_not_dropped `{UnicodeTables} c l : l <> LevelDebug -> Enabled (setupAuditLogger c) l = true.
Proof. by destruct l. Qed.

Section forward.
Context {S : Type} `{!StoreImpl S, !StoreContract S, Faults} (o : oracle) (s : Service).

(** The answer that lets a request through as the user of the claims. *)
Definition admitted (c : Claims) : response :=
  mkResponse StatusOK
    ([("X-User-Id", claims_UserID c); ("X-User-Email", claims_Email c)] ++
     match claims_Roles c with [] => [] | roles => [("X-User-Roles", Join roles ",")] end) "".

Definition invalid_token : response := http_Error [] "invalid token" StatusUnauthorized.

(** The session token of a request's Authorization header, if it carries none. *)
Definition no_bearer (h : Header) : Prop :=
  header_Get h "Authorization" = "" \/ header_Get h "Authorization" = "Bearer ".

(** Which credential a request presents, or the text of the refusal: the bearer
    token of the Authorization header, which must be of that scheme when there is
    one; without a bearer token, the first cookie "psina_access", where cookies
    are enabled. *)
Inductive presents (cookies : bool) (h : Header) : string + string -> Prop :=
| pr_bearer tok : header_Get h "Authorization" = "Bearer " +:+ tok -> tok <> "" -> presents cookies h (inl tok)
| pr_other_scheme :
    header_Get h "Authorization" <> "" -> (forall tok, header_Get h "Authorization" <> "Bearer " +:+ tok) ->
    presents cookies h (inr "invalid authorization format")
| pr_cookie tok :
    no_bearer h -> cookies = true -> r_Cookie h "psina_access" = Some tok -> tok <> "" -> presents cookies h (inl tok)
| pr_nothing :
    no_bearer h -> cookies = false \/ r_Cookie h "psina_access" = None \/ r_Cookie h "psina_access" = Some "" ->
    presents cookies h (inr "missing authorization").

Lemma forwardCredential_presents cookies h : presents cookies h (forwardCredential cookies h).
Proof.
  assert (no_bearer h -> presents cookies h
    (let t := if cookies then default "" (r_Cookie h "psina_access") else "" in
     if strEq t "" then inr "missing authorization" else inl t)) as Hcookie.
  { intros Hn. destruct cookies; cbn; [|by apply pr_nothing; auto].
    destruct (r_Cookie h "psina_access") as [t|] eqn:E; cbn; [|by apply pr_nothing; auto].
    destruct (strEq t "") eqn:Et; [apply strEq_true in Et as ->; apply pr_nothing; auto|].
    apply strEq_false in Et. by apply pr_cookie. }
  unfold forwardCredential. cbv zeta. destruct (strEq (header_Get h "Authorization") "") eqn:E0; cbn [negb andb].
  { apply strEq_true in E0. apply Hcookie. by left. }
  apply strEq_false in E0. unfold TrimPrefix. destruct (HasPrefix _ "Bearer ") eqn:Ep.
  - apply HasPrefix_spec in Ep as [t Ht]. rewrite Ht, str_drop_app.
    rewrite (proj2 (strEq_false t ("Bearer " +:+ t))) by (intros Heq; apply (f_equal String.length) in Heq; rewrite str_length_app in Heq; cbn in Heq; lia).
    destruct (strEq t "") eqn:Et.
    + apply strEq_true in Et as ->. apply Hcookie. by right.
    + apply strEq_false in Et. cbn [andb]. rewrite (proj2 (strEq_false t "")) by done. by apply pr_bearer.
  - rewrite strEq_refl. apply pr_other_scheme; [done|]. intros tok Ht. by rewrite Ht, HasPrefix_app in Ep.
Qed.

(** What the endpoint answers to a request, on the data [a]. *)
Inductive forward_spec `{Reads} (cookies : bool) (h : Header) (w : world S) (a : db) : response -> Prop :=
| fw_none msg :
    presents cookies h (inr msg) -> forward_spec cookies h w a (http_Error [] msg StatusUnauthorized)
| fw_session tok c w1 :
    presents cookies h (inl tok) -> HasPrefix tok PATPrefix = false ->
    run o (ti_ParseToken (issuer s) tok) w = (Ok c, w1) -> forward_spec cookies h w a (admitted c)
| fw_bad_session tok e w1 :
    presents cookies h (inl tok) -> HasPrefix tok PATPrefix = false ->
    run o (ti_ParseToken (issuer s) tok) w = (Err e, w1) -> forward_spec cookies h w a invalid_token
| fw_pat tok p u :
    presents cookies h (inl tok) -> HasPrefix tok PATPrefix = true -> patStore s = true ->
    d_pats a !! HashToken tok = Some p -> d_users a !! pat_UserID p = Some u ->
    pat_ExpiresAt p = None \/ (exists now, reads now /\ pat_expired now p = false) ->
    forward_spec cookies h w a (admitted (pat_claims u))
| fw_bad_pat tok :
    presents cookies h (inl tok) -> HasPrefix tok PATPrefix = true ->
    patStore s = false \/ d_pats a !! HashToken tok = None \/
      (exists p now, d_pats a !! HashToken tok = Some p /\ reads now /\ pat_expired now p = true) ->
    forward_spec cookies h w a invalid_token
| fw_outage tok :
    presents cookies h (inl tok) -> HasPrefix tok PATPrefix = true -> patStore s = true -> outages = true ->
    forward_spec cookies h w a (http_Error [] "internal error" StatusInternalServerError).

(** C34. The gateway lets through exactly the verified: /verify answers 200 with the
    user's id, email and roles for an access token the issuer accepts or for a
    live personal access token; 401 for a request without a credential, a
    refused access token, or a personal access token that is unknown, expired or
    switched off; and never 401 for an outage, which is a 500. *)
Theorem ForwardAuth_exact cookies h w resp w' :
  oracle_ok o -> sc_inv (w_store w) -> run o (verifyEndpoint s cookies h) w = (resp, w') ->
  let _ : Reads := read_during o w w' in
  forward_spec cookies h w (sc_view (w_store w)) resp.
Proof.
  intros Ho Hinv Hrun R. unfold verifyEndpoint in Hrun. pose proof (forwardCredential_presents cookies h) as Hpr.
  destruct (forwardCredential cookies h) as [tok|msg] eqn:Ec; [|injection Hrun as <- <-; by apply fw_none].
  rewrite run_bind in Hrun. destruct (run o (Service_Verify s tok) w) as [r w1] eqn:Hv. unfold Service_Verify in Hv.
  destruct (HasPrefix tok PATPrefix) eqn:Ep.
  - destruct (patStore s) eqn:Es.
    2:{ unfold verifyPAT in Hv. rewrite Es in Hv. injection Hv as <- <-. cbn in Hrun. injection Hrun as <- <-.
        eapply fw_bad_pat; eauto. }
    assert (read_during o w w1 = R) as Hreads.
    { unfold R. destruct r as [c|e]; [by injection Hrun as _ <-|]. destruct (errors_Is e _); injection Hrun as _ <-; done. }
    pose proof (proj1 (wp_sound o _ _ _ _ _ Ho Hinv (wp_verifyPAT s tok _ (sc_ok _ Hinv) Es) Hv)) as Hspec.
    rewrite Hreads in Hspec. destruct Hspec as [e Hl He|p e now Hl Hnow Hx He _|p u a' Hl Hx Hu _|e Hi Hout].
    + rewrite He in Hrun. injection Hrun as <- <-. eapply fw_bad_pat; eauto.
    + rewrite He in Hrun. injection Hrun as <- <-. eapply fw_bad_pat; eauto 10.
    + injection Hrun as <- <-. eapply fw_pat; eauto.
    + rewrite infrastructure_Is in Hrun by done. injection Hrun as <- <-. by eapply fw_outage.
  - rewrite run_bind in Hv. destruct (run o (ti_ParseToken (issuer s) tok) w) as [[c|e] w2] eqn:Hp; injection Hv as <- <-;
      cbn in Hrun; injection Hrun as <- <-; [by eapply fw_session|by eapply fw_bad_session].
Qed.
End forward.

(** Two cookies of the name, the first one cleared: the RPC handler finds the
    session, the gateway's endpoint does not. *)
Definition shadowed_request : Header := [("Cookie", "psina_access=; psina_access=live")].

Lemma empty_cookie_shadows h :
  cc_Enabled (h_cookieConfig h) = true ->
  bearerToken h shadowed_request = Some "live" /\ forwardCredential true shadowed_request = inr "missing authorization".
Proof. intros He. split; [|reflexivity]. unfold bearerToken, cookies_on. rewrite He. reflexivity. Qed.
