(* ===== verification/Effort.v ===== *)
(** * Requests end

    How many effects - calls of the store, requests to the network, random bytes,
    readings of the clock, log records - a request of the API costs at most, for
    the program as it is started: no endpoint loops, retries without end or grows
    with what is stored. *)

From S2P Require Import Prelude GoStrings GoTime GoFormat GoJson Errors Entity Ports Contract Token Interfaces Local Service OAuth OAuth2 GitHub Google.
From S2P Require Import Wallet Evm GoNetip ClientIP GoHttp Postgres Handler Rpc Config ConfigFacts Main MainFacts.

(** ** Counting *)

Create HintDb ends.

Lemma ends_ret {A} n (a : A) : ends_in n (Ret a).
Proof. by destruct n. Qed.
Lemma ends_vis {A X} n (e : eff X) (k : X -> prog A) : (1 <= n)%nat -> (forall x, ends_in (n - 1) (k x)) -> ends_in n (Vis e k).
Proof. destruct n as [|n]; [lia|]. intros _ Hk x. specialize (Hk x). by rewrite Nat.sub_1_r in Hk. Qed.
Lemma ends_more {A} n m (p : prog A) : (n <= m)%nat -> ends_in n p -> ends_in m p.
Proof.
  revert n m. induction p as [a|X e k IH]; intros n m Hle Hp; [apply ends_ret|].
  destruct n as [|n]; [done|]. destruct m as [|m]; [lia|]. intros x. apply (IH x n); [lia|apply Hp].
Qed.
Lemma ends_bind {A B} c n (p : prog A) (k : A -> prog B) :
  ends_in c p -> (c <= n)%nat -> (forall x, ends_in (n - c) (k x)) -> ends_in n (bind p k).
Proof.
  revert c n. induction p as [a|X e p IH]; intros c n Hp Hc Hk; cbn.
  - eapply ends_more; [|apply Hk]. lia.
  - destruct c as [|c]; [done|]. apply ends_vis; [lia|]. intros x. apply (IH x c); [apply Hp|lia|]. intros y.
    eapply ends_more; [|apply (Hk y)]. lia.
Qed.
Lemma ends_perform {X} (e : eff X) : ends_in 1 (perform e).
Proof. intros x. apply ends_ret. Qed.
Lemma ends_call {X} (c : storeE X) : ends_in 1 (call c).
Proof. intros x. apply ends_ret. Qed.
Lemma ends_now : ends_in 1 time_Now.
Proof. intros x. apply ends_ret. Qed.
Lemma ends_log r : ends_in 1 (log r).
Proof. intros x. apply ends_ret. Qed.
#[export] Hint Resolve ends_ret ends_perform ends_call ends_now ends_log : ends.

(** Effect by effect through a program whose parts have their hints. *)
Ltac ends :=
  repeat lazymatch goal with
  | |- ends_in _ (Ret _) => apply ends_ret
  | |- forall _, _ => intros ?
  | |- ends_in _ (bind ?p _) =>
      first [eapply ends_bind; [solve [eauto 2 with ends]|lia|]
            |lazymatch p with
             | Ret _ => cbn [bind]
             | bind ?q _ => eapply (ends_bind _ _ p); [solve [eauto 2 with ends]|lia|]
             | context [match ?x with _ => _ end] => destruct x
             end]
  | |- ends_in _ ?p =>
      first [eapply ends_more; [|solve [eauto 2 with ends]]; lia
            |lazymatch p with context [match ?x with _ => _ end] => destruct x end]
  end.

(** ** The parts *)

(** What go-jose and oauth2 do takes so many effects at most. *)
Record Limited `{Jose, OAuth2} (L : nat) : Prop := {
  limited_sign : forall s c, ends_in L (Serialize s c);
  limited_exchange : forall c code v, ends_in L (Config_Exchange c code v);
  limited_request : forall c t r, ends_in L (Client_Do c t r)
}.

Section parts.
Context `{Jose, OAuth2, GitHub.RequestURL, GitHub.Endpoints, Google.IdTokens, Argon2, UnicodeTables} (L : nat) (HL : Limited L).

Lemma sign_ends s c : ends_in L (Serialize s c).
Proof. apply (limited_sign L HL). Qed.
Lemma exchange_ends c code v : ends_in L (Config_Exchange c code v).
Proof. apply (limited_exchange L HL). Qed.
Lemma request_ends c t r : ends_in L (Client_Do c t r).
Proof. apply (limited_request L HL). Qed.
Hint Resolve sign_ends exchange_ends request_ends : ends.

Lemma generate_ends i userID email roles : ends_in (3 + L) (GenerateTokens i userID email roles).
Proof. unfold GenerateTokens. ends. Qed.
Lemma parse_ends i tok : ends_in 1 (ParseToken i tok).
Proof. unfold ParseToken. ends. Qed.

Lemma get_ends {A} p conf t path (dst : json -> option A) : ends_in L (GitHub.getJSON p (Client_Do conf t) path dst).
Proof. unfold GitHub.getJSON. ends. Qed.
Hint Resolve get_ends : ends.
Lemma github_ends p code params : ends_in (3 * L) (GitHub.ExchangeCode p code params).
Proof. unfold GitHub.ExchangeCode. ends. Qed.
Lemma google_ends p code params : ends_in (1 + L) (Google.ExchangeCode p code params).
Proof. unfold Google.ExchangeCode. ends. Qed.

Lemma generateUserID_ends : ends_in 2 generateUserID.
Proof. unfold generateUserID. ends. Qed.
Lemma hashPassword_ends password : ends_in 1 (hashPassword password).
Proof. unfold hashPassword. ends. Qed.
Hint Resolve generateUserID_ends hashPassword_ends : ends.
Lemma register_ends req : ends_in 8 (Local.Register req).
Proof. unfold Local.Register. ends. Qed.
Lemma authenticate_ends req : ends_in 2 (Local.Authenticate req).
Proof. unfold Local.Authenticate. ends. Qed.
End parts.

(** ** The service *)

Section service.
Context `{UnicodeTables} (L : nat) (s : Service).
Context (Hgen : forall u e r, ends_in (3 + L) (ti_GenerateTokens (issuer s) u e r)).
Context (Hparse : forall tok, ends_in 1 (ti_ParseToken (issuer s) tok)).
Context (Hnow : ends_in 1 (svc_now s)).
Context (Hlocal : forall p, localProvider s = Some p ->
  (forall req, ends_in 8 (p_Register p req)) /\ forall req, ends_in 2 (p_Authenticate p req)).
Context (Hoauth : forall name p, oauthProvider s name = Ok p -> forall code params, ends_in (1 + 3 * L) (op_ExchangeCode p code params)).

Lemma generated u e r : ends_in (3 + L) (ti_GenerateTokens (issuer s) u e r).
Proof. apply Hgen. Qed.
Lemma parsed tok : ends_in 1 (ti_ParseToken (issuer s) tok).
Proof. apply Hparse. Qed.
Lemma clock : ends_in 1 (svc_now s).
Proof. exact Hnow. Qed.
Hint Resolve generated parsed clock : ends.

Lemma issueTokens_ends userID email roles parent : ends_in (5 + L) (issueTokens s userID email roles parent).
Proof. unfold issueTokens. ends. Qed.
Lemma isDuplicateRefresh_ends rt now : ends_in 1 (isDuplicateRefresh s rt now).
Proof. unfold isDuplicateRefresh. ends. Qed.
Lemma revokeReusedFamily_ends rt : ends_in 2 (revokeReusedFamily s rt).
Proof. unfold revokeReusedFamily. ends. Qed.
Hint Resolve issueTokens_ends isDuplicateRefresh_ends revokeReusedFamily_ends : ends.
Lemma refreshFrom_ends rt : ends_in (6 + L) (refreshFrom s rt).
Proof. unfold refreshFrom. ends. Qed.
Hint Resolve refreshFrom_ends : ends.
Lemma Refresh_ends tok : ends_in (10 + L) (Service_Refresh s tok).
Proof. unfold Service_Refresh. ends. Qed.
Lemma Logout_ends tok : ends_in 2 (Service_Logout s tok).
Proof. unfold Service_Logout. ends. Qed.

Lemma Register_ends email password : ends_in (13 + L) (Service_Register s email password).
Proof.
  unfold Service_Register. destruct (localProvider s) as [p|]; [|ends]. destruct (Hlocal p eq_refl) as [Hr _]. ends.
Qed.
Lemma Login_ends email password : ends_in (8 + L) (Service_Login s email password).
Proof.
  unfold Service_Login. destruct (localProvider s) as [p|]; [|ends]. destruct (Hlocal p eq_refl) as [_ Ha]. ends.
Qed.

Lemma patExpiredNow_ends pat : ends_in 1 (patExpiredNow pat).
Proof. unfold patExpiredNow. ends. Qed.
Lemma touchDue_ends pat : ends_in 1 (touchDue s pat).
Proof. unfold touchDue. ends. Qed.
Hint Resolve patExpiredNow_ends touchDue_ends : ends.
Lemma touchLastUsed_ends pat : ends_in 3 (touchLastUsed s pat).
Proof. unfold touchLastUsed. ends. Qed.
Hint Resolve touchLastUsed_ends : ends.
Lemma verifyPAT_ends tok : ends_in 6 (verifyPAT s tok).
Proof. unfold verifyPAT. ends. Qed.
Hint Resolve verifyPAT_ends : ends.
Lemma Verify_ends tok : ends_in 6 (Service_Verify s tok).
Proof. unfold Service_Verify. ends. Qed.
Lemma GeneratePAT_ends : ends_in 1 GeneratePAT.
Proof. unfold GeneratePAT. ends. Qed.
Hint Resolve GeneratePAT_ends : ends.
Lemma CreatePAT_ends userID name scopes e : ends_in 4 (Service_CreatePAT s userID name scopes e).
Proof. unfold Service_CreatePAT. ends. Qed.
Lemma ListPATs_ends userID : ends_in 1 (Service_ListPATs s userID).
Proof. unfold Service_ListPATs. ends. Qed.
Lemma RevokePAT_ends `{UUIDLib} userID id : ends_in 1 (Service_RevokePAT s userID id).
Proof. unfold Service_RevokePAT. ends. Qed.

Lemma randomSecret_ends : ends_in 1 randomSecret.
Proof. unfold randomSecret. ends. Qed.
Hint Resolve randomSecret_ends : ends.
Lemma GetOAuthURL_ends provider uri : ends_in 6 (GetOAuthURL s provider uri).
Proof. unfold GetOAuthURL. ends. Qed.
Lemma consumeOAuthState_ends req : ends_in 3 (consumeOAuthState s req).
Proof. unfold consumeOAuthState. ends. Qed.
Lemma oauthIdentityUser_ends provider ext : ends_in 2 (oauthIdentityUser provider ext).
Proof. unfold oauthIdentityUser. ends. Qed.
Lemma findOrCreateUser_ends email : ends_in 5 (findOrCreateUser s email).
Proof. unfold findOrCreateUser. ends. Qed.
Lemma checkAutoLink_ends userID : ends_in 1 (checkAutoLink s userID).
Proof. unfold checkAutoLink. ends. Qed.
Lemma discardUnlinkedUser_ends userID : ends_in 3 (discardUnlinkedUser userID).
Proof. unfold discardUnlinkedUser. ends. Qed.
Hint Resolve consumeOAuthState_ends oauthIdentityUser_ends findOrCreateUser_ends checkAutoLink_ends discardUnlinkedUser_ends : ends.
Lemma linkOAuthUser_ends provider info email user isNew origin :
  ends_in 8 (linkOAuthUser s provider info email user isNew origin).
Proof. unfold linkOAuthUser. ends. Qed.
Hint Resolve linkOAuthUser_ends : ends.
Lemma resolveOAuthUser_ends provider info : ends_in 16 (resolveOAuthUser s provider info).
Proof. unfold resolveOAuthUser. ends. Qed.
Hint Resolve resolveOAuthUser_ends : ends.
Lemma OAuthCallback_ends req : ends_in (25 + 4 * L) (Service_OAuthCallback s req).
Proof. unfold Service_OAuthCallback. destruct (oauthProvider s (ocr_Provider req)) as [p|] eqn:E; [|ends]. pose proof (Hoauth _ p E). ends. Qed.

Lemma GetChallenge_ends chain address : ends_in 3 (Service_GetChallenge s chain address).
Proof. unfold Service_GetChallenge. ends. Qed.
Lemma consumeWalletChallenge_ends p req addr : ends_in 3 (consumeWalletChallenge s p req addr).
Proof. unfold consumeWalletChallenge. ends. Qed.
Lemma walletIdentityUser_ends chain addr : ends_in 2 (walletIdentityUser chain addr).
Proof. unfold walletIdentityUser. ends. Qed.
Lemma discardWalletUser_ends userID : ends_in 2 (discardWalletUser userID).
Proof. unfold discardWalletUser. ends. Qed.
Hint Resolve consumeWalletChallenge_ends walletIdentityUser_ends discardWalletUser_ends : ends.
Lemma resolveWalletUser_ends chain addr : ends_in 11 (resolveWalletUser s chain addr).
Proof. unfold resolveWalletUser. ends. Qed.
Hint Resolve resolveWalletUser_ends : ends.
Lemma AuthenticateWallet_ends req : ends_in (19 + L) (Service_AuthenticateWallet s req).
Proof. unfold Service_AuthenticateWallet. ends. Qed.

(** ** The endpoints *)

Context (h : Handler) (Hh : h_service h = s).
Hint Resolve Refresh_ends Logout_ends Register_ends Login_ends Verify_ends CreatePAT_ends ListPATs_ends RevokePAT_ends : ends.
Hint Resolve GetOAuthURL_ends OAuthCallback_ends GetChallenge_ends AuthenticateWallet_ends : ends.

Lemma audit_ends {M} (req : request M) lvl event result attrs : ends_in 1 (writeAudit h req lvl event result attrs).
Proof. apply ends_log. Qed.
Hint Resolve audit_ends : ends.
Lemma success_ends {M} (req : request M) event userID attrs : ends_in 1 (auditSuccess h req event userID attrs).
Proof. apply audit_ends. Qed.
Lemma failure_ends {M} (req : request M) event reason attrs : ends_in 1 (auditFailure h req event reason attrs).
Proof. apply audit_ends. Qed.
Hint Resolve success_ends failure_ends : ends.
Lemma change_ends {M} (req : request M) method change a : ends_in 1 (auditAccountChange h req method change a).
Proof. unfold auditAccountChange. ends. Qed.
Hint Resolve change_ends : ends.
Lemma auditSignIn_ends {M} (req : request M) event method change a : ends_in 2 (auditSignIn h req event method change a).
Proof. unfold auditSignIn. ends. Qed.
Lemma auditSignInFailure_ends {M} (req : request M) event method reason err a :
  ends_in 2 (auditSignInFailure h req event method reason err a).
Proof. unfold auditSignInFailure. ends. Qed.
Lemma internalError_ends msg err : ends_in 1 (internalError msg err).
Proof. unfold internalError. ends. Qed.
Hint Resolve auditSignIn_ends auditSignInFailure_ends internalError_ends : ends.
Lemma verifyError_ends err : ends_in 1 (verifyErrorToConnect err).
Proof. unfold verifyErrorToConnect. ends. Qed.
Lemma oauthError_ends err : ends_in 1 (oauthErrorToConnect err).
Proof. unfold oauthErrorToConnect. ends. Qed.
Lemma walletError_ends err : ends_in 1 (walletErrorToConnect err).
Proof. unfold walletErrorToConnect. ends. Qed.
Lemma patError_ends op err : ends_in 1 (patErrorToConnect op err).
Proof. unfold patErrorToConnect. ends. Qed.
Lemma sessionCookies_ends tp : ends_in 2 (sessionCookies h tp).
Proof. unfold sessionCookies, setTokenCookies. ends. Qed.
Hint Resolve verifyError_ends oauthError_ends walletError_ends patError_ends sessionCookies_ends : ends.

Lemma orRefuse_ends {A M} c d n (p : prog (res A)) handle (k : A -> prog (answer M)) :
  ends_in c p -> (c + d <= n)%nat -> (forall err, ends_in d (handle err)) -> (forall x, ends_in d (k x)) ->
  ends_in n (orRefuse p handle k).
Proof.
  intros Hp Hn He Hk. unfold orRefuse. eapply ends_bind; [exact Hp|lia|]. intros [x|err].
  - eapply ends_more; [|apply Hk]. lia.
  - eapply (ends_bind d); [apply He|lia|]. intros e. apply ends_ret.
Qed.

(** An endpoint: the service's method, then what it answers. *)
Ltac endpoint d :=
  ends; (eapply (orRefuse_ends _ d); [rewrite ?Hh; solve [eauto 2 with ends]|lia|intros ?; ends|intros ?; ends]).

Lemma Handler_Register_ends req : ends_in (16 + L) (Handler_Register h req).
Proof. unfold Handler_Register. endpoint 3%nat. Qed.
Lemma Handler_Login_ends req : ends_in (11 + L) (Handler_Login h req).
Proof. unfold Handler_Login. endpoint 3%nat. Qed.
Lemma Handler_Refresh_ends req : ends_in (12 + L) (Handler_Refresh h req).
Proof. unfold Handler_Refresh. endpoint 2%nat. Qed.
Lemma Handler_Logout_ends req : ends_in 3 (Handler_Logout h req).
Proof. unfold Handler_Logout. endpoint 1%nat. Qed.
Lemma Handler_Verify_ends req : ends_in 7 (Handler_Verify h req).
Proof. unfold Handler_Verify. endpoint 1%nat. Qed.
Lemma Handler_GetOAuthURL_ends req : ends_in 7 (Handler_GetOAuthURL h req).
Proof. unfold Handler_GetOAuthURL. endpoint 1%nat. Qed.
Lemma Handler_OAuthCallback_ends req : ends_in (29 + 4 * L) (Handler_OAuthCallback h req).
Proof. unfold Handler_OAuthCallback. endpoint 4%nat. Qed.
Lemma Handler_GetChallenge_ends req : ends_in 4 (Handler_GetChallenge h req).
Proof. unfold Handler_GetChallenge. endpoint 1%nat. Qed.
Lemma Handler_AuthenticateWallet_ends req : ends_in (23 + L) (Handler_AuthenticateWallet h req).
Proof. unfold Handler_AuthenticateWallet. endpoint 4%nat. Qed.
Lemma authenticateSession_ends header : ends_in 7 (authenticateSession h header).
Proof. unfold authenticateSession. rewrite Hh. ends. Qed.
Hint Resolve authenticateSession_ends : ends.
Lemma Handler_CreatePAT_ends req : ends_in 12 (Handler_CreatePAT h req).
Proof. unfold Handler_CreatePAT. endpoint 1%nat. Qed.
Lemma Handler_ListPATs_ends req : ends_in 9 (Handler_ListPATs h req).
Proof. unfold Handler_ListPATs. endpoint 1%nat. Qed.
Lemma Handler_RevokePAT_ends `{UUIDLib} req : ends_in 9 (Handler_RevokePAT h req).
Proof. unfold Handler_RevokePAT. endpoint 1%nat. Qed.
Lemma verifyEndpoint_ends cookies header : ends_in 7 (verifyEndpoint s cookies header).
Proof. unfold verifyEndpoint. ends. Qed.
End service.

(** ** The program as it is started *)

Section started.
Context `{UnicodeTables, Argon2, KeyFiles, OAuth2, GitHub.RequestURL, GitHub.Endpoints, Google.IdTokens}.
Context `{Keccak, UpperTables, Secp256k1, Pgxpool, UUIDLib}.
Context {S : Type} `{!StoreImpl S, Faults, !JoseLaws} (o : oracle).

Lemma wired_ends L c app : Limited L -> wired c app ->
  (forall u e r, ends_in (3 + L) (ti_GenerateTokens (issuer (app_service app)) u e r)) /\
  (forall tok, ends_in 1 (ti_ParseToken (issuer (app_service app)) tok)) /\ ends_in 1 (svc_now (app_service app)) /\
  (forall p, localProvider (app_service app) = Some p ->
     (forall req, ends_in 8 (p_Register p req)) /\ forall req, ends_in 2 (p_Authenticate p req)) /\
  (forall name p, oauthProvider (app_service app) name = Ok p -> forall code params, ends_in (1 + 3 * L) (op_ExchangeCode p code params)) /\
  h_service (app_handler app) = app_service app.
Proof.
  intros HL Hw. rewrite (wired_issuer _ _ Hw), (wired_clock _ _ Hw), (wired_local _ _ Hw). split_and!.
  - intros u e r. by apply generate_ends.
  - intros tok. apply parse_ends.
  - apply ends_now.
  - intros p [= <-]. split; intros req; [apply register_ends|apply authenticate_ends].
  - intros name p [(_ & _ & ->)|(_ & _ & ->)]%(wired_oauth _ _ Hw) code params.
    + eapply ends_more; [|by apply google_ends]. lia.
    + eapply ends_more; [|by apply github_ends]. lia.
  - apply (wired_handler _ _ Hw).
Qed.

(** Every request to a program that was started with a valid configuration
    ends, after no more calls of the store, requests to the network, random
    strings, looks at the clock and log records than a bound that depends neither on the
    request nor on what is stored or was answered; [L] bounds what the libraries
    that sign tokens and talk OAuth 2.0 need. *)
Theorem requests_end L version c (w w' : world S) app :
  validateConfig c = None -> run o (start version c) w = (Running app, w') -> Limited L ->
  (forall req, ends_in (16 + L) (Handler_Register (app_handler app) req)) /\
  (forall req, ends_in (11 + L) (Handler_Login (app_handler app) req)) /\
  (forall req, ends_in (12 + L) (Handler_Refresh (app_handler app) req)) /\
  (forall req, ends_in 3 (Handler_Logout (app_handler app) req)) /\
  (forall req, ends_in 7 (Handler_Verify (app_handler app) req)) /\
  (forall req, ends_in 7 (Handler_GetOAuthURL (app_handler app) req)) /\
  (forall req, ends_in (29 + 4 * L) (Handler_OAuthCallback (app_handler app) req)) /\
  (forall req, ends_in 4 (Handler_GetChallenge (app_handler app) req)) /\
  (forall req, ends_in (23 + L) (Handler_AuthenticateWallet (app_handler app) req)) /\
  (forall req, ends_in 12 (Handler_CreatePAT (app_handler app) req)) /\
  (forall req, ends_in 9 (Handler_ListPATs (app_handler app) req)) /\
  (forall req, ends_in 9 (Handler_RevokePAT (app_handler app) req)) /\
  (forall cookies header, ends_in 7 (verifyEndpoint (app_service app) cookies header)).
Proof.
  intros Hv Hr HL. pose proof (run_start o version c w w' _ Hv Hr) as Hw.
  destruct (wired_ends L c app HL Hw) as (Hgen & Hparse & Hnow & Hlocal & Hoauth & Hh).
  split_and!; intros.
  - by eapply Handler_Register_ends.
  - by eapply Handler_Login_ends.
  - by eapply Handler_Refresh_ends.
  - by eapply Handler_Logout_ends.
  - by eapply Handler_Verify_ends.
  - by eapply Handler_GetOAuthURL_ends.
  - by eapply Handler_OAuthCallback_ends.
  - by eapply Handler_GetChallenge_ends.
  - by eapply Handler_AuthenticateWallet_ends.
  - by eapply Handler_CreatePAT_ends.
  - by eapply Handler_ListPATs_ends.
  - by eapply Handler_RevokePAT_ends.
  - by apply verifyEndpoint_ends.
Qed.
End started.
