(* ===== verification/Routes.v ===== *)
(** * The routes of the server (cmd/psina/main.go)

    The multiplexer of [run] as a flat table: [expected] names, for a path whose
    segments are known, the endpoint or the refusal, and [routes_exact] shows that
    the server does just that, for every method and every path. *)

From S2P Require Import Prelude GoStrings GoTime GoFormat GoEncoding Errors Entity Ports Contract ContractFacts Token Interfaces Local Service OAuth OAuth2 GitHub Google.
From S2P Require Import Wallet Evm GoNetip ClientIP GoHttp Postgres Handler Rpc Config ConfigFacts Main.

(** ** Paths *)

(** The segments of an escaped path, unescaped one by one. *)
Definition words (p : string) : list string := pathUnescape <$> path_segments p.

Lemma Split_slash p : Split (p +:+ "/") "/" = Split p "/" ++ [""].
Proof. apply (Split_app_sep p "" "/"). Qed.

Lemma path_segments_slash p : path_segments (p +:+ "/") = path_segments p ++ [""].
Proof.
  unfold path_segments. rewrite Split_slash. pose proof (Split_nonempty p "/"). by destruct (Split p "/").
Qed.

Lemma words_slash p : words (p +:+ "/") = words p ++ [""].
Proof. unfold words. by rewrite path_segments_slash, fmap_app. Qed.

Lemma last_byte_app s t : t <> "" -> last (String.list_ascii_of_string (s +:+ t)) = last (String.list_ascii_of_string t).
Proof.
  intros Ht. induction s as [|c s IH]; [done|]. cbn [String.append String.list_ascii_of_string].
  rewrite last_cons, IH. destruct t as [|d t]; [done|].
  cbn [String.list_ascii_of_string]. rewrite last_cons. by destruct (last (String.list_ascii_of_string t)).
Qed.

Lemma slash_suffix_app p : HasSlashSuffix (p +:+ "/") = true.
Proof. unfold HasSlashSuffix. by rewrite last_byte_app. Qed.

(** A path that ends in a slash has an empty last segment. *)
Lemma slash_suffix_last p w : HasSlashSuffix p = true -> last (words p) = Some w -> w = "".
Proof.
  unfold HasSlashSuffix. intros Hs Hl.
  assert (exists q, p = q +:+ "/") as [q ->].
  { clear Hl. induction p as [|c p IH]; [done|]. cbn [String.list_ascii_of_string] in Hs.
    destruct p as [|d p].
    - cbn in Hs. apply Ascii.eqb_eq in Hs as ->. by exists "".
    - rewrite last_cons in Hs. cbn [String.list_ascii_of_string] in IH, Hs.
      destruct (last (d :: _)) eqn:E; [|by rewrite last_None in E]. destruct (IH Hs) as [q Hq].
      exists (String c q). cbn. by rewrite Hq. }
  rewrite words_slash, last_snoc in Hl. by injection Hl as <-.
Qed.

Lemma match_literals_words literals segs :
  match_literals literals segs = if decide (pathUnescape <$> take (length literals) segs = literals)
                                 then Some (drop (length literals) segs) else None.
Proof.
  revert segs. induction literals as [|l literals IH]; intros segs; [done|].
  destruct segs as [|x segs]; [done|]. cbn [match_literals length]. rewrite IH, !firstn_cons, !skipn_cons, fmap_cons.
  destruct (decide (pathUnescape x = l)) as [E|E]; [rewrite bool_decide_true by done|rewrite bool_decide_false by done];
    repeat case_decide; congruence.
Qed.

(** What a pattern matches, in terms of the words of the path. *)
Definition match_words (pt : pattern) (us : list string) : bool :=
  if pt_Multi pt then bool_decide (take (length (pt_Segments pt)) us = pt_Segments pt)
                      && (Nat.ltb (length (pt_Segments pt)) (length us))
  else bool_decide (us = pt_Segments pt).

Lemma match_path_words pt p : match_path pt p = match_words pt (words p).
Proof.
  unfold match_path, match_words, words. rewrite match_literals_words, <- fmap_take, length_fmap.
  set (ls := pt_Segments pt). set (segs := path_segments p). rewrite <- (length_fmap pathUnescape segs).
  set (us := pathUnescape <$> segs).
  assert (length (drop (length ls) segs) = (length us - length ls)%nat) as Hd
    by (unfold us; by rewrite length_drop, length_fmap).
  case_decide as E.
  - destruct (drop (length ls) segs) as [|x rest] eqn:Ed; cbn in Hd.
    + rewrite (take_ge segs) in E by (unfold us in Hd; rewrite length_fmap in Hd; lia). destruct (pt_Multi pt).
      * rewrite (proj2 (Nat.ltb_ge _ _)) by lia. by rewrite andb_false_r.
      * symmetry. by apply bool_decide_eq_true.
    + destruct (pt_Multi pt).
      * rewrite bool_decide_true by done. symmetry. apply Nat.ltb_lt. lia.
      * symmetry. apply bool_decide_eq_false. intros Hu. rewrite Hu in Hd. lia.
  - destruct (pt_Multi pt); [by rewrite bool_decide_false|]. rewrite bool_decide_false; [done|].
    intros Hu. apply E. rewrite fmap_take. fold us. by rewrite Hu, take_ge.
Qed.

(** ** The table *)

Inductive endpoint := AtRpc | AtJwks | AtHealthz | AtReadyz | AtHealth | AtVerify.

#[export] Instance endpoint_eq_dec : EqDecision endpoint.
Proof. solve_decision. Defined.

Definition located (us : list string) : option endpoint :=
  if bool_decide (us = [".well-known"; "jwks.json"]) then Some AtJwks
  else if bool_decide (us = ["healthz"]) then Some AtHealthz
  else if bool_decide (us = ["readyz"]) then Some AtReadyz
  else if bool_decide (us = ["health"]) then Some AtHealth
  else if bool_decide (us = ["verify"]) then Some AtVerify
  else match us with u :: _ :: _ => if bool_decide (u = AuthServiceName) then Some AtRpc else None | _ => None end.

Definition endpoints : list endpoint := [AtRpc; AtJwks; AtHealthz; AtReadyz; AtHealth; AtVerify].
Lemma all_endpoints e : e ∈ endpoints.
Proof. apply (bool_decide_unpack _). by destruct e. Qed.

(** The methods an endpoint takes. *)
Definition takes (e : endpoint) (method : string) : bool :=
  match e with
  | AtRpc | AtVerify => true
  | _ => bool_decide (method = "GET") || bool_decide (method = "HEAD")
  end.

Definition not_allowed : response :=
  http_Error [("Allow", "GET, HEAD")] "Method Not Allowed" StatusMethodNotAllowed.

Section table.
Context `{Connect, !Messages, UnicodeTables, UUIDLib, Jose, Pgxpool}.
Context (encode : list (JSONWebKey Token.PublicKey) -> res string) (version : string).
Context (config : Config.Config) (app : App).

Definition endpoint_handler (e : endpoint) : http_Handler :=
  match e with
  | AtRpc => (NewAuthServiceHandler (handler_service (app_handler app))).2
  | AtJwks => fun _ => jwksEndpoint encode (app_issuer app)
  | AtHealthz => fun _ => Ret healthz
  | AtReadyz => fun _ => readyz (dbPing (app_storage app))
  | AtHealth => fun _ => health version (dbPing (app_storage app))
  | AtVerify => fun r => verifyEndpoint (app_service app) (cookie_Enabled (Config.Cookie config)) (hq_Header r)
  end.

(** A request for a path with these words. *)
Definition expected (us : list string) (r : serverRequest) : prog served :=
  match located us with
  | Some e =>
      if takes e (hq_Method r) then (let* w := endpoint_handler e r in Ret (Wrote w))%prog
      else Ret (Wrote not_allowed)
  | None =>
      if bool_decide (us = [AuthServiceName]) then Ret (Redirected (cleanPath (URL_Path r) +:+ "/"))
      else Ret (Wrote http_NotFound)
  end.

Abbreviation mux := (newMux encode version config app).

(** The entry of an endpoint. *)
Definition entry (e : endpoint) : pattern * http_Handler :=
  (match e with
   | AtRpc => mkPattern "" [AuthServiceName] true
   | AtJwks => mkPattern "GET" [".well-known"; "jwks.json"] false
   | AtHealthz => mkPattern "GET" ["healthz"] false
   | AtReadyz => mkPattern "GET" ["readyz"] false
   | AtHealth => mkPattern "GET" ["health"] false
   | AtVerify => mkPattern "" ["verify"] false
   end, endpoint_handler e).

Lemma mux_entries : mux = entry <$> endpoints.
Proof. reflexivity. Qed.

Lemma match_method_takes e m : match_method (entry e).1 m = takes e m.
Proof.
  destruct e; cbn; unfold match_method; cbn; rewrite ?(bool_decide_eq_true_2 ("" = "")) by done; try done;
    by repeat case_bool_decide; subst.
Qed.

(** An entry matches the words exactly when they locate its endpoint: entries
    do not overlap. *)
Lemma match_words_located e us : match_words (entry e).1 us = bool_decide (located us = Some e).
Proof.
  unfold located.
  destruct (decide (us = [".well-known"; "jwks.json"])) as [->|N1]; [by destruct e|].
  destruct (decide (us = ["healthz"])) as [->|N2]; [by destruct e|].
  destruct (decide (us = ["readyz"])) as [->|N3]; [by destruct e|].
  destruct (decide (us = ["health"])) as [->|N4]; [by destruct e|].
  destruct (decide (us = ["verify"])) as [->|N5]; [by destruct e|].
  rewrite !(bool_decide_false _ N1), (bool_decide_false _ N2), (bool_decide_false _ N3), (bool_decide_false _ N4),
    (bool_decide_false _ N5). unfold match_words.
  destruct e; cbn [entry fst pt_Multi pt_Segments]; try (rewrite bool_decide_false by done).
  2-6: by symmetry; apply bool_decide_eq_false; destruct us as [|u [|v us]]; try done; case_bool_decide.
  destruct us as [|u [|v us]]; [done|by rewrite andb_false_r|]. cbn [length take Nat.ltb Nat.leb].
  rewrite andb_true_r. by repeat case_bool_decide; simplify_eq.
Qed.

Lemma mux_match_located method p :
  mux_match mux method p =
    match located (words p) with Some e => if takes e method then Some (entry e) else None | None => None end.
Proof.
  unfold mux_match. rewrite mux_entries.
  assert (forall e, (match_method (entry e).1 method && match_path (entry e).1 p = true) <->
    located (words p) = Some e /\ takes e method = true) as Hm.
  { intros e. rewrite match_path_words, match_words_located, match_method_takes, andb_true_iff, bool_decide_eq_true. tauto. }
  destruct (list_find _ _) as [[i ph]|] eqn:F.
  - apply list_find_Some in F as (Hl & HP & _). apply list_elem_of_lookup_2, list_elem_of_fmap in Hl as (e & -> & _).
    apply Hm in HP as [-> ->]. done.
  - apply list_find_None in F. destruct (located (words p)) as [e|]; [|done]. destruct (takes e method) eqn:T; [exfalso|done].
    eapply Forall_forall in F; [|apply list_elem_of_fmap; exists e; split; [reflexivity|apply all_endpoints]]. apply F, Hm. done.
Qed.

(** The root of the subtree is missing its slash. *)
Lemma matchOrRedirect_located method p urlPath :
  matchOrRedirect mux method p urlPath =
    if bool_decide (words p = [AuthServiceName]) then inr (cleanPath urlPath +:+ "/")
    else inl (mux_match mux method p).
Proof.
  unfold matchOrRedirect. rewrite !mux_match_located, words_slash.
  destruct (decide (words p = [AuthServiceName])) as [E|E]; [rewrite (bool_decide_true _ E)|rewrite (bool_decide_false _ E)].
  - rewrite E. change ([AuthServiceName] ++ [""]) with [AuthServiceName; ""].
    assert (HasSlashSuffix p = false) as ->.
    { destruct (HasSlashSuffix p) eqn:Es; [|done]. by apply (slash_suffix_last p AuthServiceName) in Es; [|rewrite E]. }
    rewrite (bool_decide_false (p = "")) by (intros ->; done).
    change (located [AuthServiceName; ""]) with (Some AtRpc). cbn [located takes entry negb andb].
    unfold exactMatch. rewrite slash_suffix_app, path_segments_slash, length_app.
    apply (f_equal length) in E. unfold words in E. rewrite length_fmap in E. by rewrite E.
  - set (n := match located (words p) with Some _ => _ | None => _ end).
    destruct (negb _ && _ && _); [|done]. destruct (located (words p ++ [""])) as [e|] eqn:L; [|done].
    destruct (takes e method); [|done]. cbn [entry].
    assert (e = AtRpc) as ->.
    { pose proof (match_words_located e (words p ++ [""])) as Hm. rewrite L, (bool_decide_true _ eq_refl) in Hm.
      destruct e; [done|exfalso..]; apply bool_decide_eq_true in Hm; apply (f_equal last) in Hm; by rewrite last_snoc in Hm. }
    unfold exactMatch. cbn [entry fst pt_Multi pt_Segments]. rewrite slash_suffix_app, path_segments_slash, length_app.
    rewrite bool_decide_false; [done|]. cbn. intros El.
    pose proof (match_words_located AtRpc (words p ++ [""])) as Hm. rewrite L, (bool_decide_true _ eq_refl) in Hm.
    apply andb_true_iff in Hm as [Hm _]. apply bool_decide_eq_true in Hm. cbn in Hm.
    assert (length (words p) = 1%nat) as Hw by (unfold words; rewrite length_fmap; lia).
    by destruct (words p) as [|u [|]].
Qed.

(** The methods that would do. *)
Lemma matchingMethods_located p : matchingMethods mux p =
  match located (words p) with
  | Some (AtRpc | AtVerify) | None => []
  | Some _ => ["GET"; "HEAD"]
  end.
Proof.
  unfold matchingMethods.
  assert (forall e, pt_Method (entry e).1 <> "" -> match_path (entry e).1 (p +:+ "/") = false) as Hs.
  { intros e He. rewrite match_path_words, words_slash. destruct e; try done; apply bool_decide_eq_false; intros Hw;
      apply (f_equal last) in Hw; by rewrite last_snoc in Hw. }
  set (P := fun ph : pattern * http_Handler => _ = true).
  assert (forall e, P (entry e) <-> pt_Method (entry e).1 <> "" /\ located (words p) = Some e) as HP.
  { intros e. unfold P. rewrite andb_true_iff, negb_true_iff, bool_decide_eq_false.
    split; intros [He Hp]; (split; [done|]).
    - rewrite Hs, andb_false_r, orb_false_r, match_path_words, match_words_located in Hp by done. by apply bool_decide_eq_true in Hp.
    - rewrite match_path_words, match_words_located. by apply orb_true_iff; left; apply bool_decide_eq_true. }
  assert (forall e l, filter P (entry e :: l) =
    if bool_decide (pt_Method (entry e).1 <> "" /\ located (words p) = Some e) then entry e :: filter P l else filter P l) as Hf.
  { intros e l. rewrite filter_cons. destruct (decide (P (entry e))) as [Hd|Hd]; rewrite HP in Hd.
    - by rewrite (bool_decide_true _ Hd).
    - by rewrite (bool_decide_false _ Hd). }
  rewrite mux_entries. cbn [endpoints fmap list_fmap]. rewrite !Hf, filter_nil.
  by destruct (located (words p)) as [[]|].
Qed.

(** What the multiplexer does once the path is what it matches. *)
Lemma dispatched r p :
  match (match matchOrRedirect mux (hq_Method r) p (URL_Path r) with
         | inr q => RedirectTo q
         | inl n => match n with
                    | Some (_, h) => Handled h
                    | None => match matchingMethods mux p with [] => NotFound | ms => NotAllowed ms end
                    end
         end) with
  | Handled h => (let* w := h r in Ret (Wrote w))%prog
  | RedirectTo q => Ret (Redirected q)
  | NotAllowed ms => Ret (Wrote (http_Error [("Allow", Join ms ", ")] "Method Not Allowed" StatusMethodNotAllowed))
  | NotFound => Ret (Wrote http_NotFound)
  end = expected (words p) r.
Proof.
  rewrite matchOrRedirect_located, mux_match_located, matchingMethods_located. unfold expected.
  destruct (decide (words p = [AuthServiceName])) as [->|E]; [done|rewrite !(bool_decide_false _ E)].
  destruct (located (words p)) as [e|]; [|done]. destruct (takes e (hq_Method r)) eqn:T; [by destruct e|]. by destruct e.
Qed.

(** A request for a path that is not "*". *)
Lemma routed r : hq_EscapedPath r <> "*" ->
  let p := hq_EscapedPath r in
  server_Handler encode version config app r =
    if bool_decide (hq_Method r = "CONNECT") || bool_decide (cleanPath p = p) then expected (words p) r
    else Ret (Redirected (if bool_decide (words (cleanPath p) = [AuthServiceName])
                          then cleanPath (URL_Path r) +:+ "/" else cleanPath p)).
Proof.
  intros Hstar p. unfold server_Handler, ServeHTTP. rewrite bool_decide_false by done.
  unfold findHandler. fold p. rewrite <- dispatched.
  destruct (bool_decide (hq_Method r = "CONNECT")); cbn [orb].
  - rewrite (bool_decide_false (p <> p)) by (intros H6; by apply H6). by destruct (matchOrRedirect mux (hq_Method r) p _).
  - destruct (decide (cleanPath p = p)) as [Ep|Ep].
    + rewrite (bool_decide_true _ Ep), Ep, (bool_decide_false (p <> p)) by (intros H6; by apply H6).
      by destruct (matchOrRedirect mux (hq_Method r) p _).
    + rewrite (bool_decide_false _ Ep), (bool_decide_true _ Ep), matchOrRedirect_located. by case_bool_decide.
Qed.

(** C24. What the server does with a request, for every method and every path.  A
    request for a clean path is answered by the endpoint its words locate, or
    refused, as [expected] says; one for another path is redirected, to the clean
    path or to the root of the API.  Two exceptions: a CONNECT request is never
    redirected to a clean path but matched on the path as it is written, so that
    ".." may be a word of it; and the path "*" is answered 400. *)
Theorem routes_exact r :
  let p := hq_EscapedPath r in
  server_Handler encode version config app r =
    if decide (p = "*") then Ret (Wrote (mkResponse 400 [("Connection", "close")] ""))
    else if decide (hq_Method r = "CONNECT" \/ cleanPath p = p) then expected (words p) r
    else if decide (words (cleanPath p) = [AuthServiceName]) then Ret (Redirected (cleanPath (URL_Path r) +:+ "/"))
    else Ret (Redirected (cleanPath p)).
Proof.
  intros p. destruct (decide (p = "*")) as [Hstar|Hstar].
  { unfold server_Handler, ServeHTTP. fold p. by rewrite (bool_decide_true _ Hstar). }
  rewrite routed by done. fold p. rewrite <- bool_decide_or.
  by destruct (decide (_ \/ _)) as [E|E]; [rewrite (bool_decide_true _ E)|rewrite (bool_decide_false _ E)]; repeat case_decide.
Qed.

(** A procedure of the API is called by a request for its path. *)
Lemma procedure_path_served r p :
  hq_Method r = "POST" -> hq_EscapedPath r = p -> plain_path p = true -> cleanPath p = p ->
  located (words p) = Some AtRpc ->
  server_Handler encode version config app r = (let* w := endpoint_handler AtRpc r in Ret (Wrote w))%prog.
Proof.
  intros Hm Hp Hpl Hc Hl. rewrite routed.
  - rewrite Hp, (bool_decide_true _ Hc), orb_true_r. unfold expected. by rewrite Hl.
  - rewrite Hp. by intros ->.
Qed.
End table.
