(* ===== verification/Server.v ===== *)
(** * The server as its clients see it (authv1connect over cmd/psina/main.go)

    A client made by the generated code reaches each method of the handler
    ([client_reaches_handler]); every HTTP request to the program as it is started
    ends ([http_requests_end]).  [PlainConnect] is a wire format that runs. *)

From S2P Require Import Prelude GoStrings GoTime GoFormat GoEncoding Errors Entity Ports Contract ContractFacts Token Interfaces Local Service OAuth OAuth2 GitHub Google.
From S2P Require Import Wallet Evm GoNetip ClientIP GoHttp Postgres Handler Rpc Config ConfigFacts Main MainFacts Effort Routes.

(** ** A client and the service behind it *)

Section calls.
Context `{Connect, !ConnectLaws}.

(** The client's call is the call of the implementation with the same message,
    from the address of the connection; what it is told is what was answered. *)
Definition answers_as {Req Res} (addr : string) (mq : Message Req) (ms : Message Res)
    (call : request Req -> prog (reply Res)) (fn : request Req -> prog (answer Res)) : Prop :=
  forall req, encodable mq (rq_Msg req) ->
  exists header received, carries header (rq_Header req) /\
    call req ≡ (let* a := fn (mkRequest (rq_Msg req) addr header) in Ret (received a))%prog /\
    forall a, encodable_answer ms a -> received a = reply_of a.

(** [http] takes requests for [host] to the server [srv], over connections from
    [addr], and brings back what it wrote. *)
Definition reaches (http : HTTPClient) (host addr : string) (srv : serverRequest -> prog served) : Prop :=
  forall r (p : prog response), hq_Host r = host ->
    srv (arrive addr r) ≡ (let* w := p in Ret (Wrote w))%prog -> http r ≡ (let* w := p in Ret (Ok w))%prog.

Lemma call_reaches {Req Res} (mq : Message Req) (ms : Message Res) http host addr srv procedure fn :
  plain_host host = true -> plain_path procedure = true -> reaches http host addr srv ->
  (forall r, hq_Method r = "POST" -> hq_EscapedPath r = procedure ->
     srv r = (let* w := NewUnaryHandler mq ms procedure fn r in Ret (Wrote w))%prog) ->
  answers_as addr mq ms (CallUnary (NewClient mq ms http ("http://" +:+ host +:+ procedure))) fn.
Proof.
  intros Hh Hp Hreach Hsrv req Henc.
  destruct (unary_call mq ms host procedure req Hh Hp Henc) as (r & receive & Hm & Hhost & Hpath & Hcar & Hcall & Hserve).
  destruct (Hserve addr) as (send & Hfn & Hrep).
  exists (hq_Header r), (fun a => receive (Ok (send a))). split_and!; [done| |done].
  rewrite Hcall, (Hreach r (NewUnaryHandler mq ms procedure fn (arrive addr r)) Hhost) by by rewrite Hsrv.
  by rewrite Hfn, !bind_assoc.
Qed.
End calls.

Fixpoint slashes (n : nat) : string := match n with O => "" | S n => String "/" (slashes n) end.

Lemma TrimRightSlash_id s : HasSlashSuffix s = false -> TrimRightSlash s = s.
Proof.
  unfold HasSlashSuffix. induction s as [|c s IH]; [done|]. cbn [String.list_ascii_of_string TrimRightSlash].
  rewrite last_cons. destruct s as [|d s].
  - cbn. by intros ->.
  - intros Hs. rewrite IH; [done|]. cbn [String.list_ascii_of_string] in *. destruct (last (d :: _)) eqn:E; [done|].
    by apply last_None in E.
Qed.

Lemma TrimRightSlash_slashes s n : TrimRightSlash (s +:+ slashes n) = TrimRightSlash s.
Proof.
  induction s as [|c s IH]; cbn [String.append TrimRightSlash]; [|by rewrite IH].
  induction n as [|n IH]; [done|]. cbn [slashes TrimRightSlash]. by rewrite IH.
Qed.

Lemma base_trimmed host n : plain_host host = true ->
  TrimRightSlash ("http://" +:+ host +:+ slashes n) = "http://" +:+ host.
Proof.
  intros Hh. rewrite str_app_assoc, TrimRightSlash_slashes. apply TrimRightSlash_id. apply andb_true_iff in Hh as [Hne Hall].
  apply negb_true_iff, bool_decide_eq_false in Hne. unfold HasSlashSuffix. rewrite last_byte_app by done.
  destruct (last _) as [c|] eqn:E; [|done]. apply last_Some_elem_of in E.
  rewrite forallb_forall in Hall. apply list_elem_of_In, Hall in E. destruct (Ascii.eqb_spec c "/") as [->|]; [done|done].
Qed.

Section service.
Context `{Connect, !Messages, !ConnectLaws}.

(** Each method of the client is the method of the service of that name. *)
Definition reaches_service (addr : string) (c : AuthServiceClient) (svc : AuthServiceHandler) : Prop :=
  answers_as addr RegisterRequest_msg RegisterResponse_msg (cli_Register c) (svc_Register svc) /\
  answers_as addr LoginRequest_msg LoginResponse_msg (cli_Login c) (svc_Login svc) /\
  answers_as addr RefreshRequest_msg RefreshResponse_msg (cli_Refresh c) (svc_Refresh svc) /\
  answers_as addr LogoutRequest_msg LogoutResponse_msg (cli_Logout c) (svc_Logout svc) /\
  answers_as addr VerifyRequest_msg VerifyResponse_msg (cli_Verify c) (svc_Verify svc) /\
  answers_as addr GetOAuthURLRequest_msg GetOAuthURLResponse_msg (cli_GetOAuthURL c) (svc_GetOAuthURL svc) /\
  answers_as addr OAuthCallbackRequest_msg OAuthCallbackResponse_msg (cli_OAuthCallback c) (svc_OAuthCallback svc) /\
  answers_as addr GetChallengeRequest_msg GetChallengeResponse_msg (cli_GetChallenge c) (svc_GetChallenge svc) /\
  answers_as addr AuthenticateWalletRequest_msg AuthenticateWalletResponse_msg (cli_AuthenticateWallet c) (svc_AuthenticateWallet svc) /\
  answers_as addr CreatePersonalAccessTokenRequest_msg CreatePersonalAccessTokenResponse_msg (cli_CreatePersonalAccessToken c) (svc_CreatePersonalAccessToken svc) /\
  answers_as addr ListPersonalAccessTokensRequest_msg ListPersonalAccessTokensResponse_msg (cli_ListPersonalAccessTokens c) (svc_ListPersonalAccessTokens svc) /\
  answers_as addr RevokePersonalAccessTokenRequest_msg RevokePersonalAccessTokenResponse_msg (cli_RevokePersonalAccessToken c) (svc_RevokePersonalAccessToken svc).

(** A server that hands a request for the path of a procedure to the generated handler. *)
Definition mounts (srv : serverRequest -> prog served) (svc : AuthServiceHandler) : Prop :=
  forall r, hq_Method r = "POST" -> hq_EscapedPath r ∈ procedures ->
    srv r = (let* w := (NewAuthServiceHandler svc).2 r in Ret (Wrote w))%prog.

Lemma mounted {Req Res} (mq : Message Req) (ms : Message Res) srv svc procedure fn :
  procedure ∈ procedures -> mounts srv svc ->
  (forall r, URL_Path r = procedure -> (NewAuthServiceHandler svc).2 r = NewUnaryHandler mq ms procedure fn r) ->
  forall r, hq_Method r = "POST" -> hq_EscapedPath r = procedure ->
    srv r = (let* w := NewUnaryHandler mq ms procedure fn r in Ret (Wrote w))%prog.
Proof.
  intros Hin Hs Hsw r Hm Hp. rewrite Hs, Hsw; try done; [|by rewrite Hp].
  unfold URL_Path. rewrite Hp. clear -Hin. revert procedure Hin. apply Forall_forall. by repeat constructor.
Qed.

(** The method at the path of its own procedure. *)
Ltac own_procedure :=
  lazymatch goal with
  | |- answers_as _ ?mq ?ms _ _ =>
      refine (call_reaches mq ms _ _ _ _ _ _ _ _ _ _); [done|reflexivity|eassumption|];
      eapply mounted; [by apply (bool_decide_unpack _)|eassumption|intros r E; cbn [snd NewAuthServiceHandler]; by rewrite E]
  end.

Lemma client_reaches_service http host addr n srv svc :
  plain_host host = true -> reaches http host addr srv -> mounts srv svc ->
  reaches_service addr (NewAuthServiceClient http ("http://" +:+ host +:+ slashes n)) svc.
Proof.
  intros Hh Hr Hs. unfold NewAuthServiceClient. rewrite base_trimmed by done. rewrite <- !str_app_assoc.
  unfold reaches_service. split_and!; own_procedure.
Qed.
End service.

(** ** The program *)

Section started.
Context `{UnicodeTables, Argon2, KeyFiles, OAuth2, GitHub.RequestURL, GitHub.Endpoints, Google.IdTokens}.
Context `{Keccak, UpperTables, Secp256k1, Pgxpool, UUIDLib}.
Context `{Connect, !Messages, !ConnectLaws}.
Context (encode : list (JSONWebKey Token.PublicKey) -> res string) (version : string).

(** C22. Through a client made by the generated code, with the server's URL however many
    slashes end it, each of the twelve calls is the call of the handler's method of
    that name: the same message, the address of the connection, and the answer or
    the refusal the method gave. *)
Theorem client_reaches_handler http host addr n config app :
  plain_host host = true -> reaches http host addr (server_Handler encode version config app) ->
  reaches_service addr (NewAuthServiceClient http ("http://" +:+ host +:+ slashes n)) (handler_service (app_handler app)).
Proof.
  intros Hh Hr. eapply client_reaches_service; [done|exact Hr|]. intros r Hm Hp.
  assert (Forall (fun p => plain_path p = true /\ cleanPath p = p /\ located (words p) = Some AtRpc) procedures) as Hall
    by (repeat constructor).
  eapply Forall_forall in Hall as (Hpl & Hc & Hl); [|exact Hp].
  by apply (procedure_path_served encode version config app r (hq_EscapedPath r)).
Qed.

Lemma unary_ends {Req Res} (mq : Message Req) (ms : Message Res) procedure fn n r :
  (forall req, ends_in n (fn req)) -> ends_in n (NewUnaryHandler mq ms procedure fn r).
Proof.
  intros Hfn. destruct (unary_decodes mq ms procedure r) as [[w Hw]|(req & send & _ & _ & Hw)]; rewrite Hw.
  - apply ends_ret.
  - eapply ends_bind; [apply Hfn|done|]. intros a. apply ends_ret.
Qed.

Context {S : Type} `{!StoreImpl S, Faults, !JoseLaws} (o : oracle).

(** C35. Every HTTP request to a program that was started with a valid configuration
    ends, whatever its method, path, headers and body, after a number of calls of
    the store, requests to the network, random strings, looks at the clock and log
    records that depends on nothing but [L], which bounds what the libraries that
    sign tokens and talk OAuth 2.0 need. *)
Theorem http_requests_end L c (w w' : world S) app :
  validateConfig c = None -> run o (start version c) w = (Running app, w') -> Limited L ->
  forall r, ends_in (29 + 4 * L) (server_Handler encode version c app r).
Proof.
  intros Hv Hr HL r.
  destruct (requests_end o L version c w w' app Hv Hr HL)
    as (E1 & E2 & E3 & E4 & E5 & E6 & E7 & E8 & E9 & E10 & E11 & E12 & E13).
  destruct (decide (hq_EscapedPath r = "*")) as [Hstar|Hstar].
  { unfold server_Handler, ServeHTTP. rewrite (bool_decide_true _ Hstar). apply ends_ret. }
  rewrite routed by done. destruct (_ || _); [|apply ends_ret]. unfold expected.
  destruct (located _) as [e|]; [|case_bool_decide; apply ends_ret]. destruct (takes e _); [|apply ends_ret].
  eapply (ends_bind (29 + 4 * L)); [|done|intros x; apply ends_ret]. destruct e; cbn [endpoint_handler].
  - cbn [NewAuthServiceHandler snd handler_service].
    repeat (destruct (strEq _ _); [apply unary_ends; intros req; eapply ends_more; [|solve [eauto]]; lia|]). apply ends_ret.
  - unfold jwksEndpoint. ends.
  - apply ends_ret.
  - unfold readyz, warn. ends.
  - unfold health, warn. ends.
  - eapply ends_more; [|apply E13]. lia.
Qed.
End started.

(** ** A wire format *)

(** Messages as bit strings, a POST with the message as its body, and the code of a
    refusal in a header: an instance of [Connect] that runs. *)
Module PlainConnect.
Record coded (M : Type) := mkCoded {
  enc : M -> positive;
  dec : positive -> option M;
  dec_enc : forall m, dec (enc m) = Some m
}.
Arguments mkCoded {M} _ _ _.
Arguments enc {M} _ _.
Arguments dec {M} _ _.
Arguments dec_enc {M} _ _.

Definition countable_coded `{Countable M} : coded M := mkCoded countable.encode countable.decode decode_encode.
Program Definition by_fields {A B} (c : coded B) (f : A -> B) (g : B -> A) (Hgf : forall a, g (f a) = a) : coded A :=
  mkCoded (fun a => enc c (f a)) (fun p => g <$> dec c p) _.
Next Obligation. intros A B c f g Hgf a. cbn. by rewrite dec_enc; cbn; rewrite Hgf. Qed.

(** The digits of PlainJose carry a message. *)
Abbreviation bits := PlainJose.bits (only parsing).
Abbreviation unbits := PlainJose.unbits (only parsing).

Definition code_number (c : Code) : string :=
  match c with
  | CodeInvalidArgument => "3" | CodeNotFound => "5" | CodeAlreadyExists => "6" | CodePermissionDenied => "7"
  | CodeResourceExhausted => "8" | CodeFailedPrecondition => "9" | CodeUnimplemented => "12" | CodeInternal => "13"
  | CodeUnauthenticated => "16"
  end.
Definition number_code (s : string) : option Code :=
  snd <$> find (fun nc => strEq nc.1 s) ((fun c => (code_number c, c)) <$>
    [CodeInvalidArgument; CodeNotFound; CodeAlreadyExists; CodePermissionDenied; CodeResourceExhausted;
     CodeFailedPrecondition; CodeUnimplemented; CodeInternal; CodeUnauthenticated]).

Definition line (h : outline) : string * string :=
  match h with HSet k v => (k, v) | HAddCookie c => ("Set-Cookie", ck_Name c +:+ "=" +:+ ck_Value c) end.

Definition text (e : error) : string := match e with ENew t | EForeign t => t | _ => "failed" end.

Definition respond {M} (m : coded M) (a : answer M) : response :=
  match a with
  | Answer msg hs => mkResponse 200 (line <$> hs) (bits (enc m msg))
  | Refuse e => mkResponse 400 [("Code", code_number (cerr_Code e))] (text (cerr_Err e))
  end.

Definition understand {M} (m : coded M) (x : res response) : reply M :=
  match x with
  | Err e => Failed e
  | Ok w =>
      if rs_Status w =? 200
      then match dec m (unbits (rs_Body w)) with Some msg => Received msg | None => Failed (EForeign "bad body") end
      else match number_code (header_Get (rs_Header w) "Code") with
           | Some c => Refused c (rs_Body w)
           | None => Failed (EForeign "no code")
           end
  end.

(** The host and the path of a URL. *)
Definition parts (url : string) : string * string :=
  let rest := str_drop 7 url in
  match Cut rest "/" with (host, path, _) => (host, "/" +:+ path) end.

Record client (Req Res : Type) := mkClient {
  cl_req : coded Req; cl_res : coded Res; cl_http : HTTPClient; cl_url : string
}.

#[export] Instance connect : Connect := {|
  Message := coded;
  encodable _ _ _ := True;
  error_text := text;
  NewUnaryHandler Req Res mq ms _ fn := fun r =>
    (if negb (strEq (hq_Method r) "POST") then Ret (http_Error [] "method" 405)
     else match dec mq (unbits (hq_Body r)) with
          | None => Ret (http_Error [] "body" 400)
          | Some m => let* a := fn (mkRequest m (hq_RemoteAddr r) (hq_Header r)) in Ret (respond ms a)
          end)%prog;
  Client := client;
  NewClient Req Res mq ms http url := mkClient _ _ mq ms http url;
  CallUnary Req Res c req :=
    (let '(host, path) := parts (cl_url _ _ c) in
     let* x := cl_http _ _ c (mkServerRequest "POST" host path (rq_Header req) "" (bits (enc (cl_req _ _ c) (rq_Msg req)))) in
     Ret (understand (cl_res _ _ c) x))%prog
|}.

Lemma parts_url host path : plain_host host = true -> plain_path path = true ->
  parts ("http://" +:+ host +:+ path) = (host, path).
Proof.
  intros Hh Hp. unfold parts. change (str_drop 7 ("http://" +:+ host +:+ path)) with (str_drop 0 (host +:+ path)).
  apply andb_true_iff in Hh as [_ Hh]. destruct path as [|c path]; [done|].
  apply andb_true_iff in Hp as [Hs _]. unfold HasPrefix in Hs. cbn [String.prefix] in Hs.
  destruct (ascii_dec "/" c) as [<-|]; [|done]. cbn [str_drop].
  assert (Cut (host +:+ String "/" path) "/" = (host, path, true)) as ->; [|done].
  induction host as [|c host IH]; [done|]. cbn [String.list_ascii_of_string forallb] in Hh. apply andb_true_iff in Hh as [Hc Hh].
  cbn [String.append Cut]. destruct (Ascii.eqb_spec c "/") as [->|]; [done|]. by rewrite (IH Hh).
Qed.

#[export] Instance connect_laws : ConnectLaws.
Proof.
  split.
  - intros Req Res mq ms procedure r. cbn. destruct (strEq _ _); cbn [negb].
    + destruct (dec mq _) as [m|]; [right|left; by eexists].
      exists (mkRequest m (hq_RemoteAddr r) (hq_Header r)), (respond ms). done.
    + left. by eexists.
  - intros Req Res mq ms host procedure req Hh Hp _.
    exists (mkServerRequest "POST" host procedure (rq_Header req) "" (bits (enc mq (rq_Msg req)))), (understand ms).
    split_and!; try done.
    + intros http. pose proof (parts_url host procedure Hh Hp) as Hu. cbn in Hu |- *. by rewrite Hu.
    + intros addr. exists (respond ms). split.
      * intros fn. cbn. by rewrite PlainJose.unbits_bits, dec_enc.
      * intros [msg hs|e] _; [cbn; by rewrite PlainJose.unbits_bits, dec_enc|by destruct e as [[] err meta]].
Qed.

Definition string_msg : coded string := countable_coded.
Definition pair_msg : coded (string * string) := countable_coded.
Definition credentials_msg : coded CredentialsRequest :=
  by_fields countable_coded (fun m => (cr_Email m, cr_Password m)) (fun p => mkCredentialsRequest p.1 p.2)
    (fun m => match m with mkCredentialsRequest _ _ => eq_refl end).
Definition register_msg : coded RegisterResponse :=
  by_fields countable_coded
    (fun m => (rr_UserId m, rr_Email m, rr_AccessToken m, rr_RefreshToken m, rr_ExpiresIn m))
    (fun '(a, b, c, d, e) => mkRegisterResponse a b c d e)
    (fun m => match m with mkRegisterResponse _ _ _ _ _ => eq_refl end).
Definition token_msg : coded TokenResponse :=
  by_fields countable_coded (fun m => (tr_AccessToken m, tr_RefreshToken m, tr_ExpiresIn m))
    (fun '(a, b, c) => mkTokenResponse a b c) (fun m => match m with mkTokenResponse _ _ _ => eq_refl end).
Definition verify_msg : coded VerifyResponse :=
  by_fields countable_coded (fun m => (vr_UserId m, vr_Email m, vr_Roles m))
    (fun '(a, b, c) => mkVerifyResponse a b c) (fun m => match m with mkVerifyResponse _ _ _ => eq_refl end).
Definition url_msg : coded GetOAuthURLResponse :=
  by_fields countable_coded (fun m => (gr_Url m, gr_State m, gr_Binding m))
    (fun '(a, b, c) => mkGetOAuthURLResponse a b c) (fun m => match m with mkGetOAuthURLResponse _ _ _ => eq_refl end).
Definition callback_msg : coded OAuthCallbackMsg :=
  by_fields countable_coded (fun m => (om_Provider m, om_Code m, om_State m, om_RedirectUri m, om_Binding m))
    (fun '(a, b, c, d, e) => mkOAuthCallbackMsg a b c d e)
    (fun m => match m with mkOAuthCallbackMsg _ _ _ _ _ => eq_refl end).
Definition sign_in_msg : coded SignInResponse :=
  by_fields countable_coded
    (fun m => (sr_UserId m, sr_Email m, sr_AccessToken m, sr_RefreshToken m, sr_ExpiresIn m, sr_IsNewUser m))
    (fun '(a, b, c, d, e, f) => mkSignInResponse a b c d e f)
    (fun m => match m with mkSignInResponse _ _ _ _ _ _ => eq_refl end).
Definition challenge_msg : coded GetChallengeResponse :=
  by_fields countable_coded (fun m => (gc_Nonce m, gc_Message m, gc_ExpiresAt m))
    (fun '(a, b, c) => mkGetChallengeResponse a b c) (fun m => match m with mkGetChallengeResponse _ _ _ => eq_refl end).
Definition wallet_msg : coded WalletAuthRequest :=
  by_fields countable_coded (fun m => (war_Chain m, war_Address m, war_Nonce m, war_Signature m))
    (fun '(a, b, c, d) => mkWalletAuthRequest a b c d) (fun m => match m with mkWalletAuthRequest _ _ _ _ => eq_refl end).
Definition create_msg : coded CreatePATRequest :=
  by_fields countable_coded (fun m => (cp_Name m, cp_Scopes m, cp_ExpiresAt m))
    (fun '(a, b, c) => mkCreatePATRequest a b c) (fun m => match m with mkCreatePATRequest _ _ _ => eq_refl end).
Definition pat_fields (m : PATProto) := (pp_Id m, pp_Name m, pp_Scopes m, pp_CreatedAt m, pp_ExpiresAt m, pp_LastUsedAt m).
Definition pat_of '(a, b, c, d, e, f) := mkPATProto a b c d e f.
Lemma pat_of_fields m : pat_of (pat_fields m) = m.
Proof. by destruct m. Qed.
Definition created_msg : coded (string * PATProto) :=
  by_fields countable_coded (fun m => (m.1, pat_fields m.2)) (fun p => (p.1, pat_of p.2))
    (fun m => match m with (s, mkPATProto _ _ _ _ _ _) => eq_refl end).
Program Definition list_msg : coded (list PATProto) :=
  by_fields countable_coded (fmap pat_fields) (fmap pat_of) _.
Next Obligation. intros l. induction l as [|m l IH]; [done|]. by rewrite !fmap_cons, pat_of_fields, IH. Qed.

#[export] Instance messages : Messages := {|
  RegisterRequest_msg := credentials_msg; RegisterResponse_msg := register_msg;
  LoginRequest_msg := credentials_msg; LoginResponse_msg := token_msg;
  RefreshRequest_msg := string_msg; RefreshResponse_msg := token_msg;
  LogoutRequest_msg := string_msg; LogoutResponse_msg := countable_coded;
  VerifyRequest_msg := countable_coded; VerifyResponse_msg := verify_msg;
  GetOAuthURLRequest_msg := pair_msg; GetOAuthURLResponse_msg := url_msg;
  OAuthCallbackRequest_msg := callback_msg; OAuthCallbackResponse_msg := sign_in_msg;
  GetChallengeRequest_msg := pair_msg; GetChallengeResponse_msg := challenge_msg;
  AuthenticateWalletRequest_msg := wallet_msg; AuthenticateWalletResponse_msg := sign_in_msg;
  CreatePersonalAccessTokenRequest_msg := create_msg; CreatePersonalAccessTokenResponse_msg := created_msg;
  ListPersonalAccessTokensRequest_msg := countable_coded; ListPersonalAccessTokensResponse_msg := list_msg;
  RevokePersonalAccessTokenRequest_msg := string_msg; RevokePersonalAccessTokenResponse_msg := countable_coded
|}.

(** A client whose requests for [host] go to [srv]. *)
Definition deliver (host addr : string) (srv : serverRequest -> prog served) : HTTPClient := fun r =>
  (if strEq (hq_Host r) host then
     let* x := srv (arrive addr r) in
     match x with Wrote w => Ret (Ok w) | Redirected _ => Ret (Err (EForeign "redirected")) end
   else Ret (Err (EForeign "no such host")))%prog.

Lemma deliver_reaches host addr srv : reaches (deliver host addr srv) host addr srv.
Proof.
  intros r p Hhost Hs. unfold deliver. rewrite Hhost, strEq_refl, Hs, bind_assoc. done.
Qed.
End PlainConnect.
