(* ===== verification/Concurrency.v ===== *)
(** * Requests running concurrently

    Several requests run at once, their effects interleaved in any order, each
    store call being atomic, which the stores guarantee by a mutex or a
    transaction; other requests may call the store in between.  A refresh
    token, an OAuth state or a wallet challenge presented by many requests at
    once lets at most one of them through. *)

From S2P Require Import Prelude GoStrings GoTime GoEncoding Errors Entity Ports Contract ContractFacts WpRules Memory MemoryFacts Histories Validation Token Interfaces Service OAuth Wallet.

(** ** Interleavings *)

(** The store call an effect makes, if it is one. *)
Definition label {X} (e : eff X) : X -> list event :=
  match e in eff X return X -> list event with
  | Ports.Store c => fun x => [Event c x]
  | _ => fun _ => []
  end.

Section race.
Context {S : Type} `{!StoreImpl S} (o : oracle) {A : Type}.

(** The requests in progress, and the world they share. *)
Definition conf : Type := list (prog A) * world S.

Inductive race : conf -> list event -> conf -> Prop :=
| race_end c : race c [] c
| race_step ts i X (e : eff X) k w x w' tr c :
    ts !! i = Some (Vis e k) -> handle o e w = (x, w') ->
    race (<[i := k x]> ts, w') tr c -> race (ts, w) (label e x ++ tr) c
| race_other ts w X (c : storeE X) env x s n l tr c' :
    store_call c env (w_store w) = (x, s) ->
    race (ts, mkWorld s n l) tr c' -> race (ts, w) (Event c x :: tr) c'.

(** An interleaving is a history of store calls. *)
Lemma race_history c tr c' : race c tr c' -> history (w_store c.2) tr (w_store c'.2).
Proof.
  induction 1 as [c|ts i X e k w x w' tr c _ Hh _ IH|ts w X c env x s n l tr c' Hc _ IH]; [constructor| |].
  - destruct e; cbn in *; simplify_eq; try exact IH.
    destruct (store_call _ _ _) eqn:Hc. simplify_eq. by econstructor.
  - by econstructor.
Qed.

(** The interleaving a scheduler chooses: which request moves next. *)
Fixpoint schedule (sched : list nat) (c : conf) : list event * conf :=
  match sched with
  | [] => ([], c)
  | i :: sched =>
      match c.1 !! i with
      | Some (Vis e k) =>
          let '(x, w') := handle o e c.2 in
          let '(tr, c') := schedule sched (<[i := k x]> c.1, w') in
          (label e x ++ tr, c')
      | _ => schedule sched c
      end
  end.

Lemma schedule_race sched c : race c (schedule sched c).1 (schedule sched c).2.
Proof.
  revert c. induction sched as [|i sched IH]; intros [ts w]; [constructor|]. cbn [schedule fst snd].
  destruct (ts !! i) as [[x|X e k]|] eqn:Hi; [apply IH| |apply IH].
  destruct (handle o e w) as [x w'] eqn:Hh. specialize (IH (<[i := k x]> ts, w')).
  destruct (schedule sched _) as [tr c']. by eapply race_step.
Qed.

(** ** Gates *)

Context (good : A -> bool) (gate : event -> bool).

(** The program ends well only by passing the gate. *)
Fixpoint gated (p : prog A) : Prop :=
  match p with
  | Ret x => good x = false
  | Vis e k =>
      match e in eff X return (X -> Prop) -> Prop with
      | Ports.Store c => fun K => forall x, gate (Event c x) = true \/ K x
      | _ => fun K => forall x, K x
      end (fun x => gated (k x))
  end.

Definition ended_well (p : prog A) : bool := match p with Ret x => good x | Vis _ _ => false end.

(** How many of the requests have ended well. *)
Definition winners (ts : list (prog A)) : nat := length (filter (fun p => ended_well p = true) ts).

(** A request marked [true] may be past the gate; the others are not. *)
Definition marked (l : list bool) (ts : list (prog A)) : Prop :=
  Forall2 (fun b p => b = true \/ gated p) l ts.
Definition marks (l : list bool) : nat := length (filter (fun b => b = true) l).

Lemma marked_winners l ts : marked l ts -> (winners ts <= marks l)%nat.
Proof.
  induction 1 as [|b p l ts Hb _ IH]; [done|]. unfold winners, marks in *. rewrite !filter_cons.
  case_decide as Hw; case_decide as Hm; cbn; try lia.
  destruct Hb as [|Hg]; [done|]. destruct p; cbn in *; congruence.
Qed.

Lemma marks_insert i l : (marks (<[i := true]> l) <= Datatypes.S (marks l))%nat.
Proof.
  unfold marks. revert i. induction l as [|b l IH]; intros [|i]; [cbn; lia..| |].
  - change (<[0%nat:=true]> (b :: l)) with (true :: l). rewrite !filter_cons.
    repeat case_decide; cbn; first [lia|congruence].
  - change (<[Datatypes.S i:=true]> (b :: l)) with (b :: <[i:=true]> l). rewrite !filter_cons.
    specialize (IH i). repeat case_decide; cbn; lia.
Qed.

(** No more requests end well than pass the gate. *)
Lemma race_winners c tr c' l :
  race c tr c' -> marked l c.1 -> (winners c'.1 <= marks l + count_events gate tr)%nat.
Proof.
  intros Hr. revert l.
  induction Hr as [c|ts i X e k w x w' tr c Hi _ _ IH|ts w X c env x s n ll tr c' _ _ IH];
    intros l Hl; cbn in *.
  - rewrite Nat.add_0_r. by apply marked_winners.
  - destruct (Forall2_lookup_r _ _ _ _ _ Hl Hi) as (b & Hb & Hg).
    assert (forall p, b = true \/ gated p -> marked l (<[i := p]> ts)) as Hsame.
    { intros p Hp. rewrite <- (list_insert_id l i b Hb). by apply Forall2_insert. }
    assert (winners c.1 <= marks (<[i := true]> l) + count_events gate tr)%nat as Hopen.
    { apply IH. apply Forall2_insert; [done|by left]. }
    pose proof (marks_insert i l) as Hm.
    destruct e; cbn in *; try (apply IH, Hsame; destruct Hg as [|Hg]; [by left|right; first [apply Hg|exact (Hg x)]]).
    destruct (gate _) eqn:Eg; [lia|]. apply IH, Hsame. destruct Hg as [|Hg]; [by left|].
    destruct (Hg x) as [?|?]; [congruence|by right].
  - specialize (IH l Hl). lia.
Qed.

Lemma gated_marked ts : Forall gated ts -> marked (replicate (length ts) false) ts.
Proof. induction 1; cbn; constructor; auto. Qed.

Lemma marks_none n : marks (replicate n false) = 0%nat.
Proof. by induction n. Qed.

Lemma gated_winners ts w tr ts' w' :
  race (ts, w) tr (ts', w') -> Forall gated ts -> (winners ts' <= count_events gate tr)%nat.
Proof.
  intros Hr Hts. pose proof (race_winners _ _ _ _ Hr (gated_marked _ Hts)) as Hle.
  by rewrite marks_none in Hle.
Qed.
End race.

Arguments gated {A} good gate !p.

Section gates.
Context {A : Type} (good : A -> bool) (gate : event -> bool).

Lemma gated_bind {B} (p : prog B) (f : B -> prog A) :
  (forall x, gated good gate (f x)) -> gated good gate (bind p f).
Proof.
  intros Hf. induction p as [x|X e k IH]; [apply Hf|]. destruct e; cbn; eauto.
Qed.

(** The same, where the first part cannot succeed without passing the gate. *)
Lemma gated_bind_gated {B} (g : B -> bool) (p : prog B) (f : B -> prog A) :
  gated g gate p -> (forall x, g x = false -> gated good gate (f x)) -> gated good gate (bind p f).
Proof.
  intros Hp Hf. induction p as [x|X e k IH]; [by apply Hf|]. destruct e; cbn in *; eauto.
  intros x. destruct (Hp x); eauto.
Qed.
End gates.

Definition is_Ok {A} (r : res A) : bool := match r with Ok _ => true | Err _ => false end.

(** A refresh succeeds only by rotating its token, when there is no leeway. *)
Lemma gated_Refresh s tok :
  refreshReuseLeeway s = 0 -> gated is_Ok (rotated (HashToken tok)) (Service_Refresh s tok).
Proof.
  intros Hl. unfold Service_Refresh. apply gated_bind. intros now. cbn -[HashToken].
  intros [t|rt e]; [left; apply strEq_refl|right].
  destruct (errors_Is e _); [done|]. destruct (errors_Is e _); [done|].
  destruct (errors_Is e _); [|done]. destruct rt as [rt|]; [|done].
  apply (gated_bind_gated _ _ (fun r => match r with Ok d => d | Err _ => false end)).
  - unfold isDuplicateRefresh. rewrite Hl. by destruct (rt_RotatedAt rt).
  - intros [[]|err] Hg; [done| |done]. cbn [negb]. by apply (gated_bind _ _ (revokeReusedFamily s rt)).
Qed.

(** A sign-in succeeds only by consuming its state or challenge. *)
Lemma gated_consumeOAuthState s req :
  gated is_Ok (consumed (ocr_State req)) (consumeOAuthState s req).
Proof.
  unfold consumeOAuthState. destruct (_ || _ || _); [done|].
  apply gated_bind. intros [ch|e]; [|by destruct (_ || _)].
  apply gated_bind. intros now. destruct (_ || _ || _ || _); [done|]. cbn.
  intros [[]|e]; [left; apply strEq_refl|right]. by destruct (errors_Is e _).
Qed.

Lemma gated_OAuthCallback `{UnicodeTables} s req :
  gated is_Ok (consumed (ocr_State req)) (Service_OAuthCallback s req).
Proof.
  unfold Service_OAuthCallback. destruct (oauthProvider s _); [|done].
  eapply gated_bind_gated; [apply gated_consumeOAuthState|]. by intros [].
Qed.

Lemma gated_AuthenticateWallet s req :
  gated is_Ok (consumed (war_Nonce req)) (Service_AuthenticateWallet s req).
Proof.
  unfold Service_AuthenticateWallet. destruct (walletProvider s _ _) as [[p addr]|]; [|done].
  eapply (gated_bind_gated _ _ (fun r : option error => match r with None => true | Some _ => false end)).
  - unfold consumeWalletChallenge. destruct (_ || _); [done|].
    apply gated_bind. intros [ch|e]; [|by destruct (_ || _)].
    apply gated_bind. intros now. destruct (_ || _ || _); [done|].
    destruct (wp_VerifySignature _ _ _ _); [done|]. cbn.
    intros [[]|e]; [left; apply strEq_refl|right]. by destruct (errors_Is e _).
  - by intros [].
Qed.

Section theorems.
Context `{UnicodeTables}.
Context {S : Type} `{!StoreImpl S, !StoreContract S} (o : oracle) (s : Service).

(** C8. A refresh token is exchanged by one request only: with the leeway off,
    of any number of requests presenting the same token at once, interleaved in
    any way with each other and with any other traffic, at most one is given a
    new pair (as long as no new token falls on the same digest). *)
Theorem concurrent_Refresh_once n tok w tr ts' w' :
  sc_inv (w_store w) -> refreshReuseLeeway s = 0 ->
  race o (replicate n (Service_Refresh s tok), w) tr (ts', w') ->
  Forall (no_save_token (HashToken tok)) tr -> (winners is_Ok ts' <= 1)%nat.
Proof.
  intros Hinv Hl Hr Hall. etransitivity.
  - eapply gated_winners; [exact Hr|]. apply Forall_replicate. by apply gated_Refresh.
  - destruct (history_abstract _ _ _ (race_history o _ _ _ Hr) Hinv) as [Hh _].
    eapply rotate_once; [exact Hh|by apply sc_ok|done].
Qed.

(** C21. An OAuth flow signs in once: of any number of callbacks presenting the
    same state at once, at most one is given a session. *)
Theorem concurrent_OAuthCallback_once reqs state w tr ts' w' :
  sc_inv (w_store w) -> Forall (fun req => ocr_State req = state) reqs ->
  race o (Service_OAuthCallback s <$> reqs, w) tr (ts', w') ->
  Forall (no_save_challenge state) tr -> (winners is_Ok ts' <= 1)%nat.
Proof.
  intros Hinv Hreqs Hr Hall. etransitivity.
  - eapply (gated_winners _ _ (consumed state)); [exact Hr|]. apply Forall_fmap. eapply Forall_impl; [exact Hreqs|].
    intros req <-. apply gated_OAuthCallback.
  - destruct (history_abstract _ _ _ (race_history o _ _ _ Hr) Hinv) as [Hh _].
    eapply consume_once; [exact Hh|by apply sc_ok|done].
Qed.

(** A wallet challenge signs in once: of any number of sign-ins presenting
    the same nonce at once, at most one is given a session. *)
Theorem concurrent_AuthenticateWallet_once reqs nonce w tr ts' w' :
  sc_inv (w_store w) -> Forall (fun req => war_Nonce req = nonce) reqs ->
  race o (Service_AuthenticateWallet s <$> reqs, w) tr (ts', w') ->
  Forall (no_save_challenge nonce) tr -> (winners is_Ok ts' <= 1)%nat.
Proof.
  intros Hinv Hreqs Hr Hall. etransitivity.
  - eapply (gated_winners _ _ (consumed nonce)); [exact Hr|]. apply Forall_fmap. eapply Forall_impl; [exact Hreqs|].
    intros req <-. apply gated_AuthenticateWallet.
  - destruct (history_abstract _ _ _ (race_history o _ _ _ Hr) Hinv) as [Hh _].
    eapply consume_once; [exact Hh|by apply sc_ok|done].
Qed.
End theorems.
