(* ===== verification/Testing.v ===== *)
(** * Tests

    A test of package storetest as a program of its own: calls, goroutines that
    are waited for, and assertions of testify, those of assert letting the test
    go on and those of require ending it.  [executes] is what may happen when a
    test runs on a store, its goroutines interleaved in any order; [passes] the
    proof rule, which knows the store by what its ports document
    ([HealthyStore]) and the environment by its oracle. *)

From S2P Require Import Prelude GoTime Errors Entity Ports Contract ContractFacts.

(** ** Programs of tests *)

Inductive test (A : Type) : Type :=
| Return (a : A)
| FailNow                                            (* of require, or a panic *)
| Errorf (t : test A)                                (* of assert *)
| Do {X : Type} (e : eff X) (k : X -> test A)
| Go {X : Type} (ps : list (prog X)) (k : list X -> test A).   (* goroutines, and the wait for them *)
Arguments Return {A} a.
Arguments FailNow {A}.
Arguments Errorf {A} t.
Arguments Do {A X} e k.
Arguments Go {A X} ps k.

Fixpoint test_bind {A B} (f : A -> test B) (t : test A) : test B :=
  match t with
  | Return a => f a
  | FailNow => FailNow
  | Errorf t => Errorf (test_bind f t)
  | Do e k => Do e (fun x => test_bind f (k x))
  | Go ps k => Go ps (fun xs => test_bind f (k xs))
  end.
#[export] Instance test_mret : MRet test := @Return.
#[export] Instance test_mbind : MBind test := @test_bind.

(** A call in the test's own goroutine. *)
Fixpoint lift {A} (p : prog A) : test A :=
  match p with
  | Ret a => Return a
  | Vis e k => Do e (fun x => lift (k x))
  end.
Definition store {X} (c : storeE X) : test X := Do (Store c) Return.
Definition uuid_New : test string := Do UUIDNewString Return.
Definition time_Now : test time := Do TimeNow Return.

(** *** Assertions *)

Definition assert (b : bool) : test unit := if b then Return tt else Errorf (Return tt).
Definition require (b : bool) : test unit := if b then Return tt else FailNow.

(** [x, err := ...; require.NoError(t, err)] *)
Definition NoError {A} (r : res A) : test A := match r with Ok x => Return x | Err _ => FailNow end.
Definition must {A} (c : storeE (res A)) : test A := r ← store c; NoError r.

Definition fails_with {A} (r : res A) (target : sentinel) : bool :=
  match r with Ok _ => false | Err err => errors_Is err target end.
(** [assert.ErrorIs(t, err, target)], for the error of a call. *)
Definition ErrorIs {A} (r : res A) (target : sentinel) : test unit := assert (fails_with r target).
Definition refuses {A} (c : storeE (res A)) (target : sentinel) : test unit := r ← store c; ErrorIs r target.

Definition Equal {A} `{EqDecision A} (expected actual : A) : test unit := assert (bool_decide (expected = actual)).
Definition Len {A} (l : list A) (n : nat) : test unit := assert (bool_decide (length l = n)).
Definition Empty {A} (l : list A) : test unit := Len l 0.
Definition Nil {A} (p : option A) : test unit := assert (match p with None => true | Some _ => false end).
(** [require.NotNil], and the value behind the pointer. *)
Definition NotNil {A} (p : option A) : test A := match p with Some x => Return x | None => FailNow end.

(** [for range n] *)
Fixpoint times (n : nat) (body : test unit) : test unit :=
  match n with O => Return tt | S n => _ ← body; times n body end.
(** [for _, x := range l] *)
Fixpoint each {A} (l : list A) (body : A -> test unit) : test unit :=
  match l with [] => Return tt | x :: l => _ ← body x; each l body end.

(** ** What may happen when a test runs *)

Section executions.
Context {S : Type} `{!StoreImpl S} (o : oracle).

(** The goroutines run to their ends, a step of one of them at a time. *)
Inductive interleaved {X} : list (prog X) -> world S -> list X -> world S -> Prop :=
| il_done xs w : interleaved (Ret <$> xs) w xs w
| il_step ps i Y (e : eff Y) k y w w1 xs w2 :
    ps !! i = Some (Vis e k) -> handle o e w = (y, w1) ->
    interleaved (<[i := k y]> ps) w1 xs w2 -> interleaved ps w xs w2.

(** An execution: whether an assertion failed, and the result unless the test
    was ended. *)
Inductive executes {A} : test A -> world S -> bool -> option A -> world S -> Prop :=
| ex_return a w : executes (Return a) w false (Some a) w
| ex_failnow w : executes FailNow w true None w
| ex_errorf t w b r w' : executes t w b r w' -> executes (Errorf t) w true r w'
| ex_do X (e : eff X) k x w w1 b r w' :
    handle o e w = (x, w1) -> executes (k x) w1 b r w' -> executes (Do e k) w b r w'
| ex_go X (ps : list (prog X)) k xs w w1 b r w' :
    interleaved ps w xs w1 -> executes (k xs) w1 b r w' -> executes (Go ps k) w b r w'.

(** An execution in which each goroutine runs alone, one after the other. *)
Fixpoint run_all {X} (ps : list (prog X)) (w : world S) : list X * world S :=
  match ps with
  | [] => ([], w)
  | p :: ps =>
      let '(x, w1) := run o p w in
      let '(xs, w2) := run_all ps w1 in (x :: xs, w2)
  end.

Fixpoint run_test {A} (t : test A) (w : world S) : bool * option A * world S :=
  match t with
  | Return a => (false, Some a, w)
  | FailNow => (true, None, w)
  | Errorf t => let '(_, r, w') := run_test t w in (true, r, w')
  | Do e k => let '(x, w1) := handle o e w in run_test (k x) w1
  | Go ps k => let '(xs, w1) := run_all ps w in run_test (k xs) w1
  end.

Lemma interleaved_one {X} (done : list X) p ps w x w1 xs w2 :
  run o p w = (x, w1) -> interleaved ((Ret <$> done ++ [x]) ++ ps) w1 xs w2 ->
  interleaved ((Ret <$> done) ++ p :: ps) w xs w2.
Proof.
  revert w. induction p as [a|Y e k IH]; intros w; cbn [run].
  - intros [= -> ->] Hi. by rewrite fmap_app, <- app_assoc in Hi.
  - destruct (handle o e w) as [y w'] eqn:Hh. intros Hr Hi. eapply (il_step _ (length done)).
    + rewrite lookup_app_r, length_fmap, Nat.sub_diag by by rewrite length_fmap. done.
    + exact Hh.
    + rewrite <- (length_fmap (Ret (A := X)) done), <- (Nat.add_0_r (length _)), insert_app_r. by eapply IH.
Qed.

Lemma run_all_interleaved {X} (ps : list (prog X)) w :
  interleaved ps w (run_all ps w).1 (run_all ps w).2.
Proof.
  assert (forall done w, interleaved ((Ret <$> done) ++ ps) w (done ++ (run_all ps w).1) (run_all ps w).2) as Hi.
  2: { exact (Hi [] w). }
  induction ps as [|p ps IH]; intros done w'; cbn [run_all].
  - rewrite !app_nil_r. constructor.
  - destruct (run o p w') as [x w1] eqn:Hr. specialize (IH (done ++ [x]) w1).
    destruct (run_all ps w1) as [xs w2]. cbn in *. rewrite <- app_assoc in IH. by eapply interleaved_one.
Qed.

(** Every test has an execution. *)
Lemma run_test_executes {A} (t : test A) w :
  executes t w (run_test t w).1.1 (run_test t w).1.2 (run_test t w).2.
Proof.
  revert w. induction t as [a| |t IH|X e k IH|X ps k IH]; intros w; cbn [run_test]; [constructor..| | |].
  - specialize (IH w). destruct (run_test t w) as [[b r] w']. by econstructor.
  - destruct (handle o e w) as [x w1] eqn:Hh. by econstructor.
  - pose proof (run_all_interleaved ps w). destruct (run_all ps w) as [xs w1]. by econstructor.
Qed.
End executions.

(** ** Stores that work *)

(** A key that is already in the table. *)
Definition key_in_use {X} (c : storeE X) (a : db) : Prop :=
  match c with
  | SaveRefreshToken t => is_Some (d_tokens a !! rt_Hash t)
  | SaveChallenge ch => is_Some (d_challenges a !! ch_Nonce ch)
  | _ => False
  end.

(** A store that is up and does what its ports document. *)
Class HealthyStore `{Backend} (S : Type) `{!StoreImpl S} := {
  hs_view : S -> db;
  hs_inv : S -> Prop;
  hs_ok : forall s, hs_inv s -> db_ok (hs_view s);
  hs_call : forall X (c : storeE X) env s, hs_inv s -> ~ key_in_use c (hs_view s) ->
    let '(x, s') := store_call c env s in
    hs_inv s' /\ port_spec c env (hs_view s) x (hs_view s')
}.

(** A store without outages that honours the contract. *)
Lemma contract_call {S} `{!StoreImpl S, !StoreContract S} (Hup : outages = false) X (c : storeE X) env s :
  sc_inv s -> let '(x, s') := store_call c env s in sc_inv s' /\ port_spec c env (sc_view s) x (sc_view s').
Proof.
  intros Hinv. pose proof (sc_call X c env s Hinv) as Hc. destruct (store_call c env s) as [x s'].
  destruct Hc as [Hi [Hp|(Ho & _)]]; [done|]. congruence.
Qed.

Definition healthy_contract {S} `{!StoreImpl S, !StoreContract S} (Hup : outages = false) : HealthyStore S := {|
  hs_view := sc_view; hs_inv := sc_inv; hs_ok := sc_ok;
  hs_call X c env s Hinv _ := contract_call Hup X c env s Hinv
|}.

(** ** The proof rule *)

Section rule.
Context `{Backend} (o : oracle).

(** The environment of the call made at tick [n]. *)
Definition env_at (n : nat) : callenv := mkCallenv (o_now o n) n.

(** One effect of a request or a test, at tick [n] on database [a]. *)
Definition effect {X} (e : eff X) (n : nat) (a : db) : X -> nat -> db -> Prop :=
  match e in eff X return X -> nat -> db -> Prop with
  | Store c => fun x n' a' => port_spec c (env_at n) a x a' /\ db_ok a' /\ n' = S n
  | TimeNow => fun x n' a' => x = o_now o n /\ n' = S n /\ a' = a
  | RandRead k => fun x n' a' => x = o_rand o n k /\ n' = S n /\ a' = a
  | UUIDNewV7 => fun x n' a' => x = o_uuid7 o n /\ n' = S n /\ a' = a
  | UUIDNewString => fun x n' a' => x = o_uuid4 o n /\ n' = S n /\ a' = a
  | GenerateVerifier => fun x n' a' => x = o_verifier o n /\ n' = S n /\ a' = a
  | HTTP r => fun x n' a' => x = o_http o n r /\ n' = S n /\ a' = a
  | Log _ => fun x n' a' => n' = n /\ a' = a
  end.

(** The call an effect makes uses no key that is taken. *)
Definition clean {X} (e : eff X) (a : db) : Prop :=
  match e with Store c => ~ key_in_use c a | _ => True end.

(** Goroutines on a database. *)
Inductive joined {X} : list (prog X) -> nat -> db -> list X -> nat -> db -> Prop :=
| joined_done xs n a : joined (Ret <$> xs) n a xs n a
| joined_step ps i Y (e : eff Y) k y n a n1 a1 xs n2 a2 :
    ps !! i = Some (Vis e k) -> effect e n a y n1 a1 ->
    joined (<[i := k y]> ps) n1 a1 xs n2 a2 -> joined ps n a xs n2 a2.

(** No step of the goroutines uses a key that is taken. *)
Definition unkeyed {X} (c : storeE X) : Prop :=
  match c with SaveRefreshToken _ | SaveChallenge _ => False | _ => True end.
Fixpoint all_unkeyed {A} (p : prog A) : Prop :=
  match p with
  | Ret _ => True
  | Vis e k => match e with Store c => unkeyed c | _ => True end /\ forall x, all_unkeyed (k x)
  end.

(** [passes t Q n a]: started at tick [n] on database [a] the test ends, no
    assertion having failed, with a result, a tick and a database satisfying
    [Q]. *)
Fixpoint passes {A} (t : test A) (Q : A -> nat -> db -> Prop) (n : nat) (a : db) : Prop :=
  match t with
  | Return x => Q x n a
  | FailNow | Errorf _ => False
  | Do e k => clean e a /\ forall x n' a', effect e n a x n' a' -> passes (k x) Q n' a'
  | Go ps k => Forall all_unkeyed ps /\ forall xs n' a', joined ps n a xs n' a' -> passes (k xs) Q n' a'
  end.

Lemma passes_mono {A} (t : test A) (Q R : A -> nat -> db -> Prop) n a :
  (forall x n a, Q x n a -> R x n a) -> passes t Q n a -> passes t R n a.
Proof.
  intros HQR. revert n a. induction t as [x| |t IH|X e k IH|X ps k IH]; intros n a; cbn; [apply HQR|done|done|..];
    intros [Hc Hk]; split; eauto.
Qed.

Lemma passes_bind {A B} (t : test A) (f : A -> test B) Q n a :
  passes (t ≫= f) Q n a <-> passes t (fun x => passes (f x) Q) n a.
Proof.
  revert n a. unfold mbind, test_mbind.
  induction t as [x| |t IH|X e k IH|X ps k IH]; intros n a; cbn; [done..| |]; setoid_rewrite IH; done.
Qed.

Lemma all_unkeyed_step {X} (ps : list (prog X)) i Y (e : eff Y) k y :
  Forall all_unkeyed ps -> ps !! i = Some (Vis e k) ->
  (forall a, clean e a) /\ Forall all_unkeyed (<[i := k y]> ps).
Proof.
  intros Hps Hi. destruct (proj1 (Forall_lookup _ _) Hps _ _ Hi) as [He Hk]. split; [|apply Forall_insert; [done|apply Hk]].
  intros a. destruct e as [Y c| | | | | | |]; try done. destruct c; cbn in *; tauto.
Qed.

(** *** The clock of the environment counts the effects *)

Lemma effect_tick {X} (e : eff X) n a x n' a' : effect e n a x n' a' -> (n <= n' <= S n)%nat.
Proof. destruct e; cbn; intuition lia. Qed.

Lemma joined_le {X} (ps : list (prog X)) n a xs n' a' : joined ps n a xs n' a' -> (n <= n')%nat.
Proof. induction 1 as [|ps i Y e k y n a n1 a1 xs n2 a2 _ He%effect_tick]; lia. Qed.

Lemma joined_bound {X} (ps : list (prog X)) n a xs n' a' ms :
  joined ps n a xs n' a' -> Forall2 ends_in ms ps -> (n' <= n + sum_list ms)%nat.
Proof.
  intros Hj. revert ms.
  induction Hj as [|ps i Y e k y n a n1 a1 xs n2 a2 Hi He%effect_tick _ IH]; intros ms Hms; [lia|].
  destruct (Forall2_lookup_r _ _ _ _ _ Hms Hi) as ([|m] & Hm & Hk); [done|].
  specialize (IH (<[i := m]> ms) ltac:(by apply Forall2_insert)).
  assert (sum_list ms = S (sum_list (<[i := m]> ms))) as ->; [|lia].
  clear -Hm. revert i Hm. induction ms as [|m' ms IH]; intros [|i] Hm; [done..|by injection Hm as ->|].
  pose proof (IH i Hm) as E. change (<[S i := m]> (m' :: ms)) with (m' :: <[i := m]> ms). cbn. lia.
Qed.

(** *** Goroutines that share a database

    [Inv w U n a]: [w] of the goroutines have won, and the random identifiers
    drawn at the ticks [U] are in the database [a].  A goroutine owns the ticks
    it has drawn at, which no other owns and which are not in [U] until it hands
    them over; it remembers how many had won at some moment of its past.  All of
    them end by the tick [last]. *)
Section workers.
Context {X : Type} (last : nat) (Inv : nat -> gset nat -> nat -> db -> Prop) (Post : bool -> nat -> X -> Prop).

Fixpoint worker (own : gset nat) (won : bool) (seen : nat) (p : prog X) : Prop :=
  match p with
  | Ret x => Post won seen x
  | Vis e k => forall w U n a x n' a',
      Inv w U n a -> (seen <= w)%nat -> own ## U -> set_Forall (fun i => i < n)%nat (own ∪ U) -> effect e n a x n' a' ->
      (n' <= last)%nat ->
      exists (b : bool) (given : gset nat) (seen' : nat),
        given ⊆ {[n]} ∪ own /\ Inv (w + if b then 1 else 0)%nat (U ∪ given) n' a' /\ n' = S n /\
        (b = true -> won = false) /\ (seen' <= w + if b then 1 else 0)%nat /\
        worker (({[n]} ∪ own) ∖ given) (won || b) seen' (k x)
  end.

Record wstate := mkWstate { ws_own : gset nat; ws_won : bool; ws_seen : nat }.
Definition wins (l : list wstate) : nat := length (List.filter ws_won l).

Lemma wins_insert l i s s' (b : bool) :
  l !! i = Some s -> ws_won s' = ws_won s || b -> (b = true -> ws_won s = false) ->
  wins (<[i := s']> l) = (wins l + if b then 1 else 0)%nat.
Proof.
  unfold wins. intros Hi Hw Hb. revert i Hi. induction l as [|t l IH]; intros [|i] Hi; [done..| |]; cbn in Hi.
  - simplify_eq. cbn. rewrite Hw. destruct (ws_won s), b; cbn; lia.
  - change (<[S i := s']> (t :: l)) with (t :: <[i := s']> l). cbn [List.filter].
    specialize (IH i Hi). destruct (ws_won t); cbn [length]; lia.
Qed.

(** What the goroutines own together. *)
Record fair_share (l : list wstate) (U : gset nat) (n w : nat) : Prop := {
  fs_apart : forall i j s t, l !! i = Some s -> l !! j = Some t -> i <> j -> ws_own s ## ws_own t;
  fs_free : forall i s, l !! i = Some s -> ws_own s ## U;
  fs_past : forall i s, l !! i = Some s -> set_Forall (fun k => k < n)%nat (ws_own s);
  fs_used : set_Forall (fun k => k < n)%nat U;
  fs_wins : wins l = w;
  fs_seen : forall i s, l !! i = Some s -> (ws_seen s <= w)%nat
}.

Lemma fair_share_step l U n w i s (b : bool) given seen' :
  fair_share l U n w -> l !! i = Some s -> given ⊆ {[n]} ∪ ws_own s -> (b = true -> ws_won s = false) ->
  (seen' <= w + if b then 1 else 0)%nat ->
  fair_share (<[i := mkWstate (({[n]} ∪ ws_own s) ∖ given) (ws_won s || b) seen']> l) (U ∪ given) (S n)
    (w + if b then 1 else 0).
Proof.
  intros [Ha Hf Hp Hu Hw Hs] Hi Hg Hb Hseen.
  assert (forall j t, <[i := mkWstate (({[n]} ∪ ws_own s) ∖ given) (ws_won s || b) seen']> l !! j = Some t ->
    i = j /\ t = mkWstate (({[n]} ∪ ws_own s) ∖ given) (ws_won s || b) seen' \/ i <> j /\ l !! j = Some t) as Hl.
  { intros j t [(<- & <- & _)|[? ?]]%list_lookup_insert_Some; auto. }
  assert (forall t : gset nat, set_Forall (fun k => k < n)%nat t -> n ∉ t) as Hn.
  { intros t Ht Hin. specialize (Ht n Hin). cbn in Ht. lia. }
  split.
  - intros j k t u [[<- ->]|[Hj Hlj]]%Hl [[<- ->]|[Hk Hlk]]%Hl Hne; cbn; [done| | |by eapply Ha].
    + pose proof (Ha _ _ _ _ Hi Hlk ltac:(done)). pose proof (Hn _ (Hp _ _ Hlk)). set_solver.
    + pose proof (Ha _ _ _ _ Hi Hlj ltac:(done)). pose proof (Hn _ (Hp _ _ Hlj)). set_solver.
  - intros j t [[<- ->]|[Hj Hlj]]%Hl; cbn.
    + pose proof (Hf _ _ Hi). pose proof (Hn _ Hu). set_solver.
    + pose proof (Hf _ _ Hlj). pose proof (Ha _ _ _ _ Hi Hlj ltac:(done)). pose proof (Hn _ (Hp _ _ Hlj)). set_solver.
  - intros j t [[<- ->]|[Hj Hlj]]%Hl k; cbn.
    + intros [[->%elem_of_singleton|Hk]%elem_of_union _]%elem_of_difference; [lia|].
      specialize (Hp _ _ Hi k Hk). cbn in Hp. lia.
    + intros Hk. specialize (Hp _ _ Hlj k Hk). cbn in Hp. lia.
  - intros k [Hk|Hk]%elem_of_union; [specialize (Hu k Hk); cbn in Hu; lia|].
    apply Hg in Hk as [->%elem_of_singleton|Hk]%elem_of_union; [lia|]. specialize (Hp _ _ Hi k Hk). cbn in Hp. lia.
  - rewrite (wins_insert _ _ s _ b Hi) by done. by rewrite Hw.
  - intros j t [[<- ->]|[Hj Hlj]]%Hl; cbn; [done|]. specialize (Hs _ _ Hlj). lia.
Qed.

Lemma fair_share_start k U n :
  set_Forall (fun i => i < n)%nat U -> fair_share (replicate k (mkWstate ∅ false 0)) U n 0.
Proof.
  intros HU. assert (forall i s, replicate k (mkWstate ∅ false 0) !! i = Some s -> s = mkWstate ∅ false 0) as Hs.
  { by intros i s [-> _]%lookup_replicate. }
  split.
  - intros i j s t ->%Hs ->%Hs _. set_solver.
  - intros i s ->%Hs. set_solver.
  - intros i s ->%Hs. by intros j ?%elem_of_empty.
  - done.
  - unfold wins. clear Hs. induction k as [|k IH]; [done|exact IH].
  - by intros i s ->%Hs.
Qed.

(** What is left when all have ended. *)
Lemma joined_workers ps n a xs n' a' l U w :
  joined ps n a xs n' a' -> (n' <= last)%nat -> Forall2 (fun s p => worker (ws_own s) (ws_won s) (ws_seen s) p) l ps ->
  Inv w U n a -> fair_share l U n w ->
  exists l' U' w', Inv w' U' n' a' /\ fair_share l' U' n' w' /\
    Forall2 (fun s x => Post (ws_won s) (ws_seen s) x) l' xs.
Proof.
  intros Hj Hlast. revert l U w.
  induction Hj as [xs n a|ps i Y e k y n a n1 a1 xs n2 a2 Hi He Hj IH]; intros l U w Hl Hinv Hs.
  - exists l, U, w. split_and!; [done..|]. clear -Hl. revert l Hl.
    induction xs as [|x xs IH]; intros l Hl; inversion Hl; subst; constructor; [done|]. by apply IH.
  - destruct (Forall2_lookup_r _ _ _ _ _ Hl Hi) as (s & Hsi & Hw). cbn in Hw.
    destruct (Hw w U n a y n1 a1 Hinv) as (b & given & seen' & Hg & Hinv1 & -> & Hb & Hseen & Hk);
      [by eapply fs_seen|by eapply fs_free| |exact He| |].
    { intros j [Hj'|Hj']%elem_of_union; [by eapply fs_past|by eapply fs_used]. }
    { apply joined_le in Hj. lia. }
    eapply (IH Hlast _ (U ∪ given) _); [|exact Hinv1|by apply fair_share_step].
    apply Forall2_insert; [done|exact Hk].
Qed.

(** A race for one place: a loser has seen the winner. *)
Lemma one_wins k p U n a xs n' a' (f : X -> bool) :
  joined (replicate k p) n a xs n' a' -> (n' <= last)%nat -> (0 < k)%nat -> worker ∅ false 0 p ->
  Inv 0 U n a -> set_Forall (fun i => i < n)%nat U ->
  (forall w U n a, Inv w U n a -> w <= 1)%nat ->
  (forall b seen x, Post b seen x -> f x = b /\ (b = false -> 1 <= seen)%nat) ->
  (exists U', Inv 1 U' n' a') /\ length (List.filter f xs) = 1%nat /\ Forall (fun x => exists seen, Post (f x) seen x) xs.
Proof.
  intros Hj Hlast Hk Hp Hinv HU Hw Hf.
  destruct (joined_workers _ _ _ _ _ _ (replicate k (mkWstate ∅ false 0)) U 0 Hj Hlast) as (l & U' & w & Hi & Hs & Hl).
  { by apply Forall2_replicate. }
  { done. }
  { by apply fair_share_start. }
  assert (length xs = k) as Hlen.
  { clear -Hj. remember (replicate k p) as ps eqn:E. assert (length ps = k) as Hps by (by rewrite E, length_replicate).
    clear E. induction Hj as [xs|]; [by rewrite length_fmap in Hps|]. apply IHHj. by rewrite length_insert. }
  assert (wins l = length (List.filter f xs)) as Hwins.
  { unfold wins. clear -Hl Hf. induction Hl as [|s x l xs Hx _ IH]; [done|]. cbn.
    destruct (Hf _ _ _ Hx) as [-> _]. destruct (ws_won s); cbn; by rewrite IH. }
  pose proof (fs_wins _ _ _ _ Hs) as Hsw. pose proof (Hw _ _ _ _ Hi) as Hle.
  assert (w <> 0%nat) as Hne.
  { intros ->. destruct Hl as [|s x l xs Hx _]; cbn in Hlen; [lia|]. destruct (Hf _ _ _ Hx) as [Hfx Hseen].
    pose proof (fs_seen _ _ _ _ Hs 0%nat s eq_refl) as Hz. unfold wins in Hsw. cbn in Hsw.
    destruct (ws_won s); [done|]. specialize (Hseen eq_refl). lia. }
  assert (w = 1%nat) as -> by lia. split_and!; [by eexists|lia|].
  clear -Hl Hf. induction Hl as [|s x l xs Hx _ IH]; constructor; [|done].
  exists (ws_seen s). by destruct (Hf _ _ _ Hx) as [-> _].
Qed.
End workers.

Context {S : Type} `{!StoreImpl S, !HealthyStore S}.

Lemma handle_effect {X} (e : eff X) (w : world S) x w' :
  hs_inv (w_store w) -> clean e (hs_view (w_store w)) -> handle o e w = (x, w') ->
  effect e (w_tick w) (hs_view (w_store w)) x (w_tick w') (hs_view (w_store w')) /\ hs_inv (w_store w').
Proof.
  intros Hinv Hc. destruct e as [X c| | | | | | |]; cbn; try (intros [= <- <-]; done).
  pose proof (hs_call X c (env_at (w_tick w)) (w_store w) Hinv Hc) as Hs. unfold env_at in Hs.
  destruct (store_call c _ _) as [y s']. intros [= <- <-]. destruct Hs as [Hi Hp]. cbn. split; [|done].
  split; [exact Hp|]. split; [by apply hs_ok|done].
Qed.

Lemma interleaved_joined {X} (ps : list (prog X)) (w : world S) xs w' :
  hs_inv (w_store w) -> Forall all_unkeyed ps -> interleaved o ps w xs w' ->
  joined ps (w_tick w) (hs_view (w_store w)) xs (w_tick w') (hs_view (w_store w')) /\ hs_inv (w_store w').
Proof.
  intros Hinv Hps Hi. revert Hinv Hps.
  induction Hi as [xs w|ps i Y e k y w w1 xs w2 Hl Hh _ IH]; intros Hinv Hps; [split; [constructor|done]|].
  destruct (all_unkeyed_step ps i Y e k y Hps Hl) as [Hc Hps'].
  destruct (handle_effect e w y w1 Hinv (Hc _) Hh) as [He Hinv1].
  destruct (IH Hinv1 Hps') as [Hj Hinv2]. split; [|done]. by econstructor.
Qed.

(** The rule is sound: no execution fails, and there is one. *)
Lemma passes_sound {A} (t : test A) Q (w : world S) :
  hs_inv (w_store w) -> passes t Q (w_tick w) (hs_view (w_store w)) ->
  forall b r w', executes o t w b r w' ->
    b = false /\ exists x, r = Some x /\ Q x (w_tick w') (hs_view (w_store w')).
Proof.
  intros Hinv Ht b r w' Hx. revert Hinv Ht.
  induction Hx as [x w|w|t w b r w' _ _|X e k x w w1 b r w' Hh _ IH|X ps k xs w w1 b r w' Hi _ IH];
    intros Hinv; cbn [passes]; [eauto|done|done|..]; intros [Hc Hk].
  - destruct (handle_effect e w x w1 Hinv Hc Hh) as [He Hinv1]. eauto.
  - destruct (interleaved_joined ps w xs w1 Hinv Hc Hi) as [Hj Hinv1]. eauto.
Qed.
End rule.
