(* ===== verification/Storetest.v ===== *)
(** * The contract tests (package storetest)

    The tests every store backend has to pass, a definition per test function: a
    list of the subtests it runs, each on a store of its own.  [newStore] and the
    like return an empty store; the subtests below start on it.  What a test
    function reads of the clock before its first subtest is an argument. *)

From S2P Require Import Prelude GoStrings GoTime Errors Entity Ports Contract Memory Token Interfaces Service Testing.

Definition subtests : Type := list (string * test unit).

(** ** Rows *)

Definition user_of (id email : string) (roles : list string) : User := mkUser id email roles zeroTime zeroTime.
Definition refresh_token (hash userID parent : string) (expires : time) : RefreshToken :=
  mkRefreshToken hash userID parent expires zeroTime false None None.
Definition pat_of (id hash userID name : string) (expires : option time) : PersonalAccessToken :=
  mkPAT id hash userID name [] expires None zeroTime.
Definition oauth_of (id userID prov ext : string) : OAuthIdentity := mkOAuthIdentity id userID prov ext "" zeroTime.
Definition wallet_of (id userID chain addr : string) : WalletIdentity := mkWalletIdentity id userID chain addr zeroTime.

Definition created_oauth (t : time) (i : OAuthIdentity) : OAuthIdentity :=
  mkOAuthIdentity (oi_ID i) (oi_UserID i) (oi_Provider i) (oi_ExternalID i) (oi_Email i) t.
Definition created_wallet (t : time) (i : WalletIdentity) : WalletIdentity :=
  mkWalletIdentity (wi_ID i) (wi_UserID i) (wi_Chain i) (wi_Address i) t.
Definition created_pat (t : time) (p : PersonalAccessToken) : PersonalAccessToken :=
  mkPAT (pat_ID p) (pat_Hash p) (pat_UserID p) (pat_Name p) (pat_Scopes p) (pat_ExpiresAt p) (pat_LastUsedAt p) t.
Definition named_pat (name : string) (p : PersonalAccessToken) : PersonalAccessToken :=
  mkPAT (pat_ID p) (pat_Hash p) (pat_UserID p) name (pat_Scopes p) (pat_ExpiresAt p) (pat_LastUsedAt p) (pat_CreatedAt p).

(** [time.Date(2026, 1, 2, 3, 4, 5, 0, time.UTC)] *)
Definition january : time := ofUnix 1767323045.

(** A user without an email. *)
Definition createUser : test string :=
  id ← uuid_New;
  _ ← must (Create (user_of id "" []));
  mret id.

(** ** backend.go *)

Section UserOwnership.
Context (start : time).
Let now : time := Truncate start Second.

(** One row of every kind; the hash of the access token. *)
Definition seed (userID : string) : test string :=
  let patHash := "pat-" +:+ userID in
  id ← uuid_New;
  _ ← must (SaveWalletIdentity (wallet_of id userID "ethereum" ("addr-" +:+ userID)));
  _ ← must (SavePasswordHash userID "hash");
  _ ← must (SaveRefreshToken (refresh_token ("rt-" +:+ userID) userID "" (Add now Hour)));
  id ← uuid_New;
  _ ← must (SavePAT (pat_of id patHash userID "ci" None));
  id ← uuid_New;
  _ ← must (SaveOAuthIdentity (oauth_of id userID ProviderTypeGoogle ("sub-" +:+ userID)));
  mret patHash.

Definition delete_removes : test unit :=
  userID ← createUser;
  other ← createUser;
  patHash ← seed userID;
  otherPATHash ← seed other;
  _ ← must (Delete userID);
  _ ← refuses (GetPasswordHash userID) store.ErrCredentialNotFound;
  _ ← refuses (GetRefreshToken ("rt-" +:+ userID)) store.ErrTokenNotFound;
  _ ← refuses (GetPAT patHash) store.ErrTokenNotFound;
  pats ← must (ListPATs userID);
  _ ← Empty pats;
  _ ← refuses (GetOAuthIdentity ProviderTypeGoogle ("sub-" +:+ userID)) store.ErrOAuthIdentityNotFound;
  identities ← must (ListOAuthIdentities userID);
  _ ← Empty identities;
  _ ← refuses (GetWalletIdentity "ethereum" ("addr-" +:+ userID)) store.ErrWalletIdentityNotFound;
  (* another user's rows are untouched *)
  _ ← must (GetPasswordHash other);
  _ ← must (GetRefreshToken ("rt-" +:+ other));
  _ ← must (GetPAT otherPATHash);
  identities ← must (ListOAuthIdentities other);
  _ ← Len identities 1;
  _ ← must (GetWalletIdentity "ethereum" ("addr-" +:+ other));
  mret tt.

Definition delete_frees_account : test unit :=
  userID ← createUser;
  _ ← seed userID;
  _ ← must (Delete userID);
  id ← uuid_New;
  other ← createUser;
  _ ← must (SaveOAuthIdentity (oauth_of id other ProviderTypeGoogle ("sub-" +:+ userID)));
  mret tt.

(** The writes that need their user, each with what remains of its result. *)
Definition err_of {A} (r : res A) : res unit := match r with Ok _ => Ok tt | Err err => Err err end.
Definition writes : list (string * (string -> test (res unit))) := [
  ("password hash", fun userID => r ← store (SavePasswordHash userID "hash"); mret (err_of r));
  ("refresh token", fun userID =>
     r ← store (SaveRefreshToken (refresh_token "rt" userID "" (Add now Hour))); mret (err_of r));
  ("personal access token", fun userID =>
     id ← uuid_New; r ← store (SavePAT (pat_of id "pat" userID "ci" None)); mret (err_of r));
  ("oauth identity", fun userID =>
     id ← uuid_New; r ← store (SaveOAuthIdentity (oauth_of id userID ProviderTypeGitHub "42")); mret (err_of r));
  ("wallet identity", fun userID =>
     id ← uuid_New;
     r ← store (SaveWalletIdentity (wallet_of id userID "ethereum" "0x0000000000000000000000000000000000000001"));
     mret (err_of r))].

Definition for_missing_user (write : string -> test (res unit)) : test unit :=
  id ← uuid_New;
  r ← write id;
  ErrorIs r store.ErrUserNotFound.
Definition for_deleted_user (write : string -> test (res unit)) : test unit :=
  userID ← createUser;
  _ ← must (Delete userID);
  r ← write userID;
  ErrorIs r store.ErrUserNotFound.

Definition UserOwnership : subtests :=
  [("deleting a user removes what it owns", delete_removes);
   ("deletion frees the provider account for another user", delete_frees_account)] ++
  w ← writes;
  [(w.1 +:+ " for a missing user", for_missing_user w.2); (w.1 +:+ " for a deleted user", for_deleted_user w.2)].
End UserOwnership.

(** ** users.go *)

Section Users.
Context `{RangeOrder}.

Definition newUser (email : string) : test User := id ← uuid_New; mret (user_of id email []).

(** What a round trip looks at. *)
Definition round_trip_user (want : User) (get : storeE (res User)) : test unit :=
  got ← must get;
  _ ← Equal (user_ID want) (user_ID got);
  _ ← Equal "user@example.com" (user_Email got);
  _ ← Equal ["admin"; "support"] (user_Roles got);
  assert (negb (IsZero (user_CreatedAt got))).

(** [u.Email = "changed@example.com"; u.Roles[0] = "changed"] *)
Definition with_changes (u : User) : User :=
  mkUser (user_ID u) "changed@example.com" (<[0%nat := "changed"]> (user_Roles u)) (user_CreatedAt u) (user_UpdatedAt u).

Definition Users : subtests := [
  ("round trip",
     want ← newUser "user@example.com";
     let want := user_of (user_ID want) (user_Email want) ["admin"; "support"] in
     _ ← must (Create want);
     each (range_order 0 [GetByID (user_ID want); GetByEmail "user@example.com"]) (round_trip_user want));
  ("without roles",
     user ← newUser "user@example.com";
     _ ← must (Create user);
     got ← must (GetByID (user_ID user));
     Empty (user_Roles got));
  ("not found",
     id ← uuid_New;
     _ ← refuses (GetByID id) store.ErrUserNotFound;
     _ ← refuses (GetByEmail "nobody@example.com") store.ErrUserNotFound;
     id ← uuid_New;
     refuses (Delete id) store.ErrUserNotFound);
  ("delete",
     user ← newUser "user@example.com";
     _ ← must (Create user);
     _ ← must (Delete (user_ID user));
     _ ← refuses (GetByID (user_ID user)) store.ErrUserNotFound;
     _ ← refuses (GetByEmail "user@example.com") store.ErrUserNotFound;
     again ← newUser "user@example.com";
     _ ← must (Create again);
     mret tt);
  ("duplicate id rejected",
     user ← newUser "first@example.com";
     _ ← must (Create user);
     refuses (Create (user_of (user_ID user) "second@example.com" [])) store.ErrUserExists);
  ("caller mutations do not reach the store",
     user ← newUser "user@example.com";
     let user := user_of (user_ID user) (user_Email user) ["admin"] in
     user ← must (Create user);
     let user := with_changes user in
     got ← must (GetByID (user_ID user));
     _ ← Equal "user@example.com" (user_Email got);
     _ ← Equal ["admin"] (user_Roles got);
     let got := with_changes got in
     byEmail ← must (GetByEmail "user@example.com");
     let byEmail := mkUser (user_ID byEmail) (user_Email byEmail) (<[0%nat := "changed"]> (user_Roles byEmail))
                      (user_CreatedAt byEmail) (user_UpdatedAt byEmail) in
     got ← must (GetByID (user_ID user));
     _ ← Equal "user@example.com" (user_Email got);
     Equal ["admin"] (user_Roles got));
  ("duplicate email rejected",
     user ← newUser "dup@example.com";
     _ ← must (Create user);
     again ← newUser "dup@example.com";
     refuses (Create again) store.ErrUserExists);
  ("email-less users coexist",
     first ← newUser "";
     second ← newUser "";
     _ ← must (Create first);
     _ ← must (Create second);
     got ← must (GetByID (user_ID second));
     Equal "" (user_Email got));
  ("empty email is never found",
     user ← newUser "";
     _ ← must (Create user);
     refuses (GetByEmail "") store.ErrUserNotFound)].
End Users.

(** ** credentials.go *)

Definition Credentials : subtests := [
  ("save, get, replace",
     userID ← createUser;
     _ ← must (SavePasswordHash userID "first");
     got ← must (GetPasswordHash userID);
     _ ← Equal "first" got;
     _ ← must (SavePasswordHash userID "second");
     got ← must (GetPasswordHash userID);
     Equal "second" got);
  ("not found",
     userID ← createUser;
     _ ← refuses (GetPasswordHash userID) store.ErrCredentialNotFound;
     id ← uuid_New;
     refuses (GetPasswordHash id) store.ErrCredentialNotFound)].

(** ** challenge.go *)

Definition expiring (t : time) (c : Challenge) : Challenge :=
  mkChallenge (ch_Nonce c) (ch_Message c) (ch_Chain c) (ch_Address c) (ch_CodeVerifier c) (ch_OAuthNonce c)
    (ch_BindingHash c) t (ch_CreatedAt c).

Definition round_trip_challenge (want : Challenge) : test unit :=
  now ← time_Now;
  let want := expiring (Add now Minute) want in
  want ← must (SaveChallenge want);
  got ← must (GetChallenge (ch_Nonce want));
  _ ← Equal (ch_Message want) (ch_Message got);
  _ ← Equal (ch_Chain want) (ch_Chain got);
  _ ← Equal (ch_Address want) (ch_Address got);
  _ ← Equal (ch_CodeVerifier want) (ch_CodeVerifier got);
  _ ← Equal (ch_OAuthNonce want) (ch_OAuthNonce got);
  _ ← Equal (ch_BindingHash want) (ch_BindingHash got);
  assert (negb (IsZero (ch_CreatedAt got))).

Definition Challenges : subtests := [
  ("wallet challenge round trip",
     round_trip_challenge (mkChallenge "wallet-nonce" "sign me" "ethereum" "0xAbC" "" "" "" zeroTime zeroTime));
  ("oauth challenge round trip",
     round_trip_challenge (mkChallenge "oauth-state" "" "" "" "verifier-123" "oidc-nonce-456"
       "9f86d081884c7d659a2feaa0c55ad015a3bf4f1b2b0b822cd15d6c15b0f00a08" zeroTime zeroTime));
  ("single use",
     now ← time_Now;
     _ ← must (SaveChallenge (mkChallenge "single-use" "" "" "" "" "" "" (Add now Minute) zeroTime));
     _ ← must (DeleteChallenge "single-use");
     _ ← refuses (GetChallenge "single-use") store.ErrChallengeNotFound;
     refuses (DeleteChallenge "single-use") store.ErrChallengeNotFound);
  ("expired",
     now ← time_Now;
     _ ← must (SaveChallenge (mkChallenge "expired" "" "" "" "" "" "" (Add now (- Second)) zeroTime));
     refuses (GetChallenge "expired") store.ErrChallengeExpired)].

(** ** refresh.go *)

(** The user [newStore] makes: of memory/contract_test.go and of
    postgres/contract_integration_test.go. *)
Definition newTokenStore (id : test string) (email : string) : test string :=
  id ← id; _ ← must (Create (user_of id email [])); mret id.
Definition memory_newTokenStore : test string := newTokenStore (mret "user-123") "".
Definition postgres_newTokenStore : test string := newTokenStore uuid_New "contract@example.com".

(** The error and the token of a rotation. *)
Definition rotation_err (r : rotation) : res unit := match r with Rotated _ => Ok tt | RotateErr _ err => Err err end.
Definition rotation_token (r : rotation) : option RefreshToken :=
  match r with Rotated t => Some t | RotateErr t _ => t end.
Definition require_ErrorIs {A} (r : res A) (target : sentinel) : test unit := require (fails_with r target).

Section RefreshRotation.
Context (newStore : test string) (start : time).
Let now : time := Truncate start 1000.   (* time.Microsecond *)

Definition save (rt : RefreshToken) : test unit :=
  let rt := if IsZero (rt_ExpiresAt rt)
            then refresh_token (rt_Hash rt) (rt_UserID rt) (rt_Parent rt) (Add now Hour) else rt in
  _ ← must (SaveRefreshToken rt);
  mret tt.

Definition rotates_once : test unit :=
  userID ← newStore;
  _ ← save (refresh_token "r1" userID "" zeroTime);
  r ← store (RotateRefreshToken "r1" now);
  _ ← NoError (rotation_err r);
  rt ← NotNil (rotation_token r);
  _ ← assert (rt_Revoked rt);
  rotatedAt ← NotNil (rt_RotatedAt rt);
  _ ← assert (now =? rotatedAt);
  r ← store (RotateRefreshToken "r1" (Add now Second));
  _ ← require_ErrorIs (rotation_err r) store.ErrTokenRevoked;
  rt ← NotNil (rotation_token r);
  rotatedAt ← NotNil (rt_RotatedAt rt);
  assert (now =? rotatedAt).

Definition ends_without_live_member : test unit :=
  userID ← newStore;
  _ ← save (refresh_token "root" userID "" zeroTime);
  r ← store (RotateRefreshToken "root" now);
  _ ← NoError (rotation_err r);
  _ ← must (RevokeTokens "root");
  family ← must (GetRefreshFamily "root");
  _ ← assert (rf_SessionEnded family);
  _ ← NotNil (rf_LastRotatedAt family);
  r ← store (SaveRefreshToken (refresh_token "late" userID "root" (Add now Hour)));
  _ ← require_ErrorIs r store.ErrTokenRevoked;
  refuses (GetRefreshToken "late") store.ErrTokenNotFound.

(** The results of ten rotations of one token, one goroutine each. *)
Definition won (r : rotation) : bool := match r with Rotated _ => true | RotateErr _ _ => false end.
Definition one_winner : test unit :=
  userID ← newStore;
  _ ← save (refresh_token "r1" userID "" zeroTime);
  errs ← Go (replicate 10 (call (RotateRefreshToken "r1" now))) Return;
  _ ← each errs (fun r => if won r then mret tt else ErrorIs (rotation_err r) store.ErrTokenRevoked);
  Equal 1%nat (length (List.filter won errs)).

Definition family_counts : test unit :=
  userID ← newStore;
  _ ← save (refresh_token "root" userID "" zeroTime);
  _ ← save (refresh_token "c1" userID "root" zeroTime);
  _ ← save (refresh_token "other" userID "" zeroTime);
  family ← must (GetRefreshFamily "root");
  _ ← assert (negb (rf_SessionEnded family));
  _ ← Nil (rf_LastRotatedAt family);
  r ← store (RotateRefreshToken "root" now);
  _ ← NoError (rotation_err r);
  let later := Add now Second in
  r ← store (RotateRefreshToken "c1" later);
  _ ← NoError (rotation_err r);
  r ← store (RotateRefreshToken "other" (Add later Second));
  _ ← NoError (rotation_err r);
  family ← must (GetRefreshFamily "root");
  _ ← assert (negb (rf_SessionEnded family));
  last ← NotNil (rf_LastRotatedAt family);
  _ ← assert (later =? last);
  _ ← save (refresh_token "c2" userID "root" zeroTime);
  _ ← must (RevokeTokens "c2");
  family ← must (GetRefreshFamily "root");
  assert (rf_SessionEnded family).

Definition RefreshRotation : subtests := [
  ("rotates a live token once", rotates_once);
  ("not found",
     _ ← newStore;
     r ← store (RotateRefreshToken "missing" now);
     ErrorIs (rotation_err r) store.ErrTokenNotFound);
  ("expired",
     userID ← newStore;
     _ ← save (refresh_token "old" userID "" now);
     r ← store (RotateRefreshToken "old" now);
     _ ← require_ErrorIs (rotation_err r) store.ErrTokenExpired;
     rt ← NotNil (rotation_token r);   (* the pointer is followed *)
     _ ← assert (negb (rt_Revoked rt));
     Nil (rt_RotatedAt rt));
  ("revoked by logout has no rotation stamp",
     userID ← newStore;
     _ ← save (refresh_token "r1" userID "" zeroTime);
     _ ← must (RevokeTokens "r1");
     r ← store (RotateRefreshToken "r1" now);
     _ ← require_ErrorIs (rotation_err r) store.ErrTokenRevoked;
     rt ← NotNil (rotation_token r);   (* the pointer is followed *)
     _ ← Nil (rt_RotatedAt rt);
     assert (bool_decide (is_Some (rt_EndedAt rt))));
  ("revoking a family with no live member ends it and refuses successors", ends_without_live_member);
  ("concurrent rotation has one winner", one_winner);
  ("family summary", family_counts);
  ("successor without a root row is refused",
     userID ← newStore;
     r ← store (SaveRefreshToken (refresh_token "orphan" userID "gone" (Add now Hour)));
     _ ← require_ErrorIs r store.ErrTokenRevoked;
     refuses (GetRefreshToken "orphan") store.ErrTokenNotFound);
  ("unknown family is empty",
     _ ← newStore;
     family ← must (GetRefreshFamily "missing");
     _ ← assert (negb (rf_SessionEnded family));
     Nil (rf_LastRotatedAt family))].
End RefreshRotation.

(** ** patlimit.go *)

Section PATLimit.
(** What [token.New] returned. *)
Context (token_New : res TokenIssuer).

Definition limit : Z := 5.

(** [auth.NewService(s, s, issuer, nil, auth.WithPAT(s, auth.PATConfig{MaxPerUser: n}))] *)
Definition pat_service (n : Z) : test Service :=
  issuer ← NoError token_New;
  NotNil (NewService issuer [] [WithPAT (mkPATConfig n 0 0)]).

Definition newService : test (Service * string) :=
  svc ← pat_service limit;
  userID ← createUser;
  mret (svc, userID).

(** [_, err := svc.CreatePAT(...); require.NoError(t, err)] *)
Definition creates (svc : Service) (userID name : string) : test unit :=
  r ← lift (Service_CreatePAT svc userID name [] None);
  _ ← NoError r;
  mret tt.

Definition created (r : res PATResult) : bool := match r with Ok _ => true | Err _ => false end.
Definition parallel_creates : test unit :=
  su ← newService;
  let '(svc, userID) := su in
  _ ← times 4 (creates svc userID "seed");
  rs ← Go (replicate 20 (Service_CreatePAT svc userID "race" [] None)) Return;
  _ ← each rs (fun r => if created r then mret tt else ErrorIs r auth.ErrPATLimitReached);
  _ ← Equal 1%nat (length (List.filter created rs));
  list ← must (ListPATs userID);
  Len list 5.

Definition PATLimit : subtests := [
  ("parallel creates at limit-1 end exactly at the limit", parallel_creates);
  ("expired tokens do not occupy slots",
     su ← newService;
     let '(svc, userID) := su in
     now ← time_Now;
     let past := Add now (- Hour) in
     _ ← times 5 (
       id ← uuid_New;
       hash ← uuid_New;
       _ ← must (SavePAT (pat_of id hash userID "old" (Some past)));
       mret tt);
     creates svc userID "fresh");
  ("limit is per user",
     su ← newService;
     let '(svc, userID) := su in
     other ← createUser;
     _ ← times 5 (creates svc userID "mine");
     r ← lift (Service_CreatePAT svc userID "over" [] None);
     _ ← require_ErrorIs r auth.ErrPATLimitReached;
     creates svc other "theirs");
  ("negative max is unlimited",
     svc ← pat_service (-1);
     userID ← createUser;
     times 7 (creates svc userID "free"))].
End PATLimit.

(** ** pats.go *)

Section PATs.
Context `{RangeOrder} (start : time).
Let now : time := Truncate start Second.

Definition newPAT (userID hash : string) : test PersonalAccessToken :=
  id ← uuid_New; mret (pat_of id hash userID "ci" None).
Definition expiring_pat (e : option time) (p : PersonalAccessToken) : PersonalAccessToken :=
  mkPAT (pat_ID p) (pat_Hash p) (pat_UserID p) (pat_Name p) (pat_Scopes p) e (pat_LastUsedAt p) (pat_CreatedAt p).
Definition namesOf (l : list PersonalAccessToken) : list string := pat_Name <$> l.

Definition pat_round_trip : test unit :=
  userID ← createUser;
  let expires := Add now Hour in
  p ← newPAT userID "h1";
  let want := mkPAT (pat_ID p) (pat_Hash p) (pat_UserID p) (pat_Name p) ["eye:read"; "eye:write"]
                (Some expires) None now in
  _ ← must (SavePAT want);
  got ← must (GetPAT "h1");
  _ ← Equal (pat_ID want) (pat_ID got);
  _ ← Equal userID (pat_UserID got);
  _ ← Equal "ci" (pat_Name got);
  _ ← Equal ["eye:read"; "eye:write"] (pat_Scopes got);
  e ← NotNil (pat_ExpiresAt got);
  _ ← assert (expires =? e);
  _ ← Nil (pat_LastUsedAt got);
  assert (now =? pat_CreatedAt got).

Definition list_newest_first : test unit :=
  userID ← createUser;
  other ← createUser;
  _ ← each [(0, "first"); (1, "second"); (2, "third")] (fun '(i, name) =>
        p ← newPAT userID name;
        _ ← must (SavePAT (created_pat (Add now ((i - 3) * Minute)) (named_pat name p)));
        mret tt);
  p ← newPAT other "other";
  _ ← must (SavePAT p);
  list ← must (ListPATs userID);
  _ ← Equal ["third"; "second"; "first"] (namesOf list);
  list ← must (ListPATs other);
  _ ← Equal ["ci"] (namesOf list);
  id ← uuid_New;
  list ← must (ListPATs id);
  Empty list.

Definition counts_unexpired : test unit :=
  userID ← createUser;
  other ← createUser;
  let past := Add now (- Hour) in
  let future := Add now Hour in
  let saved hash expires :=
    p ← newPAT userID hash;
    store (SavePATLimited (expiring_pat expires p) 2 now) in
  id ← uuid_New;
  _ ← must (SavePAT (pat_of id "expired" userID "" (Some past)));
  r ← saved "forever" None;
  _ ← NoError r;
  r ← saved "later" (Some future);
  _ ← NoError r;
  r ← saved "third" None;
  _ ← ErrorIs r store.ErrPATLimitReached;
  _ ← refuses (GetPAT "expired") store.ErrTokenNotFound;
  list ← must (ListPATs userID);
  _ ← Len list 2;
  _ ← refuses (GetPAT "third") store.ErrTokenNotFound;
  p ← newPAT other "o1";
  _ ← must (SavePATLimited p 2 now);
  mret tt.

Definition prunes_strictly : test unit :=
  userID ← createUser;
  let at_ := now in
  let before := Add now (- 1000) in   (* -time.Microsecond *)
  _ ← each (range_order 0 [("at", at_); ("before", before)]) (fun '(hash, expires) =>
        id ← uuid_New;
        _ ← must (SavePAT (pat_of id hash userID "" (Some expires)));
        mret tt);
  p ← newPAT userID "new";
  _ ← refuses (SavePATLimited p 1 now) store.ErrPATLimitReached;
  _ ← must (GetPAT "at");
  refuses (GetPAT "before") store.ErrTokenNotFound.

Definition PATs : subtests := [
  ("round trip", pat_round_trip);
  ("without scopes or expiry",
     userID ← createUser;
     p ← newPAT userID "h1";
     _ ← must (SavePAT p);
     got ← must (GetPAT "h1");
     _ ← Empty (pat_Scopes got);
     _ ← Nil (pat_ExpiresAt got);
     assert (negb (IsZero (pat_CreatedAt got))));
  ("touch records last use",
     userID ← createUser;
     p ← newPAT userID "h1";
     _ ← must (SavePAT p);
     _ ← must (TouchPAT "h1" now);
     got ← must (GetPAT "h1");
     used ← NotNil (pat_LastUsedAt got);
     assert (now =? used));
  ("duplicate hash rejected",
     owner ← createUser;
     other ← createUser;
     original ← newPAT owner "h1";
     _ ← must (SavePAT original);
     p ← newPAT other "h1";
     _ ← refuses (SavePAT p) store.ErrPATExists;
     got ← must (GetPAT "h1");
     _ ← Equal (pat_ID original) (pat_ID got);
     list ← must (ListPATs other);
     Empty list);
  ("not found",
     _ ← refuses (GetPAT "missing") store.ErrTokenNotFound;
     userID ← createUser;
     id ← uuid_New;
     refuses (DeletePAT userID id) store.ErrTokenNotFound);
  ("list is per user, newest first", list_newest_first);
  ("delete is owner-scoped",
     owner ← createUser;
     other ← createUser;
     pat ← newPAT owner "h1";
     _ ← must (SavePAT pat);
     _ ← refuses (DeletePAT other (pat_ID pat)) store.ErrTokenNotFound;
     _ ← must (GetPAT "h1");
     _ ← must (DeletePAT owner (pat_ID pat));
     refuses (GetPAT "h1") store.ErrTokenNotFound);
  ("limited save counts only unexpired tokens", counts_unexpired);
  ("limited save prunes strictly after expiry", prunes_strictly);
  ("limited save keeps the save rules",
     userID ← createUser;
     p ← newPAT userID "h1";
     _ ← must (SavePATLimited p 5 now);
     p ← newPAT userID "h1";
     _ ← refuses (SavePATLimited p 5 now) store.ErrPATExists;
     id ← uuid_New;
     p ← newPAT id "h2";
     refuses (SavePATLimited p 5 now) store.ErrUserNotFound)].
End PATs.

(** ** oauth.go *)

Definition newOAuthIdentity (userID prov ext : string) : test OAuthIdentity :=
  id ← uuid_New; mret (oauth_of id userID prov ext).

Definition list_oauth_newest_first : test unit :=
  userID ← createUser;
  other ← createUser;
  now ← time_Now;
  let base := Truncate (Add now (- Hour)) Second in
  _ ← each [(0, "first"); (1, "second"); (2, "third")] (fun '(i, ext) =>
        identity ← newOAuthIdentity userID ProviderTypeGitHub ext;
        _ ← must (SaveOAuthIdentity (created_oauth (Add base (i * Minute)) identity));
        mret tt);
  identity ← newOAuthIdentity other ProviderTypeGoogle "other";
  _ ← must (SaveOAuthIdentity identity);
  list ← must (ListOAuthIdentities userID);
  _ ← Equal ["third"; "second"; "first"] (oi_ExternalID <$> list);
  list ← must (ListOAuthIdentities other);
  _ ← Equal ["other"] (oi_ExternalID <$> list);
  id ← uuid_New;
  list ← must (ListOAuthIdentities id);
  Empty list.

Definition OAuthIdentities : subtests := [
  ("round trip",
     userID ← createUser;
     i ← newOAuthIdentity userID ProviderTypeGoogle "sub-42";
     let want := mkOAuthIdentity (oi_ID i) (oi_UserID i) (oi_Provider i) (oi_ExternalID i) "user@gmail.com" january in
     _ ← must (SaveOAuthIdentity want);
     got ← must (GetOAuthIdentity ProviderTypeGoogle "sub-42");
     _ ← Equal (oi_ID want) (oi_ID got);
     _ ← Equal userID (oi_UserID got);
     _ ← Equal ProviderTypeGoogle (oi_Provider got);
     _ ← Equal "sub-42" (oi_ExternalID got);
     _ ← Equal "user@gmail.com" (oi_Email got);
     assert (oi_CreatedAt want =? oi_CreatedAt got));
  ("CreatedAt set on save",
     userID ← createUser;
     i ← newOAuthIdentity userID ProviderTypeGoogle "sub-42";
     _ ← must (SaveOAuthIdentity i);
     got ← must (GetOAuthIdentity ProviderTypeGoogle "sub-42");
     assert (negb (IsZero (oi_CreatedAt got))));
  ("pair taken by one user cannot be claimed by another",
     owner ← createUser;
     other ← createUser;
     i ← newOAuthIdentity owner ProviderTypeGoogle "sub-42";
     _ ← must (SaveOAuthIdentity i);
     i ← newOAuthIdentity other ProviderTypeGoogle "sub-42";
     _ ← refuses (SaveOAuthIdentity i) store.ErrOAuthIdentityExists;
     got ← must (GetOAuthIdentity ProviderTypeGoogle "sub-42");
     Equal owner (oi_UserID got));
  ("lookup is per provider",
     userID ← createUser;
     i ← newOAuthIdentity userID ProviderTypeGoogle "42";
     _ ← must (SaveOAuthIdentity i);
     _ ← refuses (GetOAuthIdentity ProviderTypeGitHub "42") store.ErrOAuthIdentityNotFound;
     refuses (GetOAuthIdentity ProviderTypeGoogle "unknown") store.ErrOAuthIdentityNotFound);
  ("list is per user, newest first", list_oauth_newest_first)].

(** ** wallet.go *)

Definition ethAddress : string := "0x5aAeb6053F3E94C9b9A09f33669435E7Ef1BeAed".
Definition newWalletIdentity (userID chain addr : string) : test WalletIdentity :=
  id ← uuid_New; mret (wallet_of id userID chain addr).

Definition list_wallets_newest_first : test unit :=
  userID ← createUser;
  other ← createUser;
  now ← time_Now;
  let base := Truncate (Add now (- Hour)) Second in
  _ ← each [(0, "ethereum"); (1, "polygon"); (2, "base")] (fun '(i, chain) =>
        identity ← newWalletIdentity userID chain ethAddress;
        _ ← must (SaveWalletIdentity (created_wallet (Add base (i * Minute)) identity));
        mret tt);
  identity ← newWalletIdentity other "ethereum" "0x0000000000000000000000000000000000000001";
  _ ← must (SaveWalletIdentity identity);
  list ← must (ListWalletIdentities userID);
  _ ← Equal ["base"; "polygon"; "ethereum"] (wi_Chain <$> list);
  list ← must (ListWalletIdentities other);
  Equal ["ethereum"] (wi_Chain <$> list).

Definition WalletIdentities : subtests := [
  ("round trip",
     userID ← createUser;
     i ← newWalletIdentity userID "ethereum" ethAddress;
     let want := created_wallet january i in
     _ ← must (SaveWalletIdentity want);
     got ← must (GetWalletIdentity "ethereum" ethAddress);
     _ ← Equal (wi_ID want) (wi_ID got);
     _ ← Equal userID (wi_UserID got);
     _ ← Equal "ethereum" (wi_Chain got);
     _ ← Equal ethAddress (wi_Address got);
     assert (wi_CreatedAt want =? wi_CreatedAt got));
  ("CreatedAt set on save",
     userID ← createUser;
     i ← newWalletIdentity userID "ethereum" ethAddress;
     _ ← must (SaveWalletIdentity i);
     got ← must (GetWalletIdentity "ethereum" ethAddress);
     assert (negb (IsZero (wi_CreatedAt got))));
  ("pair taken by one user cannot be claimed by another",
     owner ← createUser;
     other ← createUser;
     i ← newWalletIdentity owner "ethereum" ethAddress;
     _ ← must (SaveWalletIdentity i);
     i ← newWalletIdentity other "ethereum" ethAddress;
     _ ← refuses (SaveWalletIdentity i) store.ErrWalletIdentityExists;
     got ← must (GetWalletIdentity "ethereum" ethAddress);
     Equal owner (wi_UserID got));
  ("lookup is exact",
     userID ← createUser;
     i ← newWalletIdentity userID "ethereum" ethAddress;
     _ ← must (SaveWalletIdentity i);
     each [("ethereum", "0x0000000000000000000000000000000000000000");
           ("solana", ethAddress);
           ("ethereum", "0x5aaeb6053f3e94c9b9a09f33669435e7ef1beaed")]
       (fun '(chain, address) => refuses (GetWalletIdentity chain address) store.ErrWalletIdentityNotFound));
  ("list is per user, newest first", list_wallets_newest_first);
  ("deleting the user frees its wallets",
     userID ← createUser;
     i ← newWalletIdentity userID "ethereum" ethAddress;
     _ ← must (SaveWalletIdentity i);
     _ ← must (Delete userID);
     _ ← refuses (GetWalletIdentity "ethereum" ethAddress) store.ErrWalletIdentityNotFound;
     other ← createUser;
     i ← newWalletIdentity other "ethereum" ethAddress;
     _ ← must (SaveWalletIdentity i);
     mret tt)].

(** ** The suite *)

(** The tests a backend's own test files run: [start] is what the clock shows
    when a test function begins. *)
Definition suite `{RangeOrder} (newStore : test string) (token_New : res TokenIssuer) (start : time) : subtests :=
  UserOwnership start ++ Users ++ Credentials ++ Challenges ++ RefreshRotation newStore start ++
  PATLimit token_New ++ PATs start ++ OAuthIdentities ++ WalletIdentities.
