(* ===== verification/StoretestFacts.v ===== *)
(** * The contract tests pass

    On every store that is up and does what its ports document, in every
    environment whose random identifiers differ and whose clock goes forward, no
    execution of a contract test fails an assertion: of memory and of PostgreSQL,
    and of any other store behind the same interfaces. *)

From S2P Require Import Prelude GoStrings GoTime GoEncoding Errors Entity Ports Contract ContractFacts Memory Token Interfaces Service Testing Storetest.

(** ** Tables written row by row *)

Section tables.
Context `{Countable K} {A : Type}.
Implicit Types (m : gmap K A).

Lemma DeleteFunc_insert del m k x : m !! k = None ->
  DeleteFunc del (<[k := x]> m) = if del x then DeleteFunc del m else <[k := x]> (DeleteFunc del m).
Proof.
  intros Hk. unfold DeleteFunc. destruct (del x) eqn:E.
  - rewrite map_filter_insert_False by (cbn; congruence). by rewrite delete_id.
  - by rewrite map_filter_insert_True.
Qed.

Lemma DeleteFunc_empty del : DeleteFunc del (∅ : gmap K A) = ∅.
Proof. apply map_filter_empty. Qed.

(** No row has the value. *)
Lemma free_insert {B} (f : A -> B) v m k x :
  f x <> v -> map_Forall (fun _ y => f y <> v) m -> map_Forall (fun _ y => f y <> v) (<[k := x]> m).
Proof. intros. by apply map_Forall_insert_2. Qed.
Lemma free_empty {B} (f : A -> B) v : map_Forall (fun _ y => f y <> v) (∅ : gmap K A).
Proof. apply map_Forall_empty. Qed.

Lemma free_id_taken (row_id : A -> string) id m :
  map_Forall (fun _ y => row_id y <> id) m -> ~ id_taken row_id id m.
Proof. intros Hf (k & x & Hx & E). by apply (Hf k x). Qed.

(** The rows of a user, in some order. *)
Definition rows_of (owner : A -> string) (uid : string) m (l : list A) : Prop :=
  filter (fun x => strEq (owner x) uid = true) (map_to_list m).*2 ≡ₚ l.

Lemma rows_empty owner uid : rows_of owner uid ∅ [].
Proof. unfold rows_of. by rewrite map_to_list_empty. Qed.
Lemma rows_insert_own owner uid m k x l :
  m !! k = None -> owner x = uid -> rows_of owner uid m l -> rows_of owner uid (<[k := x]> m) (x :: l).
Proof.
  unfold rows_of. intros Hk Ho Hl. rewrite map_to_list_insert by done. rewrite fmap_cons. cbn [snd].
  rewrite filter_cons_True by (by rewrite Ho, strEq_refl). by rewrite Hl.
Qed.
Lemma rows_insert_other owner uid m k x l :
  m !! k = None -> owner x <> uid -> rows_of owner uid m l -> rows_of owner uid (<[k := x]> m) l.
Proof.
  unfold rows_of. intros Hk Ho Hl. rewrite map_to_list_insert by done. rewrite fmap_cons. cbn [snd].
  rewrite filter_cons_False by (by rewrite (proj2 (strEq_false _ _) Ho)). done.
Qed.

(** A listing is a sorted one of the rows. *)
Lemma listing_rows owner created uid m l l0 :
  listing owner created uid m l -> rows_of owner uid m l0 ->
  l ≡ₚ l0 /\ Sorted (fun x y => created y <= created x) l.
Proof. intros [Hp Hs] Hr. split; [by etransitivity|done]. Qed.

Lemma newest_first (created : A -> time) l l0 :
  l ≡ₚ l0 -> Sorted (fun x y => created y <= created x) l ->
  StronglySorted (fun x y => created y < created x) l0 -> l = l0.
Proof.
  intros Hp Hs%Sorted_StronglySorted H0; [|intros ???; lia]. revert l Hp Hs.
  induction H0 as [|x l0 _ IH Hx]; intros l Hp Hs; [by apply Permutation_nil_r|].
  destruct l as [|y l]; [by apply Permutation_nil_l in Hp|].
  inversion_clear Hs as [|? ? Hs' Hy].
  assert (x = y) as ->.
  { assert (x ∈ y :: l) as Hin by (rewrite Hp; left).
    apply elem_of_cons in Hin as [->|Hin]; [done|].
    assert (y ∈ x :: l0) as Hin' by (rewrite <- Hp; left).
    apply elem_of_cons in Hin' as [->|Hin']; [done|]. rewrite Forall_forall in Hx, Hy.
    specialize (Hx y Hin'). specialize (Hy x Hin). lia. }
  f_equal. apply IH; [|done]. by apply Permutation_cons_inv in Hp.
Qed.
End tables.

Lemma pat_count_rows_of uid m l : rows_of pat_UserID uid m l -> pat_count uid m = Z.of_nat (length l).
Proof.
  intros <-. unfold pat_count. rewrite size_filter. f_equal. by rewrite length_filter_fmap.
Qed.

(** ** What a call answers on tables that are known *)

(** The call succeeds with [x] and leaves [a1]; or it is refused with [s]. *)
Definition answers `{Backend} {X} (c : storeE X) env (a : db) (x : X) (a1 : db) : Prop :=
  forall y a', port_spec c env a y a' -> y = x /\ a' = a1.
Definition denies `{Backend} {X} (c : storeE (res X)) env (a : db) (s : store.sentinel) (a1 : db) : Prop :=
  forall y a', port_spec c env a y a' -> refused y s /\ a' = a1.

Section answers.
Context `{Backend} (env : callenv) (a : db).

Lemma ans_Create u :
  d_users a !! user_ID u = None -> map_Forall (fun _ v => user_Email u <> "" -> user_Email v <> user_Email u) (d_users a) ->
  answers (Create u) env a (Ok (stamp_user (ce_now env) u))
    (with_users a (<[user_ID u := stamp_user (ce_now env) u]> (d_users a))).
Proof.
  intros Hid Hem y a' [(Ht & _)|(_ & -> & ->)]; [|done].
  exfalso. destruct Ht as [[v Hv]|(v & Hne & He & Hv)]; [congruence|]. by apply (Hem _ _ Hv).
Qed.
Lemma den_Create u id v :
  d_users a !! id = Some v -> user_ID v = id -> id = user_ID u \/ user_Email u <> "" /\ user_Email v = user_Email u ->
  denies (Create u) env a store.ErrUserExists a.
Proof.
  intros Hv Hid Ht y a' [(_ & Hr & ->)|(Hn & _)]; [done|]. exfalso. apply Hn.
  destruct Ht as [->|[Hne He]]; [left; by exists v|right]. exists v. split_and!; [done..|by rewrite Hid].
Qed.
Lemma ans_GetByID id u : d_users a !! id = Some u -> answers (GetByID id) env a (Ok u) a.
Proof. intros E y a' [-> Hp]. by rewrite E in Hp. Qed.
Lemma den_GetByID id : d_users a !! id = None -> denies (GetByID id) env a store.ErrUserNotFound a.
Proof. intros E y a' [-> Hp]. by rewrite E in Hp. Qed.
Lemma ans_GetByEmail email id u :
  db_ok a -> d_users a !! id = Some u -> user_ID u = id -> user_Email u = email -> email <> "" ->
  answers (GetByEmail email) env a (Ok u) a.
Proof.
  intros Hok Hu <- He Hne y a' [-> [(v & Hv & ->)|[Hn _]]]; [|by destruct (Hn u)].
  by rewrite (ok_emails _ Hok email v u Hv).
Qed.
Lemma den_GetByEmail email :
  map_Forall (fun _ v => email <> "" -> user_Email v <> email) (d_users a) ->
  denies (GetByEmail email) env a store.ErrUserNotFound a.
Proof.
  intros Hf y a' [-> [(v & (Hne & He & Hv) & _)|[_ Hr]]]; [|done]. by destruct (Hf _ _ Hv).
Qed.
Lemma ans_Delete id u : d_users a !! id = Some u -> answers (Delete id) env a (Ok tt) (cascade id a).
Proof. intros E y a' Hp. cbn in Hp. by rewrite E in Hp. Qed.
Lemma den_Delete id : d_users a !! id = None -> denies (Delete id) env a store.ErrUserNotFound a.
Proof. intros E y a' Hp. cbn in Hp. by rewrite E in Hp. Qed.

Lemma ans_SavePasswordHash uid h u : d_users a !! uid = Some u ->
  answers (SavePasswordHash uid h) env a (Ok tt) (with_passwords a (<[uid := h]> (d_passwords a))).
Proof. intros E y a' Hp. cbn in Hp. by rewrite E in Hp. Qed.
Lemma den_SavePasswordHash uid h : d_users a !! uid = None ->
  denies (SavePasswordHash uid h) env a store.ErrUserNotFound a.
Proof. intros E y a' Hp. cbn in Hp. by rewrite E in Hp. Qed.
Lemma ans_GetPasswordHash uid h : d_passwords a !! uid = Some h -> answers (GetPasswordHash uid) env a (Ok h) a.
Proof. intros E y a' [-> Hp]. by rewrite E in Hp. Qed.
Lemma den_GetPasswordHash uid : d_passwords a !! uid = None ->
  denies (GetPasswordHash uid) env a store.ErrCredentialNotFound a.
Proof. intros E y a' [-> Hp]. by rewrite E in Hp. Qed.

(** Whether a token may join the family. *)
Lemma ans_SaveRefreshToken t u :
  d_users a !! rt_UserID t = Some u -> rt_RotatedAt t = None -> rt_EndedAt t = None ->
  rt_Parent t = "" \/ (exists r, d_tokens a !! rt_Parent t = Some r /\ rt_EndedAt r = None) ->
  answers (SaveRefreshToken t) env a (Ok (stamp_token (ce_now env) t))
    (with_tokens a (<[rt_Hash t := stamp_token (ce_now env) t]> (d_tokens a))).
Proof.
  intros E Hr He Hp y a' [([Hne Hu] & _)|[_ Hs]].
  - exfalso. destruct Hp as [|(r & Hl & Hend)]; [done|]. rewrite Hl, Hend in Hu. by destruct Hu.
  - rewrite E in Hs. destruct Hs as (r & Hrow & -> & ->). by apply token_row_issued in Hrow as ->.
Qed.
Lemma den_SaveRefreshToken_user t :
  d_users a !! rt_UserID t = None -> rt_Parent t = "" -> denies (SaveRefreshToken t) env a store.ErrUserNotFound a.
Proof. intros E Hp y a' [([Hne _] & _)|[_ Hs]]; [done|]. by rewrite E in Hs. Qed.
Lemma den_SaveRefreshToken t :
  rt_Parent t <> "" -> d_tokens a !! rt_Parent t = None \/ (exists r, d_tokens a !! rt_Parent t = Some r /\ is_Some (rt_EndedAt r)) ->
  denies (SaveRefreshToken t) env a store.ErrTokenRevoked a.
Proof.
  intros Hne Hp y a' [(_ & Hr & ->)|[Hn _]]; [done|]. exfalso. apply Hn. split; [done|].
  destruct Hp as [->|(r & -> & ?)]; done.
Qed.
Lemma ans_GetRefreshToken h t : d_tokens a !! h = Some t -> answers (GetRefreshToken h) env a (Ok t) a.
Proof. intros E y a' [-> Hp]. by rewrite E in Hp. Qed.
Lemma den_GetRefreshToken h : d_tokens a !! h = None -> denies (GetRefreshToken h) env a store.ErrTokenNotFound a.
Proof. intros E y a' [-> Hp]. by rewrite E in Hp. Qed.

Lemma family_summary_unique root m f g : family_summary root m f -> family_summary root m g -> f = g.
Proof.
  intros [Hf1 Hf2] [Hg1 Hg2]. destruct f as [b l], g as [b' l']. cbn in *. f_equal.
  - destruct b, b'; try done; [symmetry|]; tauto.
  - destruct l as [x|], l' as [x'|]; [f_equal| | |done].
    + destruct Hf2 as [(h & t & H1 & H2 & H3) Hf2], Hg2 as [(h' & t' & H1' & H2' & H3') Hg2].
      specialize (Hf2 _ _ _ H1' H2' H3'). specialize (Hg2 _ _ _ H1 H2 H3). lia.
    + destruct Hf2 as [(h & t & H1 & H2 & H3) _]. specialize (Hg2 _ _ H1 H2). congruence.
    + destruct Hg2 as [(h & t & H1 & H2 & H3) _]. specialize (Hf2 _ _ H1 H2). congruence.
Qed.
Lemma ans_GetRefreshFamily root f : family_summary root (d_tokens a) f -> answers (GetRefreshFamily root) env a (Ok f) a.
Proof. intros Hf y a' [-> (g & -> & Hg)]. by rewrite (family_summary_unique _ _ _ _ Hf Hg). Qed.

(** The summary of a family, token by token. *)
Definition fam_token (root : string) (t : RefreshToken) (f : RefreshFamily) : RefreshFamily :=
  if in_family root t then
    mkRefreshFamily (match rt_EndedAt t with Some _ => true | None => rf_SessionEnded f end)
      (match rt_RotatedAt t, rf_LastRotatedAt f with
       | Some x, Some y => Some (Z.max x y) | Some x, None => Some x | None, y => y end)
  else f.
Definition fam (root : string) : list RefreshToken -> RefreshFamily :=
  foldr (fam_token root) (mkRefreshFamily false None).

Lemma fam_spec root l :
  (rf_SessionEnded (fam root l) = true <-> exists t, t ∈ l /\ in_family root t = true /\ is_Some (rt_EndedAt t)) /\
  match rf_LastRotatedAt (fam root l) with
  | None => forall t, t ∈ l -> in_family root t = true -> rt_RotatedAt t = None
  | Some x => (exists t, t ∈ l /\ in_family root t = true /\ rt_RotatedAt t = Some x) /\
              (forall t r, t ∈ l -> in_family root t = true -> rt_RotatedAt t = Some r -> r <= x)
  end.
Proof.
  induction l as [|t l [IH1 IH2]]; cbn.
  - split; [split; [done|by intros (? & []%not_elem_of_nil & _)]|by intros ? []%not_elem_of_nil].
  - unfold fam_token at 1 2. destruct (in_family root t) eqn:Ef; cbn.
    + split.
      * destruct (rt_EndedAt t) eqn:Ee; [split; [|done]; intros _; exists t; rewrite Ee; split_and!; [left|done..]|].
        rewrite IH1. setoid_rewrite elem_of_cons. split; [naive_solver|].
        intros (t' & [->|Hin] & Hf & [? He]); [congruence|]. exists t'. eauto.
      * destruct (rt_RotatedAt t) as [x|] eqn:Er, (rf_LastRotatedAt (fam root l)) as [y|];
          setoid_rewrite elem_of_cons; [| | |naive_solver].
        -- destruct IH2 as [(t' & ? & ? & ?) Hm]. split; [|intros ? r [->|?] ? ?; [simplify_eq; lia|]].
           ++ destruct (Z.max_spec x y) as [[_ ->]|[_ ->]]; eauto.
           ++ etransitivity; [by eapply Hm|lia].
        -- split; [by eauto|]. intros t' r [->|Hin] Hf He; [simplify_eq; lia|]. by rewrite IH2 in He.
        -- destruct IH2 as [(t' & ? & ? & ?) Hm]. split; [by eauto 6|].
           intros t'' r [->|Hin] Hf He; [congruence|]. by eapply Hm.
    + split.
      * rewrite IH1. setoid_rewrite elem_of_cons. naive_solver congruence.
      * destruct (rf_LastRotatedAt (fam root l)) as [y|]; setoid_rewrite elem_of_cons; [|naive_solver congruence].
        destruct IH2 as [(t' & ? & ? & ?) Hm]. split; [by eauto 6|]. naive_solver congruence.
Qed.

(** The tokens of the table, in some order. *)
Definition rows (m : gmap string RefreshToken) (l : list RefreshToken) : Prop := (map_to_list m).*2 ≡ₚ l.
Lemma rows_nil : rows ∅ [].
Proof. unfold rows. by rewrite map_to_list_empty. Qed.
Lemma rows_cons m k x l : m !! k = None -> rows m l -> rows (<[k := x]> m) (x :: l).
Proof. unfold rows. intros Hk Hl. rewrite map_to_list_insert by done. rewrite fmap_cons. cbn [snd]. by rewrite Hl. Qed.
Lemma rows_elem m l t : rows m l -> t ∈ l <-> exists h, m !! h = Some t.
Proof.
  intros <-. rewrite list_elem_of_fmap. setoid_rewrite <- elem_of_map_to_list. split.
  - intros ([h t'] & -> & Hin). by exists h.
  - intros [h Hin]. by exists (h, t).
Qed.

Lemma fam_family root m l : rows m l -> family_summary root m (fam root l).
Proof.
  intros Hr. destruct (fam_spec root l) as [H1 H2]. pose proof (rows_elem m l) as He. split.
  - rewrite H1. setoid_rewrite He; [|done]. naive_solver.
  - destruct (rf_LastRotatedAt _) as [x|].
    + destruct H2 as [(t & Ht & ? & ?) Hm]. apply He in Ht as [h Hh]; [|done]. split; [by eauto|].
      intros h' t' r Hl Hf Hrot. eapply Hm; [|done..]. apply He; eauto.
    + intros h t Hl Hf. apply H2; [|done]. apply He; eauto.
Qed.

Lemma ans_Rotate h now t : d_tokens a !! h = Some t -> rt_Revoked t = false -> now < rt_ExpiresAt t ->
  answers (RotateRefreshToken h now) env a (Rotated (rotate now t))
    (with_tokens a (<[h := rotate now t]> (d_tokens a))).
Proof.
  intros E Hr He y a' Hp. cbn in Hp. rewrite E, Hr in Hp.
  by replace (rt_ExpiresAt t <=? now) with false in Hp by lia.
Qed.
(** A rotation refused with [s] and the token as it stands. *)
Definition rotation_denied h now (t : option RefreshToken) (s : store.sentinel) : Prop :=
  forall y a', port_spec (RotateRefreshToken h now) env a y a' ->
    (exists e, y = RotateErr t e /\ exactly e s) /\ a' = a.
Lemma den_Rotate_missing h now : d_tokens a !! h = None -> rotation_denied h now None store.ErrTokenNotFound.
Proof. intros E y a' Hp. cbn in Hp. rewrite E in Hp. tauto. Qed.
Lemma den_Rotate_revoked h now t : d_tokens a !! h = Some t -> rt_Revoked t = true ->
  rotation_denied h now (Some t) store.ErrTokenRevoked.
Proof. intros E Hr y a' Hp. cbn in Hp. rewrite E, Hr in Hp. tauto. Qed.
Lemma den_Rotate_expired h now t : d_tokens a !! h = Some t -> rt_Revoked t = false -> rt_ExpiresAt t <= now ->
  rotation_denied h now (Some t) store.ErrTokenExpired.
Proof.
  intros E Hr He y a' Hp. cbn in Hp. rewrite E, Hr in Hp.
  replace (rt_ExpiresAt t <=? now) with true in Hp by lia. tauto.
Qed.
End answers.

Section answers2.
Context `{Backend} (env : callenv) (a : db).

Lemma ans_SavePAT p u : d_users a !! pat_UserID p = Some u -> d_pats a !! pat_Hash p = None ->
  map_Forall (fun _ q => pat_ID q <> pat_ID p) (d_pats a) ->
  answers (SavePAT p) env a (Ok (stamp_pat (ce_now env) p))
    (with_pats a (<[pat_Hash p := stamp_pat (ce_now env) p]> (d_pats a))).
Proof.
  intros Eu Ep Hf y a' Hp. cbn in Hp. rewrite Eu, Ep in Hp.
  destruct Hp as [Hp|(Ht & _)]; [done|]. by apply free_id_taken in Ht.
Qed.
Lemma den_SavePAT p u q : d_users a !! pat_UserID p = Some u -> d_pats a !! pat_Hash p = Some q ->
  denies (SavePAT p) env a store.ErrPATExists a.
Proof. intros Eu Ep y a' Hp. cbn in Hp. by rewrite Eu, Ep in Hp. Qed.
Lemma den_SavePAT_user p : d_users a !! pat_UserID p = None -> d_pats a !! pat_Hash p = None ->
  map_Forall (fun _ q => pat_ID q <> pat_ID p) (d_pats a) ->
  denies (SavePAT p) env a store.ErrUserNotFound a.
Proof.
  intros Eu Ep Hf y a' Hp. cbn in Hp. rewrite Eu, Ep in Hp.
  destruct Hp as [[Hr|[[[? [=]]|Ht] _]] ->]; [done|]. by apply free_id_taken in Ht.
Qed.
Lemma ans_SavePATLimited p limit now u l m :
  d_users a !! pat_UserID p = Some u -> prune_pats (pat_UserID p) now (d_pats a) = m -> rows_of pat_UserID (pat_UserID p) m l -> Z.of_nat (length l) < limit ->
  m !! pat_Hash p = None -> map_Forall (fun _ q => pat_ID q <> pat_ID p) m ->
  answers (SavePATLimited p limit now) env a (Ok (stamp_pat (ce_now env) p))
    (with_pats a (<[pat_Hash p := stamp_pat (ce_now env) p]> m)).
Proof.
  intros Eu Em Hl Hc Ep Hf y a' Hp. cbn in Hp. rewrite Em, Eu, Ep, (pat_count_rows_of _ _ _ Hl) in Hp.
  replace (limit <=? _) with false in Hp by lia.
  destruct Hp as [Hp|(Ht & _)]; [done|]. by apply free_id_taken in Ht.
Qed.
Lemma den_SavePATLimited p limit now u l m :
  d_users a !! pat_UserID p = Some u -> prune_pats (pat_UserID p) now (d_pats a) = m -> rows_of pat_UserID (pat_UserID p) m l -> limit <= Z.of_nat (length l) ->
  denies (SavePATLimited p limit now) env a store.ErrPATLimitReached (with_pats a m).
Proof.
  intros Eu Em Hl Hc y a' Hp. cbn in Hp. rewrite Em, Eu, (pat_count_rows_of _ _ _ Hl) in Hp.
  by replace (limit <=? _) with true in Hp by lia.
Qed.
Lemma den_SavePATLimited_user p limit now : d_users a !! pat_UserID p = None ->
  denies (SavePATLimited p limit now) env a store.ErrUserNotFound a.
Proof. intros Eu y a' Hp. cbn in Hp. by rewrite Eu in Hp. Qed.
(** When nothing is pruned. *)
Lemma den_SavePATLimited_hash p limit now u q l :
  d_users a !! pat_UserID p = Some u -> prune_pats (pat_UserID p) now (d_pats a) = d_pats a ->
  rows_of pat_UserID (pat_UserID p) (d_pats a) l -> Z.of_nat (length l) < limit ->
  d_pats a !! pat_Hash p = Some q -> denies (SavePATLimited p limit now) env a store.ErrPATExists a.
Proof.
  intros Eu Em Hl Hc Ep y a' Hp. cbn in Hp. rewrite Em, Eu, Ep, (pat_count_rows_of _ _ _ Hl) in Hp.
  replace (limit <=? _) with false in Hp by lia. destruct Hp as [Hr [->| ->]]; [done|]. split; [done|]. by destruct a.
Qed.
Lemma ans_GetPAT h p : d_pats a !! h = Some p -> answers (GetPAT h) env a (Ok p) a.
Proof. intros E y a' [-> Hp]. by rewrite E in Hp. Qed.
Lemma den_GetPAT h : d_pats a !! h = None -> denies (GetPAT h) env a store.ErrTokenNotFound a.
Proof. intros E y a' [-> Hp]. by rewrite E in Hp. Qed.
Lemma ans_TouchPAT h t :
  answers (TouchPAT h t) env a (Ok tt) (with_pats a (alter (touch t) h (d_pats a))).
Proof. intros y a' Hp. exact Hp. Qed.
Lemma ans_DeletePAT uid id h p : d_pats a !! h = Some p -> pat_ID p = id -> pat_UserID p = uid ->
  map_Forall (fun k q => k = h \/ pat_ID q <> id) (d_pats a) ->
  answers (DeletePAT uid id) env a (Ok tt) (with_pats a (delete h (d_pats a))).
Proof.
  intros E <- <- Hf y a' [(h' & q & Hq & Hi & Hu & -> & ->)|(Hn & _)]; [|by destruct (Hn h p E)].
  destruct (Hf _ _ Hq) as [->|]; [done|congruence].
Qed.
Lemma den_DeletePAT uid id :
  map_Forall (fun _ q => pat_ID q = id -> pat_UserID q <> uid) (d_pats a) ->
  denies (DeletePAT uid id) env a store.ErrTokenNotFound a.
Proof. intros Hf y a' [(h & q & Hq & Hi & Hu & _)|(_ & Hr & ->)]; [|done]. by destruct (Hf _ _ Hq Hi). Qed.

Lemma ans_SaveChallenge c :
  d_challenges a = ∅ ->
  answers (SaveChallenge c) env a (Ok (stamp_challenge (ce_now env) c))
    (with_challenges a (<[ch_Nonce c := stamp_challenge (ce_now env) c]> ∅)).
Proof. intros E y a' [-> ->]. rewrite E. unfold sweep. by rewrite DeleteFunc_empty. Qed.
Lemma ans_GetChallenge n c : d_challenges a !! n = Some c -> ce_now env <= ch_ExpiresAt c ->
  answers (GetChallenge n) env a (Ok c) a.
Proof.
  intros E Hl y a' Hp. cbn in Hp. rewrite E in Hp. unfold Before in Hp.
  by replace (ch_ExpiresAt c <? ce_now env) with false in Hp by lia.
Qed.
Lemma den_GetChallenge n : d_challenges a !! n = None -> denies (GetChallenge n) env a store.ErrChallengeNotFound a.
Proof. intros E y a' Hp. cbn in Hp. by rewrite E in Hp. Qed.
Lemma ans_DeleteChallenge n c : d_challenges a !! n = Some c ->
  answers (DeleteChallenge n) env a (Ok tt) (with_challenges a (delete n (d_challenges a))).
Proof. intros E y a' Hp. cbn in Hp. by rewrite E in Hp. Qed.
Lemma den_DeleteChallenge n : d_challenges a !! n = None ->
  denies (DeleteChallenge n) env a store.ErrChallengeNotFound a.
Proof. intros E y a' Hp. cbn in Hp. by rewrite E in Hp. Qed.

Lemma ans_SaveOAuthIdentity i u :
  d_users a !! oi_UserID i = Some u -> d_oauth a !! (oi_Provider i, oi_ExternalID i) = None ->
  map_Forall (fun _ j => oi_ID j <> oi_ID i) (d_oauth a) ->
  answers (SaveOAuthIdentity i) env a (Ok (stamp_oauth (ce_now env) i))
    (with_oauth a (<[(oi_Provider i, oi_ExternalID i) := stamp_oauth (ce_now env) i]> (d_oauth a))).
Proof.
  intros Eu Ei Hf y a' Hp. cbn in Hp. rewrite Eu, Ei in Hp.
  destruct Hp as [Hp|(Ht & _)]; [done|]. by apply free_id_taken in Ht.
Qed.
Lemma den_SaveOAuthIdentity i u j :
  d_users a !! oi_UserID i = Some u -> d_oauth a !! (oi_Provider i, oi_ExternalID i) = Some j ->
  denies (SaveOAuthIdentity i) env a store.ErrOAuthIdentityExists a.
Proof. intros Eu Ei y a' Hp. cbn in Hp. by rewrite Eu, Ei in Hp. Qed.
Lemma den_SaveOAuthIdentity_user i :
  d_users a !! oi_UserID i = None -> d_oauth a !! (oi_Provider i, oi_ExternalID i) = None ->
  map_Forall (fun _ j => oi_ID j <> oi_ID i) (d_oauth a) ->
  denies (SaveOAuthIdentity i) env a store.ErrUserNotFound a.
Proof.
  intros Eu Ei Hf y a' Hp. cbn in Hp. rewrite Eu, Ei in Hp.
  destruct Hp as [[Hr|[[[? [=]]|Ht] _]] ->]; [done|]. by apply free_id_taken in Ht.
Qed.
Lemma ans_GetOAuthIdentity k1 k2 i : d_oauth a !! (k1, k2) = Some i -> answers (GetOAuthIdentity k1 k2) env a (Ok i) a.
Proof. intros E y a' [-> Hp]. by rewrite E in Hp. Qed.
Lemma den_GetOAuthIdentity k1 k2 : d_oauth a !! (k1, k2) = None ->
  denies (GetOAuthIdentity k1 k2) env a store.ErrOAuthIdentityNotFound a.
Proof. intros E y a' [-> Hp]. by rewrite E in Hp. Qed.

Lemma ans_SaveWalletIdentity i u :
  d_users a !! wi_UserID i = Some u -> d_wallets a !! (wi_Chain i, wi_Address i) = None ->
  map_Forall (fun _ j => wi_ID j <> wi_ID i) (d_wallets a) ->
  answers (SaveWalletIdentity i) env a (Ok (stamp_wallet (ce_now env) i))
    (with_wallets a (<[(wi_Chain i, wi_Address i) := stamp_wallet (ce_now env) i]> (d_wallets a))).
Proof.
  intros Eu Ei Hf y a' Hp. cbn in Hp. rewrite Eu, Ei in Hp.
  destruct Hp as [Hp|(Ht & _)]; [done|]. by apply free_id_taken in Ht.
Qed.
Lemma den_SaveWalletIdentity i u j :
  d_users a !! wi_UserID i = Some u -> d_wallets a !! (wi_Chain i, wi_Address i) = Some j ->
  denies (SaveWalletIdentity i) env a store.ErrWalletIdentityExists a.
Proof. intros Eu Ei y a' Hp. cbn in Hp. by rewrite Eu, Ei in Hp. Qed.
Lemma den_SaveWalletIdentity_user i :
  d_users a !! wi_UserID i = None -> d_wallets a !! (wi_Chain i, wi_Address i) = None ->
  map_Forall (fun _ j => wi_ID j <> wi_ID i) (d_wallets a) ->
  denies (SaveWalletIdentity i) env a store.ErrUserNotFound a.
Proof.
  intros Eu Ei Hf y a' Hp. cbn in Hp. rewrite Eu, Ei in Hp.
  destruct Hp as [[Hr|[[[? [=]]|Ht] _]] ->]; [done|]. by apply free_id_taken in Ht.
Qed.
Lemma ans_GetWalletIdentity k1 k2 i : d_wallets a !! (k1, k2) = Some i -> answers (GetWalletIdentity k1 k2) env a (Ok i) a.
Proof. intros E y a' [-> Hp]. by rewrite E in Hp. Qed.
Lemma den_GetWalletIdentity k1 k2 : d_wallets a !! (k1, k2) = None ->
  denies (GetWalletIdentity k1 k2) env a store.ErrWalletIdentityNotFound a.
Proof. intros E y a' [-> Hp]. by rewrite E in Hp. Qed.
End answers2.

(** ** Steps of a test *)

Section steps.
Context `{Backend} (o : oracle).
Implicit Types (Q : forall A : Type, A -> nat -> db -> Prop).

Lemma p_ret {A} (x : A) (Q : A -> nat -> db -> Prop) n a : Q x n a -> passes o (Return x) Q n a.
Proof. done. Qed.
Lemma p_uuid (Q : string -> nat -> db -> Prop) n a : Q (o_uuid4 o n) (S n) a -> passes o uuid_New Q n a.
Proof. intros HQ. split; [done|]. by intros x n' a' (-> & -> & ->). Qed.
Lemma p_now (Q : time -> nat -> db -> Prop) n a : Q (o_now o n) (S n) a -> passes o time_Now Q n a.
Proof. intros HQ. split; [done|]. by intros x n' a' (-> & -> & ->). Qed.

Lemma p_store {X} (c : storeE X) (Q : X -> nat -> db -> Prop) n a x a1 a2 :
  ~ key_in_use c a -> answers c (env_at o n) a x a1 -> a1 = a2 -> (db_ok a2 -> Q x (S n) a2) -> passes o (store c) Q n a.
Proof. intros Hk Ha <- HQ. split; [done|]. intros y n' a' (Hp & Hok & ->). destruct (Ha _ _ Hp) as [-> ->]. by apply HQ. Qed.
Lemma p_store_refused {X} (c : storeE (res X)) s (Q : res X -> nat -> db -> Prop) n a a1 a2 :
  ~ key_in_use c a -> denies c (env_at o n) a s a1 -> a1 = a2 ->
  (forall e, exactly e s -> db_ok a2 -> Q (Err e) (S n) a2) -> passes o (store c) Q n a.
Proof.
  intros Hk Ha <- HQ. split; [done|]. intros y n' a' (Hp & Hok & ->).
  destruct (Ha _ _ Hp) as [(e & -> & He) ->]. by apply HQ.
Qed.
Lemma p_rotate_refused h now t s (Q : rotation -> nat -> db -> Prop) n a :
  rotation_denied (env_at o n) a h now t s ->
  (forall e, exactly e s -> db_ok a -> Q (RotateErr t e) (S n) a) -> passes o (store (RotateRefreshToken h now)) Q n a.
Proof.
  intros Ha HQ. split; [by intros []|]. intros y n' a' (Hp & Hok & ->).
  destruct (Ha _ _ Hp) as [(e & -> & He) ->]. by apply HQ.
Qed.

Lemma p_must {X} (c : storeE (res X)) (Q : X -> nat -> db -> Prop) n a x a1 a2 :
  ~ key_in_use c a -> answers c (env_at o n) a (Ok x) a1 -> a1 = a2 -> (db_ok a2 -> Q x (S n) a2) ->
  passes o (must c) Q n a.
Proof. intros. unfold must. apply passes_bind. by eapply p_store. Qed.
Lemma p_refuses {X} (c : storeE (res X)) s (Q : unit -> nat -> db -> Prop) n a a1 a2 :
  ~ key_in_use c a -> denies c (env_at o n) a s a1 -> a1 = a2 -> (db_ok a2 -> Q tt (S n) a2) ->
  passes o (refuses c s) Q n a.
Proof.
  intros Hk Ha Ha2 HQ. unfold refuses. apply passes_bind. eapply p_store_refused; [done..|]. intros e [He _] Hok.
  unfold ErrorIs, fails_with. rewrite He, bool_decide_eq_true_2 by done. by apply HQ.
Qed.
Lemma p_revoke h (Q : unit -> nat -> db -> Prop) n a a2 :
  (forall now, with_tokens a (end_family now h (d_tokens a)) = a2 now) -> (forall now, db_ok (a2 now) -> Q tt (S n) (a2 now)) ->
  passes o (must (RevokeTokens h)) Q n a.
Proof.
  intros Ha2 HQ. unfold must. apply passes_bind. split; [by intros []|]. intros y n' a' ([-> ->] & Hok & ->).
  rewrite Ha2 in Hok |- *. by eapply HQ.
Qed.

Lemma p_ListPATs uid l0 (Q : list PersonalAccessToken -> nat -> db -> Prop) n a :
  rows_of pat_UserID uid (d_pats a) l0 ->
  (forall l, l ≡ₚ l0 -> Sorted (fun x y => pat_CreatedAt y <= pat_CreatedAt x) l -> db_ok a -> Q l (S n) a) ->
  passes o (must (ListPATs uid)) Q n a.
Proof.
  intros Hr HQ. unfold must. apply passes_bind. split; [by intros []|]. intros y n' a' ((-> & l & -> & Hl) & Hok & ->).
  destruct (listing_rows _ _ _ _ _ _ Hl Hr). by apply HQ.
Qed.
Lemma p_ListOAuth uid l0 (Q : list OAuthIdentity -> nat -> db -> Prop) n a :
  rows_of oi_UserID uid (d_oauth a) l0 ->
  (forall l, l ≡ₚ l0 -> Sorted (fun x y => oi_CreatedAt y <= oi_CreatedAt x) l -> db_ok a -> Q l (S n) a) ->
  passes o (must (ListOAuthIdentities uid)) Q n a.
Proof.
  intros Hr HQ. unfold must. apply passes_bind. split; [by intros []|]. intros y n' a' ((-> & l & -> & Hl) & Hok & ->).
  destruct (listing_rows _ _ _ _ _ _ Hl Hr). by apply HQ.
Qed.
Lemma p_ListWallets uid l0 (Q : list WalletIdentity -> nat -> db -> Prop) n a :
  rows_of wi_UserID uid (d_wallets a) l0 ->
  (forall l, l ≡ₚ l0 -> Sorted (fun x y => wi_CreatedAt y <= wi_CreatedAt x) l -> db_ok a -> Q l (S n) a) ->
  passes o (must (ListWalletIdentities uid)) Q n a.
Proof.
  intros Hr HQ. unfold must. apply passes_bind. split; [by intros []|]. intros y n' a' ((-> & l & -> & Hl) & Hok & ->).
  destruct (listing_rows _ _ _ _ _ _ Hl Hr). by apply HQ.
Qed.

Lemma p_assert b (Q : unit -> nat -> db -> Prop) n a : b = true -> Q tt n a -> passes o (assert b) Q n a.
Proof. by intros ->. Qed.
Lemma p_Equal {A} `{EqDecision A} (x y : A) (Q : unit -> nat -> db -> Prop) n a :
  x = y -> Q tt n a -> passes o (Equal x y) Q n a.
Proof. intros -> HQ. apply p_assert; [by apply bool_decide_eq_true_2|done]. Qed.
Lemma p_Len {A} (l : list A) k (Q : unit -> nat -> db -> Prop) n a :
  length l = k -> Q tt n a -> passes o (Len l k) Q n a.
Proof. intros Hl HQ. apply p_assert; [by apply bool_decide_eq_true_2|done]. Qed.
Lemma p_ErrorIs {A} (r : res A) e s (Q : unit -> nat -> db -> Prop) n a :
  r = Err e -> exactly e s -> Q tt n a -> passes o (ErrorIs r s) Q n a.
Proof. intros -> [He _] HQ. apply p_assert; [|done]. cbn. by rewrite He, bool_decide_eq_true_2. Qed.
(** A challenge that has expired may go at the look. *)
Lemma p_GetChallenge_expired nonce c (Q : unit -> nat -> db -> Prop) n a :
  d_challenges a !! nonce = Some c -> ch_ExpiresAt c < o_now o n ->
  (forall a1, db_ok a1 -> Q tt (S n) a1) -> passes o (refuses (GetChallenge nonce) store.ErrChallengeExpired) Q n a.
Proof.
  intros Hc He HQ. unfold refuses. apply passes_bind. split; [by intros []|]. intros y n' a' (Hp & Hok & ->).
  cbn in Hp. rewrite Hc in Hp. unfold Before in Hp. rewrite (proj2 (Z.ltb_lt _ _) He) in Hp.
  destruct Hp as [(e & -> & [Hx _]) _]. apply p_assert; [|by apply HQ]. cbn. by rewrite Hx, bool_decide_eq_true_2.
Qed.

Lemma p_NotNil {A} (p : option A) x (Q : A -> nat -> db -> Prop) n a :
  p = Some x -> Q x n a -> passes o (NotNil p) Q n a.
Proof. by intros ->. Qed.
Lemma p_NoError {A} (r : res A) x (Q : A -> nat -> db -> Prop) n a :
  r = Ok x -> Q x n a -> passes o (NoError r) Q n a.
Proof. by intros ->. Qed.
Lemma p_require_ErrorIs {A} (r : res A) e s (Q : unit -> nat -> db -> Prop) n a :
  r = Err e -> exactly e s -> Q tt n a -> passes o (require_ErrorIs r s) Q n a.
Proof. intros -> [He _] HQ. unfold require_ErrorIs. cbn. by rewrite He, bool_decide_eq_true_2. Qed.
End steps.

(** ** Proof search *)

(** Two entries of a map come in one order or the other. *)
Lemma two_orders `{RangeOrder} {A} n (x y : A) : range_order n [x; y] = [x; y] \/ range_order n [x; y] = [y; x].
Proof.
  pose proof (range_order_perm n [x; y]) as Hp. pose proof (Permutation_length Hp) as Hl.
  destruct (range_order n [x; y]) as [|u [|v [|]]]; try done.
  apply Permutation_sym, Permutation_length_2_inv in Hp. destruct Hp as [Hp|Hp]; rewrite Hp; auto.
Qed.
Lemma stamp_zero now : stamp zeroTime now = now.
Proof. reflexivity. Qed.
Lemma IsZero_after t : zeroTime < t -> IsZero t = false.
Proof. intros Ht. unfold IsZero. by rewrite (proj2 (Z.eqb_neq _ _)) by lia. Qed.
Lemma stamp_after t now : zeroTime < t -> stamp t now = t.
Proof. intros Ht. unfold stamp, IsZero. by rewrite (proj2 (Z.eqb_neq _ _)) by lia. Qed.
Lemma Truncate_bounds t d : 0 < d -> t - d < Truncate t d <= t.
Proof.
  intros Hd. unfold Truncate. rewrite (proj2 (Z.leb_gt d 0)) by lia.
  pose proof (Z.mod_pos_bound (t - zeroTime) d). lia.
Qed.
#[global] Arguments Truncate : simpl never.
#[global] Arguments stamp : simpl never.

#[global] Opaque answers denies rotation_denied.

(** Two keys differ: other letters, or random identifiers of other moments. *)
Ltac ne := let E := fresh in intros E; simplify_eq/=; lia.
(** Comparisons of instants: the clock shows none before 1970. *)
Ltac instant :=
  repeat match goal with H : db_ok _ |- _ => clear H end;
  repeat match goal with
  | |- context [Truncate ?t ?d] =>
      lazymatch goal with H : _ < Truncate t d <= _ |- _ => fail | _ => pose proof (Truncate_bounds t d ltac:(done)) end
  | H : forall n, 0 <= o_now ?o n, H' : context [o_now ?o ?k] |- _ =>
      lazymatch goal with _ : 0 <= o_now o k |- _ => fail | _ => pose proof (H k) end
  | H : forall n, 0 <= o_now ?o n |- context [o_now ?o ?k] =>
      lazymatch goal with _ : 0 <= o_now o k |- _ => fail | _ => pose proof (H k) end
  end;
  unfold Add, zeroTime, Hour, Minute, Second in *; lia.
(** Tests of strings and instants that are known. *)
Ltac tests :=
  unfold After, Before;
  repeat match goal with
  | |- context [strEq ?x ?x] => rewrite (strEq_refl x)
  | |- context [strEq ?x ?y] => rewrite (proj2 (strEq_false x y)) by ne
  | |- context [?x <? ?y] => first [rewrite (proj2 (Z.ltb_lt x y)) by instant | rewrite (proj2 (Z.ltb_ge x y)) by instant]
  | |- context [?x =? ?y] => first [rewrite (proj2 (Z.eqb_eq x y)) by instant | rewrite (proj2 (Z.eqb_neq x y)) by instant]
  end; cbn [andb orb negb].
(** The clock goes forward, by less than a minute in ten steps. *)
Ltac steady :=
  match goal with
  | H : forall i j : nat, _ -> o_now ?o i <= o_now ?o j < _ |- context [o_now ?o ?k] =>
      match goal with |- context [o_now o ?j] => pose proof (H k j ltac:(lia)); instant end
  end.
Ltac stamps := cbn; rewrite ?stamp_zero; rewrite ?stamp_after by instant.
(** A listing is the one that is expected. *)
Ltac newest :=
  match goal with
  | Hp : ?l ≡ₚ _, Hs : Sorted _ ?l |- context [?l] =>
      eapply newest_first in Hs; [|exact Hp|repeat constructor; stamps; instant]; rewrite Hs; reflexivity
  end.
(** The condition of an assertion. *)
Ltac decided :=
  stamps; rewrite ?IsZero_after by instant; tests; reflexivity.
(** A row of a table written row by row. *)
Ltac lookup :=
  cbn; repeat first [rewrite lookup_insert_eq | rewrite lookup_insert_ne by ne | rewrite lookup_empty]; reflexivity.
Ltac unclaimed :=
  cbn; repeat (apply map_Forall_insert_2; [cbn; first [ne | intros; ne | intros; done | by left | by right; ne]|]);
  apply map_Forall_empty.
Ltac side := first [lookup | unclaimed | assumption | ne | lia | done].

(** The database after a call, row by row again. *)
Ltac table_step :=
  match goal with
  | |- context [DeleteFunc _ ∅] => rewrite DeleteFunc_empty
  | |- context [DeleteFunc _ _] => rewrite DeleteFunc_insert by lookup; cbn; tests
  | |- context [end_family _ _ _] => unfold end_family
  | |- context [_ <$> ∅] => rewrite fmap_empty
  | |- context [_ <$> <[_ := _]> _] => rewrite fmap_insert; cbn; tests
  | |- context [delete ?k (<[?k := _]> _)] => rewrite delete_insert_eq
  | |- context [delete _ ∅] => rewrite delete_empty
  | |- context [delete _ (<[_ := _]> _)] => rewrite delete_insert_ne by ne
  | |- context [<[?k := _]> (<[?k := _]> _)] => rewrite insert_insert_eq
  | |- context [<[?k := ?x]> (<[?k' := ?y]> ?m)] =>
      match m with context [<[k := _]> _] => rewrite (insert_insert_ne m k k' x y) by ne end
  | |- context [alter _ ?k (<[?k := _]> _)] => rewrite alter_insert_eq
  | |- context [alter _ _ (<[_ := _]> _)] => rewrite alter_insert_ne by ne
  end.
Ltac tables :=
  cbv beta iota delta [with_users with_tokens with_pats with_passwords with_oauth with_wallets with_challenges
    cascade prune_pats d_users d_tokens d_pats d_passwords d_oauth d_wallets d_challenges db_empty];
  cbn; repeat table_step; reflexivity.

Ltac rotation_refused :=
  first
  [ eapply den_Rotate_missing; lookup
  | eapply den_Rotate_revoked; [lookup|reflexivity]
  | eapply den_Rotate_expired; [lookup|reflexivity|cbn; instant] ].
Ltac own_rows :=
  cbn [d_pats d_oauth d_wallets];
  repeat lazymatch goal with
  | |- rows_of _ _ ∅ _ => apply rows_empty
  | |- rows_of _ _ (<[_ := _]> _) _ =>
      first [apply rows_insert_other; [lookup|cbn; ne|] | apply rows_insert_own; [lookup|reflexivity|]]
  end.

Ltac all_rows :=
  cbn [d_tokens with_users db_empty];
  repeat lazymatch goal with
  | |- rows ∅ _ => apply rows_nil
  | |- rows (<[_ := _]> _) _ => apply rows_cons; [lookup|]
  end.

Ltac call_answers :=
  first
  [ eapply ans_Create; [lookup|unclaimed]
  | eapply ans_GetByID; lookup
  | eapply ans_GetByEmail; [assumption|lookup|reflexivity|reflexivity|done]
  | eapply ans_Delete; lookup
  | eapply ans_SavePasswordHash; lookup
  | eapply ans_GetPasswordHash; lookup
  | eapply ans_SaveRefreshToken;
      [lookup|reflexivity|reflexivity|first [by left | right; eexists; split; [lookup|reflexivity]]]
  | eapply ans_GetRefreshToken; lookup
  | eapply ans_GetRefreshFamily, fam_family; all_rows
  | eapply ans_Rotate; [lookup|reflexivity|cbn; instant]
  | eapply ans_SavePAT; [lookup|lookup|unclaimed]
  | eapply ans_SavePATLimited; [lookup|tables|own_rows|cbn; lia|lookup|unclaimed]
  | eapply ans_GetPAT; lookup
  | eapply ans_TouchPAT
  | eapply ans_DeletePAT; [lookup|reflexivity|reflexivity|unclaimed]
  | eapply ans_SaveChallenge; reflexivity
  | eapply ans_GetChallenge; [lookup|cbn; steady]
  | eapply ans_DeleteChallenge; lookup
  | eapply ans_SaveOAuthIdentity; [lookup|lookup|unclaimed]
  | eapply ans_GetOAuthIdentity; lookup
  | eapply ans_SaveWalletIdentity; [lookup|lookup|unclaimed]
  | eapply ans_GetWalletIdentity; lookup ].

Ltac call_denied :=
  first
  [ eapply den_Create; [lookup|reflexivity|cbn; first [by left | right; split; [done|reflexivity]]]
  | eapply den_GetByID; lookup
  | eapply den_GetByEmail; unclaimed
  | eapply den_Delete; lookup
  | eapply den_SavePasswordHash; lookup
  | eapply den_GetPasswordHash; lookup
  | eapply den_SaveRefreshToken_user; [lookup|reflexivity]
  | eapply den_SaveRefreshToken;
      [done|first [left; lookup | right; eexists; split; [lookup|by eexists]]]
  | eapply den_GetRefreshToken; lookup
  | eapply den_SavePAT_user; [lookup|lookup|unclaimed]
  | eapply den_SavePAT; [lookup|lookup]
  | eapply den_GetPAT; lookup
  | eapply den_DeletePAT; unclaimed
  | eapply den_SavePATLimited_user; lookup
  | eapply den_SavePATLimited_hash; [lookup|tables|own_rows|cbn; lia|lookup]
  | eapply den_SavePATLimited; [lookup|tables|own_rows|cbn; lia]
  | eapply den_GetChallenge; lookup
  | eapply den_DeleteChallenge; lookup
  | eapply den_SaveOAuthIdentity_user; [lookup|lookup|unclaimed]
  | eapply den_SaveOAuthIdentity; [lookup|lookup]
  | eapply den_GetOAuthIdentity; lookup
  | eapply den_SaveWalletIdentity_user; [lookup|lookup|unclaimed]
  | eapply den_SaveWalletIdentity; [lookup|lookup]
  | eapply den_GetWalletIdentity; lookup ].

(** The key of a new row is free. *)
Ltac unused := first [by intros [] | cbn; apply eq_None_not_Some; lookup].

Ltac head_of t := lazymatch t with ?f _ => head_of f | _ => t end.

Ltac step :=
  cbv beta zeta;
  lazymatch goal with
  | |- True => exact I
  | |- passes _ (_ ≫= _) _ _ _ => apply passes_bind; cbv beta
  | |- passes _ (mret _) _ _ _ => apply p_ret
  | |- passes _ (Return _) _ _ _ => apply p_ret
  | |- passes _ uuid_New _ _ _ => apply p_uuid
  | |- passes _ Testing.time_Now _ _ _ => apply p_now
  | |- passes _ (must (RevokeTokens _)) _ _ _ => eapply p_revoke; [intros ?; tables|intros ? ?]
  | |- passes _ (must (ListPATs _)) _ _ _ => eapply p_ListPATs; [own_rows|intros ? ? ? ?]
  | |- passes _ (must (ListOAuthIdentities _)) _ _ _ => eapply p_ListOAuth; [own_rows|intros ? ? ? ?]
  | |- passes _ (must (ListWalletIdentities _)) _ _ _ => eapply p_ListWallets; [own_rows|intros ? ? ? ?]
  | |- passes _ (must _) _ _ _ => eapply p_must; [unused|call_answers|tables|intros ?]
  | |- passes _ (refuses (GetChallenge _) (StoreErr store.ErrChallengeExpired)) _ _ _ =>
      eapply p_GetChallenge_expired; [lookup|cbn; steady|intros ? ?]
  | |- passes _ (refuses _ _) _ _ _ => eapply p_refuses; [unused|call_denied|tables|intros ?]
  | |- passes _ (store (RotateRefreshToken _ _)) _ _ _ =>
      first [eapply p_store; [unused|call_answers|tables|intros ?]
            |eapply p_rotate_refused; [rotation_refused|intros ? ? ?]]
  | |- passes _ (store _) _ _ _ =>
      first [eapply p_store; [unused|call_answers|tables|intros ?]
            |eapply p_store_refused; [unused|call_denied|tables|intros ? ? ?]]
  | |- passes _ (Equal _ _) _ _ _ => apply p_Equal; [first [newest | unfold namesOf; newest | reflexivity]|]
  | |- passes _ (Len _ _) _ _ _ => apply p_Len; [first [reflexivity | by erewrite Permutation_length by eassumption]|]
  | |- passes _ (Empty _) _ _ _ => apply p_Len; [first [reflexivity | by erewrite Permutation_length by eassumption]|]
  | |- passes _ (ErrorIs _ _) _ _ _ => eapply p_ErrorIs; [reflexivity|eassumption|]
  | |- passes _ (require_ErrorIs _ _) _ _ _ => eapply p_require_ErrorIs; [reflexivity|eassumption|]
  | |- passes _ (assert _) _ _ _ => apply p_assert; [decided|]
  | |- passes _ (Nil _) _ _ _ => apply p_assert; [reflexivity|]
  | |- passes _ (save _ _) _ _ _ =>
      unfold save; cbv zeta; cbn [rt_ExpiresAt rt_Hash rt_UserID rt_Parent refresh_token];
      first [progress change (IsZero zeroTime) with true | rewrite IsZero_after by instant]; cbv iota
  | |- passes _ (NotNil _) _ _ _ => eapply p_NotNil; [reflexivity|]
  | |- passes _ (NoError _) _ _ _ => eapply p_NoError; [reflexivity|]
  | |- passes _ (each (range_order ?n [?x; ?y]) _) _ _ _ => destruct (two_orders n x y) as [-> | ->]
  | |- passes _ (match _ with pair _ _ => _ end) _ _ _ => cbv beta iota
  | |- passes _ (each _ _) _ _ _ => cbn [each]
  | |- passes _ (times _ _) _ _ _ => cbn [times]
  | |- passes _ ?t _ _ _ => let h := head_of t in progress unfold h
  end.
