(* ===== verification/StoretestLimit.v ===== *)
(** * The limit on personal access tokens, under test

    Creating a token against a store that holds tokens whose identifiers and
    digests were drawn before: one creation, and many at once.  The subtests of
    patlimit.go pass. *)

From S2P Require Import Prelude GoStrings GoTime GoEncoding Errors Entity Ports Contract ContractFacts Token Interfaces Service Testing Storetest StoretestFacts StoretestPasses.

Section limit.
Context `{Backend} (o : oracle) (start : time) (horizon : nat) (Hfair : fair_world o start horizon).

Let Huuid : Inj (=) (=) (o_uuid4 o) := fw_uuid _ _ _ Hfair.
#[local] Existing Instance Huuid.
Let Hclock : forall n, 0 <= o_now o n := fw_clock _ _ _ Hfair.
Let Hsteady : forall i j : nat, (i <= j <= i + 10)%nat -> o_now o i <= o_now o j < o_now o i + Minute := fw_steady _ _ _ Hfair.

(** The digest of the token drawn at a tick. *)
Definition digest (j : nat) : string := match o_rand o j 32 with Ok b => pat_digest b | Err _ => "" end.

(** Every token has its identifier and its digest from one of the ticks [U],
    and stays. *)
Definition issued (U : gset nat) (a : db) : Prop :=
  forall h p, d_pats a !! h = Some p ->
    pat_ExpiresAt p = None /\ (exists i, i ∈ U /\ pat_ID p = o_uuid4 o i) /\ exists j, j ∈ U /\ h = digest j.

Lemma issued_mono U V a : U ⊆ V -> issued U a -> issued V a.
Proof. intros HUV Ha h p Hp. destruct (Ha h p Hp) as (He & (i & Hi & ?) & (j & Hj & ?)). naive_solver. Qed.

Lemma digest_rand j b : o_rand o j 32 = Ok b -> digest j = pat_digest b.
Proof. unfold digest. by intros ->. Qed.

Lemma digest_inj i j : (i < horizon)%nat -> (j < horizon)%nat -> digest i = digest j -> i = j.
Proof.
  intros Hi Hj. destruct (fw_rand _ _ _ Hfair i) as [b Hb], (fw_rand _ _ _ Hfair j) as [c Hc].
  rewrite (digest_rand _ _ Hb), (digest_rand _ _ Hc). by eapply fw_digest.
Qed.

Lemma pat_count_new uid m h p : m !! h = None ->
  pat_count uid (<[h := p]> m) = pat_count uid m + (if strEq (pat_UserID p) uid then 1 else 0).
Proof.
  intros Hh. unfold pat_count. destruct (strEq (pat_UserID p) uid) eqn:E.
  - rewrite map_filter_insert_True by done. rewrite map_size_insert_None; [lia|].
    by apply map_lookup_filter_None_2; left.
  - rewrite map_filter_insert_not' by (cbn; congruence). lia.
Qed.

Lemma prune_issued U uid now a : issued U a -> prune_pats uid now (d_pats a) = d_pats a.
Proof.
  intros Ha. unfold prune_pats, DeleteFunc. apply map_filter_id. intros h p Hp.
  destruct (Ha h p Hp) as (He & _). cbn. unfold pat_expired. rewrite He. by rewrite andb_false_r.
Qed.

(** One more token. *)
Definition fresh_pat (uid name : string) (i j : nat) (now : time) : PersonalAccessToken :=
  mkPAT (o_uuid4 o i) (digest j) uid name [] None None now.

Definition full (max : Z) (uid : string) (a : db) : bool := (0 <? max) && (max <=? pat_count uid (d_pats a)).

Record one_more (uid : string) (a a' : db) : Prop := {
  om_users : d_users a' = d_users a;
  om_count : forall v, pat_count v (d_pats a') = pat_count v (d_pats a) + (if strEq uid v then 1 else 0)
}.

Lemma save_issued U max uid name i j now env a (y : res PersonalAccessToken) a' :
  issued U a -> is_Some (d_users a !! uid) -> i ∉ U -> j ∉ U -> (j < horizon)%nat -> set_Forall (fun k => k < horizon)%nat U ->
  (if 0 <? max then port_spec (SavePATLimited (fresh_pat uid name i j now) max now) env a y a'
   else port_spec (SavePAT (fresh_pat uid name i j now)) env a y a') ->
  if full max uid a then refused y store.ErrPATLimitReached /\ a' = a
  else (exists p, y = Ok p) /\ issued (U ∪ {[i; j]}) a' /\ one_more uid a a'.
Proof.
  intros Ha [u Hu] Hi Hj Hjh HU Hp. set (p := fresh_pat uid name i j now) in *.
  assert (d_pats a !! digest j = None) as Hh.
  { apply eq_None_not_Some. intros [q Hq]. destruct (Ha _ _ Hq) as (_ & _ & k & Hk & E).
    apply digest_inj in E as ->; [done..|by apply HU]. }
  assert (~ id_taken pat_ID (pat_ID p) (d_pats a)) as Hid.
  { intros (h & q & Hq & E). destruct (Ha _ _ Hq) as (_ & (k & Hk & E') & _).
    rewrite E' in E. by apply (fw_uuid _ _ _ Hfair) in E as ->. }
  assert (forall now, issued (U ∪ {[i; j]}) (with_pats a (<[digest j := stamp_pat now p]> (d_pats a))) /\
    one_more uid a (with_pats a (<[digest j := stamp_pat now p]> (d_pats a)))) as Hnew.
  { intros t. split; [|split; [done|]].
    - intros h q Hq. cbn in Hq. apply lookup_insert_Some in Hq as [[<- <-]|[_ Hq]]; [split_and!; [done|exists i; split; [set_solver|done]|exists j; split; [set_solver|done]]|].
      eapply issued_mono; [|exact Ha|exact Hq]. set_solver.
    - intros v. cbn. by rewrite pat_count_new. }
  unfold full. destruct (0 <? max); cbn in Hp |- *.
  - rewrite (prune_issued _ _ _ _ Ha), Hu in Hp. destruct (max <=? _); [by destruct a|].
    rewrite Hh in Hp. destruct Hp as [[-> ->]|[Ht _]]; [|done]. split; [by eexists|apply Hnew].
  - rewrite Hu, Hh in Hp. destruct Hp as [[-> ->]|[Ht _]]; [|done]. split; [by eexists|apply Hnew].
Qed.
(** *** A creation *)

Record limits (max : Z) (svc : Service) : Prop := {
  li_store : patStore svc = true;
  li_max : pc_MaxPerUser (patConfig svc) = max;
  li_ttl : pc_MaxTTL (patConfig svc) = 0
}.
Definition proper_name (name : string) : Prop :=
  TrimSpace name = name /\ strEq name "" = false /\ (maxPATNameLength <? Z.of_nat (String.length name)) = false.

Section creation.
Context (max : Z) (svc : Service) (Hsvc : limits max svc) (name : string) (Hname : proper_name name) (uid : string).

Definition outcome (U : gset nat) (a : db) (r : res PATResult) (V : gset nat) (a' : db) : Prop :=
  if full max uid a then r = Err auth.ErrPATLimitReached /\ a' = a
  else created r = true /\ issued (U ∪ V) a' /\ one_more uid a a'.

(** What the service makes of the store's answer. *)
Definition answered (plaintext : string) (y : res PersonalAccessToken) : res PATResult :=
  match y with
  | Ok pat => Ok (mkPATResult plaintext pat)
  | Err err => if errors_Is err store.ErrPATLimitReached then Err auth.ErrPATLimitReached else Err (wrap "save pat" err)
  end.

Lemma save_outcome U i j now env a (y : res PersonalAccessToken) a' plaintext :
  issued U a -> is_Some (d_users a !! uid) -> i ∉ U -> j ∉ U -> (j < horizon)%nat -> set_Forall (fun k => k < horizon)%nat U ->
  (if 0 <? max then port_spec (SavePATLimited (fresh_pat uid name i j now) max now) env a y a'
   else port_spec (SavePAT (fresh_pat uid name i j now)) env a y a') ->
  outcome U a (answered plaintext y) {[i; j]} a'.
Proof.
  intros Ha Hu Hi Hj Hjh HU Hp. pose proof (save_issued U max uid name i j now env a y a' Ha Hu Hi Hj Hjh HU Hp) as Hs.
  unfold outcome. destruct (full max uid a).
  - destruct Hs as [(e & -> & He & _) ->]. cbn [answered]. by rewrite He, bool_decide_eq_true_2.
  - by destruct Hs as ((p & ->) & Hs).
Qed.

(** The rest of a creation, once the store has answered. *)
Ltac replied y :=
  match goal with |- context [match y with Ok p => Ret (Ok (mkPATResult ?s p)) | Err _ => _ end] =>
    replace (match y with Ok p => Ret (Ok (mkPATResult s p)) | Err _ => _ end) with (Ret (answered s y))
      by (destruct y; [|cbn; case_match]; reflexivity)
  end.

Lemma p_create U (Q : res PATResult -> nat -> db -> Prop) n a :
  issued U a -> is_Some (d_users a !! uid) -> set_Forall (fun k => k < n)%nat U -> (n + 4 <= horizon)%nat ->
  (forall r a', db_ok a' -> outcome U a r {[S (S n); S n]} a' -> Q r (n + 4)%nat a') ->
  passes o (lift (Service_CreatePAT svc uid name [] None)) Q n a.
Proof.
  intros Ha Hu HU Hn HQ. unfold Service_CreatePAT. destruct Hsvc as [-> Emax Httl], Hname as (-> & -> & ->).
  rewrite Emax, Httl. cbn. split; [done|]. intros _ _ _ (-> & -> & ->). cbn. split; [done|].
  intros _ _ _ (-> & -> & ->). destruct (fw_rand _ _ _ Hfair (S n)) as [b Hb]. rewrite Hb. cbn.
  split; [done|]. intros _ _ _ (-> & -> & ->). cbn.
  assert (forall k, (n <= k)%nat -> k ∉ U) as Hout by (intros k Hk Hin; specialize (HU k Hin); cbn in HU; lia).
  assert (set_Forall (fun k => k < horizon)%nat U) as HUh by (intros k Hin; specialize (HU k Hin); cbn in HU; lia).
  destruct (0 <? max) eqn:Em; cbn -[port_spec]; (split; [by intros []|]); intros y n' a' (Hp & Hok & ->);
    replied y; cbn; replace (S (S (S (S n)))) with (n + 4)%nat by lia;
    (apply HQ; [done|]); eapply save_outcome; rewrite ?Em; unfold fresh_pat; rewrite ?(digest_rand _ _ Hb); try done;
    first [apply Hout; lia | lia].
Qed.

(** Nothing is left of the user's tokens, nor of others'. *)
Lemma p_create_pruned (Q : res PATResult -> nat -> db -> Prop) n a :
  prune_pats uid (o_now o n) (d_pats a) = ∅ -> is_Some (d_users a !! uid) -> 0 < max ->
  (forall r a', created r = true -> Q r (n + 4)%nat a') ->
  passes o (lift (Service_CreatePAT svc uid name [] None)) Q n a.
Proof.
  intros Hprune [u Hu] Hmax HQ. unfold Service_CreatePAT. destruct Hsvc as [-> Emax Httl], Hname as (-> & -> & ->).
  rewrite Emax, Httl. cbn. split; [done|]. intros _ _ _ (-> & -> & ->). cbn. split; [done|].
  intros _ _ _ (-> & -> & ->). destruct (fw_rand _ _ _ Hfair (S n)) as [b Hb]. rewrite Hb. cbn.
  split; [done|]. intros _ _ _ (-> & -> & ->). cbn. rewrite (proj2 (Z.ltb_lt 0 max) Hmax). cbn -[port_spec].
  split; [by intros []|]. intros y n' a' (Hp & Hok & ->).
  eapply ans_SavePATLimited in Hp as [-> ->]; [|exact Hu|exact Hprune|apply rows_empty|exact Hmax|apply lookup_empty|apply map_Forall_empty].
  cbn. replace (S (S (S (S n)))) with (n + 4)%nat by lia. by apply HQ.
Qed.

(** Many creations at once, one slot being free. *)
Definition slots (w : nat) (U : gset nat) (n : nat) (a : db) : Prop :=
  issued U a /\ is_Some (d_users a !! uid) /\ pat_count uid (d_pats a) = max - 1 + Z.of_nat w /\ (w <= 1)%nat.
Definition creation_ended (won : bool) (seen : nat) (r : res PATResult) : Prop :=
  if won then created r = true else seen = 1%nat /\ r = Err auth.ErrPATLimitReached.

Lemma creation_worker last : 0 < max -> (last <= horizon)%nat ->
  worker o last slots creation_ended ∅ false 0 (Service_CreatePAT svc uid name [] None).
Proof.
  intros Hmax Hlast. unfold Service_CreatePAT. destruct Hsvc as [-> Emax Httl], Hname as (-> & -> & ->).
  rewrite Emax, Httl. cbn -[port_spec]. rewrite (proj2 (Z.ltb_lt 0 max) Hmax).
  intros w0 U0 i0 a0 t _ _ Hi0 _ _ _ (-> & -> & ->) _.
  exists false, ∅, 0%nat. split_and!; [set_solver|by rewrite Nat.add_0_r, union_empty_r_L|done|done|lia|]. cbn -[port_spec].
  intros w1 U1 i1 a1 t1 _ _ Hi1 _ _ _ (-> & -> & ->) _.
  exists false, ∅, 0%nat. split_and!; [set_solver|by rewrite Nat.add_0_r, union_empty_r_L|done|done|lia|].
  destruct (fw_rand _ _ _ Hfair i1) as [b Hb]. rewrite Hb. cbn -[port_spec].
  intros w2 U2 i2 a2 t2 _ _ Hi2 _ _ _ (-> & -> & ->) _.
  exists false, ∅, 0%nat. split_and!; [set_solver|by rewrite Nat.add_0_r, union_empty_r_L|done|done|lia|]. cbn -[port_spec].
  intros w3 U3 i3 a3 y n' a' Hi3 _ Hown Hpast (Hp & Hok & ->) Hle.
  destruct Hi3 as (Ha & Hu & Hc & Hw).
  assert (outcome U3 a3 (answered (PATPrefix +:+ b64_encode RawURLEncoding b) y) {[i2; i1]} a') as Ho.
  { eapply save_outcome; rewrite ?(proj2 (Z.ltb_lt 0 max) Hmax); unfold fresh_pat; rewrite ?(digest_rand _ _ Hb); try done.
    - set_solver.
    - set_solver.
    - assert (i1 < i3)%nat by (apply Hpast; set_solver). lia.
    - intros k Hk. assert (k < i3)%nat by (apply Hpast; set_solver). lia. }
  replied y. unfold outcome in Ho. destruct (full max uid a3) eqn:Ef; unfold full in Ef.
  - destruct Ho as [Hr ->]. exists false, ∅, 1%nat. assert (w3 = 1%nat) as -> by lia.
    split_and!; [set_solver|by rewrite Nat.add_0_r, union_empty_r_L|done|done|lia|by split].
  - destruct Ho as (Hr & Hi & Hm). exists true, {[i2; i1]}, 0%nat. assert (w3 = 0%nat) as -> by lia.
    split_and!; [set_solver| |done|done|lia|exact Hr].
    split_and!; [exact Hi|by rewrite (om_users _ _ _ Hm)| |lia].
    rewrite (om_count _ _ _ Hm), Hc, strEq_refl. lia.
Qed.
Lemma creation_unkeyed : all_unkeyed (Service_CreatePAT svc uid name [] None).
Proof.
  unfold Service_CreatePAT. destruct Hsvc as [-> -> ->], Hname as (-> & -> & ->). cbn.
  split; [done|]. intros now. split; [done|]. intros [b|err]; cbn; [|done]. split; [done|]. intros id.
  destruct (0 <? max); cbn; (split; [done|]); (intros [p|err]; cbn; [done|by destruct (errors_Is err _)]).
Qed.
Lemma creation_ends : ends_in 4 (Service_CreatePAT svc uid name [] None).
Proof.
  unfold Service_CreatePAT. destruct Hsvc as [-> -> ->], Hname as (-> & -> & ->). cbn.
  intros now [b|err]; cbn; [|done]. intros id.
  destruct (0 <? max); cbn; (intros [p|err]; cbn; [done|by destruct (errors_Is err _)]).
Qed.

(** One after the other. *)
Record more (k : nat) (a a' : db) : Prop := {
  mo_users : d_users a' = d_users a;
  mo_count : forall v, pat_count v (d_pats a') = pat_count v (d_pats a) + (if strEq uid v then Z.of_nat k else 0)
}.

Lemma p_creates_one (Q : unit -> nat -> db -> Prop) n a :
  issued (set_seq 0 n) a -> is_Some (d_users a !! uid) -> (n + 4 <= horizon)%nat ->
  max <= 0 \/ pat_count uid (d_pats a) < max ->
  (forall a', issued (set_seq 0 (n + 4)) a' -> one_more uid a a' -> Q tt (n + 4)%nat a') ->
  passes o (creates svc uid name) Q n a.
Proof.
  intros Ha Hu Hn Hmax HQ. unfold creates. apply passes_bind. eapply p_create; [exact Ha|done| |lia|].
  { intros i Hi%elem_of_set_seq. lia. }
  intros r a1 _ Ho. unfold outcome in Ho.
  replace (full max uid a) with false in Ho by (unfold full; lia). destruct Ho as (Hr & Hi & Hm).
  destruct r as [r|]; [|done]. cbn. apply HQ; [|done]. eapply issued_mono; [|exact Hi].
  intros i. rewrite elem_of_union, !elem_of_set_seq. set_solver by lia.
Qed.

Lemma p_creates k (Q : unit -> nat -> db -> Prop) n a :
  issued (set_seq 0 n) a -> is_Some (d_users a !! uid) -> (n + 4 * k <= horizon)%nat ->
  max <= 0 \/ pat_count uid (d_pats a) + Z.of_nat k <= max ->
  (forall a', issued (set_seq 0 (n + 4 * k)) a' -> more k a a' -> Q tt (n + 4 * k)%nat a') ->
  passes o (times k (creates svc uid name)) Q n a.
Proof.
  revert n a. induction k as [|k IH]; intros n a Ha Hu Hn Hmax HQ; cbn [times].
  - rewrite Nat.mul_0_r, Nat.add_0_r in HQ. apply HQ; [done|]. split; [done|]. intros v. case_match; lia.
  - apply passes_bind, p_creates_one; [done..|lia|lia|]. intros a1 Ha1 Hm.
    eapply IH; [done|by rewrite (om_users _ _ _ Hm)|lia| |].
    + rewrite (om_count _ _ _ Hm), strEq_refl. lia.
    + intros a2 Ha2 Hm2. replace (n + 4 + 4 * k)%nat with (n + 4 * S k)%nat in Ha2 |- * by lia. apply HQ; [done|].
      split; [by rewrite (mo_users _ _ _ Hm2), (om_users _ _ _ Hm)|].
      intros v. rewrite (mo_count _ _ _ Hm2), (om_count _ _ _ Hm). case_match; lia.
Qed.

(** A user whose token slots are taken. *)
Lemma p_create_full (Q : res PATResult -> nat -> db -> Prop) n a :
  issued (set_seq 0 n) a -> is_Some (d_users a !! uid) -> (n + 4 <= horizon)%nat -> full max uid a = true ->
  Q (Err auth.ErrPATLimitReached) (n + 4)%nat a ->
  passes o (lift (Service_CreatePAT svc uid name [] None)) Q n a.
Proof.
  intros Ha Hu Hn Hf HQ. eapply p_create; [exact Ha|done| |lia|].
  { intros i Hi%elem_of_set_seq. lia. }
  intros r a1 _ Ho. unfold outcome in Ho. rewrite Hf in Ho. by destruct Ho as [-> ->].
Qed.
End creation.

(** ** The subtests *)

Context (iss : TokenIssuer).

Lemma p_pat_service max (Q : Service -> nat -> db -> Prop) n a : max <> 0 ->
  (forall svc, limits max svc -> Q svc n a) -> passes o (pat_service (Ok iss) max) Q n a.
Proof.
  intros Hmax HQ. unfold pat_service. cbn. apply HQ. split; [done| |done]. cbn. by rewrite (proj2 (Z.eqb_neq _ _)).
Qed.

Lemma p_newService (Q : Service * string -> nat -> db -> Prop) n :
  (forall svc u, limits 5 svc -> Q (svc, o_uuid4 o n) (S (S n)) (with_users db_empty (<[o_uuid4 o n := u]> ∅))) ->
  passes o (newService (Ok iss)) Q n db_empty.
Proof.
  intros HQ. unfold newService, limit. apply passes_bind, p_pat_service; [done|]. intros svc Hsvc.
  repeat step. by eapply HQ.
Qed.

Lemma issued_none U a : d_pats a = ∅ -> issued U a.
Proof. intros E h p. by rewrite E, lookup_empty. Qed.

(** Step by step, up to the next creation. *)
Ltac steps :=
  repeat lazymatch goal with
  | |- passes _ (times _ (creates _ _ _)) _ _ _ => fail
  | |- passes _ (creates _ _ _) _ _ _ => fail
  | |- passes _ (lift _) _ _ _ => fail
  | |- _ => step
  end.

Lemma parallel_creates_pass n : (n + 150 <= horizon)%nat ->
  passes o (parallel_creates (Ok iss)) (fun _ _ _ => True) n db_empty.
Proof.
  intros Hn. unfold parallel_creates. apply passes_bind, p_newService. intros svc u Hsvc. cbv beta iota.
  set (uid := o_uuid4 o n).
  apply passes_bind. eapply p_creates; [exact Hsvc|by vm_compute|by apply issued_none| |lia|right; done|].
  { eexists. apply lookup_insert_eq. }
  intros a1 Ha1 Hm1. apply passes_bind. split; [by apply Forall_replicate, (creation_unkeyed 5)|].
  intros xs n' a' Hj.
  assert (n' <= horizon)%nat as Hn'.
  { pose proof (joined_bound o _ _ _ _ _ _ (replicate 20 4%nat) Hj ltac:(by apply Forall2_replicate, (creation_ends 5))) as Hb.
    cbn in Hb. lia. }
  destruct (one_wins o n' (slots 5 uid) creation_ended 20 _ (set_seq 0 (S (S n) + 4 * 4)) _ _ _ _ _ created Hj)
    as ((U & Hslots) & Hone & Hl); [done|lia|by apply (creation_worker 5 svc Hsvc "race" ltac:(by vm_compute))| | | | |].
  - split_and!; [done|by rewrite (mo_users _ _ _ _ Hm1); eexists; apply lookup_insert_eq| |lia].
    rewrite (mo_count _ _ _ _ Hm1), strEq_refl. done.
  - intros i. rewrite elem_of_set_seq. lia.
  - by intros w V m b (_ & _ & _ & ?).
  - intros [] seen r; [done|]. by intros [-> ->].
  - destruct Hslots as (_ & _ & Hc & _). apply passes_bind, p_race.
    + eapply Forall_impl; [exact Hl|]. intros r [seen Hr]. unfold creation_ended in Hr.
      destruct (created r); [by left|right]. split; [done|]. destruct Hr as [_ ->]. intros R HR. by apply p_assert.
    + apply passes_bind, p_Equal; [done|]. apply passes_bind. eapply p_ListPATs; [unfold rows_of; reflexivity|].
      intros l Hp _ _. apply p_Len; [|done].
      assert (rows_of pat_UserID uid (d_pats a') l) as Hrows by (unfold rows_of; by symmetry).
      apply pat_count_rows_of in Hrows. lia.
Qed.

Lemma limit_per_user n : (n + 150 <= horizon)%nat ->
  passes o (su ← newService (Ok iss);
    let '(svc, userID) := su in
     other ← createUser;
     _ ← times 5 (creates svc userID "mine");
     r ← lift (Service_CreatePAT svc userID "over" [] None);
     _ ← require_ErrorIs r auth.ErrPATLimitReached;
     creates svc other "theirs") (fun _ _ _ => True) n db_empty.
Proof.
  intros Hn. apply passes_bind, p_newService. intros svc u Hsvc. cbv beta iota. 
  steps.
  eapply p_creates; [exact Hsvc|by vm_compute|by apply issued_none|eexists; lookup|lia|right; done|]. intros a1 Ha1 Hm.
  assert (forall v, v = o_uuid4 o n \/ v = o_uuid4 o (S (S n)) -> is_Some (d_users a1 !! v)) as Hus.
  { intros v Hv. rewrite (mo_users _ _ _ _ Hm). cbn. rewrite !lookup_insert_is_Some'. destruct Hv; auto. }
  apply passes_bind. eapply p_create_full; [exact Hsvc|by vm_compute|exact Ha1|by apply Hus; left|lia| |].
  { unfold full. rewrite (mo_count _ _ _ _ Hm), strEq_refl. done. }
  apply passes_bind. cbn. eapply p_creates_one; [exact Hsvc|by vm_compute| |by apply Hus; right|lia| |done].
  - eapply issued_mono; [|exact Ha1]. intros i. rewrite !elem_of_set_seq. lia.
  - right. rewrite (mo_count _ _ _ _ Hm). rewrite (proj2 (strEq_false _ _)) by ne. done.
Qed.

Lemma expired_tokens n : (n + 150 <= horizon)%nat ->
  passes o (su ← newService (Ok iss);
    let '(svc, userID) := su in
     now ← time_Now;
     let past := Add now (- Hour) in
     _ ← times 5 (
       id ← uuid_New;
       hash ← uuid_New;
       _ ← must (SavePAT (pat_of id hash userID "old" (Some past)));
       mret tt);
     creates svc userID "fresh") (fun _ _ _ => True) n db_empty.
Proof.
  intros Hn. apply passes_bind, p_newService. intros svc u Hsvc. cbv beta iota.
  steps. unfold creates. apply passes_bind. eapply p_create_pruned; [exact Hsvc|by vm_compute| |eexists; lookup|done|].
  - pose proof (Hsteady (S (S n)) (10 + S (S n)) ltac:(lia)). pose proof (Hsteady (10 + S (S n)) (16 + S (S n)) ltac:(lia)).
    cbn [Nat.add] in *. unfold prune_pats. tables.
  - by intros [r|] a' Hr.
Qed.

Lemma PATLimit_pass : all_pass o horizon (PATLimit (Ok iss)).
Proof.
  unfold PATLimit. repeat apply Forall_cons_2; try apply Forall_nil_2; cbn [snd]; intros n Hn.
  - by apply parallel_creates_pass.
  - by apply expired_tokens.
  - by apply limit_per_user.
  - apply passes_bind, p_pat_service; [done|]. intros svc Hsvc. steps.
    eapply p_creates; [exact Hsvc|by vm_compute|by apply issued_none|eexists; lookup|lia|by left|done].
Qed.
End limit.
