(* ===== verification/StoretestTheorems.v ===== *)
(** * The contract tests pass on every store that works

    The theorem about the suite, for any store behind the interface
    [HealthyStore] and any run in a [fair_world]; the in-memory store is one.
    The run of one test in a world of its own shows the theorem at work. *)

From stdpp Require Import pretty.
From S2P Require Import Prelude GoStrings GoTime GoEncoding Errors Entity Ports Contract ContractFacts Sql Postgres PostgresFacts PostgresRefinement PostgresTheorems Memory MemoryFacts Histories Token Interfaces Service Testing Storetest StoretestFacts StoretestPasses StoretestLimit.

Lemma suite_passes `{RangeOrder, Backend} o start horizon newStore iss :
  fair_world o start horizon -> one_user o newStore -> all_pass o horizon (suite newStore (Ok iss) start).
Proof.
  intros Hfair Hnew. unfold suite.
  apply Forall_app_2; [by eapply UserOwnership_pass|]. apply Forall_app_2; [by eapply Users_pass|].
  apply Forall_app_2; [by eapply Credentials_pass|]. apply Forall_app_2; [by eapply Challenges_pass|].
  apply Forall_app_2; [by eapply RefreshRotation_pass|]. apply Forall_app_2; [by eapply PATLimit_pass|].
  apply Forall_app_2; [by eapply PATs_pass|]. apply Forall_app_2; [by eapply OAuthIdentities_pass|].
  by eapply WalletIdentities_pass.
Qed.

(** C6. Every backend that is up and does what the ports document passes the
    contract tests: whatever the interleaving of a test's goroutines, no
    execution of a subtest on an empty store fails an assertion or is cut short,
    and there is an execution. *)
Theorem contract_tests_pass `{RangeOrder, Backend} {S} `{!StoreImpl S, !HealthyStore S} o start horizon iss newStore name t (w : world S) :
  fair_world o start horizon ->
  newStore = memory_newTokenStore \/ newStore = postgres_newTokenStore ->
  (name, t) ∈ suite newStore (Ok iss) start ->
  hs_inv (w_store w) -> hs_view (w_store w) = db_empty -> (w_tick w + 150 <= horizon)%nat ->
  (forall b r w', executes o t w b r w' -> b = false /\ r = Some tt) /\
  exists w', executes o t w false (Some tt) w'.
Proof.
  intros Hfair Hnew Hin Hinv Hempty Htick.
  assert (one_user o newStore) as Hone.
  { destruct Hnew as [-> | ->]; [by eapply memory_one_user|by eapply postgres_one_user]. }
  pose proof (proj1 (Forall_forall _ _) (suite_passes o start horizon newStore iss Hfair Hone) _ Hin _ Htick) as Ht.
  cbn in Ht. rewrite <- Hempty in Ht. pose proof (passes_sound o t _ w Hinv Ht) as Hsound. split.
  - intros b r w' Hx. destruct (Hsound b r w' Hx) as [-> ([] & -> & _)]. done.
  - pose proof (run_test_executes o t w) as Hx. destruct (Hsound _ _ _ Hx) as [Hb ([] & Hr & _)].
    rewrite Hb, Hr in Hx. by eexists.
Qed.

(** ** The in-memory store *)

#[export] Instance memory_healthy `{RangeOrder} : HealthyStore (H := memory_backend) Store := healthy_contract eq_refl.

(** ** The PostgreSQL store *)

(** A server that keeps every value it is given, over a connection that does not
    fail. *)
Class Obliging `{PgTypes, Driver} : Prop := {
  ob_uuid : forall s, uuid_in s = Some s;
  ob_text : forall n s, text_in n s = Some s;
  ob_instant : forall t, timestamptz_in t = Some t;
  ob_up : forall seed n, driver seed n = None
}.

Section postgres.
Context `{PgTypes, ScanOrder, Driver, ServerClock, !Obliging}.

Lemma ob_option {A} (f : A -> option A) (x : option A) : (forall a, f a = Some a) -> option_in f x = Some x.
Proof. intros Hf. destruct x as [a|]; [|done]. cbn. by rewrite Hf. Qed.
Lemma ob_list {A} (f : A -> option A) (l : list A) : (forall a, f a = Some a) -> mapM f l = Some l.
Proof. intros Hf. induction l as [|a l IH]; [done|]. cbn. by rewrite Hf; cbn; rewrite IH. Qed.

Lemma accepts_all {X} (c : storeE X) env : accepted env c.
Proof.
  assert (forall n (x : option string), option_in (text_in n) x = Some x) as Htext by (intros; apply ob_option, ob_text).
  assert (forall x : option time, option_in timestamptz_in x = Some x) as Htime by (intros; apply ob_option, ob_instant).
  assert (forall n l, mapM (text_in n) l = Some l) as Hlist by (intros; apply ob_list, ob_text).
  destruct c; unfold accepted, inputs, taken_as_is; split_and?; rewrite ?ob_uuid, ?ob_text, ?ob_instant; try done;
    unfold column_in; cbn; repeat (progress rewrite ?ob_uuid, ?ob_text, ?ob_instant, ?Htime, ?Htext, ?Hlist; cbn);
    by destruct_and?.
Qed.

#[export, refine] Instance postgres_healthy_store : HealthyStore (H := pg_backend) rowset := {|
  hs_view := pg_view; hs_inv := pg_inv; hs_ok := pg_view_ok
|}.
Proof.
  intros X c env D Hinv Hkey. assert (~ collision c (pg_view D)) as Hfree by by destruct c.
  destruct (store_call c env D) as [x D'] eqn:Hc.
  exact (postgres_healthy c env D x D' Hinv (accepts_all c env) (ob_up _) Hfree Hc).
Defined.
End postgres.

(** ** A run *)

Module Run.
(** A clock that ticks every microsecond, identifiers and random bytes that
    count. *)
Definition o : oracle := {|
  o_now n := Z.of_nat n * 1000;
  o_rand n _ := Ok (pretty n);
  o_uuid7 n := Ok (pretty n);
  o_uuid4 n := pretty n;
  o_verifier n := pretty n;
  o_http _ _ := Err (EForeign "offline")
|}.

Definition horizon : nat := 150.

(** No two of the digests of a run are the same. *)
Lemma digests : NoDup ((fun n : nat => pat_digest (pretty n)) <$> seq 0 horizon).
Proof. apply (bool_decide_eq_true_1 (NoDup _)). vm_compute. reflexivity. Qed.

Lemma fair : fair_world o 0 horizon.
Proof.
  split; cbn.
  - apply _.
  - by eexists.
  - intros i j b c Hi Hj [= <-] [= <-] E. eapply (proj1 (NoDup_alt _) digests i j (pat_digest (pretty i))).
    + by rewrite list_lookup_fmap, lookup_seq_lt.
    + rewrite list_lookup_fmap, lookup_seq_lt by done. cbn. by rewrite E.
  - lia.
  - unfold Minute, Second. lia.
  - done.
Qed.

#[local] Existing Instance listed_order.
#[local] Existing Instances PlainJose.plain_jose PlainJose.plain_jose_laws.
Definition issuer : TokenIssuer := issuer_interface PlainJose.issuer.
Definition w : world Store := mkWorld New 0 [].

(** Twenty creations race for the fifth place. *)
Lemma contract_tests_pass_witness :
  (forall b r w', executes o (parallel_creates (Ok issuer)) w b r w' -> b = false /\ r = Some tt) /\
  exists w', executes o (parallel_creates (Ok issuer)) w false (Some tt) w'.
Proof.
  apply (contract_tests_pass o 0 horizon issuer memory_newTokenStore
           "parallel creates at limit-1 end exactly at the limit" (parallel_creates (Ok issuer)) w).
  - exact fair.
  - by left.
  - unfold suite. rewrite !elem_of_app. do 5 right. left. unfold PATLimit. left.
  - exact New_inv.
  - reflexivity.
  - unfold horizon. cbn. lia.
Defined.
End Run.
