(* ===== verification/TestDB.v ===== *)
(** * The test database (testutil/testdb.go)

    A container for the integration tests: what [NewTestDB] acquires and gives
    back, and the truncation between tests, after which the tables are what the
    contract tests start from.  testcontainers, os/exec and the pool are
    parameters ([Harness]). *)

From stdpp Require Import infinite fin_sets.
From S2P Require Import Prelude GoStrings GoTime Errors Entity Ports Contract Token Interfaces GoHttp Sql Postgres PostgresFacts PostgresRefinement PostgresTheorems Memory Testing Storetest StoretestPasses StoretestTheorems.

(** ** The container *)

(** The options given to [postgres.Run]. *)
Record RunOptions := mkRunOptions {
  ro_image : string;
  ro_database : string;
  ro_username : string;
  ro_password : string;
  ro_log : string;               (* wait.ForLog *)
  ro_occurrence : Z;
  ro_startupTimeout : duration
}.

(** The host of the tests: which containers run on it is all that is known of
    its state. *)
Class Harness := {
  host : Type;
  running : host -> gset string;
  pool_t : Type;
  postgres_Run : RunOptions -> host -> res string * host;
  ConnectionString : string -> string -> host -> res string * host;
  Terminate : string -> host -> option error * host;
  CombinedOutput : string -> list string -> host -> (string * option error) * host;   (* exec.Command *)
  pgxpool_New : string -> host -> res pool_t * host;
  pool_Close : pool_t -> host -> host;
  currentFile : string   (* runtime.Caller(0), an absolute path *)
}.

(** [Run] hands over a container that was not running; [Terminate], when it
    succeeds, ends one; the rest starts and ends none. *)
Class HarnessLaws `{Harness} : Prop := {
  run_ok opts h c h' : postgres_Run opts h = (Ok c, h') -> (c ∉ running h) /\ running h' = {[c]} ∪ running h;
  terminate_ok c h h' : Terminate c h = (None, h') -> running h' = running h ∖ {[c]};
  dsn_keeps c args h : running (ConnectionString c args h).2 = running h;
  exec_keeps cmd args h : running (CombinedOutput cmd args h).2 = running h;
  pool_keeps dsn h : running (pgxpool_New dsn h).2 = running h;
  close_keeps p h : running (pool_Close p h) = running h
}.

Section testdb.
Context `{Harness}.

Record TestDB := mkTestDB { Pool : option pool_t; container : option string }.

Definition run_options : RunOptions :=
  mkRunOptions "postgres:17-alpine" "psina" "psina" "password"
    "database system is ready to accept connections" 2 (30 * Second).

(** [filepath.Dir] and [filepath.Join] of an absolute path. *)
Definition filepath_Dir (p : string) : string := path_Clean (Join (removelast (Split p "/")) "/").
Definition filepath_Join (elems : list string) : string := path_Clean (Join elems "/").

Definition newline : string := String (ascii_of_nat 10) "".

Definition applySchema (dbURL : string) (h : host) : option error * host :=
  let schemaPath := filepath_Join [filepath_Dir currentFile; ".."; "schema.hcl"] in
  match CombinedOutput "atlas" ["schema"; "apply"; "--url"; dbURL; "--to"; "file://" +:+ schemaPath;
          "--dev-url"; "docker://postgres/17/dev?search_path=public"; "--auto-approve"] h with
  | ((output, Some err), h) =>
      (Some (EWrap [Lit "atlas schema apply failed: "] err [Lit (newline +:+ "output: "); ArgS output]), h)
  | ((_, None), h) => (None, h)
  end.

(** [_ = container.Terminate(ctx); return nil, err] *)
Definition give_up_on (c : string) (err : error) (h : host) : res TestDB * host :=
  let '(_, h) := Terminate c h in (Err err, h).

Definition NewTestDB (h : host) : res TestDB * host :=
  match postgres_Run run_options h with
  | (Err err, h) => (Err (wrap "start postgres container" err), h)
  | (Ok c, h) =>
      match ConnectionString c "sslmode=disable" h with
      | (Err err, h) => give_up_on c (wrap "get connection string" err) h
      | (Ok connStr, h) =>
          match applySchema connStr h with
          | (Some err, h) => give_up_on c (wrap "apply schema" err) h
          | (None, h) =>
              match pgxpool_New connStr h with
              | (Err err, h) => give_up_on c (wrap "create pool" err) h
              | (Ok p, h) => (Ok (mkTestDB (Some p) (Some c)), h)
              end
          end
      end
  end.

Definition Close (db : TestDB) (h : host) : host :=
  let h := match Pool db with Some p => pool_Close p h | None => h end in
  match container db with Some c => (Terminate c h).2 | None => h end.

Context `{!HarnessLaws}.

Lemma apply_keeps dsn h : running (applySchema dsn h).2 = running h.
Proof.
  unfold applySchema. destruct (CombinedOutput _ _ h) as [[out [err|]] h'] eqn:E; cbn;
    apply (f_equal (fun x => running x.2)) in E; by rewrite exec_keeps in E.
Qed.

(** A terminated container that was there on top of [r]. *)
Lemma terminate_given c h h' (r : gset string) :
  Terminate c h = (None, h') -> c ∉ r -> running h = {[c]} ∪ r -> running h' = r.
Proof. intros Ht%terminate_ok Hc Hr. rewrite Ht, Hr. set_solver. Qed.

(** No container is left behind: a [NewTestDB] that fails after its container has
    started terminates it, and [Close] of one that succeeded does, when the
    termination goes through. *)
Theorem no_container_left h :
  (forall c h, (Terminate c h).1 = None) ->
  match NewTestDB h with
  | (Ok db, h1) => running h1 <> running h /\ running (Close db h1) = running h
  | (Err _, h1) => running h1 = running h \/ exists err, postgres_Run run_options h = (Err err, h1)
  end.
Proof.
  intros Hterm. unfold NewTestDB.
  destruct (postgres_Run run_options h) as [[c|err] h1] eqn:Erun; [|right; by eexists].
  apply run_ok in Erun as [Hc Hr].
  assert (forall e h2, running h2 = running h1 -> match give_up_on c e h2 with
    | (Ok db, h3) => running h3 <> running h /\ running (Close db h3) = running h
    | (Err _, h3) => running h3 = running h \/ exists err, (Ok c, h1) = (Err err, h3)
    end) as Hgive.
  { intros e h2 H2. unfold give_up_on. pose proof (Hterm c h2) as Hn.
    destruct (Terminate c h2) as [o h3] eqn:Et. cbn in Hn. subst o. left.
    eapply terminate_given; [exact Et|exact Hc|congruence]. }
  pose proof (dsn_keeps c "sslmode=disable" h1) as H2.
  destruct (ConnectionString c "sslmode=disable" h1) as [[dsn|err] h2]; cbn in H2; [|by apply Hgive].
  pose proof (apply_keeps dsn h2) as H3. destruct (applySchema dsn h2) as [[err|] h3]; cbn in H3; [apply Hgive; congruence|].
  pose proof (pool_keeps dsn h3) as H4. destruct (pgxpool_New dsn h3) as [[p|err] h4]; cbn in H4; [|apply Hgive; congruence].
  assert (running h4 = {[c]} ∪ running h) as Hrun by congruence. split; [rewrite Hrun; set_solver|].
  unfold Close. cbn [Pool container]. pose proof (Hterm c (pool_Close p h4)) as Hn.
  destruct (Terminate c (pool_Close p h4)) as [o h5] eqn:Et. cbn in Hn |- *. subst o.
  eapply terminate_given; [exact Et|exact Hc|]. by rewrite close_keeps.
Qed.
End testdb.

(** ** Truncation *)

(** The tables with a foreign key to a table. *)
Definition referencing (t : tname) : list tname :=
  match t with
  | T_users => [T_local_credentials; T_refresh_tokens; T_personal_access_tokens; T_oauth_identities; T_wallet_identities]
  | _ => []
  end.

(** [TRUNCATE TABLE ... CASCADE] *)
Definition TRUNCATE_CASCADE (ts : list tname) (D : rowset) : rowset :=
  let all := ts ++ flat_map referencing ts in
  filter (fun kr => kr.1.1 ∉ all) D.

Definition truncated_tables : list tname :=
  [T_auth_challenges; T_oauth_identities; T_wallet_identities; T_personal_access_tokens; T_refresh_tokens;
   T_local_credentials; T_users].

Section truncate.
Context `{PgTypes, ScanOrder, Driver, ServerClock}.
#[local] Existing Instance pg_backend.

(** [db.Pool.Exec], the [n]th statement of the connection. *)
Definition Truncate (seed n : nat) (D : rowset) : option error * rowset :=
  match driver seed n with
  | None => (None, TRUNCATE_CASCADE truncated_tables D)
  | Some (applied, text) =>
      (Some (EForeign text), if applied then TRUNCATE_CASCADE truncated_tables D else D)
  end.

(** [true] when the test goes on, [false] after [t.Fatalf]. *)
Definition MustTruncate (seed n : nat) (D : rowset) : bool * rowset :=
  match Truncate seed n D with
  | (Some _, D) => (false, D)
  | (None, D) => (true, D)
  end.

Lemma truncate_empties D : TRUNCATE_CASCADE truncated_tables D = ∅.
Proof.
  apply map_empty. intros k. apply map_lookup_filter_None. right. intros r _ Hn. apply Hn. cbn.
  destruct (k.1); set_solver.
Qed.

Lemma pg_view_empty : pg_view ∅ = db_empty.
Proof. reflexivity. Qed.

(** A test that goes on after the truncation finds a database without rows,
    whatever the tests before it left: every subtest of the contract tests passes
    on it, however its goroutines interleave. *)
Theorem integration_tests_pass `{!Obliging, !RangeOrder} seed n D D' o start horizon iss name t tick logs :
  MustTruncate seed n D = (true, D') ->
  fair_world o start horizon -> (name, t) ∈ suite postgres_newTokenStore (Ok iss) start -> (tick + 150 <= horizon)%nat ->
  let w := mkWorld D' tick logs in
  (forall b r w', executes o t w b r w' -> b = false /\ r = Some tt) /\ exists w', executes o t w false (Some tt) w'.
Proof.
  unfold MustTruncate, Truncate. destruct (driver seed n) as [[]|]; [done|]. intros [= <-] Hfair Hin Htick. cbv zeta.
  rewrite truncate_empties.
  apply (contract_tests_pass (S := rowset) o start horizon iss postgres_newTokenStore name t); try done;
    first [by right|apply pg_inv_empty].
Qed.
End truncate.

(** ** A host *)

Module Example.
(** Containers have fresh names; the schema does not apply. *)
#[export] Instance plain_host : Harness := {|
  host := gset string;
  running h := h;
  pool_t := unit;
  postgres_Run _ h := let c := fresh h in (Ok c, {[c]} ∪ h);
  ConnectionString c args h := (Ok ("postgres://" +:+ c +:+ "?" +:+ args), h);
  Terminate c h := (None, h ∖ {[c]});
  CombinedOutput _ _ h := (("no such file", Some (EForeign "exit status 1")), h);
  pgxpool_New _ h := (Ok tt, h);
  pool_Close _ h := h;
  currentFile := "/psina/testutil/testdb.go"
|}.

#[export] Instance plain_laws : HarnessLaws.
Proof.
  split; try done.
  - intros opts h c h' [= <- <-]. split; [apply is_fresh|done].
  - by intros c h h' [= <-].
Qed.

Definition busy : gset string := {["postgres"]}.

Lemma no_container_left_witness :
  running (NewTestDB busy).2 = busy \/ exists err, postgres_Run run_options busy = (Err err, (NewTestDB busy).2).
Proof. exact (no_container_left busy (fun _ _ => eq_refl)). Defined.
End Example.
