(* ===== verification/Examples.v ===== *)
(** * A concrete deployment

    The in-memory store, a token library, a hash function, an OAuth provider and
    a wallet, all executable, wired by [NewService] as the program wires them.
    Each property with hypotheses is applied here to a run of that service, so
    that its hypotheses are seen to hold together. *)

From stdpp Require Import pretty.
From S2P Require GoFormat Evm EvmFacts OAuth2 Google ProviderFacts Effort Routes Server.
From S2P Require Import Prelude GoStrings GoTime GoEncoding Errors Entity Ports Contract ContractFacts WpRules Memory MemoryFacts Histories Validation Token Interfaces Local Service Refresh AccessTokens Accounts OAuth Wallet SignIn GoNetip ClientIP GoHttp Handler Rpc HandlerFacts Concurrency Config Main MainFacts.

Module Deployment.
#[export] Existing Instance listed_order.
#[export] Existing Instances PlainJose.plain_jose PlainJose.plain_jose_laws.
#[export] Instance no_faults : Faults := false.
#[export] Instance tables : UnicodeTables := latin1_lower.
#[export] Instance argon : Argon2 := fun password salt _ _ _ _ => sha256.Sum256 (password +:+ salt).
#[export] Instance uuids : UUIDLib := fun s => if strEq s "" then Err (EForeign "invalid UUID") else Ok s.

Definition o := example_oracle.
Lemma o_ok : oracle_ok o.
Proof. exact example_oracle_ok. Qed.

Definition bob : UserInfo := mkUserInfo "583231" "Bob@Example.com" true.
Definition github : OAuthProvider :=
  mkOAuthProvider "github" (fun ps => Ok ("https://github.com/login?state=" +:+ ap_State ps))
    (fun code _ => Ret (if strEq code "good" then Ok bob else Err (EForeign "bad code"))).

Definition chain : WalletProvider :=
  mkWalletProvider "evm" (fun a => Ok (ToLower a)) (fun a n _ => "sign in " +:+ a +:+ " " +:+ n)
    (fun a m sig => if strEq sig (a +:+ " signs " +:+ m) then None else Some (EForeign "bad signature")).

#[export] Existing Instances EvmFacts.Example.real_keccak EvmFacts.Example.upper_tables EvmFacts.Example.plain_keys.
#[export] Existing Instances ProviderFacts.PlainOAuth2.plain_oauth2 ProviderFacts.PlainOAuth2.plain_oauth2_laws
  ProviderFacts.PlainOAuth2.plain_id_tokens ProviderFacts.PlainOAuth2.plain_id_tokens_laws.
Definition ethereum : Evm.EvmProvider := Evm.New "ethereum" 1.

Definition keep : ServiceOption := fun s => s.
Definition options : list ServiceOption :=
  [ WithPAT (mkPATConfig 2 0 0);
    default keep (WithOAuth [github; Google.google_provider ProviderFacts.Example.google] (mkOAuthConfig false 0));
    default keep (d ← NewDispatcher [chain; Evm.evm_provider ethereum];
                  WithWallet d (mkWalletConfig "psina.example" "https://psina.example" "" 0)) ].

Definition tokens : TokenIssuer := issuer_interface PlainJose.issuer.
Definition service : Service :=
  default (mkService ∅ None tokens false (mkPATConfig 0 0 0) None (mkOAuthConfig false 0) None
             (mkWalletConfig "" "" "" 0) 0 time_Now)
    (NewService tokens [local_provider] options).

#[export] Instance service_spec : ServiceSpec service :=
  {| svc_issuer := issuer_spec _ _ _ PlainJose.issuer_made : IssuerSpec (issuer service);
     svc_clock := fun O R Q a HQ t Ht => HQ t Ht |}.

Lemma github_spec : OAuthProviderSpec github (fun code _ info => code = "good" /\ info = bob).
Proof. intros O R code ps Q a Hok Herr. cbn. destruct (strEq code "good") eqn:E; [|done].
  apply strEq_true in E. by apply Hok. Qed.

(** The store as a run leaves it, between requests. *)
Definition start : world Store := mkWorld New 0 [].
Lemma start_inv : sc_inv (w_store start).
Proof. exact New_inv. Qed.
Definition after {A} (p : prog A) (w : world Store) : world Store := (run o p w).2.
Definition answer_of {A} (p : prog A) (w : world Store) : A := (run o p w).1.
Lemma run_eq {A} (p : prog A) w : run o p w = (answer_of p w, after p w).
Proof. apply surjective_pairing. Qed.

Lemma after_inv {A} (p : prog A) w : sc_inv (w_store w) -> sc_inv (w_store (after p w)).
Proof. apply run_inv. Qed.

(** The same store [n] seconds later. *)
Definition later (n : nat) (w : world Store) : world Store := mkWorld (w_store w) (n + w_tick w) [].

(** Alice signs up; her session. *)
Definition sign_up := Service_Register service " Alice@Example.com" "correct horse".
Definition signed_up := after sign_up start.
Lemma signed_up_inv : sc_inv (w_store signed_up).
Proof. exact (after_inv sign_up start start_inv). Qed.
Definition account : AuthResult :=
  match answer_of sign_up start with Ok ar => ar | Err _ => mkAuthResult "" "" (mkTokenPair "" "" 0) end.
Definition first_token : string := tp_RefreshToken (ar_TokenPair account).

(** One refresh. *)
Definition refresh := Service_Refresh service first_token.
Definition refreshed := after refresh signed_up.
Lemma refreshed_inv : sc_inv (w_store refreshed).
Proof. exact (after_inv refresh signed_up signed_up_inv). Qed.
Definition second : TokenPair :=
  match answer_of refresh signed_up with Ok tp => tp | Err _ => mkTokenPair "" "" 0 end.
Definition stored (w : world Store) (tok : string) : RefreshToken :=
  default (mkRefreshToken "" "" "" 0 0 false None None) (d_tokens (sc_view (w_store w)) !! HashToken tok).
End Deployment.

Import Deployment.

(** ** Refresh *)

Lemma Refresh_refines_spec_witness :
  exists now, read_during o signed_up refreshed now /\
    @refresh_spec _ (read_during o signed_up refreshed) _ service _ (refreshReuseLeeway service)
      (sc_view (w_store signed_up)) (HashToken first_token) now (Ok second) (sc_view (w_store refreshed)).
Proof.
  apply (Refresh_refines_spec o first_token signed_up (Ok second) refreshed o_ok signed_up_inv).
  vm_compute. reflexivity.
Defined.

Lemma Refresh_live_witness : exists tp, answer_of refresh signed_up = Ok tp.
Proof.
  apply (Refresh_live (s := service) o first_token signed_up _ refreshed (stored signed_up first_token) o_ok signed_up_inv).
  1-4: vm_compute; reflexivity.
  - intros [_ Hx]. revert Hx. vm_compute. intros [x Hx]. discriminate Hx.
  - intros now (n & Hn & ->). revert Hn.
    replace (rt_ExpiresAt _) with (1700604808 * Second) by (vm_compute; reflexivity).
    replace (w_tick refreshed) with 18%nat by (vm_compute; reflexivity).
    unfold o, example_oracle, o_now, Second. lia.
  - exact (run_eq refresh signed_up).
Defined.

(** A stranger's token is refused, as such. *)
Lemma Refresh_errors_classified_witness :
  exists e, answer_of (Service_Refresh service "stolen") signed_up = Err e /\
    errors_Is e auth.ErrInvalidCredentials = negb (infrastructure e).
Proof.
  eexists. split; [vm_compute; reflexivity|].
  eapply (Refresh_errors_classified (s := service) o "stolen" signed_up _ _ o_ok signed_up_inv).
  vm_compute. reflexivity.
Defined.

Lemma Refresh_continues_session_witness :
  exists t t', d_tokens (sc_view (w_store signed_up)) !! HashToken first_token = Some t /\
    d_tokens (sc_view (w_store refreshed)) !! HashToken (tp_RefreshToken second) = Some t' /\
    familyRoot t' = familyRoot t.
Proof.
  destruct (Refresh_continues_session (s := service) o first_token signed_up second refreshed o_ok signed_up_inv)
    as (t & t' & H1 & H2 & _ & H3 & _); [vm_compute; reflexivity|].
  exists t, t'. exact (conj H1 (conj H2 H3)).
Defined.

(** The first token comes back a minute after it was rotated. *)
Definition replayed := later 60 refreshed.

Lemma not_within_leeway :
  ~ within_leeway (refreshReuseLeeway service) (d_tokens (sc_view (w_store replayed)))
      (stored refreshed first_token) (o_now o (w_tick replayed)).
Proof.
  intros (_ & _ & r & Hr & Hd & _). revert Hr Hd.
  replace (rt_RotatedAt _) with (Some (1700000010 * Second)) by (vm_compute; reflexivity).
  replace (w_tick replayed) with 78%nat by (vm_compute; reflexivity).
  intros [= <-]. unfold o, example_oracle, o_now, Sub, refreshReuseLeeway. vm_compute. intros [_ Hd]. by apply Hd.
Qed.

Lemma Refresh_reuse_ends_session_witness :
  answer_of refresh replayed = Err (ETokenReuse (ar_UserID account)) /\
  ended (HashToken first_token) (sc_view (w_store (after refresh replayed))).
Proof.
  apply (Refresh_reuse_ends_session (s := service) o first_token replayed _ _ (stored refreshed first_token) o_ok).
  - exact refreshed_inv.
  - reflexivity.
  - reflexivity.
  - vm_compute; reflexivity.
  - vm_compute; reflexivity.
  - exact not_within_leeway.
  - exact (run_eq refresh replayed).
Defined.

(** Within the leeway the retry of the same rotation is recognised. *)
Lemma isDuplicateRefresh_exact_witness :
  within_leeway (refreshReuseLeeway service) (d_tokens (sc_view (w_store refreshed)))
    (stored refreshed first_token) (o_now o 17).
Proof.
  refine (proj1 (isDuplicateRefresh_exact (s := service) o (stored refreshed first_token) (o_now o 17) refreshed
    (Ok true) _ (HashToken first_token) o_ok refreshed_inv _ _) eq_refl).
  - vm_compute; reflexivity.
  - vm_compute; reflexivity.
Defined.

Definition logout := Service_Logout service (tp_RefreshToken second).

Lemma Logout_ends_session_witness :
  ended (HashToken first_token) (sc_view (w_store (after logout refreshed))).
Proof.
  assert (run o logout refreshed = (Ok tt, after logout refreshed)) as Hrun by (vm_compute; reflexivity).
  assert (d_tokens (sc_view (w_store refreshed)) !! HashToken (tp_RefreshToken second)
          = Some (stored refreshed (tp_RefreshToken second))) as Hl by (vm_compute; reflexivity).
  assert (familyRoot (stored refreshed (tp_RefreshToken second)) = HashToken first_token) as Hr
    by (vm_compute; reflexivity).
  pose proof (Logout_ends_session (s := service) o (tp_RefreshToken second) refreshed (Ok tt)
    (after logout refreshed) o_ok refreshed_inv Hrun) as [He _].
  rewrite Hl in He. rewrite <- Hr. exact (He eq_refl).
Defined.

(** ** Sign-up and sign-in *)

Lemma Register_spec_witness :
  @register_spec _ _ _ (read_during o start signed_up) _ service _
    (sc_view (w_store start)) " Alice@Example.com" "correct horse"
    (answer_of sign_up start) (sc_view (w_store signed_up)).
Proof.
  apply (Register_spec (s := service) o " Alice@Example.com" "correct horse" start _ _ o_ok start_inv).
  - reflexivity.
  - exact (run_eq sign_up start).
Defined.

Definition sign_in (password : string) := Service_Login service "ALICE@example.com" password.
Definition signed_in := after (sign_in "correct horse") signed_up.

Lemma Login_spec_witness :
  @login_spec _ _ _ (read_during o signed_up (after (sign_in "guess") signed_up)) _ service _
    (sc_view (w_store signed_up)) "ALICE@example.com" "guess"
    (Err (ECredentials ReasonBadPassword (ar_UserID account)))
    (sc_view (w_store (after (sign_in "guess") signed_up))).
Proof.
  apply (Login_spec (s := service) o "ALICE@example.com" "guess" signed_up _ _ o_ok signed_up_inv).
  - reflexivity.
  - vm_compute; reflexivity.
Defined.

Lemma Register_then_Login_witness :
  exists ar', answer_of (sign_in "correct horse") signed_up = Ok ar' /\
    ar_UserID ar' = ar_UserID account.
Proof.
  assert (run o sign_up start = (Ok account, signed_up)) as H1 by (vm_compute; reflexivity).
  assert (NormalizeEmail "ALICE@example.com" = NormalizeEmail " Alice@Example.com") as H2
    by (vm_compute; reflexivity).
  destruct (Register_then_Login (s := service) o " Alice@Example.com" "ALICE@example.com" "correct horse"
    start account signed_up signed_up _ signed_in o_ok start_inv eq_refl H1 eq_refl H2
    (run_eq (sign_in "correct horse") signed_up)) as [(ar & H3 & H4 & _)|(e & _ & _ & [Hx|Hx])].
  - exists ar. exact (conj H3 H4).
  - discriminate Hx.
  - discriminate Hx.
Defined.

(** ** Personal access tokens *)

Definition create := Service_CreatePAT service (ar_UserID account) " ci " ["read"] None.
Definition created := after create signed_up.
Lemma created_inv : sc_inv (w_store created).
Proof. exact (after_inv create signed_up signed_up_inv). Qed.
Definition minted : PATResult :=
  match answer_of create signed_up with Ok r => r | Err _ => mkPATResult "" (mkPAT "" "" "" "" [] None None 0) end.
Definition verify := Service_Verify service (pr_Plaintext minted).
Definition verified := after verify created.

Lemma CreatePAT_spec_witness :
  @create_spec _ (read_during o signed_up created) _ service (sc_view (w_store signed_up))
    (ar_UserID account) " ci " ["read"] None (Ok minted) (sc_view (w_store created)).
Proof.
  apply (CreatePAT_spec o service (ar_UserID account) " ci " ["read"] None signed_up _ _ o_ok signed_up_inv).
  - reflexivity.
  - vm_compute; reflexivity.
Defined.

Lemma Verify_PAT_spec_witness :
  @verify_spec _ (read_during o created verified) (sc_view (w_store created))
    (HashToken (pr_Plaintext minted)) (answer_of verify created) (sc_view (w_store verified)).
Proof.
  apply (Verify_PAT_spec o service (pr_Plaintext minted) created _ _ o_ok created_inv).
  - reflexivity.
  - vm_compute; reflexivity.
  - exact (run_eq verify created).
Defined.

Lemma CreatePAT_then_Verify_witness :
  exists u, d_users (sc_view (w_store signed_up)) !! ar_UserID account = Some u /\
    answer_of verify created = Ok (pat_claims u).
Proof.
  assert (run o create signed_up = (Ok minted, created)) as H1 by (vm_compute; reflexivity).
  destruct (CreatePAT_then_Verify o service (ar_UserID account) " ci " ["read"] None signed_up minted
    created created _ verified o_ok signed_up_inv eq_refl H1 eq_refl (run_eq verify created))
    as [Hx|[(e & now & t & _ & _ & Hx & _)|(e & _ & _ & Hx)]].
  - exact Hx.
  - discriminate Hx.
  - discriminate Hx.
Defined.

Definition revoke (uid : string) := Service_RevokePAT service uid (pat_ID (pr_Token minted)).

(** Mallory cannot revoke Alice's token. *)
Lemma RevokePAT_scoped_witness :
  @revoke_spec _ (sc_view (w_store created)) "mallory" (pat_ID (pr_Token minted))
    (answer_of (revoke "mallory") created) (sc_view (w_store (after (revoke "mallory") created))).
Proof.
  apply (RevokePAT_scoped o service "mallory" (pat_ID (pr_Token minted)) _ created _ _ o_ok created_inv).
  - reflexivity.
  - vm_compute; reflexivity.
  - exact (run_eq (revoke "mallory") created).
Defined.

(** ** OAuth and wallets *)

Definition begin_oauth := GetOAuthURL service "github" "https://psina.example/cb".
Definition begun := after begin_oauth signed_up.
Lemma begun_inv : sc_inv (w_store begun).
Proof. exact (after_inv begin_oauth signed_up signed_up_inv). Qed.
Definition flow : OAuthURLResult :=
  match answer_of begin_oauth signed_up with Ok r => r | Err _ => mkOAuthURLResult "" "" "" end.
Definition callback (binding : string) : OAuthCallbackRequest :=
  mkOAuthCallbackRequest "github" "good" (our_State flow) "https://psina.example/cb" binding.

(** A callback from another browser, without the flow's secret. *)
Lemma consumeOAuthState_spec_witness :
  let p := consumeOAuthState service (callback "guess") in
  @consume_state_spec _ (read_during o begun (after p begun)) (sc_view (w_store begun)) (callback "guess")
    (Err auth.ErrOAuthStateInvalid) (sc_view (w_store (after p begun))).
Proof.
  apply (consumeOAuthState_spec (s := service) o (callback "guess") begun _ _ o_ok begun_inv).
  vm_compute; reflexivity.
Defined.

Definition finish := Service_OAuthCallback service (callback (our_Binding flow)).
Definition finished := after finish begun.
Definition bob_session : OAuthCallbackResult :=
  match answer_of finish begun with
  | Ok r => r | Err _ => mkOAuthCallbackResult "" "" (mkTokenPair "" "" 0) false false
  end.

Lemma OAuthCallback_no_takeover_witness :
  exists ch now info, read_during o begun finished now /\
    d_challenges (sc_view (w_store begun)) !! our_State flow = Some ch /\
    state_matches (callback (our_Binding flow)) ch now /\ info = bob /\
    ui_EmailVerified info = true /\ NormalizeEmail (ui_Email info) = Ok (ores_Email bob_session).
Proof.
  assert (run o finish begun = (Ok bob_session, finished)) as Hrun by (vm_compute; reflexivity).
  assert (forall p, oauthProvider service "github" = Ok p ->
            OAuthProviderSpec p (fun code _ info => code = "good" /\ info = bob)) as Hp.
  { intros p Hx. assert (oauthProvider service "github" = Ok github) as He by reflexivity.
    rewrite He in Hx. injection Hx as <-. exact github_spec. }
  assert (ores_IsNewUser bob_session = true) as Hnew by (vm_compute; reflexivity).
  destruct (OAuthCallback_no_takeover (s := service) o (callback (our_Binding flow))
    (fun code _ info => code = "good" /\ info = bob) begun bob_session finished o_ok begun_inv Hp Hrun)
    as (ch & now & info & H1 & H2 & H3 & _ & [_ H4] & _ & H5).
  rewrite Hnew in H5. destruct H5 as (_ & H5 & H6 & _). exists ch, now, info.
  exact (conj H1 (conj H2 (conj H3 (conj H4 (conj H5 H6))))).
Defined.

(** Bob signs in with Google: the token endpoint answers with the nonce of his
    flow. *)
Definition begin_google := GetOAuthURL service "google" "https://app.example.com/callback".
Definition begun_google := after begin_google signed_up.
Lemma begun_google_inv : sc_inv (w_store begun_google).
Proof. exact (after_inv begin_google signed_up signed_up_inv). Qed.
Definition google_flow : OAuthURLResult :=
  match answer_of begin_google signed_up with Ok r => r | Err _ => mkOAuthURLResult "" "" "" end.
Definition google_nonce : string :=
  default "" (ch_OAuthNonce <$> d_challenges (sc_view (w_store begun_google)) !! our_State google_flow).
Definition google_callback : OAuthCallbackRequest :=
  mkOAuthCallbackRequest "google" "code" (our_State google_flow) "https://app.example.com/callback"
    (our_Binding google_flow).
Definition google_world : oracle := ProviderFacts.Example.online (ProviderFacts.Example.google_net google_nonce).

Lemma google_sign_in_witness :
  exists ch token now claims info,
    d_challenges (sc_view (w_store begun_google)) !! our_State google_flow = Some ch /\
    ProviderFacts.identified_by ProviderFacts.Example.google (flow_params google_callback ch) token now claims info /\
    Google.it_EmailVerified claims = true.
Proof.
  destruct ((run google_world (Service_OAuthCallback service google_callback) begun_google).1) as [res|e] eqn:E;
    [|vm_compute in E; discriminate E].
  assert (run google_world (Service_OAuthCallback service google_callback) begun_google =
    (Ok res, (run google_world (Service_OAuthCallback service google_callback) begun_google).2)) as Hrun
    by (rewrite <- E; apply surjective_pairing).
  assert (oauthProvider service "google" = Ok (Google.google_provider ProviderFacts.Example.google)) as Hp by reflexivity.
  assert (ores_IsNewUser res = true) as Hnew by (vm_compute in E; injection E as <-; reflexivity).
  destruct (ProviderFacts.google_sign_in (s := service) google_world google_callback begun_google res _
    ProviderFacts.Example.google (ProviderFacts.Example.online_ok _) begun_google_inv Hp Hrun)
    as (ch & now & w0 & token & w1 & claims & i & _ & H1 & _ & _ & _ & _ & _ & _ & _ & H2 & _ & _ & H3).
  eexists ch, token, _, claims, _. exact (conj H1 (conj H2 (proj1 (H3 (or_introl Hnew))))).
Defined.

Definition ask_wallet := Service_GetChallenge service "evm" "0xABCDEF".
Definition asked := after ask_wallet signed_up.
Lemma asked_inv : sc_inv (w_store asked).
Proof. exact (after_inv ask_wallet signed_up signed_up_inv). Qed.
Definition challenge : WalletChallengeResult :=
  match answer_of ask_wallet signed_up with Ok r => r | Err _ => mkWalletChallengeResult "" "" 0 end.
Definition signed_by (a : string) : WalletAuthRequest :=
  mkWalletAuthRequest "evm" "0xABCDEF" (wcr_Nonce challenge) (a +:+ " signs " +:+ wcr_Message challenge).

(** Another wallet's signature does not spend the challenge. *)
Lemma consumeWalletChallenge_spec_witness :
  let p := consumeWalletChallenge service chain (signed_by "0xbad") "0xabcdef" in
  @consume_challenge_spec _ (read_during o asked (after p asked)) (sc_view (w_store asked)) chain
    (signed_by "0xbad") "0xabcdef" (Some (auth.ErrWalletChallengeInvalid : error))
    (sc_view (w_store (after p asked))).
Proof.
  apply (consumeWalletChallenge_spec (s := service) o chain (signed_by "0xbad") "0xabcdef" asked _ _ o_ok asked_inv).
  vm_compute; reflexivity.
Defined.

Definition enter := Service_AuthenticateWallet service (signed_by "0xabcdef").
Definition entered := after enter asked.
Definition wallet_session : WalletAuthResult :=
  match answer_of enter asked with
  | Ok r => r | Err _ => mkWalletAuthResult "" "" (mkTokenPair "" "" 0) false
  end.

Lemma AuthenticateWallet_by_owner_witness :
  exists p addr ch now, walletProvider service "evm" "0xABCDEF" = Ok (p, addr) /\
    d_challenges (sc_view (w_store asked)) !! wcr_Nonce challenge = Some ch /\
    challenge_matches p (signed_by "0xabcdef") addr ch now /\
    d_challenges (sc_view (w_store entered)) !! wcr_Nonce challenge = None.
Proof.
  assert (run o enter asked = (Ok wallet_session, entered)) as Hrun by (vm_compute; reflexivity).
  destruct (AuthenticateWallet_by_owner (s := service) o (signed_by "0xabcdef") asked wallet_session entered
    o_ok asked_inv Hrun) as (p & addr & ch & now & i & _ & H1 & H2 & H3 & H4 & _).
  exists p, addr, ch, now. exact (conj H1 (conj H2 (conj H3 H4))).
Defined.

(** The holder of the example key signs in on Ethereum. *)
Definition key_account : string := hex_encode EvmFacts.Example.zero_account.
Definition ask_ethereum := Service_GetChallenge service "ethereum" ("0x" +:+ key_account).
Definition asked_ethereum := after ask_ethereum signed_up.
Lemma asked_ethereum_inv : sc_inv (w_store asked_ethereum).
Proof. exact (after_inv ask_ethereum signed_up signed_up_inv). Qed.
Definition siwe : WalletChallengeResult :=
  match answer_of ask_ethereum signed_up with Ok r => r | Err _ => mkWalletChallengeResult "" "" 0 end.
Definition dispatcher : Dispatcher :=
  default (mkDispatcher ∅) (NewDispatcher [chain; Evm.evm_provider ethereum]).
Definition siwe_request : WalletAuthRequest :=
  mkWalletAuthRequest "ethereum" ("0x" +:+ key_account) (wcr_Nonce siwe) EvmFacts.Example.signature.
Definition enter_ethereum := Service_AuthenticateWallet service siwe_request.
Definition entered_ethereum := after enter_ethereum asked_ethereum.

Lemma evm_sign_in_by_key_witness :
  exists raw ch, EvmFacts.spells (war_Address siwe_request) raw /\
    d_challenges (sc_view (w_store asked_ethereum)) !! wcr_Nonce siwe = Some ch /\
    EvmFacts.signed_with raw (ch_Message ch) EvmFacts.Example.signature.
Proof.
  destruct (answer_of enter_ethereum asked_ethereum) as [res|e] eqn:E; [|vm_compute in E; discriminate E].
  assert (run o enter_ethereum asked_ethereum = (Ok res, entered_ethereum)) as Hrun
    by (rewrite run_eq; by rewrite E).
  assert (walletProviders service = Some dispatcher) as Ed by reflexivity.
  assert (disp_providers dispatcher !! war_Chain siwe_request = Some (Evm.evm_provider ethereum)) as Hp by reflexivity.
  destruct (EvmFacts.evm_sign_in_by_key (s := service) o siwe_request asked_ethereum res entered_ethereum
    dispatcher ethereum o_ok asked_ethereum_inv Ed Hp Hrun) as (raw & ch & now & i & H1 & H2 & _ & _ & _ & _ & H3 & _).
  exists raw, ch. exact (conj H1 (conj H2 H3)).
Defined.

(** ** The handler *)

Definition handler : Handler :=
  NewHandler service [WithTrustedProxies [mkPrefix (Addr4 [10; 0; 0; 0]) 8]].
Definition login_request (password : string) : request CredentialsRequest :=
  mkRequest (mkCredentialsRequest "alice@example.com" password) "10.0.0.2:4000"
    [("X-Forwarded-For", "203.0.113.9"); ("User-Agent", "curl")].
Definition guess := Handler_Login handler (login_request "guess").

#[export] Instance quiet_service : QuietService service.
Proof.
  split.
  - change (quiet time_Now). by intros t.
  - intros u e r. change (quiet (GenerateTokens PlainJose.issuer u e r)). unfold GenerateTokens. repeat first [done | intros ?; cbn | case_match].
  - intros t. change (quiet (ParseToken PlainJose.issuer t)). unfold ParseToken. repeat first [done | intros ?; cbn | case_match].
  - intros p r Hp. assert (localProvider service = Some local_provider) as He by reflexivity.
    rewrite He in Hp. injection Hp as <-. by apply quiet_Authenticate.
  - intros p r Hp. assert (localProvider service = Some local_provider) as He by reflexivity.
    rewrite He in Hp. injection Hp as <-. by apply quiet_LocalRegister.
Qed.

Lemma Login_endpoint_witness :
  login_answer_spec (sc_view (w_store signed_up)) (login_request "guess") (Refuse refused_login)
    (sc_view (w_store (after guess signed_up))).
Proof.
  apply (Login_endpoint o handler (login_request "guess") signed_up _ _ o_ok signed_up_inv).
  - reflexivity.
  - vm_compute; reflexivity.
Defined.

Lemma Login_audited_once_witness :
  exists rec, audits (w_log (after guess signed_up)) = audits (w_log signed_up) ++ [rec] /\
    exists err, log_level rec = LevelWarn /\
      log_attrs rec = audit_head handler (login_request "guess") auditEventLogin auditResultFailure ++
                      ((loginFailure err).2 ++ [("reason", AString (loginFailure err).1)]).
Proof.
  apply (Login_audited_once o handler (login_request "guess") signed_up (Refuse refused_login)).
  vm_compute; reflexivity.
Defined.

Definition bearer : Header := [("Authorization", "Bearer " +:+ tp_AccessToken (ar_TokenPair account))].

Lemma authenticateSession_needs_session_witness :
  exists tok, bearerToken handler bearer = Some tok /\ tok <> "" /\ HasPrefix tok PATPrefix = false.
Proof.
  apply (authenticateSession_needs_session o handler bearer signed_up (ar_UserID account)
    (after (authenticateSession handler bearer) signed_up) o_ok signed_up_inv).
  vm_compute; reflexivity.
Defined.

Definition refresh_request (tok : string) : request string :=
  mkRequest tok "10.0.0.2:4000" [("User-Agent", "curl")].
Definition bad_refresh := Handler_Refresh handler (refresh_request "stolen").

Lemma Refresh_endpoint_witness :
  @refresh_answer_spec _ (read_during o signed_up (after bad_refresh signed_up)) _ handler _
    (sc_view (w_store signed_up)) "stolen" (Refuse refused_refresh)
    (sc_view (w_store (after bad_refresh signed_up))).
Proof.
  apply (Refresh_endpoint o handler (refresh_request "stolen") signed_up _ _ o_ok signed_up_inv).
  - discriminate.
  - vm_compute; reflexivity.
Defined.

Definition good_logout := Handler_Logout handler (refresh_request (tp_RefreshToken second)).

Lemma Logout_endpoint_witness :
  ended (HashToken first_token) (sc_view (w_store (after good_logout refreshed))).
Proof.
  assert (run o good_logout refreshed = (Answer true [], after good_logout refreshed)) as Hrun
    by (vm_compute; reflexivity).
  assert (d_tokens (sc_view (w_store refreshed)) !! HashToken (tp_RefreshToken second)
          = Some (stored refreshed (tp_RefreshToken second))) as Hl by (vm_compute; reflexivity).
  assert (familyRoot (stored refreshed (tp_RefreshToken second)) = HashToken first_token) as Hr
    by (vm_compute; reflexivity).
  assert (tp_RefreshToken second <> "") as Hne by (vm_compute; discriminate).
  assert (requestToken handler (tp_RefreshToken second) [("User-Agent", "curl")] = tp_RefreshToken second)
    as Ht by (vm_compute; reflexivity).
  pose proof (Logout_endpoint o handler (refresh_request (tp_RefreshToken second)) refreshed
    (Answer true []) (after good_logout refreshed) o_ok refreshed_inv Hrun) as [_ He].
  cbn [refresh_request rq_Msg rq_Header] in He. rewrite Ht in He. rewrite <- Hr. exact (He _ Hne Hl).
Defined.

Definition cookie_handler : Handler :=
  NewHandler service [WithCookieConfig (mkCookieConfig true "a.b.example" "/" true SameSiteLaxMode)].
Definition cookies := sessionCookies cookie_handler (ar_TokenPair account).

Lemma session_cookies_witness :
  exists t1 t2 legacy, read_during o start (after cookies start) t1 /\
    read_during o start (after cookies start) t2 /\
    answer_of cookies start =
      HAddCookie (tokenCookie (h_cookieConfig cookie_handler) AccessTokenCookie
        (tp_AccessToken (ar_TokenPair account)) "a.b.example" (Add t1 AccessTokenTTL) 900) ::
      HAddCookie (tokenCookie (h_cookieConfig cookie_handler) RefreshTokenCookie
        (tp_RefreshToken (ar_TokenPair account)) "a.b.example" (Add t2 RefreshTokenTTL) 604800) :: legacy /\
    Forall (evicts_elsewhere (h_cookieConfig cookie_handler)) legacy.
Proof.
  exact (session_cookies o cookie_handler (ar_TokenPair account) start _ _ (run_eq cookies start)).
Defined.

(** ** Races *)

(** The same deployment with the reuse leeway off. *)
Definition strict : Service :=
  default service (NewService tokens [local_provider] (options ++ [WithRefreshReuseLeeway 0])).

(** Three requests take turns; in the first race one gets ahead of two that have started. *)
Fixpoint turns (n : nat) : list nat := match n with O => [] | S n => 0 :: 1 :: 2 :: turns n end%nat.
Definition refresh_race :=
  schedule o ([1; 2] ++ replicate 10 0 ++ turns 6)%nat (replicate 3 (Service_Refresh strict first_token), signed_up).

Lemma concurrent_Refresh_once_witness :
  winners is_Ok refresh_race.2.1 = 1%nat /\ (winners is_Ok refresh_race.2.1 <= 1)%nat.
Proof.
  split; [vm_compute; reflexivity|].
  apply (concurrent_Refresh_once o strict 3 first_token signed_up refresh_race.1 _ refresh_race.2.2 signed_up_inv).
  - vm_compute; reflexivity.
  - rewrite <- surjective_pairing. apply schedule_race.
  - apply no_save_token_test. vm_compute; reflexivity.
Defined.

Definition callbacks : list OAuthCallbackRequest := replicate 3 (callback (our_Binding flow)).
Definition callback_race :=
  schedule o (turns 20) (Service_OAuthCallback service <$> callbacks, begun).

Lemma concurrent_OAuthCallback_once_witness :
  winners is_Ok callback_race.2.1 = 1%nat /\ (winners is_Ok callback_race.2.1 <= 1)%nat.
Proof.
  split; [vm_compute; reflexivity|].
  apply (concurrent_OAuthCallback_once o service callbacks (our_State flow) begun callback_race.1 _
    callback_race.2.2 begun_inv).
  - apply Forall_replicate. reflexivity.
  - rewrite <- surjective_pairing. apply schedule_race.
  - apply no_save_challenge_test. vm_compute; reflexivity.
Defined.

Definition wallet_requests : list WalletAuthRequest := replicate 3 (signed_by "0xabcdef").
Definition wallet_race :=
  schedule o (turns 20) (Service_AuthenticateWallet service <$> wallet_requests, asked).

Lemma concurrent_AuthenticateWallet_once_witness :
  winners is_Ok wallet_race.2.1 = 1%nat /\ (winners is_Ok wallet_race.2.1 <= 1)%nat.
Proof.
  split; [vm_compute; reflexivity|].
  apply (concurrent_AuthenticateWallet_once o service wallet_requests (wcr_Nonce challenge) asked
    wallet_race.1 _ wallet_race.2.2 asked_inv).
  - apply Forall_replicate. reflexivity.
  - rewrite <- surjective_pairing. apply schedule_race.
  - apply no_save_challenge_test. vm_compute; reflexivity.
Defined.

(** ** The program *)

Definition live_pat : ClientIP.Header := [("Authorization", "Bearer " +:+ pr_Plaintext minted)].
Definition forward := verifyEndpoint service true live_pat.

Lemma ForwardAuth_exact_witness :
  rs_Status (answer_of forward created) = 200 /\
  @forward_spec Store _ _ o service (read_during o created (after forward created)) true live_pat created
    (sc_view (w_store created)) (answer_of forward created).
Proof.
  split; [vm_compute; reflexivity|].
  exact (ForwardAuth_exact o service true live_pat created _ _ o_ok created_inv (run_eq forward created)).
Defined.

Module Startup.
#[export] Existing Instance ProviderFacts.PlainOAuth2.any_url.
#[export] Instance no_key_files : KeyFiles := {|
  os_ReadFile _ := Err (EForeign "no such file");
  pem_Decode _ := None;
  ParsePKCS1PrivateKey _ := Err (EForeign "not a key");
  ParseECPrivateKey _ := Err (EForeign "not a key");
  ParsePKCS8PrivateKey _ := Err (EForeign "not a key")
|}.
#[export] Instance github_endpoint : GitHub.Endpoints := OAuth2.mkEndpoint "https://github.com/login" "https://github.com/token".
#[export] Instance no_database : Postgres.Pgxpool := {|
  Postgres.pool := unit;
  Postgres.pool_config := unit;
  Postgres.ParseConfig _ := Err (EForeign "no database here");
  Postgres.NewWithConfig _ := Ok tt;
  Postgres.pool_Ping _ := None
|}.

(** A development set-up with GitHub and two chains, behind a proxy. *)
Definition config : Config.Config :=
  Config.mkConfig true (mkLoggerConfig "info" "json") (mkServerConfig 8080 ["10.0.0.0/8"]) (mkDBConfig "" "")
    (mkJWTConfig "" "" "ES256") (mkTokenConfig (10 * Second)) (mkCookieSettings false "" true "lax" "/")
    (mkPATSettings true 50 0 Minute)
    (mkOAuthSettings true (mkOAuthClientConfig "" "" []) (mkOAuthClientConfig "id" "secret" ["https://psina.example/cb"]))
    (mkWalletSettings "psina.example" "https://psina.example" "" (5 * Minute) ["ethereum=1"; "polygon=137"]).

Definition starting := Main.start "dev" config.
Definition running (a : App) : Prop := answer_of starting start = Running a.
Definition is_running (r : outcome App) : bool := match r with Running _ => true | _ => false end.

Lemma start_valid_witness :
  validateConfig config = None /\
  exists app, running app /\ wired config app /\ inhabited (ServiceSpec (app_service app)).
Proof.
  assert (validateConfig config = None) as Hv by (vm_compute; reflexivity). split; [exact Hv|].
  assert (is_running (answer_of starting start) = true) as Hr by (vm_compute; reflexivity).
  destruct (answer_of starting start) as [app|e|] eqn:E; [|discriminate Hr|discriminate Hr];
    pose proof (start_valid o "dev" config start (after starting start) _ Hv (run_eq starting start)) as H; unfold starting in *.
  exists app. split; [exact E|]. rewrite E in H. exact H.
Defined.

(** The libraries of this deployment take two effects at most. *)
Lemma two_effects : Effort.Limited 2.
Proof.
  split; intros.
  - by cbn.
  - intros [resp|e]; cbn; [|exact I]. by destruct (hp_StatusCode resp =? 200).
  - intros x. exact I.
Qed.

Lemma requests_end_witness : exists app, running app /\
  (forall req, ends_in 37 (Handler_OAuthCallback (app_handler app) req)) /\
  (forall req, ends_in 14 (Handler_Refresh (app_handler app) req)).
Proof.
  assert (validateConfig config = None) as Hv by (vm_compute; reflexivity).
  assert (is_running (answer_of starting start) = true) as Hr by (vm_compute; reflexivity).
  destruct (answer_of starting start) as [app|e|] eqn:E; [|discriminate Hr|discriminate Hr].
  pose proof (run_eq starting start) as Hrun. rewrite E in Hrun. exists app. split; [exact E|].
  destruct (Effort.requests_end o 2 "dev" config start (after starting start) app Hv Hrun two_effects)
    as (_ & _ & Hrefresh & _ & _ & _ & Hcallback & _).
  split; [exact Hcallback|exact Hrefresh].
Defined.

(** The same program behind its server, on a wire format that runs. *)
#[export] Existing Instances Server.PlainConnect.connect Server.PlainConnect.connect_laws Server.PlainConnect.messages.
Definition no_json (_ : list (JSONWebKey PublicKey)) : res string := Ok "{}".
Definition serving (app : App) : GoHttp.serverRequest -> prog GoHttp.served := Main.server_Handler no_json "dev" config app.

Lemma http_requests_end_witness : exists app, running app /\ forall r, ends_in 37 (serving app r).
Proof.
  assert (validateConfig config = None) as Hv by (vm_compute; reflexivity).
  assert (is_running (answer_of starting start) = true) as Hr by (vm_compute; reflexivity).
  destruct (answer_of starting start) as [app|e|] eqn:E; [|discriminate Hr|discriminate Hr].
  pose proof (run_eq starting start) as Hrun. rewrite E in Hrun. exists app. split; [exact E|].
  exact (Server.http_requests_end no_json "dev" o 2 config start (after starting start) app Hv Hrun two_effects).
Defined.

(** A client on the other end of a connection from a documentation address. *)
Definition to_server (app : App) : HTTPClient :=
  Server.PlainConnect.deliver "psina.example:8080" "192.0.2.7:4711" (serving app).
Definition client_of (app : App) : AuthServiceClient :=
  NewAuthServiceClient (to_server app) "http://psina.example:8080//".

Lemma client_reaches_handler_witness : exists app, running app /\
  Server.reaches_service "192.0.2.7:4711" (client_of app) (handler_service (app_handler app)).
Proof.
  assert (is_running (answer_of starting start) = true) as Hr by (vm_compute; reflexivity).
  destruct (answer_of starting start) as [app|e|] eqn:E; [|discriminate Hr|discriminate Hr].
  exists app. split; [exact E|].
  apply (Server.client_reaches_handler no_json "dev" (to_server app) "psina.example:8080" "192.0.2.7:4711" 2 config app).
  - vm_compute. reflexivity.
  - apply Server.PlainConnect.deliver_reaches.
Defined.

(** Signing up over HTTP, and the health of a program without a database. *)
Definition signs_up (app : App) : prog (reply RegisterResponse) :=
  cli_Register (client_of app) (mkRequest (mkCredentialsRequest "carol@example.com" "correct horse") "" []).
Definition received {M} (r : reply M) : bool := match r with Received _ => true | _ => false end.
Example signs_up_over_http :
  match answer_of starting start with
  | Running app => received (answer_of (signs_up app) (after starting start))
  | _ => false
  end = true.
Proof. vm_compute. reflexivity. Qed.

Definition get_ (path : string) : GoHttp.serverRequest := GoHttp.mkServerRequest "GET" "psina.example:8080" path [] "192.0.2.7:4711" "".

(** A GET is taken to the endpoint or to the clean path; a CONNECT finds the API
    behind "..". *)
Example routes_served app :
  serving app (get_ "/heal%74hz") = Ret (GoHttp.Wrote healthz) /\
  serving app (get_ "/x/../verify") = Ret (GoHttp.Redirected "/verify") /\
  serving app (get_ "*") = Ret (GoHttp.Wrote (mkResponse 400 [("Connection", "close")] "")) /\
  Routes.located (Routes.words ("/" +:+ AuthServiceName +:+ "/../verify")) = Some Routes.AtRpc.
Proof. split_and!; vm_compute; reflexivity. Qed.
End Startup.
